(** * OOR Results Bot: a shallow embedding of the scrape / diff / render /
    notify pipeline, and the properties its specification states.

    The development follows the source files:
    - [JS]         the fragment of the JavaScript runtime the code relies on
                   (UTF-16 strings, [trim], [slice], stable [sort], ...);
    - [Render]     render.js  (layout arithmetic, column scaling, panels);
    - [Standings]  standings.js (DevExpress table choice, SimGrid rows);
    - [Index]      index.js (fetcher, cooldown map, refresh lock, change
                   detection, class panels);
    - [IndexV1]    the earlier index.js kept in the repository, with
                   [applyUpdate], the first form of the change detection.

    Conventions.  A JavaScript string is the list of its UTF-16 code units.
    A JavaScript number that the code only uses as an integer (pixels,
    milliseconds, indices) is a [Z]; where the code divides, the number is an
    exact rational [Q] (binary64 rounding is not modelled).  Asynchronous
    functions are modelled by the sequence of their atomic segments; calls to
    the outside world (HTTP, Discord, canvas) are events of a trace or
    answers of an oracle given as an argument. *)

From Stdlib Require Import ZArith QArith Qround Qminmax List String Ascii Bool Lia.
From Stdlib Require Import Permutation Sorted.
From stdpp Require Import gmap.
Import ListNotations.

Local Open Scope Z_scope.

(* ===================================================================== *)
(** * The JavaScript fragment *)
(* ===================================================================== *)

Module JS.

(** A string is its sequence of UTF-16 code units. *)
Abbreviation jsstring := (list N).

(** String literals of the source (ASCII only) as code units. *)
Definition lit (s : string) : jsstring :=
  List.map N_of_ascii (list_ascii_of_string s).

(** [Array.prototype.slice] / [String.prototype.slice] with integer
    arguments: negative indices count from the end, everything is clamped
    to the length. *)
Definition slice {A} (l : list A) (a b : Z) : list A :=
  let len := Z.of_nat (length l) in
  let k := if a <? 0 then Z.max (len + a) 0 else Z.min a len in
  let e := if b <? 0 then Z.max (len + b) 0 else Z.min b len in
  firstn (Z.to_nat (e - k)) (skipn (Z.to_nat k) l).

(** [s.slice(a)]: to the end of the string. *)
Definition sliceFrom {A} (l : list A) (a : Z) : list A :=
  slice l a (Z.of_nat (length l)).

(** [s.startsWith(p)] and [s.includes(needle)]. *)
Fixpoint startsWith (s p : jsstring) : bool :=
  match p, s with
  | [], _ => true
  | _ :: _, [] => false
  | c :: p', d :: s' => N.eqb c d && startsWith s' p'
  end.

Fixpoint includes (s needle : jsstring) : bool :=
  startsWith s needle ||
  match s with
  | [] => false
  | _ :: s' => includes s' needle
  end.

(** The characters of the regular-expression class [\s], which are also
    the ones [trim] removes: WhiteSpace and LineTerminator of ECMA-262. *)
Definition isWhiteSpace (c : N) : bool :=
  ((9 <=? c) && (c <=? 13) || (c =? 32) || (c =? 160) || (c =? 5760) ||
   (8192 <=? c) && (c <=? 8202) || (c =? 8232) || (c =? 8233) ||
   (c =? 8239) || (c =? 8287) || (c =? 12288) || (c =? 65279))%N.

(** [\d]. *)
Definition isDigit (c : N) : bool := ((48 <=? c) && (c <=? 57))%N.

(** The longest prefix whose characters satisfy [f], and the rest. *)
Fixpoint span (f : N -> bool) (s : jsstring) : jsstring * jsstring :=
  match s with
  | c :: s' =>
      if f c then let '(a, b) := span f s' in (c :: a, b) else ([], s)
  | [] => ([], [])
  end.

Definition dropWhile (f : N -> bool) (s : jsstring) : jsstring := snd (span f s).

(** [s.trim()] ([trimStart] then [trimEnd]). *)
Definition trimStart (s : jsstring) : jsstring := dropWhile isWhiteSpace s.
Definition trimEnd (s : jsstring) : jsstring := rev (dropWhile isWhiteSpace (rev s)).
Definition trim (s : jsstring) : jsstring := trimEnd (trimStart s).

(** [s.replace(/\s+/g, " ")]: every maximal run of white space becomes one
    space. *)
Fixpoint collapseSpaces (s : jsstring) : jsstring :=
  match s with
  | [] => []
  | c :: s' =>
      if isWhiteSpace c then
        match s' with
        | d :: _ => if isWhiteSpace d then collapseSpaces s' else 32%N :: collapseSpaces s'
        | [] => [32%N]
        end
      else c :: collapseSpaces s'
  end.

(** [s.toLowerCase()] on the ASCII letters; the code only compares the
    result with ASCII words that no other character lowers to. *)
Definition lowerChar (c : N) : N :=
  if ((65 <=? c) && (c <=? 90))%N then (c + 32)%N else c.
Definition toLowerCase (s : jsstring) : jsstring := List.map lowerChar s.

(** [a === b] on strings. *)
Definition strEq (a b : jsstring) : bool := bool_decide (a = b).

(** [String(n)] for an integer [n]: its decimal digits. *)
Definition digitChar (d : Z) : N := Z.to_N (48 + d).

Fixpoint digitsOf (fuel : nat) (n : Z) (acc : jsstring) : jsstring :=
  match fuel with
  | O => acc
  | S fuel' =>
      let acc' := digitChar (n mod 10) :: acc in
      if n <? 10 then acc' else digitsOf fuel' (n / 10) acc'
  end.

Definition String_of_Z (n : Z) : jsstring :=
  if n <? 0 then 45%N :: digitsOf (Z.to_nat (Z.log2 (- n)) + 1) (- n) []
  else digitsOf (Z.to_nat (Z.log2 n) + 1) n [].

(** [String(x)] for a number [x]: the digits of an integer; for other
    values the digits JavaScript prints depend on binary64 rounding, which
    is left out of the model, so they are given by [fractionToString]. *)
Definition String_of_number (fractionToString : Q -> jsstring) (x : Q) : jsstring :=
  let r := Qred x in
  if (Qden r =? 1)%positive then String_of_Z (Qnum r) else fractionToString x.

(** The value of a run of decimal digits. *)
Definition digitsValue (ds : jsstring) : Z :=
  fold_left (fun acc c => acc * 10 + (Z.of_N c - 48)) ds 0.

Definition isEmpty (s : jsstring) : bool :=
  match s with [] => true | _ => false end.

(** [Number(s)] for a string [s] made of digits, ['.'] and ['-'] only (the
    empty string is 0; [None] is [NaN]).  Such a string is a numeric
    literal exactly when it is an optional ['-'], then digits with an
    optional fraction, or a ['.'] followed by digits. *)
Definition Number_of_clean (s : jsstring) : option Q :=
  let '(neg, s1) := match s with
                    | 45%N :: r => (true, r)
                    | _ => (false, s)
                    end in
  let sign (q : Q) : Q := if neg then Qopp q else q in
  let '(ip, r1) := span isDigit s1 in
  match r1 with
  | [] =>
      if isEmpty ip then (if neg then None else Some 0%Q)
      else Some (sign (inject_Z (digitsValue ip)))
  | 46%N :: fr =>
      let '(fp, r2) := span isDigit fr in
      if negb (isEmpty r2) || (isEmpty ip && isEmpty fp) then None
      else Some (sign (inject_Z (digitsValue ip) +
                       inject_Z (digitsValue fp) / inject_Z (10 ^ Z.of_nat (length fp))))%Q
  | _ => None
  end.

(** [Math.ceil(a / b)] for integers [a] and [b > 0]. *)
Definition ceilDiv (a b : Z) : Z := - ((- a) / b).

(** [Array.prototype.sort(cmp)]: the sort is stable, so for a comparator
    that is a difference of keys its result is the stable insertion sort. *)
Section Sort.
Context {A : Type} (cmp : A -> A -> Q).

Fixpoint insertSorted (x : A) (l : list A) : list A :=
  match l with
  | [] => [x]
  | y :: l' => if Qle_bool (cmp x y) 0 then x :: y :: l' else y :: insertSorted x l'
  end.

Fixpoint sort (l : list A) : list A :=
  match l with
  | [] => []
  | x :: l' => insertSorted x (sort l')
  end.

End Sort.

End JS.

Import JS.

(* ===================================================================== *)
(** * Rows and panels: the data every stage exchanges *)
(* ===================================================================== *)

(** One parsed competitor record.  All scraped values are strings; the
    sprint rows carry the penalty fields that [attachPenaltiesToSprintRows]
    adds, SimGrid rows carry [rating] and [carMakeKey]. *)
Record Row := mkRow {
  pos : jsstring;
  driver : jsstring;
  rating : jsstring;
  carNo : jsstring;
  className : jsstring;
  carImg : jsstring;
  carMakeKey : jsstring;
  countryImg : jsstring;
  racePts : jsstring;
  qualiPts : jsstring;
  flPts : jsstring;
  total : jsstring;
  nett : jsstring;
  diff : jsstring;
  penPoints : jsstring;
  qualiBan : jsstring;
  banServed : jsstring;
  qbActive : bool
}.

(** A standings panel as the scrapers build it and the renderers take it.
    [rows = None] stands for a missing or non-array [rows] property,
    [tint] and [mode] are optional properties. *)
Record Panel := mkPanel {
  title : jsstring;
  subtitle : jsstring;
  rows : option (list Row);
  tint : option jsstring;
  mode : option jsstring
}.

(* ===================================================================== *)
(** * render.js *)
(* ===================================================================== *)

Module Render.

Definition OUTER_PAD : Z := 22.
Definition GAP : Z := 22.
Definition PAD_INNER : Z := 18.
Definition HEADER_H : Z := 58.
Definition HEAD_ROW_H : Z := 26.
Definition ROW_H : Z := 26.
Definition MAX_ROWS_PER_COL : Z := 30.

(** [(rows || [])]. *)
Definition rowsOrEmpty (rs : option (list Row)) : list Row :=
  match rs with Some l => l | None => [] end.

(** [panelHeightForRows(rows)]. *)
Definition panelHeightForRows (rs : option (list Row)) : Z :=
  let n := Z.of_nat (length (rowsOrEmpty rs)) in
  let innerTableH := HEAD_ROW_H + ROW_H * n in
  let total := OUTER_PAD * 2 + HEADER_H + 8 + innerTableH + 18 in
  Z.max 420 total.

(** One call of [drawPanel(ctx, {x, y, w, h, title, subtitle, rows, tint,
    mode})]: the renderers are modelled by the canvas they create and the
    panels they draw on it, in order. *)
Record PanelCall := mkPanelCall {
  px : Z;
  py : Z;
  pw : Z;
  ph : Z;
  ptitle : jsstring;
  psubtitle : jsstring;
  prows : option (list Row);
  ptint : option jsstring;
  pmode : option jsstring
}.

Record Canvas := mkCanvas {
  canvasW : Z;
  canvasH : Z;
  drawn : list PanelCall
}.

(** [renderTripleStandingsPng(club50, yellow, red)]: [createCanvas(W, H)]
    and the three [drawPanel] calls. *)
Definition renderTripleStandingsPng (club50 yellow red : Panel) : Canvas :=
  let W := 1720 in
  let H := Z.max (Z.max (panelHeightForRows (rows club50))
                        (panelHeightForRows (rows yellow)))
                 (panelHeightForRows (rows red)) in
  let panelW := (W - OUTER_PAD * 2 - GAP * 2) / 3 in
  let panelH := H - OUTER_PAD * 2 in
  {| canvasW := W;
     canvasH := H;
     drawn :=
       [ mkPanelCall OUTER_PAD OUTER_PAD panelW panelH
           (title club50) (subtitle club50) (rows club50)
           (Some (lit "#2b6cff")) None;
         mkPanelCall (OUTER_PAD + panelW + GAP) OUTER_PAD panelW panelH
           (title yellow) (subtitle yellow) (rows yellow)
           (Some (lit "#f6c343")) None;
         mkPanelCall (OUTER_PAD + (panelW + GAP) * 2) OUTER_PAD panelW panelH
           (title red) (subtitle red) (rows red)
           (Some (lit "#ff3b3b")) None ] |}.

(** ** Column scaling *)

(** A column of [columnsFor]: [{ key, label, w, align, isIcon }]. *)
Record Col := mkCol {
  key : jsstring;
  label : jsstring;
  w : Z;
  align : jsstring;
  isIcon : bool
}.

(** A scaled column [{ ...c, wf, w: widths[i] }]: the fields of the column,
    its width replaced, and the scaled width [wf] before rounding. *)
Record ScaledCol := mkScaledCol {
  scol : Col;
  wf : Q;
  sw : Z
}.

(** [sumCols(cols)]. *)
Definition sumCols (cols : list Col) : Z :=
  fold_left (fun a c => a + w c) cols 0.

(** [widths[i] += 1]. *)
Definition bump (ws : list Z) (i : nat) : list Z := alter Z.succ i ws.

(** [c.wf - Math.floor(c.wf)]. *)
Definition fracOf (x : Q) : Q := (x - inject_Z (Qfloor x))%Q.

(** [buildScaledColumns(cols, tableW)].  The [for] loop runs over the first
    [remain] entries of [order] (none when [remain <= 0], all of them when
    [remain] exceeds their number). *)
Definition buildScaledColumns (cols : list Col) (tableW : Z) : list ScaledCol :=
  let baseW := sumCols cols in
  let scale := Qmin 1 (inject_Z tableW / inject_Z baseW) in
  let floatCols := List.map (fun c => (c, (inject_Z (w c) * scale)%Q)) cols in
  let widths := List.map (fun c => Qfloor (snd c)) floatCols in
  let used := fold_left Z.add widths 0 in
  let remain := tableW - used in
  let order :=
    sort (fun a b => (snd b - snd a)%Q)
         (imap (fun i c => (i, fracOf (snd c))) floatCols) in
  let widths' :=
    fold_left (fun ws e => bump ws (fst e)) (firstn (Z.to_nat remain) order) widths in
  imap (fun i c => mkScaledCol (fst c) (snd c) (default 0 (widths' !! i))) floatCols.

(** [columnsFor(rows, opts)] of the current render.js, for the two modes
    and with or without the class column ([isSprint] only changes a
    label). *)
Definition columnsFor (showClass simgrid isSprint : bool) : list Col :=
  [ mkCol (lit "pos") (lit "#") 34 (lit "right") false;
    mkCol (lit "driver")
          (if isSprint then lit "Driver - Pen Points in ()" else lit "Driver")
          (if simgrid then 190 else 240) (lit "left") false ] ++
  (if simgrid then [mkCol (lit "rating") (lit "rating") 60 (lit "right") false] else []) ++
  [ mkCol (lit "carNo") (lit "Car#") 46 (lit "right") false ] ++
  (if showClass then [mkCol (lit "className") (lit "Class") 64 (lit "left") false] else []) ++
  [ mkCol (lit "carImg") (lit "Car") 44 (lit "center") true ] ++
  (if simgrid then []
   else [ mkCol (lit "racePts") (lit "Race") 48 (lit "right") false;
          mkCol (lit "qualiPts") (lit "Qu") 48 (lit "right") false;
          mkCol (lit "flPts") (lit "FL") 34 (lit "right") false;
          mkCol (lit "total") (lit "Total") 44 (lit "right") false ]) ++
  [ mkCol (lit "nett") (lit "Nett") 44 (lit "right") false;
    mkCol (lit "diff") (lit "Diff") 44 (lit "right") false ].

(** ** Series-only render *)

(** The options object of [renderSeriesOnlyPng].  [maxRowsPerCol = None]
    stands for every value [Number.isFinite] rejects (absent, [NaN],
    infinite, not a number). *)
Record SeriesOpts := mkSeriesOpts {
  maxRowsPerCol : option Q
}.

(** [Number.isFinite(opts.maxRowsPerCol)
      ? Math.max(5, Math.floor(opts.maxRowsPerCol)) : MAX_ROWS_PER_COL]. *)
Definition effectiveMaxRows (opts : SeriesOpts) : Z :=
  match maxRowsPerCol opts with
  | Some v => Z.max 5 (Qfloor v)
  | None => MAX_ROWS_PER_COL
  end.

(** [heightFor] of [renderSeriesOnlyPng] (and of the class grid). *)
Definition heightFor (rs : list Row) : Z :=
  let n := Z.of_nat (length rs) in
  Z.max 360 (HEADER_H + 8 + HEAD_ROW_H + ROW_H * n + 28).

(** [panel || { title: "—", subtitle: "", rows: [], ... }]; U+2014 is the
    em dash. *)
Definition placeholder (m : option jsstring) : Panel :=
  mkPanel [8212%N] [] (Some []) None m.

Definition placeholderPanel : Panel := placeholder (Some (lit "default")).

Definition TINT_PRO : jsstring := lit "#f2f4f8".
Definition TINT_SILVER : jsstring := lit "#8fa1b8".
Definition TINT_PROAM : jsstring := lit "#1f2a36".
Definition TINT_AM : jsstring := lit "#ff3b3b".

(** [{ ..., tint: T, ...p }]: the panel's own tint, if it has one, wins. *)
Definition tintOr (t : jsstring) (p : Panel) : option jsstring :=
  match tint p with Some t' => Some t' | None => Some t end.

(** [renderClassGridPng(panels)]: the 2x2 grid of the four class panels. *)
Definition renderClassGridPng (panels : list Panel) : Canvas :=
  let p i := match nth_error panels i with
             | Some q => q
             | None => placeholder None
             end in
  let cellHeightFor rs := heightFor (rowsOrEmpty rs) in
  let h0 := cellHeightFor (rows (p 0%nat)) in
  let h1 := cellHeightFor (rows (p 1%nat)) in
  let h2 := cellHeightFor (rows (p 2%nat)) in
  let h3 := cellHeightFor (rows (p 3%nat)) in
  let topH := Z.max h0 h1 in
  let botH := Z.max h2 h3 in
  let W := 1200 in
  let H := OUTER_PAD * 2 + topH + GAP + botH in
  let cellW := (W - OUTER_PAD * 2 - GAP) / 2 in
  let cell x y h t q :=
    mkPanelCall x y cellW h (title q) (subtitle q) (rows q) (tintOr t q) (mode q) in
  {| canvasW := W;
     canvasH := H;
     drawn :=
       [ cell OUTER_PAD OUTER_PAD h0 TINT_PRO (p 0%nat);
         cell (OUTER_PAD + cellW + GAP) OUTER_PAD h1 TINT_SILVER (p 1%nat);
         cell OUTER_PAD (OUTER_PAD + topH + GAP) h2 TINT_PROAM (p 2%nat);
         cell (OUTER_PAD + cellW + GAP) (OUTER_PAD + topH + GAP) h3 TINT_AM (p 3%nat) ] |}.

(** [renderDoubleStandingsPng(leftPanel, rightPanel)]: the SimGrid pane. *)
Definition renderDoubleStandingsPng (leftPanel rightPanel : option Panel) : Canvas :=
  let L := match leftPanel with Some q => q | None => placeholder None end in
  let R := match rightPanel with Some q => q | None => placeholder None end in
  let W := 1200 in
  let panelW := (W - OUTER_PAD * 2 - GAP) / 2 in
  let panelH := Z.max (heightFor (rowsOrEmpty (rows L))) (heightFor (rowsOrEmpty (rows R))) in
  let H := OUTER_PAD * 2 + panelH in
  {| canvasW := W;
     canvasH := H;
     drawn :=
       [ mkPanelCall OUTER_PAD OUTER_PAD panelW panelH
           (title L) (subtitle L) (rows L) (tint L) (Some (lit "simgrid"));
         mkPanelCall (OUTER_PAD + panelW + GAP) OUTER_PAD panelW panelH
           (title R) (subtitle R) (rows R) (tint R) (Some (lit "simgrid")) ] |}.

(** [P.mode || "default"]: the empty string is falsy. *)
Definition modeOrDefault (m : option jsstring) : jsstring :=
  match m with
  | Some (c :: s) => c :: s
  | _ => lit "default"
  end.

(** [renderSeriesOnlyPng(panel, opts)]. *)
Definition renderSeriesOnlyPng (panel : option Panel) (opts : SeriesOpts) : Canvas :=
  let maxRows := effectiveMaxRows opts in
  let P := match panel with Some p => p | None => placeholderPanel end in
  let rs := rowsOrEmpty (rows P) in
  let mode := modeOrDefault (mode P) in
  let needsTwo := maxRows <? Z.of_nat (length rs) in
  let leftRows := slice rs 0 maxRows in
  let rightRows := if needsTwo then slice rs maxRows (maxRows * 2) else [] in
  if negb needsTwo then
    let W := 900 in
    let panelW := W - OUTER_PAD * 2 in
    let panelH := heightFor leftRows in
    let H := OUTER_PAD * 2 + panelH in
    {| canvasW := W;
       canvasH := H;
       drawn := [ mkPanelCall OUTER_PAD OUTER_PAD panelW panelH
                    (title P) (subtitle P) (Some leftRows) (tint P) (Some mode) ] |}
  else
    let W := 1200 in
    let panelW := (W - OUTER_PAD * 2 - GAP) / 2 in
    let panelH := Z.max (heightFor leftRows) (heightFor rightRows) in
    let H := OUTER_PAD * 2 + panelH in
    {| canvasW := W;
       canvasH := H;
       drawn := [ mkPanelCall OUTER_PAD OUTER_PAD panelW panelH
                    (title P) (subtitle P) (Some leftRows) (tint P) (Some mode);
                  mkPanelCall (OUTER_PAD + panelW + GAP) OUTER_PAD panelW panelH
                    (title P) (subtitle P) (Some rightRows) (tint P) (Some mode) ] |}.

End Render.

(* ===================================================================== *)
(** * standings.js *)
(* ===================================================================== *)

Module Standings.

(** ** The document, as the selectors of the code see it

    cheerio is a library outside the repository.  A loaded page is
    represented by what the queries of standings.js return on it: the
    [table] elements in document order, for each its descendant [tr]
    elements in document order, for each row its child [td] cells, and for
    a cell or row the texts, attributes and counts the code asks for. *)

Record Td := mkTd {
  tdText : jsstring;              (* $td.text() *)
  tdEllipsis : jsstring;          (* $td.find(".dx-ellipsis").first().text() *)
  tdAnchor : jsstring;            (* $td.find("a").first().text() *)
  tdImgSrc : option jsstring;     (* $td.find("img").first().attr("src") *)
  tdWidgets : nat                 (* $td.find("a, img, script").length *)
}.

Record Tr := mkTr {
  trId : jsstring;                (* the id attribute, "" when absent *)
  trClasses : list jsstring;      (* the class names of the row *)
  trHeaderCells : nat;            (* $tr.find("td.dxgvHeader_Moderno, td.dxgvHeader").length *)
  trText : jsstring;              (* $tr.text() *)
  trTds : list Td                 (* $tr.children("td") *)
}.

Record Table := mkTable {
  tableId : jsstring;
  tableTrs : list Tr              (* $table.find("tr") *)
}.

Abbreviation Document := (list Table).

(** [norm(s)]. *)
Definition norm (s : jsstring) : jsstring :=
  toLowerCase (trim (collapseSpaces s)).

Definition endsWith (s suffix : jsstring) : bool :=
  startsWith (rev s) (rev suffix).

Definition hasClass (tr : Tr) (c : jsstring) : bool :=
  existsb (strEq c) (trClasses tr).

(** [$("table[id$='_DXMainTable']")]. *)
Definition dxTables (doc : Document) : list Table :=
  List.filter (fun t => endsWith (tableId t) (lit "_DXMainTable")) doc.

(** [$t.find("tr.dxgvDataRow_Moderno, tr.dxgvDataRow")]. *)
Definition dataRows (t : Table) : list Tr :=
  List.filter (fun tr => hasClass tr (lit "dxgvDataRow_Moderno") ||
                         hasClass tr (lit "dxgvDataRow")) (tableTrs t).

(** [findHeaderRow($, $table)]: [None] is the empty selection. *)
Definition findHeaderRow (t : Table) : option Tr :=
  match List.filter (fun tr => endsWith (trId tr) (lit "_DXHeadersRow0")) (tableTrs t) with
  | hr :: _ => Some hr
  | [] =>
      head (List.filter
              (fun tr =>
                 if (trHeaderCells tr <? 3)%nat then false
                 else includes (norm (trText tr)) (lit "driver"))
              (tableTrs t))
  end.

(** [extractHeaderCells($, $headerRow)]. *)
Definition extractHeaderCells (hr : Tr) : list jsstring :=
  List.map (fun td =>
              let txt := if isEmpty (tdEllipsis td) then tdText td else tdEllipsis td in
              trim (collapseSpaces txt))
           (trTds hr).

(** The [score] of a table in [pickBestDxGridTable]. *)
Definition tableScore (hn : list jsstring) (nDataRows : nat) : Q :=
  ((if existsb (fun h => includes h (lit "car#") || includes h (lit "car #")) hn then 2 else 0) +
   (if existsb (fun h => strEq h (lit "class") || includes h (lit "class")) hn then 2 else 0) +
   (if existsb (fun h => strEq h (lit "car")) hn then 1 else 0) +
   (if existsb (fun h => includes h (lit "race")) hn then 1 else 0) +
   (if existsb (fun h => includes h (lit "quali") || includes h (lit "qual")) hn then 1 else 0) +
   (if existsb (fun h => includes h (lit "fastest") || strEq h (lit "fl")) hn then 1 else 0) +
   (if existsb (fun h => includes h (lit "nett") || includes h (lit "net")) hn then 2 else 0) +
   (if existsb (fun h => includes h (lit "total")) hn then 1 else 0) +
   (if existsb (fun h => includes h (lit "diff")) hn then 1 else 0) +
   inject_Z (Z.min (Z.of_nat nDataRows) 50) / 50)%Q.

Definition hasDriver (hn : list jsstring) : bool :=
  existsb (fun h => strEq h (lit "driver") || includes h (lit "driver")) hn.

(** The callback of [dxTables.each]: the table's score if it gets one,
    [None] on each of the three early returns. *)
Definition scoreOf (t : Table) : option Q :=
  if (length (dataRows t) <? 2)%nat then None
  else match findHeaderRow t with
       | None => None
       | Some hr =>
           let hn := List.map norm (extractHeaderCells hr) in
           if negb (hasDriver hn) then None
           else Some (tableScore hn (length (dataRows t)))
       end.

Definition consider (st : option Table * Q) (t : Table) : option Table * Q :=
  match scoreOf t with
  | None => st
  | Some score => if Qle_bool score (snd st) then st else (Some t, score)
  end.

(** [pickBestDxGridTable($)]: [None] is [null]. *)
Definition pickBestDxGridTable (doc : Document) : option Table :=
  fst (fold_left consider (dxTables doc) (None, (-1)%Q)).

(** [h.findIndex(fn)], -1 when nothing is found. *)
Fixpoint findIndexFrom (f : jsstring -> bool) (l : list jsstring) (i : Z) : Z :=
  match l with
  | [] => -1
  | x :: l' => if f x then i else findIndexFrom f l' (i + 1)
  end.

Definition findIndex (f : jsstring -> bool) (l : list jsstring) : Z :=
  findIndexFrom f l 0.

Record ColMap := mkColMap {
  cPos : Z; cDriver : Z; cCarNo : Z; cClassName : Z; cCarImg : Z;
  cRacePts : Z; cQualiPts : Z; cFlPts : Z; cTotal : Z; cNett : Z; cDiff : Z
}.

(** [mapColumnIndexes(headers)]. *)
Definition mapColumnIndexes (headers : list jsstring) : ColMap :=
  let h := List.map norm headers in
  mkColMap
    (findIndex (fun x => strEq x (lit "#") || strEq x (lit "pos") || strEq x (lit "position")) h)
    (findIndex (fun x => strEq x (lit "driver") || includes x (lit "driver")) h)
    (findIndex (fun x => includes x (lit "car#") || includes x (lit "car #")) h)
    (findIndex (fun x => strEq x (lit "class") || includes x (lit "class")) h)
    (findIndex (fun x => strEq x (lit "car")) h)
    (findIndex (fun x => strEq x (lit "race") || includes x (lit "race points")) h)
    (findIndex (fun x => strEq x (lit "quali") || includes x (lit "quali points") ||
                         includes x (lit "qualifying")) h)
    (findIndex (fun x => strEq x (lit "fl") || includes x (lit "fastest lap")) h)
    (findIndex (fun x => strEq x (lit "total") || includes x (lit "total")) h)
    (findIndex (fun x => includes x (lit "nett") || strEq x (lit "net") ||
                         includes x (lit "net points")) h)
    (findIndex (fun x => includes x (lit "diff")) h).

(** [cleanWeirdDevExpressText(txt)]. *)
Definition cleanWeirdDevExpressText (txt : jsstring) : jsstring :=
  let s := trim txt in
  if isEmpty s then []
  else if startsWith s (lit "<!--") || includes s (lit "ASPx.AddDisabledItems") then []
  else trim (collapseSpaces s).

(** [cellText($cell)] and [cellImageSrc($cell)]; [None] is [null] or the
    empty selection. *)
Definition cellText (cell : option Td) : jsstring :=
  match cell with
  | None => []
  | Some td =>
      let aTxt := trim (tdAnchor td) in
      if negb (isEmpty aTxt) then cleanWeirdDevExpressText aTxt
      else cleanWeirdDevExpressText (tdText td)
  end.

Definition cellImageSrc (cell : option Td) : jsstring :=
  match cell with
  | None => []
  | Some td => match tdImgSrc td with
               | Some (c :: src) => trim (c :: src)
               | _ => []
               end
  end.

(** [alignHeadersToData(headers, dataTdCount)]. *)
Definition alignHeadersToData (headers : list jsstring) (dataTdCount : nat) : list jsstring :=
  firstn dataTdCount headers ++ repeat [] (dataTdCount - length headers).

(** [trimTrailingUtilityColumn(headers, firstRowTds)]. *)
Definition trimTrailingUtilityColumn (headers : list jsstring) (firstRowTds : list Td)
    : list jsstring * bool :=
  match last headers with
  | None => (headers, false)
  | Some lastHeader =>
      if negb (isEmpty (trim lastHeader)) then (headers, false)
      else
        let lastTd := last firstRowTds in
        let lastTxt := norm (match lastTd with Some td => tdText td | None => [] end) in
        let hasDxScript :=
          includes lastTxt (lit "aspx.adddisableditems") ||
          includes lastTxt (lit "dxr.axd") ||
          (0 <? match lastTd with Some td => tdWidgets td | None => 0 end)%nat in
        if hasDxScript then (slice headers 0 (-1), true) else (headers, false)
  end.

(** [$tds.eq(idx)] for [idx >= 0], [null] otherwise. *)
Definition getCell (tds : list Td) (idx : Z) : option Td :=
  if 0 <=? idx then nth_error tds (Z.to_nat idx) else None.

(** [parseRows($, $table, colMap, trimLast)]. *)
Definition parseRows (t : Table) (colMap : ColMap) (trimLast : bool) : list Row :=
  flat_map
    (fun tr =>
       let tds0 := trTds tr in
       let tds := if trimLast && negb (match tds0 with [] => true | _ => false end) then slice tds0 0 (-1) else tds0 in
       let cell i := getCell tds i in
       let row :=
         mkRow (cellText (cell (cPos colMap))) (cellText (cell (cDriver colMap))) []
               (cellText (cell (cCarNo colMap))) (cellText (cell (cClassName colMap)))
               (cellImageSrc (cell (cCarImg colMap))) [] []
               (cellText (cell (cRacePts colMap))) (cellText (cell (cQualiPts colMap)))
               (cellText (cell (cFlPts colMap))) (cellText (cell (cTotal colMap)))
               (cellText (cell (cNett colMap))) (cellText (cell (cDiff colMap)))
               [] [] [] false in
       if isEmpty (driver row) && isEmpty (pos row) then [] else [row])
    (dataRows t).

Inductive StandingsError :=
| ErrRequestFailed
| ErrNoStandingsTable
| ErrNoHeaderRow
| ErrNoDriverColumn (headers : list jsstring).

(** [fetchStandingsGeneric(url, labelForLogs)]; [response] is the page
    that [axios.get] returned, loaded, or [None] when the request threw. *)
Definition fetchStandingsGeneric (response : option Document) : StandingsError + list Row :=
  match response with
  | None => inl ErrRequestFailed
  | Some doc =>
      match pickBestDxGridTable doc with
      | None => inl ErrNoStandingsTable
      | Some t =>
          match findHeaderRow t with
          | None => inl ErrNoHeaderRow
          | Some hr =>
              let headers0 := extractHeaderCells hr in
              let firstTds := match dataRows t with
                              | tr :: _ => trTds tr
                              | [] => []
                              end in
              let dataTdCount := length firstTds in
              let headers1 := alignHeadersToData headers0 dataTdCount in
              let '(headers, trimLast) := trimTrailingUtilityColumn headers1 firstTds in
              let colMap := mapColumnIndexes headers in
              if cDriver colMap <? 0 then inl (ErrNoDriverColumn headers)
              else inr (parseRows t colMap trimLast)
          end
      end
  end.

(** ** SimGrid standings *)

(** [cleanText(t)]; U+00A0 is already white space for the first
    replacement. *)
Definition cleanText (t : jsstring) : jsstring :=
  trim (List.map (fun c => if (c =? 160)%N then 32%N else c) (collapseSpaces t)).

(** A Regional Indicator Symbol (U+1F1E6 .. U+1F1FF) as its surrogate pair. *)
Definition isRegionalIndicator (hi lo : N) : bool :=
  ((hi =? 55356) && (56806 <=? lo) && (lo <=? 56831))%N.

(** [s.match(/^([\p{Regional_Indicator}]{2})\s+/u)]: the flag captured and
    the length of the whole match. *)
Definition matchFlag (s : jsstring) : option (jsstring * nat) :=
  match s with
  | h1 :: l1 :: h2 :: l2 :: rest =>
      if isRegionalIndicator h1 l1 && isRegionalIndicator h2 l2 then
        let '(ws, _) := span isWhiteSpace rest in
        if isEmpty ws then None else Some ([h1; l1; h2; l2], (4 + length ws)%nat)
      else None
  | _ => None
  end.

(** The groups [(?:,\d{3})+] at the head of a string: what they consume
    (nothing if there is no group) and the rest. *)
Fixpoint commaGroups (fuel : nat) (s : jsstring) : jsstring * jsstring :=
  match fuel with
  | O => ([], s)
  | S fuel' =>
      match s with
      | c0 :: a :: b :: c :: rest =>
          if (c0 =? 44)%N && isDigit a && isDigit b && isDigit c then
            let '(g, r) := commaGroups fuel' rest in (c0 :: a :: b :: c :: g, r)
          else ([], s)
      | _ => ([], s)
      end
  end.

(** [\s(\d{1,3}(?:,\d{3})+)\s*$] matched at the head of [s]: the capture. *)
Definition matchRatingHere (s : jsstring) : option jsstring :=
  match s with
  | c :: rest =>
      if isWhiteSpace c then
        let '(ds, r1) := span isDigit rest in
        if (1 <=? length ds)%nat && (length ds <=? 3)%nat then
          let '(groups, r2) := commaGroups (length r1) r1 in
          if negb (isEmpty groups) && forallb isWhiteSpace r2
          then Some (ds ++ groups) else None
        else None
      else None
  | [] => None
  end.

(** [s.match(/\s(\d{1,3}(?:,\d{3})+)\s*$/)]: the index of the leftmost
    match and its capture. *)
Fixpoint matchRatingFrom (s : jsstring) (i : nat) : option (nat * jsstring) :=
  match matchRatingHere s with
  | Some r => Some (i, r)
  | None => match s with
            | [] => None
            | _ :: s' => matchRatingFrom s' (S i)
            end
  end.

Definition matchRating (s : jsstring) : option (nat * jsstring) := matchRatingFrom s 0.

(** [Array.from(s)] followed by [codePointAt(0)]: the code points of a
    string, a surrogate pair counting for one. *)
Fixpoint codePoints (s : jsstring) : list N :=
  match s with
  | hi :: rest =>
      match rest with
      | lo :: rest' =>
          if ((55296 <=? hi) && (hi <=? 56319) && (56320 <=? lo) && (lo <=? 57343))%N
          then ((hi - 55296) * 1024 + (lo - 56320) + 65536)%N :: codePoints rest'
          else hi :: codePoints rest
      | [] => [hi]
      end
  | [] => []
  end.

(** [n.toString(16)]. *)
Definition hexDigit (d : N) : N := if (d <? 10)%N then (48 + d)%N else (87 + d)%N.

Fixpoint hexOf (fuel : nat) (n : N) (acc : jsstring) : jsstring :=
  match fuel with
  | O => acc
  | S fuel' =>
      let acc' := hexDigit (n mod 16) :: acc in
      if (n <? 16)%N then acc' else hexOf fuel' (n / 16) acc'
  end.

Definition toHex (n : N) : jsstring := hexOf (N.to_nat (N.log2 n) + 1) n [].

(** [parts.join("-")]. *)
Fixpoint joinDash (parts : list jsstring) : jsstring :=
  match parts with
  | [] => []
  | [x] => x
  | x :: rest => x ++ 45%N :: joinDash rest
  end.

(** [flagEmojiToTwemojiPng(flagEmoji)]. *)
Definition flagEmojiToTwemojiPng (flagEmoji : jsstring) : jsstring :=
  if isEmpty flagEmoji then []
  else
    let code := toLowerCase (joinDash (List.map toHex (codePoints flagEmoji))) in
    lit "https://cdnjs.cloudflare.com/ajax/libs/twemoji/14.0.2/72x72/" ++ code ++ lit ".png".

(** [simgridMakeKeyFromText] and [simgridMakeKeyFromSrc] test the same
    words in the same order, on different strings. *)
Definition hasWord (s : jsstring) (k : string) : bool := includes s (lit k).

Definition makeKeyOf (s : jsstring) : jsstring :=
  if isEmpty s then []
  else if hasWord s "mclaren" then lit "mclaren"
  else if hasWord s "toyota" || hasWord s "gazoo" then lit "toyota_gazoo"
  else if hasWord s "ferrari" then lit "ferrari"
  else if hasWord s "porsche" then lit "porsche"
  else if hasWord s "bmw" then lit "bmw"
  else if hasWord s "mercedes" || hasWord s "amg" then lit "mercedes"
  else if hasWord s "cadillac" then lit "cadillac"
  else if hasWord s "peugeot" then lit "peugeot"
  else if hasWord s "alpine" then lit "alpine"
  else if hasWord s "lamborghini" then lit "lamborghini"
  else if hasWord s "aston" then lit "astonmartin"
  else if hasWord s "lexus" then lit "lexus"
  else if hasWord s "honda" || hasWord s "acura" then lit "honda"
  else if hasWord s "chevrolet" || hasWord s "corvette" then lit "corvette"
  else [].

Definition simgridMakeKeyFromText (t : jsstring) : jsstring :=
  makeKeyOf (toLowerCase (cleanText t)).

Definition simgridMakeKeyFromSrc (src : jsstring) : jsstring :=
  makeKeyOf (toLowerCase src).

(** One [tbody tr] of [table.table-results], as the selectors of
    [fetchSimgridStandings] see it ([None]: the attribute is absent; a text
    is "" when its selection is empty). *)
Record SimgridTr := mkSimgridTr {
  sgPositionStrong : jsstring;   (* td.result-position strong, first, text *)
  sgFirstCell : jsstring;        (* td, first, text *)
  sgEntrantName : jsstring;      (* a.entrant-name, first, text *)
  sgCarNumber : jsstring;        (* span.badge-number-board .car-number, first, text *)
  sgCarImgSrc : option jsstring; (* td.nowrap img, src *)
  sgCarImgAlt : option jsstring;
  sgCarImgTitle : option jsstring;
  sgCarImgTooltip : option jsstring;  (* data-bs-original-title *)
  sgCarCellTitle : option jsstring;
  sgCarCellText : jsstring;
  sgLastBold : jsstring          (* td.fw-bold, last, text *)
}.

Definition orText (a b : jsstring) : jsstring := if isEmpty a then b else a.
Definition optText (o : option jsstring) : jsstring :=
  match o with Some t => t | None => [] end.

(** The callback of [table.find("tbody tr").each]: the row pushed, or
    [None] when the row is skipped. *)
Definition parseSimgridRow (tr : SimgridTr) : option Row :=
  let pos := orText (cleanText (sgPositionStrong tr)) (cleanText (sgFirstCell tr)) in
  let driverTextRaw := cleanText (sgEntrantName tr) in
  let flagMatch := matchFlag driverTextRaw in
  let flagEmoji := match flagMatch with Some (f, _) => f | None => [] end in
  let driverText0 := match flagMatch with
                     | Some (_, len) => trim (sliceFrom driverTextRaw (Z.of_nat len))
                     | None => driverTextRaw
                     end in
  let ratingMatch := matchRating driverText0 in
  let rating := match ratingMatch with Some (_, r) => r | None => [] end in
  let driverText := match ratingMatch with
                    | Some (index, _) => trim (slice driverText0 0 (Z.of_nat index))
                    | None => driverText0
                    end in
  let countryImg := if isEmpty flagEmoji then [] else flagEmojiToTwemojiPng flagEmoji in
  let carNo := cleanText (sgCarNumber tr) in
  let src := optText (sgCarImgSrc tr) in
  let carImg := if startsWith src (lit "/") && negb (isEmpty src)
                then lit "https://www.thesimgrid.com" ++ src else src in
  let hint :=
    orText (cleanText (optText (sgCarImgAlt tr)))
      (orText (cleanText (optText (sgCarImgTitle tr)))
         (orText (cleanText (optText (sgCarImgTooltip tr)))
            (orText (cleanText (optText (sgCarCellTitle tr)))
               (cleanText (sgCarCellText tr))))) in
  let carMakeKey := orText (simgridMakeKeyFromText hint) (simgridMakeKeyFromSrc carImg) in
  let pts := orText (cleanText (sgLastBold tr)) (lit "0") in
  if isEmpty driverText then None
  else Some (mkRow pos driverText rating carNo [] carImg carMakeKey countryImg
                   [] [] [] pts pts [] [] [] [] false).

Inductive SimgridFetchError :=
| ErrFetchHtml
| ErrTableNotFound.

(** [fetchSimgridStandings(url, label)]; [page] is what [fetchHtml] and
    the lookup of [table.table-results] give: [None] when [fetchHtml]
    threw, [Some None] when the page has no such table, else the rows of
    its body. *)
Definition fetchSimgridStandings (page : option (option (list SimgridTr)))
    : SimgridFetchError + list Row :=
  match page with
  | None => inl ErrFetchHtml
  | Some None => inl ErrTableNotFound
  | Some (Some trs) =>
      inr (flat_map (fun tr => match parseSimgridRow tr with
                               | Some r => [r]
                               | None => []
                               end) trs)
  end.

End Standings.

(* ===================================================================== *)
(** * index.js *)
(* ===================================================================== *)

Module Index.
Import Render.

(** ** Button spam protection *)

Definition BUTTON_COOLDOWN_MS : Z := 5 * 60 * 1000.

(** The key [`${userId}:${buttonId}`] of the [buttonCooldowns] map. *)
Definition cooldownKey (userId buttonId : jsstring) : jsstring :=
  userId ++ lit ":" ++ buttonId.

(** [getButtonCooldownSeconds(userId, buttonId)]; [now] is [Date.now()],
    the map is threaded through. *)
Definition getButtonCooldownSeconds (now : Z) (userId buttonId : jsstring)
    (buttonCooldowns : gmap jsstring Z) : Z * gmap jsstring Z :=
  let key := cooldownKey userId buttonId in
  let last := default 0 (buttonCooldowns !! key) in
  if now - last <? BUTTON_COOLDOWN_MS then
    (ceilDiv (BUTTON_COOLDOWN_MS - (now - last)) 1000, buttonCooldowns)
  else
    (0, <[key := now]> buttonCooldowns).

(** A sequence of button presses, each at its own [Date.now()]: the map
    after them and, for each press, what the function returned. *)
Record Press := mkPress {
  pressTime : Z;
  pressUser : jsstring;
  pressButton : jsstring
}.

Definition pressStep (st : gmap jsstring Z * list (Press * Z)) (p : Press)
    : gmap jsstring Z * list (Press * Z) :=
  let '(wait, m') :=
    getButtonCooldownSeconds (pressTime p) (pressUser p) (pressButton p) (fst st) in
  (m', snd st ++ [(p, wait)]).

Definition runPresses (ps : list Press) : gmap jsstring Z * list (Press * Z) :=
  fold_left pressStep ps (∅, []).

(** ** The fetcher *)

Definition MARKER : jsstring := lit "PageContent_TeamsView_DXMainTable".

(** What the catch block of [fetchHtmlWithRetry] can receive. *)
Inductive FetchError :=
| ErrNoGlobalFetch
| ErrThrown (reason : jsstring)
| ErrStatus (status : Z) (url : jsstring)
| ErrMissingMarker
| ErrFetchFailed.

(** The answer of the network to one [fetch(url)] followed by
    [res.text()]: an exception, or a response. *)
Inductive Attempt :=
| Throws (reason : jsstring)
| Response (ok : bool) (status : Z) (text : jsstring).

Inductive FetchEvent :=
| EvFetch (i : nat)
| EvSleep (ms : Z).

(** The body of the [try]: the page, or the error thrown. *)
Definition attemptOnce (url : jsstring) (a : Attempt) : FetchError + jsstring :=
  match a with
  | Throws reason => inl (ErrThrown reason)
  | Response ok status text =>
      if negb ok then inl (ErrStatus status url)
      else if negb (includes text MARKER) then inl ErrMissingMarker
      else inr text
  end.

(** The [for] loop from iteration [i] on; [remaining] is [attempts - i],
    [net i] is what the network answers to the attempt number [i]. *)
Fixpoint retryLoop (net : nat -> Attempt) (url : jsstring) (attempts : nat)
    (remaining i : nat) (lastErr : option FetchError)
    : (FetchError + jsstring) * list FetchEvent :=
  match remaining with
  | O => (inl (match lastErr with Some e => e | None => ErrFetchFailed end), [])
  | S remaining' =>
      match attemptOnce url (net i) with
      | inr text => (inr text, [EvFetch i])
      | inl e =>
          let sleeps :=
            if Z.of_nat i <? Z.of_nat attempts - 1
            then [EvSleep (700 + Z.of_nat i * 500)] else [] in
          let '(r, evs) := retryLoop net url attempts remaining' (S i) (Some e) in
          (r, EvFetch i :: sleeps ++ evs)
      end
  end.

(** [fetchHtmlWithRetry(url, attempts = 3)]. *)
Definition fetchHtmlWithRetry (hasGlobalFetch : bool) (net : nat -> Attempt)
    (url : jsstring) (attempts : nat) : (FetchError + jsstring) * list FetchEvent :=
  if negb hasGlobalFetch then (inl ErrNoGlobalFetch, [])
  else retryLoop net url attempts attempts 0 None.

Definition defaultAttempts : nat := 3.

(** ** Class split *)

(** [s.replace(/[^\d.-]/g, "")]. *)
Definition keepNumeric (s : jsstring) : jsstring :=
  List.filter (fun c => isDigit c || (c =? 46)%N || (c =? 45)%N) s.

(** [toNumber(v)]. *)
Definition toNumber (v : jsstring) : Q :=
  match Number_of_clean (keepNumeric v) with
  | Some q => q
  | None => 0%Q
  end.

Definition isAsciiCI (c d : N) : bool := (lowerChar c =? lowerChar d)%N.

Fixpoint startsWithCI (s p : jsstring) : bool :=
  match p, s with
  | [], _ => true
  | _ :: _, [] => false
  | c :: p', d :: s' => isAsciiCI c d && startsWithCI s' p'
  end.

(** [title.match(/Season\s+(\d+)/i)?.[1]]: the digits after the leftmost
    "season" that is followed by white space and a digit. *)
Fixpoint seasonMatch (s : jsstring) : option jsstring :=
  let here :=
    if startsWithCI s (lit "Season") then
      let '(ws, r1) := span isWhiteSpace (skipn 6 s) in
      let '(ds, _) := span isDigit r1 in
      if isEmpty ws || isEmpty ds then None else Some ds
    else None in
  match here with
  | Some ds => Some ds
  | None => match s with
            | [] => None
            | _ :: s' => seasonMatch s'
            end
  end.

Definition classOrder : list jsstring :=
  [lit "Pro"; lit "Silver"; lit "Pro-Am"; lit "Am"].

Definition DASH : jsstring := [32%N; 8212%N; 32%N].

Definition classSubtitle : jsstring :=
  lit "Auto-generated (Diff reset per class leader)".

Section ClassPanels.
Variable fractionToString : Q -> jsstring.

(** The filter predicate of [buildClassPanels]. *)
Definition isClass (cls : jsstring) (r : Row) : bool :=
  strEq (toLowerCase (trim (className r))) (toLowerCase cls).

(** The comparator [(a, b) => toNumber(a.pos) - toNumber(b.pos)]. *)
Definition byPos (a b : Row) : Q := (toNumber (pos a) - toNumber (pos b))%Q.

(** [{ ...r, pos: String(i + 1), diff: String(diff) }]. *)
Definition withPosDiff (r : Row) (p d : jsstring) : Row :=
  mkRow p (driver r) (rating r) (carNo r) (className r) (carImg r)
        (carMakeKey r) (countryImg r) (racePts r) (qualiPts r) (flPts r)
        (total r) (nett r) d (penPoints r) (qualiBan r) (banServed r)
        (qbActive r).

Definition rebuildRow (leaderNett : Q) (i : nat) (r : Row) : Row :=
  let nett := toNumber (nett r) in
  let diff := if (i =? 0)%nat then 0%Q else (nett - leaderNett)%Q in
  withPosDiff r (String_of_Z (Z.of_nat i + 1))
                (String_of_number fractionToString diff).

Definition classTitle (cls splitLabel seasonText : jsstring) (n : nat) : jsstring :=
  cls ++ DASH ++ splitLabel ++ DASH ++ lit "Season " ++ seasonText ++
  lit " (" ++ String_of_Z (Z.of_nat n) ++ lit " drivers)".

(** One iteration of the loop over [order]. *)
Definition buildClassPanel (rs : list Row) (splitLabel seasonText cls : jsstring) : Panel :=
  let clsRows := sort byPos (List.filter (isClass cls) rs) in
  match clsRows with
  | [] =>
      mkPanel (classTitle cls splitLabel seasonText 0) classSubtitle (Some []) None None
  | leader :: _ =>
      let leaderNett := toNumber (nett leader) in
      let rebuilt := imap (rebuildRow leaderNett) clsRows in
      mkPanel (classTitle cls splitLabel seasonText (length rebuilt)) classSubtitle
              (Some rebuilt) None None
  end.

(** [buildClassPanels(standings, splitLabel)]. *)
Definition buildClassPanels (standings : Panel) (splitLabel : jsstring) : list Panel :=
  let rs := rowsOrEmpty (rows standings) in
  let seasonText := match seasonMatch (title standings) with
                    | Some ds => ds
                    | None => lit "??"
                    end in
  List.map (buildClassPanel rs splitLabel seasonText) classOrder.

End ClassPanels.

(** ** Persisted state and the chat channel *)

(** The fields of config.json the change detection reads and writes
    ([None]: the property is absent). *)
Record Config := mkConfig {
  messageId : option jsstring;
  lastHash : option jsstring;
  lastUpdated : option jsstring;
  lastChecked : option jsstring;
  simgridHypercarUrl : option jsstring;
  simgridLmgt3Url : option jsstring;
  simgridMessageId : option jsstring;
  simgridLastHash : option jsstring;
  simgridLastUpdated : option jsstring;
  simgridLastChecked : option jsstring
}.

(** JavaScript truthiness of an optional string, and [x || y]. *)
Definition truthy (o : option jsstring) : bool :=
  match o with
  | Some (_ :: _) => true
  | _ => false
  end.

Definition orElse (o : option jsstring) (d : jsstring) : jsstring :=
  match o with
  | Some (c :: s) => c :: s
  | _ => d
  end.

Inductive Components := MainActionRows | SimgridActionRows | ButtonsRow.

(** A chat message: its text, its attached image (file name and rendered
    canvas) and its buttons. *)
Record Message := mkMessage {
  content : jsstring;
  files : list (jsstring * Canvas);
  components : Components
}.

(** The channel: the messages that exist, by id.  [channel.messages.fetch(id)]
    succeeds exactly on the ids present. *)
Abbreviation Channel := (gmap jsstring Message).

(** [existing.edit({ content, components })]: the attachments stay. *)
Definition editText (ch : Channel) (id : jsstring) (c : jsstring) (k : Components) : Channel :=
  match ch !! id with
  | Some m => <[id := mkMessage c (files m) k]> ch
  | None => ch
  end.

(** [existing.edit({ content, files, components })]. *)
Definition editWithFiles (ch : Channel) (id : jsstring) (c : jsstring)
    (f : list (jsstring * Canvas)) (k : Components) : Channel :=
  match ch !! id with
  | Some _ => <[id := mkMessage c f k]> ch
  | None => ch
  end.

(** [discordTimestamp(date, "F")] with [date.getTime() = ms]. *)
Definition discordTimestamp (ms : Z) : jsstring :=
  lit "<t:" ++ String_of_Z (ms / 1000) ++ lit ":F>".

Inductive TrackEvent :=
| TvRender (c : Canvas)
| TvEditText (id : jsstring)
| TvEditImage (id : jsstring)
| TvSend (id : jsstring)
| TvSaveConfig.

Definition isRender (e : TrackEvent) : bool :=
  match e with TvRender _ => true | _ => false end.

(** ** The SimGrid pane *)

Inductive SimgridError :=
| ScrapeFailed (label : jsstring)
| DriverLooksLikeUrl.

Record SimgridOutcome := mkSimgridOutcome {
  sgError : option SimgridError;
  sgConfig : Config;
  sgChannel : Channel;
  sgLatest : option (Panel * Panel);
  sgEvents : list TrackEvent
}.

Definition withSimgrid (c : Config) (mid h u k : option jsstring) : Config :=
  mkConfig (messageId c) (lastHash c) (lastUpdated c) (lastChecked c)
           (simgridHypercarUrl c) (simgridLmgt3Url c) mid h u k.

(** [/https?:\/\//i.test(String(r.driver || ""))]. *)
Definition looksLikeUrl (r : Row) : bool :=
  let d := toLowerCase (driver r) in
  includes d (lit "http://") || includes d (lit "https://").

Definition simgridPanel (name : jsstring) (rs : list Row) (t : jsstring)
    (m : option jsstring) : Panel :=
  mkPanel (lit "OOR WEC SERIES 6 " ++ [8212%N] ++ lit " " ++ name ++ lit " (" ++
           String_of_Z (Z.of_nat (length rs)) ++ lit " Drivers)")
          (lit "Auto-updates when SimGrid standings change") (Some rs) (Some t) m.

(** The message text of the SimGrid pane ([content]); [DISPLAY_NAME.hypercar]
    is "LMU Hypercar" and [DISPLAY_NAME.lmgt3] is "LMU LMGT3". *)
Definition simgridContent (lastUpdatedStr lastCheckedStr : jsstring) : jsstring :=
  lit "Last updated: **" ++ lastUpdatedStr ++ lit "**" ++ [10%N] ++
  lit "Last checked: **" ++ lastCheckedStr ++ lit "**" ++ [10%N] ++
  lit "These results are for: **LMU Hypercar, LMU LMGT3**".

Section Tracker.
(** [sha1(s)] is the hexadecimal SHA-1 digest and [JSON.stringify] the
    serialisation of the scraped data; both are library functions. *)
Variable sha1 : jsstring -> jsstring.
Variable stringifySimgrid : list Row -> list Row -> jsstring.

(** [checkAndPostSimgrid(channel, force)].  [hyperScrape] and [lmgt3Scrape]
    are what the two calls of [fetchSimgridStandings] give (rows, or an
    exception), [now] is the clock, [sentId] the id Discord gives to a
    message sent by this call. *)
Definition checkAndPostSimgrid (cfg : Config) (ch : Channel)
    (old : option (Panel * Panel)) (force : bool) (now : Z)
    (hyperScrape lmgt3Scrape : option (list Row)) (sentId : jsstring)
    : SimgridOutcome :=
  let hyperUrl := trim (orElse (simgridHypercarUrl cfg) []) in
  let lmgt3Url := trim (orElse (simgridLmgt3Url cfg) []) in
  if isEmpty hyperUrl || isEmpty lmgt3Url then mkSimgridOutcome None cfg ch old []
  else
  match hyperScrape with
  | None => mkSimgridOutcome (Some (ScrapeFailed (lit "SimGrid Hypercar"))) cfg ch old []
  | Some hyper =>
  match lmgt3Scrape with
  | None => mkSimgridOutcome (Some (ScrapeFailed (lit "SimGrid LMGT3"))) cfg ch old []
  | Some lmgt3 =>
  let lastCheckedStr := discordTimestamp now in
  if existsb looksLikeUrl hyper || existsb looksLikeUrl lmgt3 then
    mkSimgridOutcome (Some DriverLooksLikeUrl) cfg ch old []
  else
  let dataHash := sha1 (stringifySimgrid hyper lmgt3) in
  let unchanged := truthy (simgridLastHash cfg) &&
                   bool_decide (simgridLastHash cfg = Some dataHash) in
  let lastUpdatedStr := if unchanged then orElse (simgridLastUpdated cfg) lastCheckedStr
                        else discordTimestamp now in
  let shouldRender := force || negb unchanged || negb (truthy (simgridMessageId cfg)) in
  let text := simgridContent lastUpdatedStr lastCheckedStr in
  let latest := Some (simgridPanel (lit "Hypercar") hyper (lit "#ff3b3b") (Some (lit "simgrid")),
                      simgridPanel (lit "LMGT3") lmgt3 (lit "#34c759") (Some (lit "simgrid"))) in
  let id := orElse (simgridMessageId cfg) [] in
  if negb shouldRender && unchanged && truthy (simgridMessageId cfg) &&
     bool_decide (is_Some (ch !! id)) then
    (* unchanged, not forced, message found: text only *)
    mkSimgridOutcome None
      (withSimgrid cfg (simgridMessageId cfg) (simgridLastHash cfg)
                   (Some (orElse (simgridLastUpdated cfg) lastUpdatedStr))
                   (Some lastCheckedStr))
      (editText ch id text SimgridActionRows) latest
      [TvEditText id; TvSaveConfig]
  else
    let png := renderDoubleStandingsPng
                 (Some (simgridPanel (lit "Hypercar") hyper (lit "#ff3b3b") None))
                 (Some (simgridPanel (lit "LMGT3") lmgt3 (lit "#34c759") None)) in
    let attachment := [(lit "simgrid.png", png)] in
    if truthy (simgridMessageId cfg) && bool_decide (is_Some (ch !! id)) then
      mkSimgridOutcome None
        (withSimgrid cfg (simgridMessageId cfg) (Some dataHash)
                     (Some lastUpdatedStr) (Some lastCheckedStr))
        (editWithFiles ch id text attachment SimgridActionRows) latest
        [TvRender png; TvEditImage id; TvSaveConfig]
    else
      mkSimgridOutcome None
        (withSimgrid cfg (Some sentId) (Some dataHash)
                     (Some lastUpdatedStr) (Some lastCheckedStr))
        (<[sentId := mkMessage text attachment SimgridActionRows]> ch) latest
        [TvRender png; TvSend sentId; TvSaveConfig]
  end end.

End Tracker.

(** ** Button interactions *)

(** The runtime caches [latest] and [latestSimgrid] (panels only) and the
    cooldown map. *)
Record BotState := mkBotState {
  buttonCooldowns : gmap jsstring Z;
  latestClub50 : option Panel;
  latestYellow : option Panel;
  latestRed : option Panel;
  latestHyper : option Panel;
  latestLmgt3 : option Panel
}.

Record Interaction := mkInteraction {
  userId : jsstring;
  customId : jsstring;
  channelIsText : bool;
  deferred : bool
}.

Inductive HandlerError :=
| ErrNotTextChannel
| ErrNoCachedStandings.

(** The texts the handler puts in the ephemeral reply. *)
Inductive ReplyText :=
| ReplyPleaseWait (seconds : Z)
| ReplyPostedClass
| ReplyPostedSeries
| ReplyUnknownButton
| ReplyFailed (e : HandlerError).

Inductive BotEvent :=
| EvDeferReply
| EvEditReply (t : ReplyText)
| EvAutoDeleteReply (ms : Z)
| EvRendered (c : Canvas)
| EvChannelSend (fileName : jsstring) (c : Canvas)
| EvDeletePostedAfter (ms : Z).

Definition isRenderEvent (e : BotEvent) : bool :=
  match e with
  | EvRendered _ | EvChannelSend _ _ => true
  | _ => false
  end.

Section Handlers.
Variable fractionToString : Q -> jsstring.

(** [handleClassButton(interaction, which)]. *)
Definition handleClassButton (st : BotState) (i : Interaction) (which : jsstring)
    : HandlerError + list BotEvent :=
  if negb (channelIsText i) then inl ErrNotTextChannel
  else
    let data := if strEq which (lit "yellow") then latestYellow st
                else if strEq which (lit "red") then latestRed st
                else None in
    match data with
    | None => inl ErrNoCachedStandings
    | Some d =>
        let splitLabel := if strEq which (lit "yellow")
                          then lit "Split Yellow Sprint Standings"
                          else lit "Split Red Sprint Standings" in
        let panels := buildClassPanels fractionToString d splitLabel in
        let png := renderClassGridPng panels in
        inr [ EvRendered png;
              EvChannelSend (lit "class-" ++ which ++ lit ".png") png;
              EvDeletePostedAfter (5 * 60 * 1000);
              EvEditReply ReplyPostedClass;
              EvAutoDeleteReply 10000 ]
    end.

(** [{ ...latest.x, tint, mode: "default" }]; spreading [null] adds
    nothing. *)
Definition tinted (src : option Panel) (t : jsstring) : Panel :=
  match src with
  | Some q => mkPanel (title q) (subtitle q) (rows q) (Some t) (Some (lit "default"))
  | None => mkPanel [] [] None (Some t) (Some (lit "default"))
  end.

(** [handleSeriesButton(interaction, which)]. *)
Definition handleSeriesButton (st : BotState) (i : Interaction) (which : jsstring)
    : HandlerError + list BotEvent :=
  if negb (channelIsText i) then inl ErrNotTextChannel
  else
    let '(panel, fileName) :=
      if strEq which (lit "club50") then
        (Some (tinted (latestClub50 st) (lit "#2b6cff")), lit "club50-only.png")
      else if strEq which (lit "yellow") then
        (Some (tinted (latestYellow st) (lit "#f6c343")), lit "yellow-only.png")
      else if strEq which (lit "red") then
        (Some (tinted (latestRed st) (lit "#ff3b3b")), lit "red-only.png")
      else if strEq which (lit "hypercar") then
        (latestHyper st, lit "hypercar-only.png")
      else if strEq which (lit "lmgt3") then
        (latestLmgt3 st, lit "lmgt3-only.png")
      else (None, lit "series.png") in
    match panel with
    | None => inl ErrNoCachedStandings
    | Some q =>
        let png := renderSeriesOnlyPng (Some q) (mkSeriesOpts (Some (30 # 1))) in
        inr [ EvRendered png;
              EvChannelSend fileName png;
              EvDeletePostedAfter (5 * 60 * 1000);
              EvEditReply ReplyPostedSeries;
              EvAutoDeleteReply 10000 ]
    end.

(** The button dispatch of the [InteractionCreate] handler once the
    cooldown let the press through. *)
Definition dispatchButton (st : BotState) (i : Interaction) : HandlerError + list BotEvent :=
  let id := customId i in
  if strEq id (lit "oor_class_yellow") then handleClassButton st i (lit "yellow")
  else if strEq id (lit "oor_class_red") then handleClassButton st i (lit "red")
  else if strEq id (lit "oor_series_club50") then handleSeriesButton st i (lit "club50")
  else if strEq id (lit "oor_series_yellow") then handleSeriesButton st i (lit "yellow")
  else if strEq id (lit "oor_series_red") then handleSeriesButton st i (lit "red")
  else if strEq id (lit "oor_series_hypercar") then handleSeriesButton st i (lit "hypercar")
  else if strEq id (lit "oor_series_lmgt3") then handleSeriesButton st i (lit "lmgt3")
  else inr [EvEditReply ReplyUnknownButton; EvAutoDeleteReply 10000].

Definition withCooldowns (st : BotState) (m : gmap jsstring Z) : BotState :=
  mkBotState m (latestClub50 st) (latestYellow st) (latestRed st)
             (latestHyper st) (latestLmgt3 st).

(** The [InteractionCreate] handler on a button press at time [now]:
    [safeAck], the cooldown, then the dispatch; an exception of a handler
    lands in the outer [catch], which reports it. *)
Definition onButton (now : Z) (st : BotState) (i : Interaction) : BotState * list BotEvent :=
  let ack := if deferred i then [] else [EvDeferReply] in
  let '(wait, cds) :=
    getButtonCooldownSeconds now (userId i) (customId i) (buttonCooldowns st) in
  let st' := withCooldowns st cds in
  if 0 <? wait then
    (st', ack ++ [EvEditReply (ReplyPleaseWait wait); EvAutoDeleteReply 5000])
  else
    match dispatchButton st' i with
    | inr evs => (st', ack ++ evs)
    | inl e => (st', ack ++ [EvEditReply (ReplyFailed e); EvAutoDeleteReply 10000])
    end.

End Handlers.

(** ** /refresh: the boolean lock and the cooldown *)

Definition REFRESH_COOLDOWN_MS : Z := 30000.

(** The module variables [refreshLock] and [lastRefreshAt]. *)
Record RefreshState := mkRefreshState {
  refreshLock : bool;
  lastRefreshAt : Z
}.

Inductive RefreshReply :=
| RefreshPleaseWait (seconds : Z)
| RefreshAlreadyRunning
| RefreshDone (simgridOk : bool)
| RefreshFailed.

Inductive RefreshEvent :=
| RvDeferReply
| RvSetLock (b : bool)
| RvFetchChannel
| RvScrapeAll
| RvRenderAndPostMain
| RvCheckAndPostSimgrid (force : bool)
| RvEditReply (r : RefreshReply)
| RvAutoDeleteReply (ms : Z).

(** Scraping, rendering and posting. *)
Definition isWorkEvent (e : RefreshEvent) : bool :=
  match e with
  | RvFetchChannel | RvScrapeAll | RvRenderAndPostMain | RvCheckAndPostSimgrid _ => true
  | _ => false
  end.

(** How far the [try] block gets: what the outside world lets succeed. *)
Inductive TryOutcome :=
| ChannelNotText
| ScrapeThrows
| MainPostThrows
| Refreshed (simgridOk : bool).

(** First segment, from [Date.now()] to the first [await] after the checks:
    the two guards, then [refreshLock = true; lastRefreshAt = now].
    [None]: accepted, the [try] block runs next. *)
Definition refreshEnter (now : Z) (g : RefreshState) : RefreshState * option RefreshReply :=
  if now - lastRefreshAt g <? REFRESH_COOLDOWN_MS then
    (g, Some (RefreshPleaseWait (ceilDiv (REFRESH_COOLDOWN_MS - (now - lastRefreshAt g)) 1000)))
  else if refreshLock g then
    (g, Some RefreshAlreadyRunning)
  else
    (mkRefreshState true now, None).

(** The [try] block with its [catch]. *)
Definition refreshTry (o : TryOutcome) : list RefreshEvent :=
  match o with
  | ChannelNotText =>
      [RvFetchChannel; RvEditReply RefreshFailed; RvAutoDeleteReply 10000]
  | ScrapeThrows =>
      [RvFetchChannel; RvScrapeAll; RvEditReply RefreshFailed; RvAutoDeleteReply 10000]
  | MainPostThrows =>
      [RvFetchChannel; RvScrapeAll; RvRenderAndPostMain;
       RvEditReply RefreshFailed; RvAutoDeleteReply 10000]
  | Refreshed ok =>
      [RvFetchChannel; RvScrapeAll; RvRenderAndPostMain; RvCheckAndPostSimgrid true;
       RvEditReply (RefreshDone ok); RvAutoDeleteReply 10000]
  end.

(** The [finally] block. *)
Definition refreshLeave (g : RefreshState) : RefreshState :=
  mkRefreshState false (lastRefreshAt g).

(** [handleRefreshCommand(interaction)] run without interleaving. *)
Definition handleRefreshCommand (now : Z) (o : TryOutcome) (g : RefreshState)
    : RefreshState * list RefreshEvent :=
  match refreshEnter now g with
  | (g', Some r) => (g', [RvDeferReply; RvEditReply r; RvAutoDeleteReply 10000])
  | (g', None) =>
      (refreshLeave g', [RvDeferReply; RvSetLock true] ++ refreshTry o ++ [RvSetLock false])
  end.

(** Several invocations in flight.  Node runs one segment at a time and
    switches invocation only at an [await]: after [deferReply] (phase
    [Deferring]) and inside the [try] block (phase [Running]). *)
Inductive Phase := Deferring | Running | Finished.

Record Sys := mkSys {
  glob : RefreshState;
  procs : list Phase;
  trace : list (nat * RefreshEvent)
}.

Definition initialSys : Sys := mkSys (mkRefreshState false 0) [] [].

Definition tag (i : nat) (evs : list RefreshEvent) : list (nat * RefreshEvent) :=
  List.map (pair i) evs.

Inductive sysStep : Sys -> Sys -> Prop :=
| StepInvoke s :
    sysStep s (mkSys (glob s) (procs s ++ [Deferring])
                     (trace s ++ tag (length (procs s)) [RvDeferReply]))
| StepEnter s i now :
    procs s !! i = Some Deferring ->
    sysStep s
      (match refreshEnter now (glob s) with
       | (g', Some r) =>
           mkSys g' (<[i := Finished]> (procs s))
                 (trace s ++ tag i [RvEditReply r; RvAutoDeleteReply 10000])
       | (g', None) =>
           mkSys g' (<[i := Running]> (procs s)) (trace s ++ tag i [RvSetLock true])
       end)
| StepLeave s i o :
    procs s !! i = Some Running ->
    sysStep s (mkSys (refreshLeave (glob s)) (<[i := Finished]> (procs s))
                     (trace s ++ tag i (refreshTry o ++ [RvSetLock false]))).

Inductive reachable : Sys -> Prop :=
| ReachInit : reachable initialSys
| ReachStep s s' : reachable s -> sysStep s s' -> reachable s'.

End Index.

(* ===================================================================== *)
(** * index.js, the earlier version with [applyUpdate] *)
(* ===================================================================== *)

Module IndexV1.
Import Render Index.

Record Latest := mkLatest {
  latestClub50 : Panel;
  latestYellow : Panel;
  latestRed : Panel;
  latestCheckedStr : jsstring;
  latestUpdatedStr : jsstring;
  latestHash : jsstring
}.

Record UpdateOutcome := mkUpdateOutcome {
  auUnchanged : bool;
  auDataHash : jsstring;
  auConfig : Config;
  auChannel : Channel;
  auLatest : Latest;
  auEvents : list TrackEvent
}.

Definition withMain (c : Config) (mid h u k : option jsstring) : Config :=
  mkConfig mid h u k (simgridHypercarUrl c) (simgridLmgt3Url c)
           (simgridMessageId c) (simgridLastHash c) (simgridLastUpdated c)
           (simgridLastChecked c).

(** [buildContent(lastUpdatedStr, lastCheckedStr)]. *)
Definition buildContent (lastUpdatedStr lastCheckedStr : jsstring) : jsstring :=
  lit "**[OCTANE ONLINE RACING STANDINGS - Click here for Full OOR Results Pages]" ++
  lit "(https://results.octaneonlineracing.com/)**" ++ [10%N] ++
  lit "Last updated: **" ++ lastUpdatedStr ++ lit "**" ++ [10%N] ++
  lit "Last checked: **" ++ lastCheckedStr ++ lit "**".

Section Tracker.
Variable sha1 : jsstring -> jsstring.
Variable stringifyMain : Panel -> Panel -> Panel -> jsstring.

(** [applyUpdate(channel, club50, yellow, red, nowDate)]; [now] is
    [nowDate.getTime()], [sentId] the id of a message sent by this call. *)
Definition applyUpdate (cfg : Config) (ch : Channel) (club50 yellow red : Panel)
    (now : Z) (sentId : jsstring) : UpdateOutcome :=
  let lastCheckedStr := discordTimestamp now in
  let dataHash := sha1 (stringifyMain club50 yellow red) in
  let unchanged := truthy (lastHash cfg) && bool_decide (lastHash cfg = Some dataHash) in
  let lastUpdatedStr := if unchanged then orElse (lastUpdated cfg) lastCheckedStr
                        else discordTimestamp now in
  let latest := mkLatest club50 yellow red lastCheckedStr lastUpdatedStr dataHash in
  let id := orElse (messageId cfg) [] in
  let existing := if truthy (messageId cfg) then ch !! id else None in
  let text := buildContent lastUpdatedStr lastCheckedStr in
  match existing with
  | Some _ =>
      let cfg' := withMain cfg (messageId cfg) (Some dataHash)
                    (if unchanged then lastUpdated cfg else Some lastUpdatedStr)
                    (Some lastCheckedStr) in
      if unchanged then
        mkUpdateOutcome unchanged dataHash cfg' (editText ch id text ButtonsRow) latest
          [TvEditText id; TvSaveConfig]
      else
        let png := renderTripleStandingsPng club50 yellow red in
        mkUpdateOutcome unchanged dataHash cfg'
          (editWithFiles ch id text [(lit "standings.png", png)] ButtonsRow) latest
          [TvRender png; TvEditImage id; TvSaveConfig]
  | None =>
      let png := renderTripleStandingsPng club50 yellow red in
      let cfg' := withMain cfg (Some sentId) (Some dataHash)
                    (if unchanged then Some (orElse (lastUpdated cfg) lastUpdatedStr)
                     else Some lastUpdatedStr)
                    (Some lastCheckedStr) in
      mkUpdateOutcome unchanged dataHash cfg'
        (<[sentId := mkMessage text [(lit "standings.png", png)] ButtonsRow]> ch) latest
        [TvRender png; TvSend sentId; TvSaveConfig]
  end.

End Tracker.

End IndexV1.

(* ===================================================================== *)
(** * render.js: [drawPanel] and its helpers *)
(* ===================================================================== *)

Module DrawPanel.
Import Render Index.

(** [normalizeText(v)]; [null] and [undefined] give "". *)
Definition normalizeText (v : jsstring) : jsstring := trim (collapseSpaces v).

(** [buildPenaltySuffixFromRow(r)]: "", " (<pen>)" or " (<pen> - QB)". *)
Section PenaltySuffix.
Variable fractionToString : Q -> jsstring.

Definition buildPenaltySuffixFromRow (r : Row) : jsstring :=
  let pen := toNumber (penPoints r) in
  if negb (Qle_bool pen 0) then
    let qualiBan := normalizeText (qualiBan r) in
    let banServed := normalizeText (banServed r) in
    if negb (isEmpty qualiBan) && isEmpty banServed
    then lit " (" ++ String_of_number fractionToString pen ++ lit " - QB)"
    else lit " (" ++ String_of_number fractionToString pen ++ lit ")"
  else [].

End PenaltySuffix.

(** [/Split\s+(Yellow|Red)\s+Sprint/i] matched at the head of [s]. *)
Definition sprintSplitHere (s : jsstring) : bool :=
  if startsWithCI s (lit "Split") then
    let '(ws1, r1) := span isWhiteSpace (skipn 5 s) in
    if isEmpty ws1 then false
    else
      let afterColour :=
        if startsWithCI r1 (lit "Yellow") then Some (skipn 6 r1)
        else if startsWithCI r1 (lit "Red") then Some (skipn 3 r1)
        else None in
      match afterColour with
      | None => false
      | Some r2 =>
          let '(ws2, r3) := span isWhiteSpace r2 in
          negb (isEmpty ws2) && startsWithCI r3 (lit "Sprint")
      end
  else false.

(** [isSprintSplitTitle(title)]: the pattern matches somewhere. *)
Fixpoint isSprintSplitTitle (s : jsstring) : bool :=
  sprintSplitHere s ||
  match s with
  | [] => false
  | _ :: s' => isSprintSplitTitle s'
  end.

(** [sprintSplit] of [drawPanel]:
    [panelMode !== "simgrid" && isSprintSplitTitle(title)]. *)
Definition sprintSplit (c : PanelCall) : bool :=
  negb (strEq (modeOrDefault (pmode c)) (lit "simgrid")) && isSprintSplitTitle (ptitle c).

(** A line terminator: what [.] does not match. *)
Definition isLineTerminator (c : N) : bool :=
  ((c =? 10) || (c =? 13) || (c =? 8232) || (c =? 8233))%N.

(** [\s*(.+)$] matched against all of [s]: the capture.  The white space
    is taken greedily; when nothing follows it, it gives back its last
    character. *)
Definition restOfTitle (s : jsstring) : option jsstring :=
  let '(ws, r) := span isWhiteSpace s in
  match r with
  | _ :: _ => if forallb (fun c => negb (isLineTerminator c)) r then Some r else None
  | [] =>
      match last ws with
      | Some c => if isLineTerminator c then None else Some [c]
      | None => None
      end
  end.

(** [\s*[—-]\s*(.+)$], what follows the class label. *)
Definition afterClassLabel (s : jsstring) : option jsstring :=
  match dropWhile isWhiteSpace s with
  | c :: r => if ((c =? 8212) || (c =? 45))%N then restOfTitle r else None
  | [] => None
  end.

(** The alternatives [(Pro-Am|Pro|Silver|Am)], tried in this order. *)
Definition classAlternatives : list jsstring :=
  [lit "Pro-Am"; lit "Pro"; lit "Silver"; lit "Am"].

Fixpoint firstClass (s : jsstring) (alts : list jsstring) : option (jsstring * jsstring) :=
  match alts with
  | [] => None
  | alt :: alts' =>
      match (if startsWithCI s alt then afterClassLabel (skipn (length alt) s) else None) with
      | Some rest => Some (firstn (length alt) s, rest)
      | None => firstClass s alts'
      end
  end.

(** [(\s*\(\d+\s+drivers\))\s*$] matched from the head of [s] to its end:
    the text of the group. *)
Definition driversSuffixHere (s : jsstring) : option jsstring :=
  let '(ws, r) := span isWhiteSpace s in
  match r with
  | c :: r1 =>
      if (c =? 40)%N then
        let '(ds, r2) := span isDigit r1 in
        if isEmpty ds then None
        else
          let '(ws2, r3) := span isWhiteSpace r2 in
          if isEmpty ws2 then None
          else if startsWithCI r3 (lit "drivers)") then
            if forallb isWhiteSpace (skipn 8 r3)
            then Some (ws ++ [c] ++ ds ++ ws2 ++ firstn 8 r3)
            else None
          else None
      else None
  | [] => None
  end.

(** [^(.*?)(\s*\(\d+\s+drivers\))\s*$]: the lazy first group grows one
    character at a time, over anything but a line terminator; [pre] is
    what it holds so far. *)
Fixpoint splitAtDrivers (pre s : jsstring) : option (jsstring * jsstring) :=
  match driversSuffixHere s with
  | Some g => Some (pre, g)
  | None =>
      match s with
      | c :: s' => if isLineTerminator c then None else splitAtDrivers (pre ++ [c]) s'
      | [] => None
      end
  end.

(** [splitDriversSuffix(title)]: [{ base, drivers }]. *)
Definition splitDriversSuffix (title : jsstring) : jsstring * jsstring :=
  match splitAtDrivers [] title with
  | Some (b, g) => (trim b, trim g)
  | None => (title, [])
  end.

(** [splitTitleLeadingClass(title)]: [{ classLabel, rest }], or [None] for
    [null]. *)
Definition splitTitleLeadingClass (title : jsstring) : option (jsstring * jsstring) :=
  firstClass (dropWhile isWhiteSpace title) classAlternatives.

(** [classBadgeStyle(className)]: [{ bg, fg }], or [None] for [null].  No
    character outside ASCII has a lower case among the letters compared. *)
Definition classBadgeStyle (className : jsstring) : option (jsstring * jsstring) :=
  let c := toLowerCase className in
  if strEq c (lit "pro") then Some (lit "#ffffff", lit "#000000")
  else if strEq c (lit "silver") then Some (lit "#c0c0c0", lit "#000000")
  else if strEq c (lit "pro-am") || strEq c (lit "proam") || strEq c (lit "pro-am")
  then Some (lit "#000000", lit "#ffffff")
  else if strEq c (lit "am") then Some (lit "#ff0000", lit "#ffffff")
  else None.

(** The test [qbActive] of [drawPanel] for a row: the flag of the row, or
    the two fields read again. *)
Definition rowQbActive (sprintSplit : bool) (r : Row) : bool :=
  sprintSplit &&
  (qbActive r ||
   (negb (isEmpty (normalizeText (qualiBan r))) && isEmpty (normalizeText (banServed r)))).

(** The table inside a panel: [tableX = x + pad], [tableY = y + HEADER_H + 8]
    and [tableW = w - pad * 2], with [pad = PAD_INNER]. *)
Definition tableX (c : PanelCall) : Z := px c + PAD_INNER.
Definition tableY (c : PanelCall) : Z := py c + HEADER_H + 8.
Definition tableW (c : PanelCall) : Z := pw c - PAD_INNER * 2.

(** The loop over the rows runs [drawRows.length] times; row [i] is filled
    by [fillRect(tableX, ry, tableW, ROW_H)] with
    [ry = tableY + HEAD_ROW_H + i * ROW_H]. *)
Definition rowCount (c : PanelCall) : nat := length (rowsOrEmpty (prows c)).
Definition ry (c : PanelCall) (i : nat) : Z := tableY c + HEAD_ROW_H + Z.of_nat i * ROW_H.

(** [s.replace("#", "")]: a string pattern replaces its first occurrence
    only. *)
Fixpoint removeFirst (c : N) (s : jsstring) : jsstring :=
  match s with
  | [] => []
  | d :: s' => if (d =? c)%N then s' else d :: removeFirst c s'
  end.

(** The value of a hexadecimal digit, upper or lower case. *)
Definition hexValue (c : N) : option Z :=
  if isDigit c then Some (Z.of_N c - 48)
  else if ((97 <=? c) && (c <=? 102))%N then Some (Z.of_N c - 87)
  else if ((65 <=? c) && (c <=? 70))%N then Some (Z.of_N c - 55)
  else None.

Definition isHexDigit (c : N) : bool :=
  match hexValue c with Some _ => true | None => false end.

Definition hexDigitsValue (ds : jsstring) : Z :=
  fold_left (fun acc c => acc * 16 + default 0 (hexValue c)) ds 0.

(** [parseInt(s, 16)]: leading white space is skipped, then an optional
    sign and an optional "0x" or "0X"; the number is the longest run of
    hexadecimal digits that follows.  [None] is [NaN] (no digit). *)
Definition parseInt16 (s : jsstring) : option Z :=
  let s0 := trimStart s in
  let '(neg, s1) := match s0 with
                    | c :: r => if (c =? 45)%N then (true, r)
                                else if (c =? 43)%N then (false, r)
                                else (false, s0)
                    | [] => (false, s0)
                    end in
  let s2 := match s1 with
            | z :: x :: r =>
                if ((z =? 48) && ((x =? 120) || (x =? 88)))%N then r else s1
            | _ => s1
            end in
  let ds := fst (span isHexDigit s2) in
  if isEmpty ds then None
  else Some (if neg then - hexDigitsValue ds else hexDigitsValue ds).

Record Rgb := mkRgb { red : Z; green : Z; blue : Z }.

(** [hexToRgb(hex)]; [None] is [null].  In [(n >> 16) & 255] a [NaN]
    counts as 0, and the numbers six characters can spell fit in 32 bits. *)
Definition hexToRgb (hex : jsstring) : option Rgb :=
  let h := trim (removeFirst 35%N hex) in
  if negb (length h =? 6)%nat then None
  else
    let n := default 0 (parseInt16 h) in
    Some (mkRgb (Z.land (Z.shiftr n 16) 255) (Z.land (Z.shiftr n 8) 255) (Z.land n 255)).

End DrawPanel.

(* ===================================================================== *)
(** * index.js: text keys and the penalty sheet *)
(* ===================================================================== *)

Module IndexScrape.
Import Render Index.

(** [normalize(s)] and [normalizeCarNoKey(s)]. *)
Definition normalize (s : jsstring) : jsstring := trim (collapseSpaces s).

Definition normalizeCarNoKey (s : jsstring) : jsstring :=
  let t := normalize s in
  let digits := List.filter isDigit t in
  if isEmpty digits then t else digits.

(** ** The response of the sheet *)

(** [s.indexOf(needle, from)]: the first index at or after [from] where
    [needle] starts, or -1.  [indexOfAt s needle i] searches the rest [s]
    of a string that starts at index [i]. *)
Fixpoint indexOfAt (s needle : jsstring) (i : nat) : Z :=
  if startsWith s needle then Z.of_nat i
  else match s with
       | [] => -1
       | _ :: s' => indexOfAt s' needle (S i)
       end.

Definition indexOf (s needle : jsstring) (from : nat) : Z :=
  indexOfAt (skipn from s) needle (Nat.min from (length s)).

(** [s.lastIndexOf(c)] for a one-character string [c]. *)
Fixpoint lastIndexOfAt (c : N) (s : jsstring) (i : nat) : Z :=
  match s with
  | [] => -1
  | d :: s' =>
      let later := lastIndexOfAt c s' (S i) in
      if 0 <=? later then later
      else if (d =? c)%N then Z.of_nat i else -1
  end.

Definition lastIndexOf (s : jsstring) (c : N) : Z := lastIndexOfAt c s 0.

Definition GVIZ_MARKER : jsstring := lit "google.visualization.Query.setResponse(".

Inductive GvizError :=
| ErrGvizMarker
| ErrGvizBraces
| ErrGvizSyntax.

Section Gviz.
(** [JSON.parse]: the value, or [None] when it throws. *)
Variable Json : Type.
Variable JSON_parse : jsstring -> option Json.

(** [parseGvizJson(text)]. *)
Definition parseGvizJson (text : jsstring) : GvizError + Json :=
  let start := indexOf text GVIZ_MARKER 0 in
  if start <? 0 then inl ErrGvizMarker
  else
    let jsonStart := indexOf text [123%N] (Z.to_nat start) in
    let jsonEnd := lastIndexOf text 125%N in
    if (jsonStart <? 0) || (jsonEnd <? 0) || (jsonEnd <=? jsonStart) then inl ErrGvizBraces
    else
      match JSON_parse (slice text jsonStart (jsonEnd + 1)) with
      | Some v => inr v
      | None => inl ErrGvizSyntax
      end.

End Gviz.

(** ** The penalty sheet *)

Section Names.
(** Driver names are any Unicode text, so for them [toLowerCase] is the
    library function, not its ASCII fragment. *)
Variable toLowerCaseFull : jsstring -> jsstring.

(** [normalizeNameKey(s)]. *)
Definition normalizeNameKey (s : jsstring) : jsstring := toLowerCaseFull (normalize s).

(** A record of the sheet, [{ penPoints, qualiBan, banServed }], and the
    two indexes [{ byCarNo, byName }] that [fetchPenaltyTab] returns. *)
Record PenaltyRec := mkPenaltyRec {
  recPenPoints : jsstring;
  recQualiBan : jsstring;
  recBanServed : jsstring
}.

Record PenaltyTab := mkPenaltyTab {
  byCarNo : gmap jsstring PenaltyRec;
  byName : gmap jsstring PenaltyRec
}.

Inductive SheetError :=
| ErrMissingTotal
| ErrMissingQualifyingBan
| ErrMissingBanServed.

(** [cellV(r, i)] on a row given by the texts of its cells: "" where the
    cell is missing or null. *)
Definition cellV (r : list jsstring) (i : Z) : jsstring :=
  if i <? 0 then [] else nth (Z.to_nat i) r [].

(** [colLabels.findIndex((h) => h.toLowerCase() === name)]. *)
Definition labelIndex (colLabels : list jsstring) (name : string) : Z :=
  Standings.findIndex (fun h => strEq (toLowerCase h) (lit name)) colLabels.

(** One iteration of the loop over the rows of the sheet. *)
Definition sheetStep (idxTotal idxQualiBan idxBanServed : Z)
    (tab : PenaltyTab) (r : list jsstring) : PenaltyTab :=
  let carNo := normalizeCarNoKey (cellV r 0) in
  let name := normalize (cellV r 1) in
  if isEmpty carNo && isEmpty name then tab
  else
    let rec := mkPenaltyRec (Standings.orText (normalize (cellV r idxTotal)) (lit "0"))
                            (normalize (cellV r idxQualiBan))
                            (normalize (cellV r idxBanServed)) in
    mkPenaltyTab (if isEmpty carNo then byCarNo tab else <[carNo := rec]> (byCarNo tab))
                 (if isEmpty name then byName tab
                  else <[normalizeNameKey name := rec]> (byName tab)).

(** [fetchPenaltyTab(tabName)] from the parsed response on: [labels] are
    the [label]s of [table.cols], [rows] the rows of [table.rows]. *)
Definition penaltyTabOf (labels : list jsstring) (rows : list (list jsstring))
    : SheetError + PenaltyTab :=
  let colLabels := List.map normalize labels in
  let idxTotal := labelIndex colLabels "total" in
  let idxQualiBan := labelIndex colLabels "qualifying ban" in
  let idxBanServed := labelIndex colLabels "ban served" in
  if idxTotal <? 0 then inl ErrMissingTotal
  else if idxQualiBan <? 0 then inl ErrMissingQualifyingBan
  else if idxBanServed <? 0 then inl ErrMissingBanServed
  else inr (fold_left (sheetStep idxTotal idxQualiBan idxBanServed) rows
                      (mkPenaltyTab ∅ ∅)).

(** The record [attachPenaltiesToSprintRows] finds for a row: by car
    number first, then by name. *)
Definition findPenalty (penaltyTab : option PenaltyTab) (r : Row) : option PenaltyRec :=
  let carKey := normalizeCarNoKey (carNo r) in
  let nameKey := normalizeNameKey (driver r) in
  match penaltyTab with
  | None => None
  | Some t =>
      match (if isEmpty carKey then None else byCarNo t !! carKey) with
      | Some rec => Some rec
      | None => if isEmpty nameKey then None else byName t !! nameKey
      end
  end.

(** The body of the loop of [attachPenaltiesToSprintRows]: the row with its
    four penalty fields set. *)
Definition attachPenalty (penaltyTab : option PenaltyTab) (r : Row) : Row :=
  let rec := findPenalty penaltyTab r in
  let penPoints := match rec with Some x => recPenPoints x | None => lit "0" end in
  let qualiBan := match rec with Some x => recQualiBan x | None => [] end in
  let banServed := match rec with Some x => recBanServed x | None => [] end in
  mkRow (pos r) (driver r) (rating r) (carNo r) (className r) (carImg r)
        (carMakeKey r) (countryImg r) (racePts r) (qualiPts r) (flPts r)
        (total r) (nett r) (diff r)
        (Standings.orText penPoints (lit "0")) qualiBan banServed
        (negb (isEmpty (normalize qualiBan)) && isEmpty (normalize banServed)).

(** [attachPenaltiesToSprintRows(rows, penaltyTab, splitLabel)] on an array
    of rows. *)
Definition attachPenaltiesToSprintRows (rows : list Row) (penaltyTab : option PenaltyTab)
    : list Row :=
  List.map (attachPenalty penaltyTab) rows.

End Names.

End IndexScrape.

(* ===================================================================== *)
(** * index.js: the main pane *)
(* ===================================================================== *)

Module MainPane.
Import Render Index.

(** [CONTAINS_MAIN], from [DISPLAY_NAME]. *)
Definition CONTAINS_MAIN : jsstring :=
  lit "Club 50, Sprints Split Yellow, Sprints Split Red".

(** The [content] of the main message. *)
Definition mainContent (lastUpdatedStr lastCheckedStr : jsstring) : jsstring :=
  lit "**[OCTANE ONLINE RACING STANDINGS - Click here for Full OOR Results Pages]" ++
  lit "(https://results.octaneonlineracing.com/)**" ++ [10%N] ++
  lit "Last updated: **" ++ lastUpdatedStr ++ lit "**" ++ [10%N] ++
  lit "Last checked: **" ++ lastCheckedStr ++ lit "**" ++ [10%N] ++
  lit "These results are for: **" ++ CONTAINS_MAIN ++ lit "**".

Inductive MainEvent :=
| MvRender (c : Canvas)
| MvEditText (id : jsstring)
| MvEdit (id : jsstring)
| MvSend (id : jsstring)
| MvDelete (id : jsstring)
| MvSaveConfig
| MvSimgrid (o : SimgridOutcome).

(** [upsertMessage(channel, payload, messageId)]: the id returned and the
    channel afterwards; [sentId] is the id Discord gives to a message sent
    by this call. *)
Definition upsertMessage (ch : Channel) (payload : Message) (messageId sentId : jsstring)
    : jsstring * Channel * list MainEvent :=
  if negb (isEmpty messageId) && bool_decide (is_Some (ch !! messageId)) then
    (messageId, <[messageId := payload]> ch, [MvEdit messageId])
  else
    (sentId, <[sentId := payload]> ch, [MvSend sentId]).

(** The fields of [config] of the main pane. *)
Definition withMain (c : Config) (mid h u k : option jsstring) : Config :=
  mkConfig mid h u k (simgridHypercarUrl c) (simgridLmgt3Url c)
           (simgridMessageId c) (simgridLastHash c) (simgridLastUpdated c)
           (simgridLastChecked c).

Record MainOutcome := mkMainOutcome {
  moConfig : Config;
  moChannel : Channel;
  moLatest : option (Panel * Panel * Panel);
  moEvents : list MainEvent
}.

Section Main.
Variable sha1 : jsstring -> jsstring.
Variable stringifyMain : Panel -> Panel -> Panel -> jsstring.
Variable stringifySimgrid : list Row -> list Row -> jsstring.

(** [renderAndPostToMainMessage(channel, club50, yellow, red,
    lastCheckedStr)]; [now] is its own [new Date()]. *)
Definition renderAndPostToMainMessage (cfg : Config) (ch : Channel)
    (club50 yellow red : Panel) (lastCheckedStr : jsstring) (now : Z) (sentId : jsstring)
    : MainOutcome :=
  let png := renderTripleStandingsPng club50 yellow red in
  let dataHash := sha1 (stringifyMain club50 yellow red) in
  let lastUpdatedStr :=
    if bool_decide (lastHash cfg = Some dataHash)
    then orElse (lastUpdated cfg) lastCheckedStr
    else discordTimestamp now in
  let payload := mkMessage (mainContent lastUpdatedStr lastCheckedStr)
                           [(lit "standings.png", png)] MainActionRows in
  let '(newMessageId, ch', evs) :=
    upsertMessage ch payload (orElse (messageId cfg) []) sentId in
  mkMainOutcome
    (withMain cfg (Some newMessageId) (Some dataHash) (Some lastUpdatedStr)
              (Some lastCheckedStr))
    ch' (Some (club50, yellow, red))
    (MvRender png :: evs ++ [MvSaveConfig]).

(** The SimGrid check at the end of [checkAndPost]: its exceptions are
    logged and go no further. *)
Definition thenSimgrid (cfg : Config) (ch : Channel) (latest : option (Panel * Panel * Panel))
    (evs : list MainEvent) (oldSimgrid : option (Panel * Panel))
    (now2 : Z) (hyperScrape lmgt3Scrape : option (list Row)) (sentId2 : jsstring)
    : MainOutcome * option (Panel * Panel) :=
  let o := checkAndPostSimgrid sha1 stringifySimgrid cfg ch oldSimgrid false now2
             hyperScrape lmgt3Scrape sentId2 in
  (mkMainOutcome (sgConfig o) (sgChannel o) latest (evs ++ [MvSimgrid o]), sgLatest o).

(** [checkAndPost()] once the channel is fetched.  [scrape] is what
    [fetchPenaltyIndex], [fetchClub50], [fetchSprintYellow] and
    [fetchSprintRed] give together ([None]: one of them threw); [now] and
    [sentId] are the clock and the id of a message sent for the main pane,
    the last four arguments are those of the SimGrid check that follows. *)
Definition checkAndPost (cfg : Config) (ch : Channel)
    (latest : option (Panel * Panel * Panel)) (oldSimgrid : option (Panel * Panel))
    (now : Z) (scrape : option (Panel * Panel * Panel)) (sentId : jsstring)
    (now2 : Z) (hyperScrape lmgt3Scrape : option (list Row)) (sentId2 : jsstring)
    : MainOutcome * option (Panel * Panel) :=
  let lastCheckedStr := discordTimestamp now in
  match scrape with
  | None =>
      (mkMainOutcome
         (withMain cfg (messageId cfg) (lastHash cfg) (lastUpdated cfg) (Some lastCheckedStr))
         ch latest [MvSaveConfig],
       oldSimgrid)
  | Some (club50, yellow, red) =>
      let dataHash := sha1 (stringifyMain club50 yellow red) in
      let unchanged := truthy (lastHash cfg) && bool_decide (lastHash cfg = Some dataHash) in
      let latest' := Some (club50, yellow, red) in
      let id := orElse (messageId cfg) [] in
      if unchanged && truthy (messageId cfg) && bool_decide (is_Some (ch !! id)) then
        (* unchanged, message found: the text only *)
        let text := mainContent (orElse (lastUpdated cfg) lastCheckedStr) lastCheckedStr in
        thenSimgrid
          (withMain cfg (messageId cfg) (lastHash cfg) (lastUpdated cfg) (Some lastCheckedStr))
          (editText ch id text MainActionRows) latest'
          [MvEditText id; MvSaveConfig]
          oldSimgrid now2 hyperScrape lmgt3Scrape sentId2
      else
        let oldMessageId := id in
        let png := renderTripleStandingsPng club50 yellow red in
        let lastUpdatedStr := if unchanged then orElse (lastUpdated cfg) lastCheckedStr
                              else discordTimestamp now in
        let sent := mkMessage (mainContent lastUpdatedStr lastCheckedStr)
                              [(lit "standings.png", png)] MainActionRows in
        let ch1 := <[sentId := sent]> ch in
        let deletes := negb unchanged && negb (isEmpty oldMessageId) &&
                       bool_decide (is_Some (ch1 !! oldMessageId)) in
        let ch2 := if deletes then delete oldMessageId ch1 else ch1 in
        thenSimgrid
          (withMain cfg (Some sentId) (Some dataHash) (Some lastUpdatedStr)
                    (Some lastCheckedStr))
          ch2 latest'
          ([MvRender png; MvSend sentId] ++
           (if deletes then [MvDelete oldMessageId] else []) ++ [MvSaveConfig])
          oldSimgrid now2 hyperScrape lmgt3Scrape sentId2
  end.

End Main.

End MainPane.

(* ===================================================================== *)
(** * standings.js: [fetchHtml] *)
(* ===================================================================== *)

Module SimgridFetch.

(** What the [catch] of [fetchHtml] can receive, and the error of the final
    [throw] when no attempt was made. *)
Inductive HtmlError :=
| ErrRejected (reason : jsstring)
| ErrHttp (status : Z) (statusText : jsstring)
| ErrFetchHtmlFailed.

(** The answer to one [fetch(url, { signal, headers })] followed by
    [res.text()]: a rejection (the abort of the timer included), or a
    response. *)
Inductive HtmlAttempt :=
| Rejects (reason : jsstring)
| Answers (ok : bool) (status : Z) (statusText text : jsstring).

Inductive HtmlEvent :=
| HvSetTimeout (i : nat) (ms : Z)
| HvFetch (i : nat)
| HvSleep (ms : Z)
| HvClearTimeout (i : nat).

(** The body of the [try]. *)
Definition htmlAttempt (a : HtmlAttempt) : HtmlError + jsstring :=
  match a with
  | Rejects reason => inl (ErrRejected reason)
  | Answers ok status statusText text =>
      if negb ok then inl (ErrHttp status statusText) else inr text
  end.

(** The [for] loop from iteration [i] on; [remaining] is [attempts - i].
    The [finally] clears the timer of the iteration after the [catch], so
    after its back-off. *)
Fixpoint fetchHtmlLoop (net : nat -> HtmlAttempt) (timeoutMs : Z)
    (remaining i : nat) (lastErr : option HtmlError)
    : (HtmlError + jsstring) * list HtmlEvent :=
  match remaining with
  | O => (inl (match lastErr with Some e => e | None => ErrFetchHtmlFailed end), [])
  | S remaining' =>
      match htmlAttempt (net i) with
      | inr text => (inr text, [HvSetTimeout i timeoutMs; HvFetch i; HvClearTimeout i])
      | inl e =>
          let '(r, evs) := fetchHtmlLoop net timeoutMs remaining' (S i) (Some e) in
          (r, [HvSetTimeout i timeoutMs; HvFetch i; HvSleep (250 * (Z.of_nat i + 1));
               HvClearTimeout i] ++ evs)
      end
  end.

(** [fetchHtml(url, { attempts = 3, timeoutMs = 30000 })]. *)
Definition fetchHtml (net : nat -> HtmlAttempt) (attempts : nat) (timeoutMs : Z)
    : (HtmlError + jsstring) * list HtmlEvent :=
  fetchHtmlLoop net timeoutMs attempts 0 None.

End SimgridFetch.

(* ===================================================================== *)
(** * index.js: the three OOR standings *)
(* ===================================================================== *)

Module OorScrape.
Import Render Index IndexScrape.

(** A [td] of the standings table, as the selectors of index.js see it
    ([None]: the attribute is absent; a text is "" when its selection is
    empty). *)
Record Cell := mkCell {
  cellTextOf : jsstring;          (* $(td).text() *)
  cellEllipsis : jsstring;        (* .find(".dx-ellipsis").first().text() *)
  cellAnchor : jsstring;          (* .find("a").first().text() *)
  cellTitle : option jsstring;    (* .attr("title") *)
  cellAria : option jsstring;     (* .attr("aria-label") *)
  cellImgSrc : option jsstring    (* .find("img").first().attr("src") *)
}.

(** [table#PageContent_TeamsView_DXMainTable]: the child cells of its
    first [tr[id$='_DXHeadersRow0']] ([None]: no such row) and, for each
    [tr[id^='PageContent_TeamsView_DXDataRow']], its child cells. *)
Record MainTable := mkMainTable {
  headerCells : option (list Cell);
  dataRowCells : list (list Cell)
}.

Definition attrText (o : option jsstring) : jsstring :=
  match o with Some t => t | None => [] end.

(** [getHeaderCaption($, td)]. *)
Definition getHeaderCaption (td : Cell) : jsstring :=
  let cap1 := normalize (cellEllipsis td) in
  if negb (isEmpty cap1) then cap1 else normalize (cellTextOf td).

(** [getBestTextFromCell($, td)] and [getImgSrcFromCell($, td)]; [None] is
    [tds[i]] past the end of the row, where every selection is empty. *)
Definition getBestTextFromCell (td : option Cell) : jsstring :=
  match td with
  | None => []
  | Some td =>
      let a := normalize (cellAnchor td) in
      if negb (isEmpty a) then a
      else
        let t := normalize (cellTextOf td) in
        if negb (isEmpty t) then t
        else
          let title := normalize (attrText (cellTitle td)) in
          if negb (isEmpty title) then title
          else
            let aria := normalize (attrText (cellAria td)) in
            if negb (isEmpty aria) then aria else []
  end.

Definition getImgSrcFromCell (td : option Cell) : jsstring :=
  match td with
  | None => []
  | Some td => match cellImgSrc td with
               | Some (c :: src) => trim (c :: src)
               | _ => []
               end
  end.

Inductive ScrapeError :=
| ErrFetch (e : FetchError)
| ErrNoTable
| ErrNoHeaderRow
| ErrParsedZeroRows
| ErrDriversMissing
| ErrCarImagesMissing.

(** [validateRowsOrThrow(rows, label)]: [None] when it returns. *)
Definition validateRowsOrThrow (rs : list Row) : option ScrapeError :=
  if (length rs =? 0)%nat then Some ErrParsedZeroRows
  else
    let nonEmptyDrivers :=
      length (List.filter (fun r => negb (isEmpty (driver r)) && negb (isEmpty (trim (driver r)))) rs) in
    let nonEmptyCars :=
      length (List.filter (fun r => negb (isEmpty (carImg r)) && negb (isEmpty (trim (carImg r)))) rs) in
    if (nonEmptyDrivers <? 3)%nat then Some ErrDriversMissing
    else if (nonEmptyCars <? 3)%nat then Some ErrCarImagesMissing
    else None.

(** The titles of the three panels. *)
Definition standingsTitle (label season : jsstring) (n : nat) : jsstring :=
  label ++ DASH ++ lit "Season " ++ season ++
  lit " (" ++ String_of_Z (Z.of_nat n) ++ lit " drivers)".

Definition OOR_SUBTITLE : jsstring := lit "Auto-updates when OOR standings change".

Section Scrape.
Variable toLowerCaseFull : jsstring -> jsstring.

(** [findColumnIndex(headers, possibleNames)]. *)
Definition findColumnIndex (headers : list jsstring) (possibleNames : list string) : Z :=
  let want := List.map (fun x => toLowerCaseFull (lit x)) possibleNames in
  Standings.findIndex
    (fun h => existsb (strEq (toLowerCaseFull (normalize h))) want) headers.

(** One iteration of the loop over the data rows of
    [parseStandingsTable]: the row pushed, nothing for a [tr] without
    cells. *)
Definition parseDataRow (iPos iDriver iCarNo iClassName iCarImg iCountryImg iRacePts
                         iQualiPts iFlPts iTotal iNett iDiff : Z) (tds : list Cell)
    : list Row :=
  match tds with
  | [] => []
  | _ :: _ =>
      let cellAt i := if (0 <=? i) then nth_error tds (Z.to_nat i) else None in
      let safeText i :=
        match cellAt i with
        | Some td => normalize (cellTextOf td)
        | None => []
        end in
      [ mkRow (safeText iPos)
              (if 0 <=? iDriver then getBestTextFromCell (cellAt iDriver) else [])
              []
              (safeText iCarNo)
              (if 0 <=? iClassName then safeText iClassName else [])
              (if 0 <=? iCarImg then getImgSrcFromCell (cellAt iCarImg) else [])
              []
              (if 0 <=? iCountryImg then getImgSrcFromCell (cellAt iCountryImg) else [])
              (safeText iRacePts) (safeText iQualiPts) (safeText iFlPts)
              (safeText iTotal) (safeText iNett) (safeText iDiff)
              [] [] [] false ]
  end.

(** [parseStandingsTable(html, tableId, label)]; [page] is
    [$("table#" + tableId)] of the loaded page, [None] when there is no
    such table. *)
Definition parseStandingsTable (page : option MainTable) : ScrapeError + list Row :=
  match page with
  | None => inl ErrNoTable
  | Some table =>
      match headerCells table with
      | None => inl ErrNoHeaderRow
      | Some cells =>
          let headers := List.map getHeaderCaption cells in
          let idx := findColumnIndex headers in
          inr (flat_map
                 (parseDataRow
                    (idx ["#"; "pos"; "position"]%string)
                    (idx ["driver"]%string)
                    (idx ["car#"; "car #"; "carno"; "car no"]%string)
                    (idx ["class"]%string)
                    (idx ["car"]%string)
                    (idx ["country"; "cou..."]%string)
                    (idx ["race points"; "race"]%string)
                    (idx ["quali points"; "quali"]%string)
                    (idx ["fastest lap points"; "fastest lap"; "fl"]%string)
                    (idx ["total"]%string)
                    (idx ["nett points"; "nett"]%string)
                    (idx ["diff."; "diff"]%string))
                 (dataRowCells table))
      end
  end.

(** [fetchClub50], [fetchSprintYellow] and [fetchSprintRed] from the
    result of [fetchHtmlWithRetry] on.  [load] is the table cheerio finds
    in a page, [seasonParam] is [new URL(url).searchParams.get("s")]
    ([None]: it is null, or the URL does not parse), [penaltyTab] is the
    argument of the two sprint scrapers, [None] for Club 50. *)
Definition fetchStandings (load : jsstring -> option MainTable) (label : jsstring)
    (fetched : FetchError + jsstring) (seasonParam : option jsstring)
    (penaltyTab : option PenaltyTab) : ScrapeError + Panel :=
  match fetched with
  | inl e => inl (ErrFetch e)
  | inr html =>
      match parseStandingsTable (load html) with
      | inl e => inl e
      | inr rs =>
          match validateRowsOrThrow rs with
          | Some e => inl e
          | None =>
              let rs' := match penaltyTab with
                         | Some t => attachPenaltiesToSprintRows toLowerCaseFull rs (Some t)
                         | None => rs
                         end in
              let season := orElse (Some (orElse seasonParam [])) (lit "??") in
              inr (mkPanel (standingsTitle label season (length rs')) OOR_SUBTITLE
                           (Some rs') None None)
          end
      end
  end.

End Scrape.

Definition CLUB50_LABEL : jsstring := lit "Club 50 Standings".
Definition YELLOW_LABEL : jsstring := lit "Split Yellow Sprint Standings".
Definition RED_LABEL : jsstring := lit "Split Red Sprint Standings".

End OorScrape.

(* ===================================================================== *)
(** * render.js: [loadImageFromUrl] and its cache *)
(* ===================================================================== *)

Module ImageLoader.

Section Loader.
(** A decoded image, and [Number(ra) * 1000] for a string of digits. *)
Variable Image : Type.
Variable secondsToMs : jsstring -> Z.

(** The answer to one [fetch(url, ...)]: a rejection, or a response with
    its status, its [retry-after] header and what [loadImage] makes of its
    body ([None]: reading or decoding the body throws). *)
Inductive ImgAttempt :=
| ImgRejects
| ImgResponse (status : Z) (retryAfter : option jsstring) (decoded : option Image).

Inductive ImgEvent :=
| IvFetch (i : nat)
| IvSleep (ms : Z).

(** [ra && /^\d+$/.test(ra) ? Number(ra) * 1000 : 0]. *)
Definition retryAfterMs (ra : option jsstring) : Z :=
  match ra with
  | Some (c :: s) => if forallb isDigit (c :: s) then secondsToMs (c :: s) else 0
  | _ => 0
  end.

(** [res.ok]. *)
Definition isOk (status : Z) : bool := (200 <=? status) && (status <=? 299).

(** The [for] loop from iteration [i] on; [remaining] is [attempts - i]. *)
Fixpoint loadLoop (net : nat -> ImgAttempt) (attempts remaining i : nat)
    : option Image * list ImgEvent :=
  match remaining with
  | O => (None, [])
  | S remaining' =>
      let more := Z.of_nat i <? Z.of_nat attempts - 1 in
      let again (ms : Z) :=
        let '(r, evs) := loadLoop net attempts remaining' (S i) in
        (r, IvFetch i :: (if more then [IvSleep ms] else []) ++ evs) in
      let afterError := Z.min 4000 (500 * 2 ^ Z.of_nat i) in
      match net i with
      | ImgRejects => again afterError
      | ImgResponse status ra decoded =>
          if ((status =? 429) || (status =? 503)) && more then
            again (Z.max (retryAfterMs ra) (Z.min 8000 (800 * 2 ^ Z.of_nat i)))
          else if negb (isOk status) then again afterError
          else match decoded with
               | Some img => (Some img, [IvFetch i])
               | None => again afterError
               end
      end
  end.

(** [loadImageFromUrl(url, { attempts = 4 })] with [imgCache] threaded
    through: the image or [null], the cache afterwards, the fetches and
    sleeps. *)
Definition loadImageFromUrl (imgCache : gmap jsstring (option Image)) (url : jsstring)
    (net : nat -> ImgAttempt) (attempts : nat)
    : option Image * gmap jsstring (option Image) * list ImgEvent :=
  if isEmpty url then (None, imgCache, [])
  else
    match imgCache !! url with
    | Some cached => (cached, imgCache, [])
    | None =>
        let '(r, evs) := loadLoop net attempts attempts 0 in
        (r, <[url := r]> imgCache, evs)
    end.

End Loader.

Arguments ImgRejects {Image}.
Arguments ImgResponse {Image} status retryAfter decoded.

End ImageLoader.

(* ===================================================================== *)
(** * Properties *)
(* ===================================================================== *)

(** ** The JavaScript fragment *)

Section SliceFacts.
Context {A : Type}.
Implicit Types l : list A.

Lemma slice_nonneg l (a b : Z) :
  0 <= a -> a <= b ->
  slice l a b = firstn (Z.to_nat (b - a)) (skipn (Z.to_nat a) l).
Proof.
  intros Ha Hab. unfold slice.
  assert (Ha' : (a <? 0) = false) by (apply Z.ltb_ge; lia).
  assert (Hb' : (b <? 0) = false) by (apply Z.ltb_ge; lia).
  rewrite Ha', Hb'.
  set (len := Z.of_nat (length l)).
  destruct (Z.le_gt_cases a len) as [Hle | Hgt].
  - rewrite (Z.min_l a len) by lia.
    destruct (Z.le_gt_cases b len) as [Hble | Hbgt].
    + rewrite (Z.min_l b len) by lia. reflexivity.
    + rewrite (Z.min_r b len) by lia.
      rewrite !firstn_all2; [reflexivity | |]; rewrite length_skipn; subst len; lia.
  - rewrite (Z.min_r a len) by lia.
    rewrite !skipn_all2 by (subst len; lia).
    now rewrite !firstn_nil.
Qed.

Lemma slice_prefix l (m : Z) :
  0 <= m -> slice l 0 m = firstn (Z.to_nat m) l.
Proof.
  intros Hm. rewrite slice_nonneg by lia.
  now rewrite Z.sub_0_r.
Qed.

Lemma slice_second l (m : Z) :
  0 <= m ->
  slice l m (m * 2) = firstn (Z.to_nat m) (skipn (Z.to_nat m) l).
Proof.
  intros Hm. rewrite slice_nonneg by lia.
  now replace (m * 2 - m) with m by lia.
Qed.

Lemma firstn_plus l (a b : nat) :
  firstn (a + b) l = firstn a l ++ firstn b (skipn a l).
Proof.
  rewrite firstn_skipn_comm.
  replace (firstn a l) with (firstn a (firstn (a + b) l)).
  - symmetry. apply firstn_skipn.
  - rewrite firstn_firstn. f_equal. lia.
Qed.

End SliceFacts.

(** [String_of_Z] prints the decimal numeral of a natural number. *)
Lemma digitsOf_app (fuel : nat) (n : Z) (acc : jsstring) :
  digitsOf fuel n acc = digitsOf fuel n [] ++ acc.
Proof.
  revert n acc. induction fuel as [| fuel IH]; intros n acc; cbn [digitsOf]; [reflexivity |].
  destruct (n <? 10); [reflexivity |].
  rewrite (IH (n / 10) (digitChar (n mod 10) :: acc)).
  rewrite (IH (n / 10) [digitChar (n mod 10)]).
  now rewrite <- app_assoc.
Qed.

Lemma digitsValue_snoc (ds : jsstring) (d : N) :
  digitsValue (ds ++ [d]) = digitsValue ds * 10 + (Z.of_N d - 48).
Proof. unfold digitsValue. now rewrite fold_left_app. Qed.

Lemma digitChar_digit (d : Z) :
  0 <= d <= 9 -> Z.of_N (digitChar d) - 48 = d /\ isDigit (digitChar d) = true.
Proof.
  intros Hd. unfold digitChar, isDigit. split; [lia |].
  apply andb_true_iff. split; apply N.leb_le; lia.
Qed.

Lemma digitsOf_decimal (fuel : nat) (n : Z) :
  0 <= n < 2 ^ Z.of_nat fuel ->
  digitsValue (digitsOf fuel n []) = n /\ forallb isDigit (digitsOf fuel n []) = true.
Proof.
  revert n. induction fuel as [| fuel IH]; intros n Hn.
  - cbn in Hn. assert (n = 0) by lia. subst n. now split.
  - cbn [digitsOf]. destruct (Z.ltb_spec n 10) as [Hlt | Hge].
    + rewrite (Z.mod_small n 10) by lia.
      destruct (digitChar_digit n ltac:(lia)) as [Hv Hd].
      split; [unfold digitsValue; cbn; lia | cbn; now rewrite Hd].
    + rewrite digitsOf_app.
      assert (Hq : 0 <= n / 10 < 2 ^ Z.of_nat fuel).
      { rewrite Nat2Z.inj_succ, Z.pow_succ_r in Hn by lia.
        split; [apply Z.div_pos; lia |].
        apply Z.div_lt_upper_bound; lia. }
      destruct (IH (n / 10) Hq) as [Hv Hd].
      pose proof (Z.mod_pos_bound n 10 ltac:(lia)) as Hm.
      destruct (digitChar_digit (n mod 10) ltac:(lia)) as [Hv' Hd'].
      split.
      * rewrite digitsValue_snoc, Hv, Hv'.
        pose proof (Z.div_mod n 10 ltac:(lia)). lia.
      * rewrite forallb_app, Hd. cbn. now rewrite Hd'.
Qed.

Lemma String_of_Z_decimal (n : Z) :
  0 <= n ->
  digitsValue (String_of_Z n) = n /\ forallb isDigit (String_of_Z n) = true.
Proof.
  intros Hn. unfold String_of_Z.
  rewrite (proj2 (Z.ltb_ge n 0) Hn).
  apply digitsOf_decimal. split; [exact Hn |].
  rewrite Nat2Z.inj_add, Z2Nat.id by apply Z.log2_nonneg.
  destruct (Z.eq_dec n 0) as [-> | Hne]; [reflexivity |].
  change (Z.of_nat 1) with 1. apply Z.log2_spec. lia.
Qed.

(** ** render.js: fixed row heights *)

Module RenderSpec.
Import Render.

Lemma panelHeightForRows_eq (rs : option (list Row)) :
  panelHeightForRows rs = Z.max 420 (154 + 26 * Z.of_nat (length (rowsOrEmpty rs))).
Proof. unfold panelHeightForRows, OUTER_PAD, HEADER_H, HEAD_ROW_H, ROW_H. f_equal. lia. Qed.

Lemma panelHeightForRows_mono (rs rs' : option (list Row)) :
  (length (rowsOrEmpty rs) <= length (rowsOrEmpty rs'))%nat ->
  panelHeightForRows rs <= panelHeightForRows rs'.
Proof. intros H. rewrite !panelHeightForRows_eq. lia. Qed.

(** C7.  For a row list of length n, [panelHeightForRows] is
    max(420, 154 + 26 n), which is the sum
    OUTER_PAD*2 + HEADER_H + 8 + HEAD_ROW_H + ROW_H*n + 18 with ROW_H = 26;
    the canvas of the triple render is as high as the highest of its three
    panels, so its height never decreases when a panel gains drivers. *)
Theorem triple_height_affine_monotone :
  (forall l : list Row,
      panelHeightForRows (Some l) = Z.max 420 (154 + 26 * Z.of_nat (length l)) /\
      154 + 26 * Z.of_nat (length l) =
        OUTER_PAD * 2 + HEADER_H + 8 + HEAD_ROW_H + ROW_H * Z.of_nat (length l) + 18) /\
  ROW_H = 26 /\
  (forall club50 yellow red : Panel,
      canvasH (renderTripleStandingsPng club50 yellow red) =
        Z.max (Z.max (panelHeightForRows (rows club50))
                     (panelHeightForRows (rows yellow)))
              (panelHeightForRows (rows red))) /\
  (forall club50 yellow red club50' yellow' red' : Panel,
      (length (rowsOrEmpty (rows club50)) <= length (rowsOrEmpty (rows club50')))%nat ->
      (length (rowsOrEmpty (rows yellow)) <= length (rowsOrEmpty (rows yellow')))%nat ->
      (length (rowsOrEmpty (rows red)) <= length (rowsOrEmpty (rows red')))%nat ->
      canvasH (renderTripleStandingsPng club50 yellow red) <=
      canvasH (renderTripleStandingsPng club50' yellow' red')).
Proof.
  repeat split.
  - apply (panelHeightForRows_eq (Some l)).
  - unfold OUTER_PAD, HEADER_H, HEAD_ROW_H, ROW_H. lia.
  - intros c y r c' y' r' Hc Hy Hr. cbn [renderTripleStandingsPng canvasH].
    pose proof (panelHeightForRows_mono _ _ Hc).
    pose proof (panelHeightForRows_mono _ _ Hy).
    pose proof (panelHeightForRows_mono _ _ Hr).
    lia.
Qed.

(** *** render.js: the series-only render *)

Lemma effectiveMaxRows_ge5 (opts : SeriesOpts) : 5 <= effectiveMaxRows opts.
Proof.
  unfold effectiveMaxRows, MAX_ROWS_PER_COL.
  destruct (maxRowsPerCol opts); lia.
Qed.

Lemma renderSeriesOnly_rows (P : Panel) (opts : SeriesOpts) :
  let l := rowsOrEmpty (rows P) in
  let m := Z.to_nat (effectiveMaxRows opts) in
  List.map prows (drawn (renderSeriesOnlyPng (Some P) opts)) =
    if (length l <=? m)%nat then [Some l]
    else [Some (firstn m l); Some (firstn m (skipn m l))].
Proof.
  intros l m. pose proof (effectiveMaxRows_ge5 opts) as H5.
  unfold renderSeriesOnlyPng. fold l.
  destruct (Nat.leb_spec (length l) m) as [Hle | Hgt].
  - assert (Hn : (effectiveMaxRows opts <? Z.of_nat (length l)) = false)
      by (apply Z.ltb_ge; subst m; lia).
    rewrite Hn. cbn. rewrite slice_prefix by lia. fold m.
    now rewrite firstn_all2 by lia.
  - assert (Hn : (effectiveMaxRows opts <? Z.of_nat (length l)) = true)
      by (apply Z.ltb_lt; subst m; lia).
    rewrite Hn. cbn. rewrite slice_prefix, slice_second by lia. reflexivity.
Qed.

(** C8.  With the default limit of 30 rows per column (no option given, or
    the 30 that index.js passes), a panel of n rows is drawn as one panel
    holding rows 1..n when n <= 30, and as two panels holding rows 1..30 and
    31..min(n,60) when n > 30; whatever n is, the rows drawn are the first
    60, so nothing past position 60 is drawn.  A caller-supplied limit is
    floored and clamped to at least 5, and the same split holds for it.
    The two panels lie side by side: same top, width and height, the second
    one GAP to the right of the first. *)
Theorem series_only_truncates_after_two_columns (P : Panel) :
  let l := rowsOrEmpty (rows P) in
  let n := length l in
  (forall opts, opts = mkSeriesOpts None \/ opts = mkSeriesOpts (Some (30 # 1)) ->
     let shown := List.map prows (drawn (renderSeriesOnlyPng (Some P) opts)) in
     ((n <= 30)%nat -> shown = [Some l]) /\
     ((30 < n)%nat ->
        shown = [Some (firstn 30 l);
                 Some (firstn (Nat.min n 60 - 30) (skipn 30 l))]) /\
     concat (List.map rowsOrEmpty shown) = firstn 60 l) /\
  (forall v : Q,
     effectiveMaxRows (mkSeriesOpts (Some v)) = Z.max 5 (Qfloor v) /\
     5 <= effectiveMaxRows (mkSeriesOpts (Some v))) /\
  (forall opts,
     let m := Z.to_nat (effectiveMaxRows opts) in
     let shown := List.map prows (drawn (renderSeriesOnlyPng (Some P) opts)) in
     ((n <= m)%nat -> shown = [Some l]) /\
     ((m < n)%nat -> shown = [Some (firstn m l); Some (firstn m (skipn m l))]) /\
     concat (List.map rowsOrEmpty shown) = firstn (2 * m) l) /\
  (forall opts,
     (Z.to_nat (effectiveMaxRows opts) < n)%nat ->
     exists a b,
       drawn (renderSeriesOnlyPng (Some P) opts) = [a; b] /\
       py a = py b /\ pw a = pw b /\ ph a = ph b /\ px b = px a + pw a + GAP).
Proof.
  intros l n.
  assert (Hgen : forall opts,
     let m := Z.to_nat (effectiveMaxRows opts) in
     let shown := List.map prows (drawn (renderSeriesOnlyPng (Some P) opts)) in
     ((n <= m)%nat -> shown = [Some l]) /\
     ((m < n)%nat -> shown = [Some (firstn m l); Some (firstn m (skipn m l))]) /\
     concat (List.map rowsOrEmpty shown) = firstn (2 * m) l).
  { intros opts m shown. subst shown. rewrite (renderSeriesOnly_rows P opts).
    fold l. fold m. fold n.
    destruct (Nat.leb_spec n m) as [Hle | Hgt].
    - repeat split; [lia |].
      cbn. rewrite app_nil_r. symmetry. apply firstn_all2. fold n. lia.
    - repeat split; [lia |].
      cbn [List.map rowsOrEmpty concat]. rewrite app_nil_r, <- firstn_plus.
      f_equal. lia. }
  split; [| split; [| split; [exact Hgen |]]].
  - intros opts Hopts shown.
    assert (Hm : Z.to_nat (effectiveMaxRows opts) = 30%nat)
      by (destruct Hopts; subst opts; reflexivity).
    specialize (Hgen opts). cbv zeta in Hgen. rewrite Hm in Hgen.
    destruct Hgen as (H1 & H2 & H3). fold shown in H1, H2, H3.
    split; [exact H1 | split; [| exact H3]].
    intros Hn. rewrite (H2 Hn). do 2 f_equal.
    destruct (Nat.le_gt_cases n 60) as [Hle | Hgt].
    + rewrite Nat.min_l by lia.
      rewrite !firstn_all2; [reflexivity | |]; rewrite length_skipn; fold n; lia.
    + rewrite Nat.min_r by lia. reflexivity.
  - intros v. split; [reflexivity |]. apply effectiveMaxRows_ge5.
  - intros opts Hlt. pose proof (effectiveMaxRows_ge5 opts) as H5.
    assert (Hn : (effectiveMaxRows opts <? Z.of_nat (length l)) = true)
      by (apply Z.ltb_lt; fold n; lia).
    unfold renderSeriesOnlyPng. fold l. rewrite Hn. cbn [negb drawn].
    eexists _, _. split; [reflexivity |]. cbn [px py pw ph]. now repeat split.
Qed.

(** A row and panels to run the renderers on. *)
Definition sampleRow : Row :=
  mkRow (lit "1") (lit "A. Driver") [] (lit "27") (lit "Pro") (lit "car.png") [] []
        (lit "25") (lit "3") (lit "1") (lit "29") (lit "29") (lit "0") [] [] [] false.

Definition panelOf (n : nat) : Panel :=
  mkPanel (lit "Club 50 Standings") (lit "Auto-updates") (Some (repeat sampleRow n)) None None.

Lemma triple_height_witness :
  canvasH (renderTripleStandingsPng (panelOf 3) (panelOf 20) (panelOf 5)) <=
  canvasH (renderTripleStandingsPng (panelOf 4) (panelOf 31) (panelOf 5)).
Proof.
  apply (proj2 (proj2 (proj2 triple_height_affine_monotone))); vm_compute; lia.
Defined.

Lemma series_only_witness :
  List.map prows (drawn (renderSeriesOnlyPng (Some (panelOf 65)) (mkSeriesOpts None))) =
    [Some (firstn 30 (repeat sampleRow 65));
     Some (firstn (Nat.min 65 60 - 30) (skipn 30 (repeat sampleRow 65)))].
Proof.
  apply (proj1 (series_only_truncates_after_two_columns (panelOf 65)) (mkSeriesOpts None)).
  - left. reflexivity.
  - vm_compute. lia.
Defined.

End RenderSpec.

(** ** index.js: the button cooldown *)

Module IndexSpec.
Import Render Index.

Lemma ceilDiv_spec (a b : Z) :
  0 < b -> b * (ceilDiv a b - 1) < a <= b * ceilDiv a b.
Proof.
  intros Hb. unfold ceilDiv.
  pose proof (Z.div_mod (- a) b ltac:(lia)) as Hdm.
  pose proof (Z.mod_pos_bound (- a) b Hb) as Hm.
  nia.
Qed.

Lemma ceilDiv_pos (a b : Z) : 0 < b -> 0 < a -> 0 < ceilDiv a b.
Proof.
  intros Hb Ha. pose proof (ceilDiv_spec a b Hb). nia.
Qed.

Lemma withCooldowns_same (st : BotState) :
  withCooldowns st (buttonCooldowns st) = st.
Proof. now destruct st. Qed.

(** *** Keys and presses *)

(** Discord ids are decimal numerals; at least they hold no colon. *)
Definition colonFree (u : jsstring) : Prop := Forall (fun c => c <> 58%N) u.

Lemma cooldownKey_injective (u b u' b' : jsstring) :
  colonFree u -> colonFree u' ->
  cooldownKey u b = cooldownKey u' b' -> u = u' /\ b = b'.
Proof.
  unfold cooldownKey, colonFree. change (lit ":") with [58%N]. revert u'.
  induction u as [| c u IH]; intros [| c' u'] Hu Hu' Heq; cbn [app] in Heq.
  - now injection Heq.
  - injection Heq as Hc _. inversion Hu'; subst. congruence.
  - injection Heq as Hc _. inversion Hu; subst. congruence.
  - injection Heq as -> Heq. inversion Hu; inversion Hu'; subst.
    destruct (IH u' ltac:(assumption) ltac:(assumption) Heq) as [-> ->]. now split.
Qed.

(** The time of the last press of this user on this button that was let
    through (answer 0), if any. *)
Definition isAcceptedBy (u b : jsstring) (e : Press * Z) : bool :=
  bool_decide (pressUser (fst e) = u) && bool_decide (pressButton (fst e) = b) &&
  (snd e =? 0).

Definition lastAccepted (log : list (Press * Z)) (u b : jsstring) : option Z :=
  fold_left (fun acc e => if isAcceptedBy u b e then Some (pressTime (fst e)) else acc)
            log None.

Lemma lastAccepted_snoc (log : list (Press * Z)) (e : Press * Z) (u b : jsstring) :
  lastAccepted (log ++ [e]) u b =
    if isAcceptedBy u b e then Some (pressTime (fst e)) else lastAccepted log u b.
Proof. unfold lastAccepted. now rewrite fold_left_app. Qed.

Lemma cooldown_answers (now : Z) (u b : jsstring) (m : gmap jsstring Z) :
  (getButtonCooldownSeconds now u b m = (0, <[cooldownKey u b := now]> m)) \/
  (exists wait, 0 < wait /\ getButtonCooldownSeconds now u b m = (wait, m)).
Proof.
  unfold getButtonCooldownSeconds.
  destruct (Z.ltb_spec (now - default 0 (m !! cooldownKey u b)) BUTTON_COOLDOWN_MS) as [H | H].
  - right. eexists. split; [| reflexivity]. apply ceilDiv_pos; lia.
  - now left.
Qed.

(** After any presses by users with colon-free ids, the map holds, for
    each such user and each button, the time of that user's last accepted
    press of that button. *)
Lemma cooldown_map_tracks_last_accepted (ps : list Press) (u b : jsstring) :
  Forall (fun p => colonFree (pressUser p)) ps -> colonFree u ->
  fst (runPresses ps) !! cooldownKey u b = lastAccepted (snd (runPresses ps)) u b.
Proof.
  intros Hps Hu. unfold runPresses.
  induction ps as [| p ps IH] using rev_ind; [reflexivity |].
  apply Forall_app in Hps. destruct Hps as [Hps Hp].
  inversion Hp as [| ? ? Hpu _]; subst.
  specialize (IH Hps). rewrite fold_left_app. cbn [fold_left].
  destruct (fold_left pressStep ps (∅, [])) as [m log]. cbn [fst snd] in IH.
  unfold pressStep. cbn [fst snd].
  destruct (cooldown_answers (pressTime p) (pressUser p) (pressButton p) m)
    as [-> | (wait & Hpos & ->)]; cbn [fst snd]; rewrite lastAccepted_snoc;
    unfold isAcceptedBy; cbn [fst snd].
  - destruct (decide (pressUser p = u)) as [Heu | Hneu].
    + destruct (decide (pressButton p = b)) as [Heb | Hneb].
      * rewrite !bool_decide_eq_true_2 by assumption. cbn.
        rewrite Heu, Heb. apply lookup_insert_eq.
      * rewrite (bool_decide_eq_false_2 _ Hneb), andb_false_r. cbn.
        rewrite lookup_insert_ne; [exact IH |].
        intros Hk. apply cooldownKey_injective in Hk; [| assumption | assumption].
        now destruct Hk.
    + rewrite (bool_decide_eq_false_2 _ Hneu). cbn.
      rewrite lookup_insert_ne; [exact IH |].
      intros Hk. apply cooldownKey_injective in Hk; [| assumption | assumption].
      now destruct Hk.
  - assert (Hw : (wait =? 0) = false) by (apply Z.eqb_neq; lia).
    rewrite Hw, andb_false_r. exact IH.
Qed.

(** C5.  [getButtonCooldownSeconds] compares the clock with the time
    recorded for the key of this user and button (0 when none is recorded).
    When at least BUTTON_COOLDOWN_MS = 5 minutes have passed, or nothing was
    recorded, it returns 0 and records the current time; otherwise it
    returns the remaining time in seconds, rounded up and positive, and
    leaves the map as it was.  On a positive answer the button handler only
    replies with the wait message: it renders and posts nothing and the
    state keeps its cooldown map.  After any sequence of presses the time
    recorded for a user and a button is the time of that user's last
    accepted press of that button (ids hold no colon, so keys do not
    collide). *)
Theorem button_cooldown_behaviour
    (now : Z) (uid bid : jsstring) (m : gmap jsstring Z) :
  let key := cooldownKey uid bid in
  let last := default 0 (m !! key) in
  let remaining := BUTTON_COOLDOWN_MS - (now - last) in
  BUTTON_COOLDOWN_MS = 5 * 60 * 1000 /\
  (BUTTON_COOLDOWN_MS <= now - last ->
     getButtonCooldownSeconds now uid bid m = (0, <[key := now]> m)) /\
  (m !! key = None -> BUTTON_COOLDOWN_MS <= now ->
     getButtonCooldownSeconds now uid bid m = (0, <[key := now]> m)) /\
  (now - last < BUTTON_COOLDOWN_MS ->
     let wait := fst (getButtonCooldownSeconds now uid bid m) in
     getButtonCooldownSeconds now uid bid m = (wait, m) /\
     0 < wait /\
     1000 * (wait - 1) < remaining <= 1000 * wait) /\
  (forall fractionToString st i,
     buttonCooldowns st = m -> userId i = uid -> customId i = bid ->
     let wait := fst (getButtonCooldownSeconds now uid bid m) in
     0 < wait ->
     let '(st', evs) := onButton fractionToString now st i in
     st' = st /\
     evs = (if deferred i then [] else [EvDeferReply]) ++
           [EvEditReply (ReplyPleaseWait wait); EvAutoDeleteReply 5000] /\
     existsb isRenderEvent evs = false) /\
  (forall ps : list Press,
     Forall (fun p => colonFree (pressUser p)) ps -> colonFree uid ->
     fst (runPresses ps) !! cooldownKey uid bid = lastAccepted (snd (runPresses ps)) uid bid).
Proof.
  intros key last remaining.
  assert (Hfree : BUTTON_COOLDOWN_MS <= now - last ->
                  getButtonCooldownSeconds now uid bid m = (0, <[key := now]> m)).
  { intros H. unfold getButtonCooldownSeconds. fold key. fold last.
    now rewrite (proj2 (Z.ltb_ge _ _) H). }
  assert (Hblocked : now - last < BUTTON_COOLDOWN_MS ->
                     getButtonCooldownSeconds now uid bid m =
                       (ceilDiv remaining 1000, m)).
  { intros H. unfold getButtonCooldownSeconds. fold key. fold last.
    now rewrite (proj2 (Z.ltb_lt _ _) H). }
  split; [reflexivity |].
  split; [exact Hfree |].
  split.
  { intros Hnone Hnow. apply Hfree. subst last. rewrite Hnone. cbn. lia. }
  split.
  { intros H. rewrite (Hblocked H). cbn [fst].
    split; [reflexivity |].
    split; [apply ceilDiv_pos; subst remaining; lia |].
    apply ceilDiv_spec. lia. }
  split; [| intros ps Hps Hu; now apply cooldown_map_tracks_last_accepted].
  intros fts st i Hm Hu Hb wait Hwait.
  assert (Hlt : now - last < BUTTON_COOLDOWN_MS).
  { destruct (Z.lt_ge_cases (now - last) BUTTON_COOLDOWN_MS) as [H | H]; [exact H |].
    subst wait. rewrite (Hfree H) in Hwait. cbn in Hwait. lia. }
  unfold onButton. rewrite Hu, Hb, Hm.
  subst wait. rewrite (Hblocked Hlt) in *. cbn [fst] in *.
  rewrite (proj2 (Z.ltb_lt _ _) Hwait).
  rewrite <- Hm, withCooldowns_same.
  split; [reflexivity |].
  split; [reflexivity |].
  now destruct (deferred i).
Qed.

(** ** index.js: the fetcher *)

Section Fetcher.
Variable net : nat -> Attempt.
Variable url : jsstring.
Variable attempts : nat.

(** What a run of the loop does when every attempt it makes fails: one
    fetch per attempt, and a sleep of 700 + 500 i after attempt i unless it
    is the last one. *)
Definition failedAttemptEvents (i : nat) : list FetchEvent :=
  EvFetch i ::
  (if Z.of_nat i <? Z.of_nat attempts - 1 then [EvSleep (700 + Z.of_nat i * 500)] else []).

Lemma attemptOnce_ok (a : Attempt) (text : jsstring) :
  attemptOnce url a = inr text ->
  includes text MARKER = true /\ exists status, a = Response true status text.
Proof.
  unfold attemptOnce.
  destruct a as [reason | ok status body]; [discriminate |].
  destruct ok; cbn [negb]; [| discriminate].
  destruct (includes body MARKER) eqn:Hinc; cbn [negb]; [| discriminate].
  intros [= <-]. eauto.
Qed.

Lemma attemptOnce_failed (ok : bool) (status : Z) (body : jsstring) :
  ok = false \/ includes body MARKER = false ->
  exists e, attemptOnce url (Response ok status body) = inl e /\
            e = if ok then ErrMissingMarker else ErrStatus status url.
Proof.
  unfold attemptOnce.
  intros [-> | H]; cbn [negb]; [eauto |].
  destruct ok; cbn [negb]; [rewrite H |]; eauto.
Qed.

Lemma retryLoop_returns remaining i lastErr text :
  fst (retryLoop net url attempts remaining i lastErr) = inr text ->
  exists j, (i <= j < i + remaining)%nat /\ attemptOnce url (net j) = inr text.
Proof.
  revert i lastErr. induction remaining as [| r IH]; intros i lastErr; cbn.
  - discriminate.
  - destruct (attemptOnce url (net i)) as [e | t] eqn:Ha.
    + destruct (retryLoop net url attempts r (S i) (Some e)) as [res evs] eqn:Hl.
      cbn. intros Hres.
      destruct (IH (S i) (Some e)) as (j & Hj & Hj'); [now rewrite Hl |].
      exists j. split; [lia | exact Hj'].
    + cbn. intros [= <-]. exists i. split; [lia | exact Ha].
Qed.

Lemma retryLoop_all_fail (err : nat -> FetchError) remaining i lastErr :
  (forall j, (i <= j < i + remaining)%nat -> attemptOnce url (net j) = inl (err j)) ->
  retryLoop net url attempts remaining i lastErr =
    (inl (match remaining with
          | O => match lastErr with Some e => e | None => ErrFetchFailed end
          | S r => err (i + r)%nat
          end),
     flat_map failedAttemptEvents (seq i remaining)).
Proof.
  revert i lastErr. induction remaining as [| r IH]; intros i lastErr Hall; cbn.
  - reflexivity.
  - rewrite (Hall i) by lia.
    rewrite (IH (S i) (Some (err i))) by (intros j Hj; apply Hall; lia).
    unfold failedAttemptEvents at 2. cbn. f_equal. f_equal.
    destruct r; [now rewrite Nat.add_0_r |].
    f_equal. lia.
Qed.

Lemma retryLoop_first_success (err : nat -> FetchError) failures i lastErr rest text :
  (forall j, (i <= j < i + failures)%nat -> attemptOnce url (net j) = inl (err j)) ->
  attemptOnce url (net (i + failures)%nat) = inr text ->
  (i + failures < attempts)%nat ->
  retryLoop net url attempts (failures + S rest) i lastErr =
    (inr text,
     flat_map (fun j => [EvFetch j; EvSleep (700 + Z.of_nat j * 500)]) (seq i failures) ++
     [EvFetch (i + failures)%nat]).
Proof.
  revert i lastErr. induction failures as [| f IH]; intros i lastErr Hfail Hok Hlt; cbn.
  - rewrite Nat.add_0_r in *. now rewrite Hok.
  - rewrite (Hfail i) by lia.
    rewrite (IH (S i) (Some (err i))).
    + assert (Hs : (Z.of_nat i <? Z.of_nat attempts - 1) = true) by (apply Z.ltb_lt; lia).
      rewrite Hs. cbn. now rewrite Nat.add_succ_r.
    + intros j Hj. apply Hfail. lia.
    + now replace (S i + f)%nat with (i + S f)%nat by lia.
    + lia.
Qed.

End Fetcher.

(** C3.  [fetchHtmlWithRetry] returns a page only if the page contains the
    marker "PageContent_TeamsView_DXMainTable" (and was the ok response of
    one of the attempts).  A response that is not ok, or whose body lacks the
    marker, is a failed attempt.  Failed attempts are followed by a sleep of
    700 + 500 i milliseconds before the next attempt; when attempt number k
    is the first to succeed its page is returned, and when all attempts (3
    by default) fail the error of the last attempt is thrown. *)
Theorem fetch_validates_marker_and_retries
    (net : nat -> Attempt) (url : jsstring) (attempts : nat) :
  MARKER = lit "PageContent_TeamsView_DXMainTable" /\
  defaultAttempts = 3%nat /\
  (forall has text,
     fst (fetchHtmlWithRetry has net url attempts) = inr text ->
     includes text MARKER = true /\
     exists j status, (j < attempts)%nat /\ net j = Response true status text) /\
  (forall ok status body,
     ok = false \/ includes body MARKER = false ->
     exists e, attemptOnce url (Response ok status body) = inl e) /\
  (forall (err : nat -> FetchError) k text,
     (k < attempts)%nat ->
     (forall j, (j < k)%nat -> attemptOnce url (net j) = inl (err j)) ->
     attemptOnce url (net k) = inr text ->
     fetchHtmlWithRetry true net url attempts =
       (inr text,
        flat_map (fun j => [EvFetch j; EvSleep (700 + Z.of_nat j * 500)]) (seq 0 k) ++
        [EvFetch k])) /\
  (forall (err : nat -> FetchError),
     (1 <= attempts)%nat ->
     (forall j, (j < attempts)%nat -> attemptOnce url (net j) = inl (err j)) ->
     fetchHtmlWithRetry true net url attempts =
       (inl (err (attempts - 1)%nat),
        flat_map (failedAttemptEvents attempts) (seq 0 attempts))) /\
  (forall (err : nat -> FetchError),
     attempts = defaultAttempts ->
     (forall j, (j < 3)%nat -> attemptOnce url (net j) = inl (err j)) ->
     fetchHtmlWithRetry true net url attempts =
       (inl (err 2%nat), [EvFetch 0; EvSleep 700; EvFetch 1; EvSleep 1200; EvFetch 2])).
Proof.
  split; [reflexivity |]. split; [reflexivity |].
  assert (Hall : forall err : nat -> FetchError,
     (1 <= attempts)%nat ->
     (forall j, (j < attempts)%nat -> attemptOnce url (net j) = inl (err j)) ->
     fetchHtmlWithRetry true net url attempts =
       (inl (err (attempts - 1)%nat),
        flat_map (failedAttemptEvents attempts) (seq 0 attempts))).
  { intros err Hpos Hfail. unfold fetchHtmlWithRetry. cbn [negb].
    rewrite (retryLoop_all_fail net url attempts err) by (intros j Hj; apply Hfail; lia).
    destruct attempts as [| a]; [lia |].
    do 3 f_equal. lia. }
  repeat split.
  - destruct has; cbn in H; [| discriminate].
    apply retryLoop_returns in H. destruct H as (j & _ & Hj).
    now apply attemptOnce_ok in Hj.
  - destruct has; cbn in H; [| discriminate].
    apply retryLoop_returns in H. destruct H as (j & Hlt & Hj).
    apply attemptOnce_ok in Hj. destruct Hj as (_ & status & Hj).
    exists j, status. split; [lia | exact Hj].
  - intros ok status body H.
    destruct (attemptOnce_failed url ok status body H) as (e & He & _). eauto.
  - intros err k text Hk Hfail Hok. unfold fetchHtmlWithRetry. cbn [negb].
    replace attempts with (k + S (attempts - S k))%nat at 2 by lia.
    apply (retryLoop_first_success net url attempts err); auto.
    intros j Hj. apply Hfail. lia.
  - exact Hall.
  - intros err -> Hfail. apply (Hall err); [unfold defaultAttempts; lia | exact Hfail].
Qed.

(** ** index.js: the refresh lock *)

Definition isRunning (p : Phase) : bool :=
  match p with Running => true | _ => false end.

Definition runningCount (ps : list Phase) : nat :=
  length (List.filter isRunning ps).

Lemma runningCount_app (ps qs : list Phase) :
  runningCount (ps ++ qs) = (runningCount ps + runningCount qs)%nat.
Proof. unfold runningCount. now rewrite List.filter_app, length_app. Qed.

Lemma runningCount_cons (a : Phase) (ps : list Phase) :
  runningCount (a :: ps) = ((if isRunning a then 1 else 0) + runningCount ps)%nat.
Proof. unfold runningCount. cbn. now destruct (isRunning a). Qed.

Lemma runningCount_insert (ps : list Phase) (i : nat) (p q : Phase) :
  ps !! i = Some p ->
  (runningCount (<[i := q]> ps) + (if isRunning p then 1 else 0) =
   runningCount ps + (if isRunning q then 1 else 0))%nat.
Proof.
  revert i. induction ps as [| a ps IH]; intros [| i] H; try discriminate.
  - injection H as ->. change (<[0%nat := q]> (p :: ps)) with (q :: ps).
    rewrite !runningCount_cons. lia.
  - change (ps !! i = Some p) in H. specialize (IH i H).
    change (<[S i := q]> (a :: ps)) with (a :: <[i := q]> ps).
    rewrite !runningCount_cons. lia.
Qed.

Lemma runningCount_lookup (ps : list Phase) (i : nat) :
  ps !! i = Some Running -> (1 <= runningCount ps)%nat.
Proof.
  revert i. induction ps as [| a ps IH]; intros [| i] H; try discriminate.
  - injection H as ->. rewrite runningCount_cons. cbn. lia.
  - change (ps !! i = Some Running) in H. specialize (IH i H).
    rewrite runningCount_cons. lia.
Qed.

Lemma runningCount_two (ps : list Phase) (i j : nat) :
  ps !! i = Some Running -> ps !! j = Some Running -> i <> j ->
  (2 <= runningCount ps)%nat.
Proof.
  revert i j. induction ps as [| a ps IH]; intros [| i] [| j] Hi Hj Hne;
    try discriminate; try congruence.
  - injection Hi as ->. change (ps !! j = Some Running) in Hj.
    apply runningCount_lookup in Hj. rewrite runningCount_cons. cbn. lia.
  - injection Hj as ->. change (ps !! i = Some Running) in Hi.
    apply runningCount_lookup in Hi. rewrite runningCount_cons. cbn. lia.
  - change (ps !! i = Some Running) in Hi. change (ps !! j = Some Running) in Hj.
    assert (Hne' : i <> j) by congruence.
    specialize (IH i j Hi Hj Hne'). rewrite runningCount_cons. lia.
Qed.

Lemma runningCount_pos (ps : list Phase) :
  (1 <= runningCount ps)%nat -> exists i, ps !! i = Some Running.
Proof.
  induction ps as [| a ps IH]; [unfold runningCount; cbn; lia |].
  rewrite runningCount_cons. destruct a; cbn; intros H.
  - destruct (IH H) as [i Hi]. now exists (S i).
  - now exists 0%nat.
  - destruct (IH H) as [i Hi]. now exists (S i).
Qed.

Lemma refreshEnter_cases (now : Z) (g : RefreshState) :
  (now - lastRefreshAt g < REFRESH_COOLDOWN_MS /\
   refreshEnter now g =
     (g, Some (RefreshPleaseWait
                 (ceilDiv (REFRESH_COOLDOWN_MS - (now - lastRefreshAt g)) 1000)))) \/
  (REFRESH_COOLDOWN_MS <= now - lastRefreshAt g /\ refreshLock g = true /\
   refreshEnter now g = (g, Some RefreshAlreadyRunning)) \/
  (REFRESH_COOLDOWN_MS <= now - lastRefreshAt g /\ refreshLock g = false /\
   refreshEnter now g = (mkRefreshState true now, None)).
Proof.
  unfold refreshEnter.
  destruct (Z.ltb_spec (now - lastRefreshAt g) REFRESH_COOLDOWN_MS) as [H | H].
  - left. auto.
  - right. destruct (refreshLock g); [left | right]; auto.
Qed.

(** The lock is held exactly while one invocation is inside its [try]
    block. *)
Lemma lock_counts_running (s : Sys) :
  reachable s ->
  runningCount (procs s) = if refreshLock (glob s) then 1%nat else 0%nat.
Proof.
  induction 1 as [| s s' Hreach IH Hstep]; [reflexivity |].
  destruct Hstep as [s | s i now Hi | s i o Hi]; cbn [procs glob].
  - rewrite runningCount_app. change (runningCount [Deferring]) with 0%nat. lia.
  - pose proof (runningCount_insert (procs s) i Deferring Finished Hi) as Hfin.
    pose proof (runningCount_insert (procs s) i Deferring Running Hi) as Hrun.
    cbn [isRunning] in Hfin, Hrun.
    destruct (refreshEnter_cases now (glob s)) as [(_ & ->) | [(_ & _ & ->) | (_ & Hl & ->)]];
      cbn [procs glob refreshLock].
    + lia.
    + lia.
    + rewrite Hl in IH. lia.
  - pose proof (runningCount_insert (procs s) i Running Finished Hi) as Hfin.
    pose proof (runningCount_lookup (procs s) i Hi) as Hpos.
    cbn [isRunning] in Hfin. change (refreshLock (refreshLeave (glob s))) with false.
    destruct (refreshLock (glob s)); lia.
Qed.

(** Every event of scraping, rendering or posting comes after the same
    invocation took the lock. *)
Definition lockedBefore (t : list (nat * RefreshEvent)) (k i : nat) : Prop :=
  exists k', (k' < k)%nat /\ t !! k' = Some (i, RvSetLock true).

Lemma work_after_lock (s : Sys) :
  reachable s ->
  (forall i, procs s !! i = Some Running ->
     exists k', trace s !! k' = Some (i, RvSetLock true)) /\
  (forall k i e, trace s !! k = Some (i, e) -> isWorkEvent e = true ->
     lockedBefore (trace s) k i).
Proof.
  induction 1 as [| s s' Hreach [IHrun IHwork] Hstep].
  - split; intros; discriminate.
  - assert (Hold : forall new k i e,
              (forall k0 e0, new !! k0 = Some (i, e0) -> isWorkEvent e0 = true ->
                 exists k', trace s !! k' = Some (i, RvSetLock true)) ->
              (trace s ++ new) !! k = Some (i, e) -> isWorkEvent e = true ->
              lockedBefore (trace s ++ new) k i).
    { intros new k i e Hnew Hk He.
      apply lookup_app_Some in Hk. destruct Hk as [Hk | [Hge Hk]].
      - destruct (IHwork k i e Hk He) as (k' & Hlt & Hk').
        exists k'. split; [exact Hlt |]. now apply lookup_app_l_Some.
      - destruct (Hnew _ _ Hk He) as (k' & Hk').
        exists k'. split.
        + apply lookup_lt_Some in Hk'. lia.
        + now apply lookup_app_l_Some. }
    assert (Hkeep : forall new i,
              (exists k', trace s !! k' = Some (i, RvSetLock true)) ->
              exists k', (trace s ++ new) !! k' = Some (i, RvSetLock true)).
    { intros new i (k' & Hk'). exists k'. now apply lookup_app_l_Some. }
    destruct Hstep as [s | s i now Hi | s i o Hi]; cbn [procs trace].
    + split.
      * intros j Hj. apply Hkeep, IHrun.
        apply lookup_app_Some in Hj. destruct Hj as [Hj | [_ Hj]]; [exact Hj |].
        destruct (j - length (procs s))%nat; cbn in Hj; [congruence | discriminate].
      * intros k j e Hk He. apply (Hold _ k j e); auto.
        intros [| k0] e0 H0 He0; cbn in H0; [| discriminate].
        injection H0 as _ <-. discriminate.
    + destruct (refreshEnter now (glob s)) as [g' [r |]]; cbn [procs trace]; split.
      * intros j Hj. apply Hkeep, IHrun.
        destruct (decide (i = j)) as [-> | Hne].
        -- rewrite list_lookup_insert_eq in Hj by (now apply lookup_lt_Some in Hi).
           discriminate.
        -- now rewrite list_lookup_insert_ne in Hj.
      * intros k j e Hk He. apply (Hold _ k j e); auto.
        intros [| [| k0]] e0 H0 He0; cbn in H0; try discriminate;
          injection H0 as _ <-; discriminate.
      * intros j Hj. destruct (decide (i = j)) as [-> | Hne].
        -- exists (length (trace s)). rewrite lookup_app_r by lia.
           now rewrite Nat.sub_diag.
        -- rewrite list_lookup_insert_ne in Hj by exact Hne.
           apply Hkeep, IHrun, Hj.
      * intros k j e Hk He. apply (Hold _ k j e); auto.
        intros [| k0] e0 H0 He0; cbn in H0; [| discriminate].
        injection H0 as _ <-. discriminate.
    + split.
      * intros j Hj. apply Hkeep, IHrun.
        destruct (decide (i = j)) as [-> | Hne].
        -- rewrite list_lookup_insert_eq in Hj by (now apply lookup_lt_Some in Hi).
           discriminate.
        -- now rewrite list_lookup_insert_ne in Hj.
      * intros k j e Hk He. apply (Hold _ k j e); auto.
        intros k0 e0 H0 _. apply IHrun.
        unfold tag in H0. rewrite list_lookup_fmap in H0.
        destruct ((refreshTry o ++ [RvSetLock false]) !! k0); cbn in H0; [| discriminate].
        injection H0 as <- _. exact Hi.
Qed.

(** C6.  [handleRefreshCommand] invoked less than REFRESH_COOLDOWN_MS = 30 s
    after the last accepted refresh, or while [refreshLock] is set, only
    replies (wait or busy): no scrape, render or post, and the two variables
    stay as they are.  An accepted refresh sets [refreshLock] before any
    scraping and resets it in the [finally] block whatever the [try] block
    did, so it ends with the lock released and [lastRefreshAt] at its own
    time.  With invocations interleaved at their [await]s, the lock is set
    exactly while one (and only one) invocation is between acceptance and
    its [finally]; so whenever no refresh is in progress the lock is
    released, and work is only ever done by an invocation holding it. *)
Theorem refresh_lock_and_cooldown :
  REFRESH_COOLDOWN_MS = 30000 /\
  (forall now o g,
     now - lastRefreshAt g < REFRESH_COOLDOWN_MS \/ refreshLock g = true ->
     exists r,
       handleRefreshCommand now o g =
         (g, [RvDeferReply; RvEditReply r; RvAutoDeleteReply 10000]) /\
       (r = RefreshAlreadyRunning \/ exists secs, r = RefreshPleaseWait secs /\ 0 < secs) /\
       existsb isWorkEvent (snd (handleRefreshCommand now o g)) = false) /\
  (forall now o g,
     REFRESH_COOLDOWN_MS <= now - lastRefreshAt g -> refreshLock g = false ->
     handleRefreshCommand now o g =
       (mkRefreshState false now,
        [RvDeferReply; RvSetLock true] ++ refreshTry o ++ [RvSetLock false])) /\
  (forall now o g,
     refreshLock g = false ->
     refreshLock (fst (handleRefreshCommand now o g)) = false) /\
  (forall s, reachable s ->
     (refreshLock (glob s) = true <-> exists i, procs s !! i = Some Running) /\
     (forall i j, procs s !! i = Some Running -> procs s !! j = Some Running -> i = j) /\
     ((forall i, procs s !! i <> Some Running) -> refreshLock (glob s) = false) /\
     (forall k i e, trace s !! k = Some (i, e) -> isWorkEvent e = true ->
        exists k', (k' < k)%nat /\ trace s !! k' = Some (i, RvSetLock true))).
Proof.
  split; [reflexivity |].
  split; [| split; [| split]].
  - intros now o g Hrej. unfold handleRefreshCommand.
    destruct (refreshEnter_cases now g) as [(Hlt & ->) | [(_ & _ & ->) | (Hge & Hl & _)]].
    + eexists. split; [reflexivity |]. split; [| reflexivity].
      right. eexists. split; [reflexivity |].
      apply ceilDiv_pos; lia.
    + eexists. split; [reflexivity |]. split; [now left | reflexivity].
    + destruct Hrej as [Hrej | Hrej]; [lia | congruence].
  - intros now o g Hge Hl. unfold handleRefreshCommand.
    destruct (refreshEnter_cases now g) as [(Hlt & _) | [(_ & Hl' & _) | (_ & _ & ->)]];
      [lia | congruence | reflexivity].
  - intros now o g Hl. unfold handleRefreshCommand.
    destruct (refreshEnter_cases now g) as [(_ & ->) | [(_ & _ & ->) | (_ & _ & ->)]];
      cbn; auto.
  - intros s Hreach.
    pose proof (lock_counts_running s Hreach) as Hcount.
    destruct (work_after_lock s Hreach) as [_ Hwork].
    split; [split |]; [| | split; [| split]].
    + intros Hl. rewrite Hl in Hcount. apply runningCount_pos. lia.
    + intros [i Hi]. apply runningCount_lookup in Hi.
      destruct (refreshLock (glob s)); [reflexivity | lia].
    + intros i j Hi Hj. destruct (decide (i = j)) as [| Hne]; [assumption |].
      pose proof (runningCount_two _ i j Hi Hj Hne).
      destruct (refreshLock (glob s)); lia.
    + intros Hnone. destruct (refreshLock (glob s)); [| reflexivity].
      destruct (runningCount_pos (procs s)) as [i Hi]; [lia |].
      now destruct (Hnone i).
    + exact Hwork.
Qed.

(** Concrete runs. *)
Lemma button_cooldown_witness :
  getButtonCooldownSeconds 1700000000000 (lit "1234") (lit "oor_class_red") ∅ =
    (0, <[cooldownKey (lit "1234") (lit "oor_class_red") := 1700000000000]> ∅).
Proof.
  apply (proj1 (proj2 (proj2
           (button_cooldown_behaviour 1700000000000 (lit "1234") (lit "oor_class_red") ∅)))).
  - apply lookup_empty.
  - vm_compute. discriminate.
Defined.

Definition secondAttemptWorks (i : nat) : Attempt :=
  if (i =? 1)%nat then Response true 200 (lit "<table id=" ++ MARKER ++ lit ">")
  else Response false 503 [].

Lemma fetch_retry_witness :
  fetchHtmlWithRetry true secondAttemptWorks (lit "https://example.org/") 3 =
    (inr (lit "<table id=" ++ MARKER ++ lit ">"), [EvFetch 0; EvSleep 700; EvFetch 1]).
Proof.
  apply (proj1 (proj2 (proj2 (proj2 (proj2
           (fetch_validates_marker_and_retries secondAttemptWorks
              (lit "https://example.org/") 3)))))
           (fun _ => ErrStatus 503 (lit "https://example.org/")) 1%nat).
  - lia.
  - intros j Hj. assert (j = 0%nat) as -> by lia. reflexivity.
  - vm_compute. reflexivity.
Defined.

Lemma refresh_lock_witness :
  exists r,
    handleRefreshCommand 1700000040000 (Refreshed true) (mkRefreshState true 1700000000000) =
      (mkRefreshState true 1700000000000,
       [RvDeferReply; RvEditReply r; RvAutoDeleteReply 10000]) /\
    (r = RefreshAlreadyRunning \/ exists secs, r = RefreshPleaseWait secs /\ 0 < secs) /\
    existsb isWorkEvent
      (snd (handleRefreshCommand 1700000040000 (Refreshed true)
              (mkRefreshState true 1700000000000))) = false.
Proof.
  apply (proj1 (proj2 refresh_lock_and_cooldown)).
  right. reflexivity.
Defined.

End IndexSpec.

(** ** index.js: hash-based change detection *)

Module TrackerSpec.
Import Render Index.

(** The message the configuration tracks, if it still exists in the
    channel. *)
Definition tracked (mid : option jsstring) (ch : Channel) : option Message :=
  if truthy mid then ch !! orElse mid [] else None.

(** Both SimGrid URLs are configured. *)
Definition simgridConfigured (cfg : Config) : Prop :=
  isEmpty (trim (orElse (simgridHypercarUrl cfg) [])) = false /\
  isEmpty (trim (orElse (simgridLmgt3Url cfg) [])) = false.

Lemma unchanged_iff (h : option jsstring) (d : jsstring) :
  length d = 40%nat ->
  truthy h && bool_decide (h = Some d) = true <-> h = Some d.
Proof.
  intros Hd. split.
  - intros H. apply andb_true_iff in H. destruct H as [_ H].
    now apply bool_decide_eq_true in H.
  - intros ->. destruct d; [discriminate |]. cbn.
    now apply bool_decide_eq_true.
Qed.

Lemma unchanged_false (h : option jsstring) (d : jsstring) :
  length d = 40%nat ->
  truthy h && bool_decide (h = Some d) = false <-> h <> Some d.
Proof.
  intros Hd. pose proof (unchanged_iff h d Hd) as H.
  destruct (truthy h && bool_decide (h = Some d)); split; intros H1.
  - discriminate.
  - exfalso. apply H1. now apply H.
  - intros H2. apply H in H2. discriminate.
  - reflexivity.
Qed.

Lemma is_Some_true {A} (o : option A) (x : A) :
  o = Some x -> bool_decide (is_Some o) = true.
Proof. intros ->. apply bool_decide_eq_true. eauto. Qed.

Lemma is_Some_false {A} (o : option A) :
  o = None -> bool_decide (is_Some o) = false.
Proof. intros ->. apply bool_decide_eq_false. intros [x Hx]. discriminate. Qed.

Section Simgrid.
Variable sha1 : jsstring -> jsstring.
Variable stringifySimgrid : list Row -> list Row -> jsstring.
Hypothesis sha1_hex : forall s, length (sha1 s) = 40%nat.

Variables (cfg : Config) (ch : Channel) (old : option (Panel * Panel)).
Variables (force : bool) (now : Z) (hyper lmgt3 : list Row) (sentId : jsstring).
Hypothesis configured : simgridConfigured cfg.
Hypothesis valid : existsb looksLikeUrl hyper || existsb looksLikeUrl lmgt3 = false.

Let out := checkAndPostSimgrid sha1 stringifySimgrid cfg ch old force now
             (Some hyper) (Some lmgt3) sentId.
Let digest := sha1 (stringifySimgrid hyper lmgt3).

Lemma simgrid_render_iff :
  existsb isRender (sgEvents out) = true <->
  simgridLastHash cfg <> Some digest \/
  tracked (simgridMessageId cfg) ch = None \/
  force = true.
Proof.
  subst out. unfold checkAndPostSimgrid.
  destruct configured as [Hh Hl]. rewrite Hh, Hl. cbn [orb]. rewrite valid.
  fold digest.
  pose proof (unchanged_iff (simgridLastHash cfg) digest (sha1_hex _)) as Hu.
  pose proof (unchanged_false (simgridLastHash cfg) digest (sha1_hex _)) as Hu'.
  unfold tracked.
  destruct (truthy (simgridLastHash cfg) && bool_decide (simgridLastHash cfg = Some digest));
    destruct force; destruct (truthy (simgridMessageId cfg));
    destruct (ch !! orElse (simgridMessageId cfg) []) as [m |] eqn:Hm;
    rewrite ?(is_Some_true _ _ Hm), ?(is_Some_false _ Hm); cbn;
    intuition congruence.
Qed.

Lemma simgrid_text_only (id : jsstring) (m : Message) :
  simgridLastHash cfg = Some digest ->
  simgridMessageId cfg = Some id ->
  tracked (simgridMessageId cfg) ch = Some m ->
  force = false ->
  sgError out = None /\
  sgEvents out = [TvEditText id; TvSaveConfig] /\
  sgChannel out =
    <[id := mkMessage (simgridContent (orElse (simgridLastUpdated cfg) (discordTimestamp now))
                                      (discordTimestamp now))
                      (files m) SimgridActionRows]> ch /\
  sgChannel out !! id ≫= (fun m' => Some (files m')) = Some (files m) /\
  simgridLastHash (sgConfig out) = Some digest /\
  simgridMessageId (sgConfig out) = Some id.
Proof.
  intros Hh Hid Htr Hf.
  subst out. unfold checkAndPostSimgrid.
  destruct configured as [Hc1 Hc2]. rewrite Hc1, Hc2. cbn [orb]. rewrite valid.
  fold digest.
  rewrite (proj2 (unchanged_iff (simgridLastHash cfg) digest (sha1_hex _)) Hh).
  unfold tracked in Htr. rewrite Hid in *.
  destruct id as [| c id]; [discriminate |]. cbn [truthy orElse] in *.
  rewrite (is_Some_true _ _ Htr). rewrite Hf. cbn [negb orb andb].
  cbn [sgError sgEvents sgChannel sgConfig withSimgrid simgridLastHash simgridMessageId].
  unfold editText. rewrite Htr.
  repeat split; try assumption.
  now rewrite lookup_insert_eq.
Qed.

End Simgrid.

Section ApplyUpdate.
Variable sha1 : jsstring -> jsstring.
Variable stringifyMain : Panel -> Panel -> Panel -> jsstring.
Hypothesis sha1_hex : forall s, length (sha1 s) = 40%nat.

Variables (cfg : Config) (ch : Channel) (club50 yellow red : Panel).
Variables (now : Z) (sentId : jsstring).

Let out := IndexV1.applyUpdate sha1 stringifyMain cfg ch club50 yellow red now sentId.
Let digest := sha1 (stringifyMain club50 yellow red).

Lemma applyUpdate_render_iff :
  existsb isRender (IndexV1.auEvents out) = true <->
  lastHash cfg <> Some digest \/ tracked (messageId cfg) ch = None.
Proof.
  subst out. unfold IndexV1.applyUpdate. fold digest.
  pose proof (unchanged_iff (lastHash cfg) digest (sha1_hex _)) as Hu.
  pose proof (unchanged_false (lastHash cfg) digest (sha1_hex _)) as Hu'.
  unfold tracked.
  destruct (truthy (lastHash cfg) && bool_decide (lastHash cfg = Some digest));
    destruct (truthy (messageId cfg));
    destruct (ch !! orElse (messageId cfg) []) as [m |] eqn:Hm; cbn;
    intuition congruence.
Qed.

Lemma applyUpdate_text_only (id : jsstring) (m : Message) :
  lastHash cfg = Some digest ->
  messageId cfg = Some id ->
  tracked (messageId cfg) ch = Some m ->
  IndexV1.auEvents out = [TvEditText id; TvSaveConfig] /\
  IndexV1.auChannel out =
    <[id := mkMessage (IndexV1.buildContent (orElse (lastUpdated cfg) (discordTimestamp now))
                                            (discordTimestamp now))
                      (files m) ButtonsRow]> ch /\
  IndexV1.auChannel out !! id ≫= (fun m' => Some (files m')) = Some (files m) /\
  lastHash (IndexV1.auConfig out) = Some digest.
Proof.
  intros Hh Hid Htr.
  subst out. unfold IndexV1.applyUpdate. fold digest.
  rewrite (proj2 (unchanged_iff (lastHash cfg) digest (sha1_hex _)) Hh).
  unfold tracked in Htr. rewrite Hid in *.
  destruct id as [| c id]; [discriminate |]. cbn [truthy orElse] in *.
  rewrite Htr.
  cbn [IndexV1.auEvents IndexV1.auChannel IndexV1.auConfig IndexV1.withMain lastHash].
  unfold editText. rewrite Htr.
  repeat split.
  now rewrite lookup_insert_eq.
Qed.

End ApplyUpdate.

(** C1.  Each check hashes the freshly parsed rows (SHA-1 of their
    serialisation, a 40-digit hexadecimal string) and compares the digest
    with the persisted one.  For the SimGrid pane ([checkAndPostSimgrid],
    once the URLs are configured and the scrape passed validation) the image
    is rendered exactly when the digest differs from the stored hash, the
    tracked message is missing, or the refresh is forced; for [applyUpdate],
    which has no force flag, exactly when the digest differs or the tracked
    message is missing.  In the remaining case (same digest, tracked message
    present, not forced) the only effect on the channel is an edit of the
    text of the tracked message, whose "Last checked" line gets the current
    time while "Last updated" keeps the stored one: its attachment is the
    one it had, and the stored hash stays. *)
Theorem rerender_exactly_when_needed
    (sha1 : jsstring -> jsstring)
    (stringifySimgrid : list Row -> list Row -> jsstring)
    (stringifyMain : Panel -> Panel -> Panel -> jsstring) :
  (forall s, length (sha1 s) = 40%nat) ->
  (forall cfg ch old force now hyper lmgt3 sentId,
     simgridConfigured cfg ->
     existsb looksLikeUrl hyper || existsb looksLikeUrl lmgt3 = false ->
     let out := checkAndPostSimgrid sha1 stringifySimgrid cfg ch old force now
                  (Some hyper) (Some lmgt3) sentId in
     let digest := sha1 (stringifySimgrid hyper lmgt3) in
     (existsb isRender (sgEvents out) = true <->
        simgridLastHash cfg <> Some digest \/
        tracked (simgridMessageId cfg) ch = None \/
        force = true) /\
     (forall id m,
        simgridLastHash cfg = Some digest ->
        simgridMessageId cfg = Some id ->
        tracked (simgridMessageId cfg) ch = Some m ->
        force = false ->
        sgEvents out = [TvEditText id; TvSaveConfig] /\
        sgChannel out =
          <[id := mkMessage (simgridContent (orElse (simgridLastUpdated cfg) (discordTimestamp now))
                                            (discordTimestamp now))
                            (files m) SimgridActionRows]> ch /\
        simgridLastHash (sgConfig out) = Some digest)) /\
  (forall cfg ch club50 yellow red now sentId,
     let out := IndexV1.applyUpdate sha1 stringifyMain cfg ch club50 yellow red now sentId in
     let digest := sha1 (stringifyMain club50 yellow red) in
     (existsb isRender (IndexV1.auEvents out) = true <->
        lastHash cfg <> Some digest \/ tracked (messageId cfg) ch = None) /\
     (forall id m,
        lastHash cfg = Some digest ->
        messageId cfg = Some id ->
        tracked (messageId cfg) ch = Some m ->
        IndexV1.auEvents out = [TvEditText id; TvSaveConfig] /\
        IndexV1.auChannel out =
          <[id := mkMessage (IndexV1.buildContent (orElse (lastUpdated cfg) (discordTimestamp now))
                                                  (discordTimestamp now))
                            (files m) ButtonsRow]> ch /\
        lastHash (IndexV1.auConfig out) = Some digest)).
Proof.
  intros Hsha. split.
  - intros cfg ch old force now hyper lmgt3 sentId Hconf Hvalid out digest. split.
    + apply simgrid_render_iff; assumption.
    + intros id m Hh Hid Htr Hf.
      destruct (simgrid_text_only sha1 stringifySimgrid Hsha cfg ch old force now
                  hyper lmgt3 sentId Hconf Hvalid id m Hh Hid Htr Hf)
        as (_ & Hev & Hch & _ & Hhash & _).
      auto.
  - intros cfg ch club50 yellow red now sentId out digest. split.
    + apply applyUpdate_render_iff; assumption.
    + intros id m Hh Hid Htr.
      destruct (applyUpdate_text_only sha1 stringifyMain Hsha cfg ch club50 yellow red
                  now sentId id m Hh Hid Htr) as (Hev & Hch & _ & Hhash).
      auto.
Qed.

(** A stand-in for the digest with the one property used: 40 characters. *)
Definition paddedDigest (s : jsstring) : jsstring := firstn 40 (s ++ repeat 48%N 40).

Lemma paddedDigest_length (s : jsstring) : length (paddedDigest s) = 40%nat.
Proof.
  unfold paddedDigest. rewrite length_firstn, length_app, repeat_length. lia.
Qed.

Definition rowsText (a b : list Row) : jsstring :=
  concat (List.map driver a) ++ lit "|" ++ concat (List.map driver b).

Definition firstRunConfig : Config :=
  mkConfig None None None None
           (Some (lit "https://www.thesimgrid.com/h")) (Some (lit "https://www.thesimgrid.com/g"))
           None None None None.

Lemma rerender_witness :
  existsb isRender
    (sgEvents (checkAndPostSimgrid paddedDigest rowsText firstRunConfig ∅ None false
                 1700000000000 (Some []) (Some []) (lit "1001"))) = true.
Proof.
  pose proof (rerender_exactly_when_needed paddedDigest rowsText
                (fun _ _ _ => []) paddedDigest_length) as [Hsimgrid _].
  apply (Hsimgrid firstRunConfig ∅ None false 1700000000000 [] [] (lit "1001")).
  - split; reflexivity.
  - reflexivity.
  - left. discriminate.
Defined.

End TrackerSpec.

(** ** The stable sort *)

Section SortFacts.
Context {A : Type} (cmp : A -> A -> Q).

(** [a] may stay before [b]. *)
Definition cmpLe (a b : A) : Prop := (cmp a b <= 0)%Q.

Lemma insertSorted_perm (x : A) (l : list A) :
  Permutation (insertSorted cmp x l) (x :: l).
Proof.
  induction l as [| y l IH]; cbn; [reflexivity |].
  destruct (Qle_bool (cmp x y) 0); [reflexivity |].
  rewrite IH. apply perm_swap.
Qed.

Lemma sort_perm (l : list A) : Permutation (sort cmp l) l.
Proof.
  induction l as [| x l IH]; cbn; [reflexivity |].
  rewrite insertSorted_perm. now constructor.
Qed.

Hypothesis cmp_total : forall a b, cmpLe a b \/ cmpLe b a.
Hypothesis cmp_trans : forall a b c, cmpLe a b -> cmpLe b c -> cmpLe a c.

Lemma insertSorted_sorted (x : A) (l : list A) :
  StronglySorted cmpLe l -> StronglySorted cmpLe (insertSorted cmp x l).
Proof.
  induction 1 as [| y l Hs IH Hy]; cbn.
  - constructor; constructor.
  - destruct (Qle_bool (cmp x y) 0) eqn:Hc.
    + apply Qle_bool_iff in Hc.
      constructor; [now constructor |].
      constructor; [exact Hc |].
      eapply List.Forall_impl; [| exact Hy]. intros z Hz. now apply (cmp_trans x y z).
    + constructor; [exact IH |].
      assert (Hyx : cmpLe y x).
      { destruct (cmp_total x y) as [H | H]; [| exact H].
        apply Qle_bool_iff in H. unfold cmpLe in *. congruence. }
      apply (Permutation_Forall (Permutation_sym (insertSorted_perm x l))).
      now constructor.
Qed.

Lemma sort_sorted (l : list A) : StronglySorted cmpLe (sort cmp l).
Proof.
  induction l as [| x l IH]; cbn; [constructor |].
  now apply insertSorted_sorted.
Qed.

End SortFacts.

Lemma StronglySorted_split {A} (R : A -> A -> Prop) (l : list A) (k : nat) (x y : A) :
  StronglySorted R l -> In x (firstn k l) -> In y (skipn k l) -> R x y.
Proof.
  intros Hs. revert k. induction Hs as [| a l Hs IH Ha]; intros k Hx Hy.
  - rewrite firstn_nil in Hx. destruct Hx.
  - destruct k as [| k]; [destruct Hx |].
    cbn in Hx, Hy. destruct Hx as [<- | Hx].
    + rewrite List.Forall_forall in Ha. apply Ha.
      rewrite <- (firstn_skipn k l). apply in_or_app. now right.
    + now apply (IH k).
Qed.

(** ** render.js: column scaling *)

Module ScalingSpec.
Import Render.

Definition sumZ (l : list Z) : Z := fold_left Z.add l 0.

Lemma fold_add_shift (l : list Z) (a : Z) : fold_left Z.add l a = a + sumZ l.
Proof.
  unfold sumZ. revert a. induction l as [| x l IH]; intros a; cbn [fold_left]; [lia |].
  rewrite (IH (a + x)), (IH (0 + x)). lia.
Qed.

Lemma sumZ_cons (x : Z) (l : list Z) : sumZ (x :: l) = x + sumZ l.
Proof. unfold sumZ at 1. cbn [fold_left]. rewrite fold_add_shift. lia. Qed.

Lemma sumZ_app (l1 l2 : list Z) : sumZ (l1 ++ l2) = sumZ l1 + sumZ l2.
Proof.
  induction l1 as [| x l1 IH]; [reflexivity |].
  cbn [app]. rewrite !sumZ_cons, IH. lia.
Qed.

Lemma sumCols_map (cols : list Col) : sumCols cols = sumZ (List.map w cols).
Proof.
  unfold sumCols.
  assert (H : forall a, fold_left (fun a c => a + w c) cols a = a + sumZ (List.map w cols)).
  { induction cols as [| c cols IH]; intros a; cbn [fold_left List.map].
    - unfold sumZ. cbn. lia.
    - rewrite IH, sumZ_cons. lia. }
  rewrite H. lia.
Qed.

(** Division with remainder, summed over the columns. *)
Lemma sum_div_mod (ws : list Z) (T B : Z) :
  0 < B ->
  sumZ ws * T =
    B * sumZ (List.map (fun x => x * T / B) ws) +
    sumZ (List.map (fun x => (x * T) mod B) ws).
Proof.
  intros HB. induction ws as [| x ws IH]; [unfold sumZ; cbn; lia |].
  cbn [List.map]. rewrite !sumZ_cons.
  pose proof (Z.div_mod (x * T) B ltac:(lia)). nia.
Qed.

Lemma sum_mod_bounds (ws : list Z) (T B : Z) :
  0 < B ->
  0 <= sumZ (List.map (fun x => (x * T) mod B) ws) <= (B - 1) * Z.of_nat (length ws).
Proof.
  intros HB. induction ws as [| x ws IH]; [unfold sumZ; cbn; lia |].
  cbn [List.map length]. rewrite sumZ_cons.
  pose proof (Z.mod_pos_bound (x * T) B HB). nia.
Qed.

(** Incrementing entries of the width array. *)
Lemma bump_length (ws : list Z) (i : nat) : length (bump ws i) = length ws.
Proof. unfold bump. apply length_alter. Qed.

Lemma bump_sum (ws : list Z) (i : nat) :
  (i < length ws)%nat -> sumZ (bump ws i) = sumZ ws + 1.
Proof.
  unfold bump. revert i. induction ws as [| x ws IH]; intros [| i] Hi; cbn in Hi; try lia.
  - change (alter Z.succ 0%nat (x :: ws)) with (Z.succ x :: ws).
    rewrite !sumZ_cons. lia.
  - change (alter Z.succ (S i) (x :: ws)) with (x :: alter Z.succ i ws).
    rewrite !sumZ_cons, IH by lia. lia.
Qed.

Lemma bumps_length (idxs : list nat) (ws : list Z) :
  length (fold_left bump idxs ws) = length ws.
Proof.
  revert ws. induction idxs as [| i idxs IH]; intros ws; cbn [fold_left]; [reflexivity |].
  now rewrite IH, bump_length.
Qed.

Lemma bumps_sum (idxs : list nat) (ws : list Z) :
  Forall (fun i => (i < length ws)%nat) idxs ->
  sumZ (fold_left bump idxs ws) = sumZ ws + Z.of_nat (length idxs).
Proof.
  revert ws. induction idxs as [| i idxs IH]; intros ws Hall; cbn [fold_left length].
  - lia.
  - inversion Hall as [| ? ? Hi Hrest]; subst.
    rewrite IH.
    + rewrite bump_sum by exact Hi. lia.
    + eapply List.Forall_impl; [| exact Hrest]. intros j Hj. now rewrite bump_length.
Qed.

Lemma bumps_lookup (idxs : list nat) (ws : list Z) (i : nat) (x : Z) :
  NoDup idxs -> ws !! i = Some x ->
  fold_left bump idxs ws !! i = Some (if bool_decide (i ∈ idxs) then x + 1 else x).
Proof.
  revert ws x. induction idxs as [| j idxs IH]; intros ws x Hnd Hx; cbn [fold_left].
  - rewrite bool_decide_eq_false_2 by apply not_elem_of_nil. exact Hx.
  - apply NoDup_cons in Hnd. destruct Hnd as [Hj Hnd].
    destruct (decide (i = j)) as [-> | Hne].
    + rewrite (IH (bump ws j) (x + 1) Hnd).
      * rewrite (bool_decide_eq_false_2 _ Hj).
        rewrite bool_decide_eq_true_2 by left. reflexivity.
      * unfold bump. rewrite list_lookup_alter_eq, Hx. reflexivity.
    + rewrite (IH (bump ws j) x Hnd).
      * destruct (bool_decide (i ∈ idxs)) eqn:Hin.
        -- apply bool_decide_eq_true in Hin.
           rewrite bool_decide_eq_true_2 by (now right). reflexivity.
        -- apply bool_decide_eq_false in Hin.
           rewrite bool_decide_eq_false_2; [reflexivity |].
           intros Hin'. apply elem_of_cons in Hin'. destruct Hin'; congruence.
      * unfold bump. rewrite list_lookup_alter_ne by congruence. exact Hx.
Qed.

Lemma fold_left_fst {E} (f : list Z -> nat -> list Z) (g : E -> nat)
    (l : list E) (a : list Z) :
  fold_left (fun ws e => f ws (g e)) l a = fold_left f (List.map g l) a.
Proof.
  revert a. induction l as [| e l IH]; intros a; cbn [fold_left List.map]; [reflexivity |].
  apply IH.
Qed.

Lemma imap_fst_seq {E F} (g : E -> F) (l : list E) (k : nat) :
  List.map fst (imap (fun i c => ((k + i)%nat, g c)) l) = seq k (length l).
Proof.
  revert k. induction l as [| c l IH]; intros k; [reflexivity |].
  cbn [imap List.map length seq fst]. rewrite Nat.add_0_r. f_equal.
  rewrite <- (IH (S k)). f_equal. apply imap_ext. intros i x _. cbn. f_equal. lia.
Qed.

Lemma imap_fst_seq0 {E F} (g : E -> F) (l : list E) :
  List.map fst (imap (fun i c => (i, g c)) l) = seq 0 (length l).
Proof. rewrite <- (imap_fst_seq g l 0). reflexivity. Qed.

Lemma fracOf_range (x : Q) : (0 <= fracOf x)%Q /\ (fracOf x < 1)%Q.
Proof.
  unfold fracOf. pose proof (Qfloor_le x) as H1. pose proof (Qlt_floor x) as H2.
  rewrite inject_Z_plus in H2. split.
  - now apply (Qplus_le_l _ _ (inject_Z (Qfloor x))); ring_simplify.
  - apply (Qplus_lt_l _ _ (inject_Z (Qfloor x))). ring_simplify. exact H2.
Qed.

Section Scaling.
Variables (cols : list Col) (T : Z).
Hypothesis Hne : cols <> [].
Hypothesis Hpos : Forall (fun c => 0 < w c) cols.
Hypothesis HT : T <= sumCols cols.

Let B := sumCols cols.
Let scale := Qmin 1 (inject_Z T / inject_Z B).
Let floatCols := List.map (fun c => (c, (inject_Z (w c) * scale)%Q)) cols.
Let widths := List.map (fun c : Col * Q => Qfloor (snd c)) floatCols.
Let remain := T - sumZ widths.
Let cmp := fun a b : nat * Q => (snd b - snd a)%Q.
Let order := sort cmp (imap (fun i (c : Col * Q) => (i, fracOf (snd c))) floatCols).
Let chosen := List.map fst (firstn (Z.to_nat remain) order).
Let widths' := fold_left bump chosen widths.

Lemma buildScaledColumns_unfold :
  buildScaledColumns cols T =
    imap (fun i c => mkScaledCol (fst c) (snd c) (default 0 (widths' !! i))) floatCols.
Proof.
  unfold buildScaledColumns, widths', chosen. now rewrite fold_left_fst.
Qed.

Lemma B_pos : 0 < B.
Proof.
  unfold B. rewrite sumCols_map.
  destruct cols as [| c cs]; [congruence |].
  inversion Hpos as [| ? ? Hc Hcs]; subst.
  cbn [List.map]. rewrite sumZ_cons.
  assert (H : 0 <= sumZ (List.map w cs)).
  { clear -Hcs. induction Hcs as [| d ds Hd _ IH]; [unfold sumZ; cbn; lia |].
    cbn [List.map]. rewrite sumZ_cons. lia. }
  lia.
Qed.

Lemma scale_eq : (scale == inject_Z T / inject_Z B)%Q.
Proof.
  pose proof B_pos as HB. apply Q.min_r.
  apply Qle_shift_div_r.
  - change 0%Q with (inject_Z 0). now rewrite <- Zlt_Qlt.
  - rewrite Qmult_1_l, <- Zle_Qle. exact HT.
Qed.

Lemma wf_eq (c : Col) :
  (inject_Z (w c) * scale == inject_Z (w c * T) / inject_Z B)%Q.
Proof.
  pose proof B_pos as HB. rewrite scale_eq, inject_Z_mult. field.
  intros H. unfold Qeq in H. cbn in H. unfold B in H, HB. lia.
Qed.

Lemma floor_wf (c : Col) : Qfloor (inject_Z (w c) * scale) = w c * T / B.
Proof. rewrite (Qfloor_comp _ _ (wf_eq c)). symmetry. apply Zdiv_Qdiv. Qed.

Lemma widths_floor : widths = List.map (fun c => w c * T / B) cols.
Proof.
  unfold widths, floatCols. rewrite List.map_map. apply List.map_ext.
  intros c. cbn [snd]. apply floor_wf.
Qed.

Lemma widths_length : length widths = length cols.
Proof. rewrite widths_floor. apply length_map. Qed.

Lemma remain_bounds : 0 <= remain < Z.of_nat (length cols).
Proof.
  pose proof B_pos as HB.
  pose proof (sum_div_mod (List.map w cols) T B HB) as Hdm.
  pose proof (sum_mod_bounds (List.map w cols) T B HB) as Hb.
  rewrite <- sumCols_map in Hdm. fold B in Hdm.
  rewrite List.map_map in Hdm. rewrite <- widths_floor in Hdm.
  rewrite length_map in Hb.
  assert (Hn : (0 < length cols)%nat) by (destruct cols; [congruence | cbn; lia]).
  unfold remain. nia.
Qed.

Lemma order_perm :
  Permutation order (imap (fun i (c : Col * Q) => (i, fracOf (snd c))) floatCols).
Proof. apply sort_perm. Qed.

Lemma order_fst : Permutation (List.map fst order) (seq 0 (length cols)).
Proof.
  rewrite (Permutation_map fst order_perm).
  rewrite (imap_fst_seq0 (fun c : Col * Q => fracOf (snd c)) floatCols).
  unfold floatCols. now rewrite length_map.
Qed.

Lemma order_length : length order = length cols.
Proof.
  rewrite <- (length_map fst order), (Permutation_length order_fst).
  apply length_seq.
Qed.

Lemma order_sorted : StronglySorted (cmpLe cmp) order.
Proof.
  apply sort_sorted; unfold cmpLe, cmp.
  - intros a b. destruct (Qlt_le_dec (snd a) (snd b)) as [H | H].
    + right. apply Qlt_le_weak in H.
      apply (Qplus_le_l _ _ (snd b)). now ring_simplify.
    + left. apply (Qplus_le_l _ _ (snd a)). now ring_simplify.
  - intros a b c Hab Hbc.
    assert (H1 : (snd b <= snd a)%Q)
      by (apply (Qplus_le_l _ _ (- snd a)); ring_simplify; ring_simplify in Hab; exact Hab).
    assert (H2 : (snd c <= snd b)%Q)
      by (apply (Qplus_le_l _ _ (- snd b)); ring_simplify; ring_simplify in Hbc; exact Hbc).
    apply (Qplus_le_l _ _ (snd a)). ring_simplify.
    now apply (Qle_trans _ (snd b)).
Qed.

Lemma chosen_sub (i : nat) : In i chosen -> In i (List.map fst order).
Proof.
  unfold chosen. intros Hi.
  rewrite <- (firstn_skipn (Z.to_nat remain) order), List.map_app.
  apply in_or_app. now left.
Qed.

Lemma chosen_nodup : NoDup chosen.
Proof.
  assert (Hnd : NoDup (List.map fst order)).
  { rewrite order_fst. apply NoDup_seq. }
  rewrite <- (firstn_skipn (Z.to_nat remain) order), List.map_app in Hnd.
  apply NoDup_app in Hnd. now destruct Hnd as [Hnd _].
Qed.

Lemma chosen_range : Forall (fun i => (i < length widths)%nat) chosen.
Proof.
  rewrite List.Forall_forall. intros i Hi. rewrite widths_length.
  apply chosen_sub in Hi.
  apply (Permutation_in _ order_fst) in Hi. apply in_seq in Hi. lia.
Qed.

Lemma chosen_length : length chosen = Z.to_nat remain.
Proof.
  pose proof remain_bounds as Hr.
  unfold chosen. rewrite length_map, length_firstn, order_length. lia.
Qed.

Lemma widths'_sum : sumZ widths' = T.
Proof.
  pose proof remain_bounds as Hr.
  unfold widths'. rewrite (bumps_sum _ _ chosen_range), chosen_length.
  rewrite Z2Nat.id by lia. unfold remain. lia.
Qed.

Lemma widths'_lookup (i : nat) (c : Col) :
  cols !! i = Some c ->
  widths' !! i =
    Some (if bool_decide (i ∈ chosen) then w c * T / B + 1 else w c * T / B).
Proof.
  intros Hc. unfold widths'. apply (bumps_lookup _ _ _ _ chosen_nodup).
  now rewrite widths_floor, list_lookup_fmap, Hc.
Qed.

Lemma out_lookup (i : nat) (c : Col) :
  cols !! i = Some c ->
  buildScaledColumns cols T !! i =
    Some (mkScaledCol c (inject_Z (w c) * scale)
            (if bool_decide (i ∈ chosen) then w c * T / B + 1 else w c * T / B)).
Proof.
  intros Hc. rewrite buildScaledColumns_unfold, list_lookup_imap.
  unfold floatCols at 1. rewrite list_lookup_fmap, Hc. cbn.
  now rewrite (widths'_lookup i c Hc).
Qed.

Lemma out_widths : List.map sw (buildScaledColumns cols T) = widths'.
Proof.
  apply list_eq. intros i. rewrite list_lookup_fmap.
  destruct (cols !! i) as [c |] eqn:Hc.
  - now rewrite (out_lookup i c Hc), (widths'_lookup i c Hc).
  - rewrite buildScaledColumns_unfold, list_lookup_imap.
    unfold floatCols at 1. rewrite list_lookup_fmap, Hc. cbn.
    symmetry. apply lookup_ge_None_2.
    unfold widths'. rewrite bumps_length, widths_length.
    now apply lookup_ge_None_1.
Qed.

Lemma order_entry (e : nat * Q) :
  In e order ->
  exists c, cols !! fst e = Some c /\ snd e = fracOf (inject_Z (w c) * scale).
Proof.
  intros He. apply (Permutation_in _ order_perm) in He.
  apply list_elem_of_In, elem_of_lookup_imap in He.
  destruct He as (k & y & -> & Hy).
  unfold floatCols in Hy. rewrite list_lookup_fmap in Hy.
  destruct (cols !! k) as [c |] eqn:Hc; [| discriminate].
  injection Hy as <-. exists c. now split.
Qed.

Lemma entry_order (i : nat) (c : Col) :
  cols !! i = Some c -> In (i, fracOf (inject_Z (w c) * scale)) order.
Proof.
  intros Hc. apply (Permutation_in _ (Permutation_sym order_perm)).
  apply list_elem_of_In, elem_of_lookup_imap.
  exists i, (c, (inject_Z (w c) * scale)%Q). split; [reflexivity |].
  unfold floatCols. now rewrite list_lookup_fmap, Hc.
Qed.

Lemma extras_have_largest_fractions (i j : nat) (ci cj : Col) :
  cols !! i = Some ci -> cols !! j = Some cj ->
  i ∈ chosen -> j ∉ chosen ->
  (fracOf (inject_Z (w cj) * scale) <= fracOf (inject_Z (w ci) * scale))%Q.
Proof.
  intros Hci Hcj Hi Hj.
  apply list_elem_of_In in Hi. unfold chosen in Hi. apply in_map_iff in Hi.
  destruct Hi as (ei & Hfst & Hei).
  assert (Hsnd : snd ei = fracOf (inject_Z (w ci) * scale)).
  { assert (Hin : In ei order).
    { rewrite <- (firstn_skipn (Z.to_nat remain) order). apply in_or_app. now left. }
    destruct (order_entry ei Hin) as (c & Hc & Hs).
    rewrite Hfst, Hci in Hc. injection Hc as <-. exact Hs. }
  pose proof (entry_order j cj Hcj) as Hej.
  rewrite <- (firstn_skipn (Z.to_nat remain) order) in Hej.
  apply in_app_or in Hej. destruct Hej as [Hej | Hej].
  - exfalso. apply Hj. apply list_elem_of_In. unfold chosen.
    apply in_map_iff. eexists. split; [| exact Hej]. reflexivity.
  - pose proof (StronglySorted_split _ _ _ _ _ order_sorted Hei Hej) as Hle.
    unfold cmpLe, cmp in Hle. cbn [snd] in Hle. rewrite Hsnd in Hle.
    apply (Qplus_le_l _ _ (- fracOf (inject_Z (w ci) * scale))).
    ring_simplify. ring_simplify in Hle. exact Hle.
Qed.

Lemma scaling_summary :
  exists (sc : Q) (extra : list nat),
    (sc == inject_Z T / inject_Z (sumCols cols))%Q /\
    (forall c, Qfloor (inject_Z (w c) * sc) = w c * T / sumCols cols) /\
    (forall i c, cols !! i = Some c ->
       buildScaledColumns cols T !! i =
         Some (mkScaledCol c (inject_Z (w c) * sc)
                 (if bool_decide (i ∈ extra) then w c * T / sumCols cols + 1
                  else w c * T / sumCols cols))) /\
    (forall i j ci cj, cols !! i = Some ci -> cols !! j = Some cj ->
       i ∈ extra -> j ∉ extra ->
       (fracOf (inject_Z (w cj) * sc) <= fracOf (inject_Z (w ci) * sc))%Q).
Proof.
  exists scale, chosen.
  split; [exact scale_eq |].
  split; [exact floor_wf |].
  split; [exact out_lookup |].
  exact extras_have_largest_fractions.
Qed.

End Scaling.



End ScalingSpec.

(** ** index.js: class panels *)

Lemma sort_by_key_sorted {A} (keyOf : A -> Q) (l : list A) :
  StronglySorted (fun a b => (keyOf a <= keyOf b)%Q)
                 (sort (fun a b => (keyOf a - keyOf b)%Q) l).
Proof.
  assert (Hiff : forall a b, cmpLe (fun a b => (keyOf a - keyOf b)%Q) a b <->
                             (keyOf a <= keyOf b)%Q).
  { intros a b. unfold cmpLe. split; intros H.
    - apply (Qplus_le_l _ _ (- keyOf b)). ring_simplify. ring_simplify in H. exact H.
    - apply (Qplus_le_l _ _ (keyOf b)). ring_simplify. exact H. }
  assert (Hs : StronglySorted (cmpLe (fun a b => (keyOf a - keyOf b)%Q))
                 (sort (fun a b => (keyOf a - keyOf b)%Q) l)).
  { apply sort_sorted.
    - intros a b. rewrite !Hiff.
      destruct (Qlt_le_dec (keyOf b) (keyOf a)) as [H | H]; [right | left]; auto.
      now apply Qlt_le_weak.
    - intros a b c. rewrite !Hiff. apply Qle_trans. }
  induction Hs as [| a l' Hs IH Ha]; constructor; [exact IH |].
  eapply List.Forall_impl; [| exact Ha]. intros b. apply Hiff.
Qed.

Module ClassPanelsSpec.
Import Render Index.

Section Panels.
Variable fractionToString : Q -> jsstring.
Variables (standings : Panel) (splitLabel : jsstring).

Lemma isClass_iff (cls : jsstring) (r : Row) :
  isClass cls r = true <-> toLowerCase (trim (className r)) = toLowerCase cls.
Proof. unfold isClass, strEq. apply bool_decide_eq_true. Qed.

Lemma withPosDiff_className (r : Row) (p d : jsstring) :
  className (withPosDiff r p d) = className r.
Proof. reflexivity. Qed.

Lemma buildClassPanel_spec (rs : list Row) (seasonText cls : jsstring) :
  let sorted := sort byPos (List.filter (isClass cls) rs) in
  exists prs,
    buildClassPanel fractionToString rs splitLabel seasonText cls =
      mkPanel (classTitle cls splitLabel seasonText (length prs)) classSubtitle
              (Some prs) None None /\
    length prs = length sorted /\
    (forall i r, sorted !! i = Some r ->
       exists leader,
         sorted !! 0%nat = Some leader /\
         prs !! i =
           Some (withPosDiff r (String_of_Z (Z.of_nat i + 1))
                   (String_of_number fractionToString
                      (if (i =? 0)%nat then 0%Q
                       else (toNumber (nett r) - toNumber (nett leader))%Q)))).
Proof.
  intros sorted. unfold buildClassPanel. fold sorted.
  destruct sorted as [| leader rest] eqn:Hs.
  - exists []. split; [reflexivity |]. split; [reflexivity |].
    intros i r Hr. destruct i; discriminate.
  - eexists. split; [reflexivity |]. split; [apply length_imap |].
    intros i r Hr. exists leader. split; [reflexivity |].
    rewrite list_lookup_imap, Hr. reflexivity.
Qed.

End Panels.


Definition classRow (p cls n : string) : Row :=
  mkRow (lit p) (lit "A. Driver") [] (lit "27") (lit cls) (lit "car.png") [] []
        (lit "25") (lit "3") (lit "1") (lit n) (lit n) (lit "0") [] [] [] false.

Definition sampleStandings : Panel :=
  mkPanel (lit "Split Yellow Sprint Standings - Season 12 (5 drivers)") []
          (Some [classRow "3" " silver" "40"; classRow "1" "Pro" "90";
                 classRow "2" "SILVER " "55"; classRow "4" "am" "12";
                 classRow "5" "" "3"])
          None None.


End ClassPanelsSpec.

(** ** standings.js: the choice of the results table *)

Module StandingsSpec.
Import Standings.

(** A table qualifies when the callback of [each] reaches the score: at
    least 2 data rows, a header row, and a header cell containing
    "driver". *)
Definition qualifies (t : Table) : Prop :=
  (2 <= length (dataRows t))%nat /\
  exists hr, findHeaderRow t = Some hr /\
             hasDriver (List.map norm (extractHeaderCells hr)) = true.

Lemma scoreOf_Some (t : Table) (s : Q) :
  scoreOf t = Some s ->
  qualifies t /\
  exists hr, findHeaderRow t = Some hr /\
    s = tableScore (List.map norm (extractHeaderCells hr)) (length (dataRows t)).
Proof.
  unfold scoreOf, qualifies.
  destruct (Nat.ltb_spec (length (dataRows t)) 2) as [Hlt | Hge]; [discriminate |].
  destruct (findHeaderRow t) as [hr |]; [| discriminate].
  destruct (hasDriver (List.map norm (extractHeaderCells hr))) eqn:Hd; cbn [negb];
    [| discriminate].
  intros [= <-]. split; [split; [exact Hge | eauto] | eauto].
Qed.

Lemma scoreOf_qualifies (t : Table) :
  qualifies t -> exists s, scoreOf t = Some s.
Proof.
  intros (Hrows & hr & Hhr & Hd). unfold scoreOf.
  destruct (Nat.ltb_spec (length (dataRows t)) 2) as [Hlt | Hge]; [lia |].
  rewrite Hhr, Hd. cbn [negb]. eauto.
Qed.

Lemma tableScore_nonneg (hn : list jsstring) (n : nat) : (0 <= tableScore hn n)%Q.
Proof.
  unfold tableScore.
  assert (Hlast : (0 <= inject_Z (Z.min (Z.of_nat n) 50) / 50)%Q).
  { apply Qle_shift_div_l; [reflexivity |].
    rewrite Qmult_0_l. change 0%Q with (inject_Z 0). rewrite <- Zle_Qle. lia. }
  repeat match goal with
         | |- context [if ?b then _ else _] => destruct b
         end;
    repeat (apply (Qle_trans _ (0 + 0)); [discriminate | apply Qplus_le_compat]);
    try exact Hlast; discriminate.
Qed.

(** The state of the loop after some tables: the best score so far bounds
    the score of every qualifying table seen, and the best table, if the
    state changed, is a qualifying table seen that has this score. *)
Lemma fold_consider (l : list Table) (b : option Table) (s : Q) :
  let '(b', s') := fold_left consider l (b, s) in
  (s <= s')%Q /\
  (forall t x, In t l -> scoreOf t = Some x -> (x <= s')%Q) /\
  ((b', s') = (b, s) \/
   exists t, In t l /\ b' = Some t /\ scoreOf t = Some s').
Proof.
  revert b s. induction l as [| t l IH]; intros b s; cbn [fold_left].
  - split; [apply Qle_refl |]. split; [intros t x [] | now left].
  - unfold consider at 2. cbn [snd].
    destruct (scoreOf t) as [x |] eqn:Hx.
    + destruct (Qle_bool x s) eqn:Hle.
      * apply Qle_bool_iff in Hle.
        specialize (IH b s). destruct (fold_left consider l (b, s)) as [b' s'].
        destruct IH as (Hs & Hall & Hbest).
        split; [exact Hs |]. split.
        -- intros t' x' [<- | Hin] Hx'.
           ++ rewrite Hx in Hx'. injection Hx' as <-. now apply (Qle_trans _ s).
           ++ now apply (Hall t').
        -- destruct Hbest as [Heq | (t' & Hin & Hb & Hsc)]; [now left |].
           right. exists t'. split; [now right | auto].
      * assert (Hlt : (s < x)%Q).
        { apply Qnot_le_lt. intros H. apply Qle_bool_iff in H. congruence. }
        specialize (IH (Some t) x). destruct (fold_left consider l (Some t, x)) as [b' s'].
        destruct IH as (Hs & Hall & Hbest).
        split; [apply Qlt_le_weak; now apply (Qlt_le_trans _ x) |]. split.
        -- intros t' x' [<- | Hin] Hx'.
           ++ rewrite Hx in Hx'. injection Hx' as <-. exact Hs.
           ++ now apply (Hall t').
        -- right. destruct Hbest as [Heq | (t' & Hin & Hb & Hsc)].
           ++ injection Heq as -> ->. exists t. split; [now left | auto].
           ++ exists t'. split; [now right | auto].
    + specialize (IH b s). destruct (fold_left consider l (b, s)) as [b' s'].
      destruct IH as (Hs & Hall & Hbest).
      split; [exact Hs |]. split.
      * intros t' x' [<- | Hin] Hx'; [congruence | now apply (Hall t')].
      * destruct Hbest as [Heq | (t' & Hin & Hb & Hsc)]; [now left |].
        right. exists t'. split; [now right | auto].
Qed.

(** C4.  [pickBestDxGridTable] only returns a table whose id ends in
    "_DXMainTable" and that qualifies: at least 2 data rows, a header row,
    and a header cell containing "driver"; the table returned has the
    largest score among the qualifying tables.  It returns null exactly
    when no such table qualifies.  In that case, and when the driver column
    is not mapped (index -1), [fetchStandingsGeneric] ends with an error and
    returns no rows. *)
Theorem pick_best_table_or_fail (doc : Document) :
  (forall t, pickBestDxGridTable doc = Some t ->
     In t (dxTables doc) /\
     endsWith (tableId t) (lit "_DXMainTable") = true /\
     qualifies t /\
     exists s, scoreOf t = Some s /\
       forall t' s', In t' (dxTables doc) -> scoreOf t' = Some s' -> (s' <= s)%Q) /\
  (pickBestDxGridTable doc = None <->
     forall t, In t (dxTables doc) -> ~ qualifies t) /\
  (pickBestDxGridTable doc = None ->
     fetchStandingsGeneric (Some doc) = inl ErrNoStandingsTable) /\
  (forall rows, fetchStandingsGeneric (Some doc) = inr rows ->
     exists t hr headers trimLast,
       pickBestDxGridTable doc = Some t /\
       findHeaderRow t = Some hr /\
       0 <= cDriver (mapColumnIndexes headers) /\
       rows = parseRows t (mapColumnIndexes headers) trimLast) /\
  (forall t hr,
     pickBestDxGridTable doc = Some t -> findHeaderRow t = Some hr ->
     let firstTds := match dataRows t with tr :: _ => trTds tr | [] => [] end in
     let headers := fst (trimTrailingUtilityColumn
                           (alignHeadersToData (extractHeaderCells hr) (length firstTds))
                           firstTds) in
     cDriver (mapColumnIndexes headers) < 0 ->
     fetchStandingsGeneric (Some doc) = inl (ErrNoDriverColumn headers)).
Proof.
  pose proof (fold_consider (dxTables doc) None (-1)%Q) as Hfold.
  unfold pickBestDxGridTable.
  destruct (fold_left consider (dxTables doc) (None, (-1)%Q)) as [b s] eqn:Hrun.
  destruct Hfold as (Hs & Hall & Hbest). cbn [fst].
  split; [| split; [| split; [| split]]].
  - intros t ->. destruct Hbest as [Heq | (t' & Hin & Hb & Hsc)]; [discriminate |].
    injection Hb as <-.
    split; [exact Hin |]. split.
    { unfold dxTables in Hin. apply filter_In in Hin. now destruct Hin. }
    split; [now apply (scoreOf_Some t s) |].
    exists s. split; [exact Hsc | exact Hall].
  - split.
    + intros -> t Hin Hq. destruct (scoreOf_qualifies t Hq) as [x Hx].
      destruct Hbest as [Heq | (t' & _ & Hb & _)]; [| discriminate].
      injection Heq as ->.
      pose proof (Hall t x Hin Hx) as Hle.
      destruct (scoreOf_Some t x Hx) as (_ & hr & _ & ->).
      pose proof (tableScore_nonneg (List.map norm (extractHeaderCells hr))
                    (length (dataRows t))) as Hnn.
      pose proof (Qle_trans _ _ _ Hnn Hle) as Habs.
      unfold Qle in Habs. cbn in Habs. lia.
    + intros Hnone. destruct Hbest as [Heq | (t' & Hin & Hb & Hsc)].
      * now injection Heq.
      * exfalso. apply (Hnone t' Hin). now apply (scoreOf_Some t' s).
  - intros ->. unfold fetchStandingsGeneric, pickBestDxGridTable. now rewrite Hrun.
  - intros rows. unfold fetchStandingsGeneric, pickBestDxGridTable. rewrite Hrun. cbn [fst].
    destruct b as [t |]; [| discriminate].
    destruct (findHeaderRow t) as [hr |] eqn:Hhr; [| discriminate].
    destruct (trimTrailingUtilityColumn _ _) as [headers trimLast].
    destruct (Z.ltb_spec (cDriver (mapColumnIndexes headers)) 0) as [Hlt | Hge];
      [discriminate |].
    intros [= <-]. exists t, hr, headers, trimLast. auto.
  - intros t hr -> Hhr Hneg.
    unfold fetchStandingsGeneric, pickBestDxGridTable. rewrite Hrun. cbn [fst].
    rewrite Hhr.
    destruct (trimTrailingUtilityColumn _ _) as [headers trimLast]. cbn [fst] in *.
    now rewrite (proj2 (Z.ltb_lt _ _) Hneg).
Qed.

(** A page with one DevExpress grid: a header row and two data rows. *)
Definition headerCell (t : string) : Td := mkTd (lit t) (lit t) [] None 0.
Definition dataCell (t : string) : Td := mkTd (lit t) [] [] None 0.

Definition sampleTable : Table :=
  mkTable (lit "PageContent_TeamsView_DXMainTable")
    [ mkTr (lit "PageContent_TeamsView_DXHeadersRow0") [] 3 (lit "# Driver Nett")
           [headerCell "#"; headerCell "Driver"; headerCell "Nett"];
      mkTr (lit "PageContent_TeamsView_DXDataRow0") [lit "dxgvDataRow_Moderno"] 0
           (lit "1 Ann 50") [dataCell "1"; dataCell "Ann"; dataCell "50"];
      mkTr (lit "PageContent_TeamsView_DXDataRow1") [lit "dxgvDataRow_Moderno"] 0
           (lit "2 Bob 40") [dataCell "2"; dataCell "Bob"; dataCell "40"] ].

Lemma pick_best_table_witness :
  In sampleTable (dxTables [mkTable (lit "menu") []; sampleTable]) /\
  endsWith (tableId sampleTable) (lit "_DXMainTable") = true /\
  qualifies sampleTable /\
  exists s, scoreOf sampleTable = Some s /\
    forall t' s', In t' (dxTables [mkTable (lit "menu") []; sampleTable]) ->
                  scoreOf t' = Some s' -> (s' <= s)%Q.
Proof.
  apply (proj1 (pick_best_table_or_fail [mkTable (lit "menu") []; sampleTable]) sampleTable).
  vm_compute. reflexivity.
Defined.

End StandingsSpec.

(** ** standings.js: SimGrid driver names *)

Module SimgridSpec.
Import Standings.

Definition digitOrComma (c : N) : bool := isDigit c || (c =? 44)%N.

(** A comma-grouped number: one to three digits, then one or more groups
    of a comma and three digits. *)
Inductive CommaGroups : jsstring -> Prop :=
| CommaGroupsOne a b c :
    isDigit a = true -> isDigit b = true -> isDigit c = true ->
    CommaGroups [44%N; a; b; c]
| CommaGroupsMore a b c g :
    isDigit a = true -> isDigit b = true -> isDigit c = true ->
    CommaGroups g -> CommaGroups (44%N :: a :: b :: c :: g).

Definition RatingNumber (r : jsstring) : Prop :=
  exists ds g, r = ds ++ g /\ (1 <= length ds <= 3)%nat /\
               forallb isDigit ds = true /\ CommaGroups g.

(** The code point of a surrogate pair. *)
Definition codePointOf (hi lo : N) : N := ((hi - 55296) * 1024 + (lo - 56320) + 65536)%N.

Lemma whiteSpace_range (c : N) :
  isWhiteSpace c = true -> (c <= 13 \/ c = 32 \/ 160 <= c)%N.
Proof.
  unfold isWhiteSpace.
  rewrite !orb_true_iff, !andb_true_iff, !N.eqb_eq, !N.leb_le. lia.
Qed.

Lemma digit_range (c : N) : isDigit c = true -> (48 <= c <= 57)%N.
Proof. unfold isDigit. rewrite andb_true_iff, !N.leb_le. lia. Qed.

Lemma digit_not_space (c : N) : isDigit c = true -> isWhiteSpace c = false.
Proof.
  intros Hd. apply digit_range in Hd.
  destruct (isWhiteSpace c) eqn:Hw; [| reflexivity].
  apply whiteSpace_range in Hw. lia.
Qed.

Lemma digitOrComma_not_space (c : N) : digitOrComma c = true -> isWhiteSpace c = false.
Proof.
  unfold digitOrComma. rewrite orb_true_iff, N.eqb_eq. intros [Hd | ->].
  - now apply digit_not_space.
  - reflexivity.
Qed.

Lemma span_spec (f : N -> bool) (s a b : jsstring) :
  span f s = (a, b) -> s = a ++ b /\ forallb f a = true.
Proof.
  revert a b. induction s as [| c s IH]; intros a b; cbn.
  - intros [= <- <-]. now split.
  - destruct (f c) eqn:Hc.
    + destruct (span f s) as [a' b'] eqn:Hs. intros [= <- <-].
      destruct (IH a' b' eq_refl) as [-> Ha]. cbn. now rewrite Hc.
    + intros [= <- <-]. now split.
Qed.

Lemma span_app (f : N -> bool) (a b : jsstring) :
  forallb f a = true ->
  match b with [] => True | c :: _ => f c = false end ->
  span f (a ++ b) = (a, b).
Proof.
  intros Ha Hb. induction a as [| x a IH]; cbn.
  - destruct b as [| c b]; [reflexivity |]. cbn. now rewrite Hb.
  - cbn in Ha. apply andb_true_iff in Ha. destruct Ha as [Hx Ha].
    now rewrite Hx, (IH Ha).
Qed.

Lemma commaGroups_spec (fuel : nat) (s g r : jsstring) :
  commaGroups fuel s = (g, r) -> s = g ++ r /\ forallb digitOrComma g = true.
Proof.
  revert s g r. induction fuel as [| fuel IH]; intros s g r; cbn.
  - intros [= <- <-]. now split.
  - destruct s as [| c0 [| a [| b [| c rest]]]]; try (intros [= <- <-]; now split).
    destruct ((c0 =? 44)%N && isDigit a && isDigit b && isDigit c) eqn:Hd.
    + destruct (commaGroups fuel rest) as [g' r'] eqn:Hg. intros [= <- <-].
      destruct (IH rest g' r' Hg) as [-> Hall].
      apply andb_true_iff in Hd. destruct Hd as [Hd Hc].
      apply andb_true_iff in Hd. destruct Hd as [Hd Hb].
      apply andb_true_iff in Hd. destruct Hd as [H0 Ha].
      split; [reflexivity |]. cbn. unfold digitOrComma at 1 2 3 4.
      now rewrite H0, Ha, Hb, Hc, Hall, orb_true_r.
    + intros [= <- <-]. now split.
Qed.

Lemma commaGroups_complete (g : jsstring) :
  CommaGroups g ->
  forall fuel, (length g <= fuel)%nat -> commaGroups fuel g = (g, []).
Proof.
  induction 1 as [a b c Ha Hb Hc | a b c g Ha Hb Hc Hg IH]; intros fuel Hf;
    (destruct fuel as [| fuel]; [cbn in Hf; lia |]);
    cbn [commaGroups]; rewrite Ha, Hb, Hc; cbn [N.eqb Pos.eqb andb].
  - now destruct fuel.
  - rewrite IH by (cbn in Hf; lia). reflexivity.
Qed.

Lemma commaGroups_head (g : jsstring) : CommaGroups g -> exists g', g = 44%N :: g'.
Proof. destruct 1; eauto. Qed.

Lemma commaGroups_last (g : jsstring) :
  CommaGroups g -> exists g0 d, g = g0 ++ [d] /\ isDigit d = true.
Proof.
  induction 1 as [a b c Ha Hb Hc | a b c g Ha Hb Hc Hg (g0 & d & -> & Hd)].
  - exists [44%N; a; b], c. now split.
  - exists (44%N :: a :: b :: c :: g0), d. now split.
Qed.

Lemma matchRatingHere_complete (w : N) (r : jsstring) :
  isWhiteSpace w = true -> RatingNumber r -> matchRatingHere (w :: r) = Some r.
Proof.
  intros Hw (ds & g & -> & Hlen & Hds & Hg). unfold matchRatingHere. rewrite Hw.
  destruct (commaGroups_head g Hg) as [g' Hg'].
  rewrite (span_app isDigit ds g Hds) by (now rewrite Hg').
  assert (H1 : (1 <=? length ds)%nat = true) by (apply Nat.leb_le; lia).
  assert (H3 : (length ds <=? 3)%nat = true) by (apply Nat.leb_le; lia).
  rewrite H1, H3. cbn [andb].
  rewrite (commaGroups_complete g Hg) by lia.
  rewrite Hg'. reflexivity.
Qed.

Lemma matchRatingHere_sound (s cap : jsstring) :
  matchRatingHere s = Some cap ->
  exists c ws, s = c :: cap ++ ws /\ isWhiteSpace c = true /\
               forallb isWhiteSpace ws = true /\ forallb digitOrComma cap = true.
Proof.
  unfold matchRatingHere. destruct s as [| c rest]; [discriminate |].
  destruct (isWhiteSpace c) eqn:Hc; [| discriminate].
  destruct (span isDigit rest) as [ds r1] eqn:Hspan.
  destruct ((1 <=? length ds)%nat && (length ds <=? 3)%nat); [| discriminate].
  destruct (commaGroups (length r1) r1) as [groups r2] eqn:Hgroups.
  destruct (negb (isEmpty groups) && forallb isWhiteSpace r2) eqn:Hok; [| discriminate].
  intros [= <-].
  apply span_spec in Hspan. destruct Hspan as [-> Hds].
  apply commaGroups_spec in Hgroups. destruct Hgroups as [-> Hgs].
  apply andb_true_iff in Hok. destruct Hok as [_ Hws].
  exists c, r2. split; [now rewrite <- app_assoc |].
  split; [exact Hc |]. split; [exact Hws |].
  rewrite forallb_app, Hgs, andb_true_r.
  clear -Hds. induction ds as [| d ds IH]; [reflexivity |].
  cbn in *. apply andb_true_iff in Hds. destruct Hds as [Hd Hds].
  unfold digitOrComma at 1. now rewrite Hd, (IH Hds).
Qed.

Lemma ratingNumber_last (r : jsstring) :
  RatingNumber r -> exists r0 d, r = r0 ++ [d] /\ isDigit d = true.
Proof.
  intros (ds & g & -> & _ & _ & Hg).
  destruct (commaGroups_last g Hg) as (g0 & d & -> & Hd).
  exists (ds ++ g0), d. split; [now rewrite app_assoc | exact Hd].
Qed.

(** Before the white space that precedes the rating, the expression does
    not match: a match would have to swallow that white space. *)
Lemma no_match_before_rating (pre : jsstring) (w : N) (r : jsstring) :
  pre <> [] -> isWhiteSpace w = true -> RatingNumber r ->
  matchRatingHere (pre ++ w :: r) = None.
Proof.
  intros Hpre Hw Hr.
  destruct (matchRatingHere (pre ++ w :: r)) as [cap |] eqn:Hm; [| reflexivity].
  exfalso. apply matchRatingHere_sound in Hm.
  destruct Hm as (c & ws & Heq & _ & Hws & Hcap).
  destruct pre as [| x pre]; [congruence |].
  cbn in Heq. injection Heq as _ Heq.
  destruct (ratingNumber_last r Hr) as (r0 & d & -> & Hd).
  destruct ws as [| y ws0 _] using rev_ind.
  - rewrite app_nil_r in Heq. subst cap.
    rewrite forallb_app in Hcap. cbn in Hcap.
    apply andb_true_iff in Hcap. destruct Hcap as [_ Hcap].
    apply andb_true_iff in Hcap. destruct Hcap as [Hwc _].
    apply digitOrComma_not_space in Hwc. congruence.
  - assert (Hy : y = d).
    { change (pre ++ w :: r0 ++ [d]) with (pre ++ (w :: r0) ++ [d]) in Heq.
      rewrite !app_assoc in Heq. now apply app_inj_tail in Heq. }
    subst y. rewrite forallb_app in Hws. cbn in Hws.
    apply andb_true_iff in Hws. destruct Hws as [_ Hws].
    apply andb_true_iff in Hws. destruct Hws as [Hdw _].
    apply digit_not_space in Hd. congruence.
Qed.

Lemma matchRatingFrom_eq (s : jsstring) (i : nat) :
  matchRatingFrom s i =
    match matchRatingHere s with
    | Some r => Some (i, r)
    | None => match s with
              | [] => None
              | _ :: s' => matchRatingFrom s' (S i)
              end
    end.
Proof. now destruct s. Qed.

(** The leftmost match is the one at the white space before the rating. *)
Lemma matchRatingFrom_found (pre : jsstring) (w : N) (r : jsstring) (i0 : nat) :
  isWhiteSpace w = true -> RatingNumber r ->
  matchRatingFrom (pre ++ w :: r) i0 = Some ((i0 + length pre)%nat, r).
Proof.
  intros Hw Hr. revert i0. induction pre as [| x pre IH]; intros i0.
  - rewrite matchRatingFrom_eq. cbn [app].
    rewrite (matchRatingHere_complete w r Hw Hr). cbn. now rewrite Nat.add_0_r.
  - rewrite matchRatingFrom_eq.
    rewrite (no_match_before_rating (x :: pre) w r) by (congruence || assumption).
    cbn [app]. rewrite IH. cbn [length]. do 2 f_equal. lia.
Qed.

Lemma matchFlag_found (h1 l1 h2 l2 : N) (ws : jsstring) (c : N) (rest : jsstring) :
  isRegionalIndicator h1 l1 = true -> isRegionalIndicator h2 l2 = true ->
  ws <> [] -> forallb isWhiteSpace ws = true -> isWhiteSpace c = false ->
  matchFlag ([h1; l1; h2; l2] ++ ws ++ c :: rest) =
    Some ([h1; l1; h2; l2], (4 + length ws)%nat).
Proof.
  intros H1 H2 Hne Hws Hc. cbn [app matchFlag]. rewrite H1, H2. cbn [andb].
  rewrite (span_app isWhiteSpace ws (c :: rest) Hws Hc).
  destruct ws; [congruence | reflexivity].
Qed.

Lemma trimStart_head (c : N) (s : jsstring) :
  isWhiteSpace c = false -> trimStart (c :: s) = c :: s.
Proof. intros Hc. unfold trimStart, dropWhile. cbn. now rewrite Hc. Qed.

Lemma trimEnd_last (s : jsstring) (d : N) :
  isWhiteSpace d = false -> trimEnd (s ++ [d]) = s ++ [d].
Proof.
  intros Hd. unfold trimEnd, dropWhile. rewrite rev_unit. cbn [span]. rewrite Hd.
  cbn [snd rev]. now rewrite rev_involutive.
Qed.

Lemma dropWhile_snoc (f : N -> bool) (l : jsstring) (c : N) :
  f c = false -> dropWhile f (l ++ [c]) <> [].
Proof.
  intros Hc. unfold dropWhile. induction l as [| x l IH]; cbn.
  - now rewrite Hc.
  - destruct (f x); [| discriminate].
    destruct (span f (l ++ [c])) as [a b]. exact IH.
Qed.

Lemma trim_nonempty (c : N) (s : jsstring) :
  isWhiteSpace c = false -> isEmpty (trim (c :: s)) = false.
Proof.
  intros Hc. unfold trim. rewrite (trimStart_head c s Hc). unfold trimEnd.
  cbn [rev]. pose proof (dropWhile_snoc isWhiteSpace (rev s) c Hc) as Hne.
  destruct (dropWhile isWhiteSpace (rev s ++ [c])) as [| x l]; [congruence |].
  cbn [rev]. now destruct (rev l).
Qed.

Lemma sliceFrom_app {A} (a b : list A) :
  sliceFrom (a ++ b) (Z.of_nat (length a)) = b.
Proof.
  unfold sliceFrom. rewrite slice_nonneg by (try rewrite length_app; lia).
  rewrite Nat2Z.id, skipn_app, skipn_all, Nat.sub_diag. cbn [app skipn].
  apply firstn_all2. rewrite length_app. lia.
Qed.

Lemma slice_prefix_app {A} (a b : list A) :
  slice (a ++ b) 0 (Z.of_nat (length a)) = a.
Proof.
  rewrite slice_prefix by lia.
  rewrite Nat2Z.id, firstn_app, firstn_all, Nat.sub_diag. cbn. apply app_nil_r.
Qed.

Lemma regionalIndicator_pair (hi lo : N) :
  isRegionalIndicator hi lo = true ->
  codePoints [hi; lo] = [codePointOf hi lo] /\
  forall hi' lo', codePoints [hi; lo; hi'; lo'] = codePointOf hi lo :: codePoints [hi'; lo'].
Proof.
  unfold isRegionalIndicator. rewrite !andb_true_iff, N.eqb_eq, !N.leb_le.
  intros [[-> H1] H2].
  assert (Hs : ((55296 <=? 55356) && (55356 <=? 56319) && (56320 <=? lo) && (lo <=? 57343))%N = true).
  { rewrite !andb_true_iff, !N.leb_le. lia. }
  split; [| intros hi' lo']; cbn [codePoints]; now rewrite Hs.
Qed.

Definition TWEMOJI : jsstring :=
  lit "https://cdnjs.cloudflare.com/ajax/libs/twemoji/14.0.2/72x72/".

Lemma parseSimgridRow_driver (tr : SimgridTr) (row : Row) :
  parseSimgridRow tr = Some row -> isEmpty (driver row) = false.
Proof.
  unfold parseSimgridRow. cbv zeta.
  match goal with
  | |- context [if isEmpty ?d then None else _] => destruct (isEmpty d) eqn:Hd
  end; [discriminate |].
  intros [= <-]. exact Hd.
Qed.

Lemma parseSimgridRow_no_flag (tr : SimgridTr) (row : Row) :
  parseSimgridRow tr = Some row ->
  matchFlag (cleanText (sgEntrantName tr)) = None ->
  countryImg row = [].
Proof.
  unfold parseSimgridRow. cbv zeta. intros H Hflag. rewrite Hflag in H.
  match type of H with
  | context [if isEmpty ?d then None else _] => destruct (isEmpty d)
  end; [discriminate |].
  injection H as <-. reflexivity.
Qed.


(** C10 as stated does not hold: a flag that is not followed by white
    space stays in the driver string and gives no countryImg.  Here the
    text of the entrant link is the flag of Australia (U+1F1E6 U+1F1FA)
    immediately followed by "Bob". *)
Definition flagAU : jsstring := [55356; 56806; 55356; 56826]%N.

Definition entrantWithoutSpace : SimgridTr :=
  mkSimgridTr (lit "1") (lit "1") (flagAU ++ lit "Bob") (lit "27")
              (Some (lit "/img/porsche.png")) None None None None [] (lit "120").


Definition entrantWithFlagAndRating : SimgridTr :=
  mkSimgridTr (lit "1") (lit "1") (flagAU ++ lit "  John Smith 2,202 ") (lit "27")
              (Some (lit "/img/porsche.png")) None None None None [] (lit "120").


End SimgridSpec.

(** ** render.js: where the panels and their rows are drawn *)

Module LayoutSpec.
Import Render DrawPanel.

(** A panel keeps a margin of OUTER_PAD to every edge of the canvas. *)
Definition insideCanvas (cv : Canvas) (c : PanelCall) : Prop :=
  OUTER_PAD <= px c /\ OUTER_PAD <= py c /\ 0 < pw c /\ 0 < ph c /\
  px c + pw c <= canvasW cv - OUTER_PAD /\
  py c + ph c <= canvasH cv - OUTER_PAD.

(** Two panels are at least GAP apart, side by side or one above the other. *)
Definition apart (a b : PanelCall) : Prop :=
  px a + pw a + GAP <= px b \/ py a + ph a + GAP <= py b.

(** The header row and every data row of the table lie inside the panel,
    PAD_INNER away from its left and right edge. *)
Definition rowsFit (c : PanelCall) : Prop :=
  0 < tableW c /\
  px c + PAD_INNER = tableX c /\
  tableX c + tableW c = px c + pw c - PAD_INNER /\
  py c <= tableY c /\
  forall i, (i < rowCount c)%nat ->
    tableY c + HEAD_ROW_H <= ry c i /\ ry c i + ROW_H <= py c + ph c.

Definition wellLaidOut (cv : Canvas) : Prop :=
  Forall (insideCanvas cv) (drawn cv) /\
  ForallOrdPairs apart (drawn cv) /\
  Forall rowsFit (drawn cv).

Lemma heightFor_ge (rs : list Row) :
  360 <= heightFor rs /\ 120 + 26 * Z.of_nat (length rs) <= heightFor rs.
Proof. unfold heightFor, HEADER_H, HEAD_ROW_H, ROW_H. lia. Qed.

Lemma panelHeightForRows_ge (rs : option (list Row)) :
  420 <= panelHeightForRows rs /\
  154 + 26 * Z.of_nat (length (rowsOrEmpty rs)) <= panelHeightForRows rs.
Proof. unfold panelHeightForRows, OUTER_PAD, HEADER_H, HEAD_ROW_H, ROW_H. lia. Qed.

Ltac layout_constants :=
  unfold insideCanvas, apart, rowsFit, ry, rowCount, tableX, tableY, tableW,
         OUTER_PAD, GAP, PAD_INNER, HEADER_H, HEAD_ROW_H, ROW_H in *;
  cbn [px py pw ph prows canvasW canvasH rowsOrEmpty] in *.

Ltac layout_lia := Z.div_mod_to_equations; lia.

Ltac panel_list :=
  repeat first [ apply List.Forall_nil | apply List.Forall_cons
               | apply FOP_nil | apply FOP_cons ].

Lemma triple_laid_out (club50 yellow red : Panel) :
  wellLaidOut (renderTripleStandingsPng club50 yellow red).
Proof.
  pose proof (panelHeightForRows_ge (rows club50)) as [Hc1 Hc2].
  pose proof (panelHeightForRows_ge (rows yellow)) as [Hy1 Hy2].
  pose proof (panelHeightForRows_ge (rows red)) as [Hr1 Hr2].
  unfold wellLaidOut, renderTripleStandingsPng. cbv zeta. cbn [drawn].
  split; [| split].
  - panel_list; layout_constants; layout_lia.
  - panel_list; layout_constants; layout_lia.
  - panel_list; layout_constants; repeat split; intros; layout_lia.
Qed.

Lemma classGrid_laid_out (panels : list Panel) :
  wellLaidOut (renderClassGridPng panels).
Proof.
  unfold wellLaidOut, renderClassGridPng. cbv zeta. cbn [drawn].
  repeat match goal with
         | |- context [heightFor ?l] =>
             lazymatch goal with
             | _ : 360 <= heightFor l |- _ => fail
             | _ => pose proof (proj1 (heightFor_ge l)); pose proof (proj2 (heightFor_ge l))
             end
         end.
  split; [| split].
  - panel_list; layout_constants; layout_lia.
  - panel_list; layout_constants; layout_lia.
  - panel_list; layout_constants; repeat split; intros; layout_lia.
Qed.

Lemma double_laid_out (leftPanel rightPanel : option Panel) :
  wellLaidOut (renderDoubleStandingsPng leftPanel rightPanel).
Proof.
  unfold wellLaidOut, renderDoubleStandingsPng. cbv zeta. cbn [drawn].
  repeat match goal with
         | |- context [heightFor ?l] =>
             lazymatch goal with
             | _ : 360 <= heightFor l |- _ => fail
             | _ => pose proof (proj1 (heightFor_ge l)); pose proof (proj2 (heightFor_ge l))
             end
         end.
  split; [| split].
  - panel_list; layout_constants; layout_lia.
  - panel_list; layout_constants; layout_lia.
  - panel_list; layout_constants; repeat split; intros; layout_lia.
Qed.

Lemma seriesOnly_laid_out (panel : option Panel) (opts : SeriesOpts) :
  wellLaidOut (renderSeriesOnlyPng panel opts).
Proof.
  unfold wellLaidOut, renderSeriesOnlyPng. cbv zeta.
  destruct (negb _); cbn [drawn];
  repeat match goal with
         | |- context [heightFor ?l] =>
             lazymatch goal with
             | _ : 360 <= heightFor l |- _ => fail
             | _ => pose proof (proj1 (heightFor_ge l)); pose proof (proj2 (heightFor_ge l))
             end
         end.
  all: split; [| split].
  all: panel_list; layout_constants; repeat split; intros; layout_lia.
Qed.

(** X1.  Every renderer keeps its panels inside the canvas, OUTER_PAD away from
    each edge, and at least GAP away from each other. *)
Theorem panels_inside_canvas_and_apart :
  (forall club50 yellow red,
     let cv := renderTripleStandingsPng club50 yellow red in
     Forall (insideCanvas cv) (drawn cv) /\ ForallOrdPairs apart (drawn cv)) /\
  (forall panels,
     let cv := renderClassGridPng panels in
     Forall (insideCanvas cv) (drawn cv) /\ ForallOrdPairs apart (drawn cv)) /\
  (forall leftPanel rightPanel,
     let cv := renderDoubleStandingsPng leftPanel rightPanel in
     Forall (insideCanvas cv) (drawn cv) /\ ForallOrdPairs apart (drawn cv)) /\
  (forall panel opts,
     let cv := renderSeriesOnlyPng panel opts in
     Forall (insideCanvas cv) (drawn cv) /\ ForallOrdPairs apart (drawn cv)).
Proof.
  repeat split.
  - apply triple_laid_out.
  - apply triple_laid_out.
  - apply classGrid_laid_out.
  - apply classGrid_laid_out.
  - apply double_laid_out.
  - apply double_laid_out.
  - apply seriesOnly_laid_out.
  - apply seriesOnly_laid_out.
Qed.

(** X2.  Whatever the number of rows, [drawPanel] draws the header row and every
    data row inside the panel it was given: no row is cut off by the clip
    of the panel, in any of the four renders. *)
Theorem every_row_is_drawn_inside_its_panel :
  (forall club50 yellow red,
     Forall rowsFit (drawn (renderTripleStandingsPng club50 yellow red))) /\
  (forall panels, Forall rowsFit (drawn (renderClassGridPng panels))) /\
  (forall leftPanel rightPanel,
     Forall rowsFit (drawn (renderDoubleStandingsPng leftPanel rightPanel))) /\
  (forall panel opts, Forall rowsFit (drawn (renderSeriesOnlyPng panel opts))).
Proof.
  repeat split.
  - apply triple_laid_out.
  - apply classGrid_laid_out.
  - apply double_laid_out.
  - apply seriesOnly_laid_out.
Qed.

End LayoutSpec.

(** ** render.js: column scaling when the table is wider than the columns *)

Module ScalingWideSpec.
Import Render ScalingSpec.

Lemma sumCols_positive (cols : list Col) :
  cols <> [] -> Forall (fun c => 0 < w c) cols -> 0 < sumCols cols.
Proof.
  intros Hne Hpos. rewrite sumCols_map.
  destruct cols as [| c cs]; [congruence |].
  inversion Hpos as [| ? ? Hc Hcs]; subst.
  cbn [List.map]. rewrite sumZ_cons.
  assert (H : 0 <= sumZ (List.map w cs)).
  { clear -Hcs. induction Hcs as [| d ds Hd _ IH]; [unfold sumZ; cbn; lia |].
    cbn [List.map]. rewrite sumZ_cons. lia. }
  lia.
Qed.

(** [Math.min(1, tableW / baseW)] is 1 when the table is at least as wide
    as the columns. *)
Lemma scale_one (B T : Z) : 0 < B -> B <= T -> Qmin 1 (inject_Z T / inject_Z B) = 1%Q.
Proof.
  intros HB HT. unfold Qmin, GenericMinMax.gmin.
  destruct (1 ?= inject_Z T / inject_Z B)%Q eqn:Hc; try reflexivity.
  exfalso. apply Qgt_alt in Hc. apply (Qlt_not_le _ _ Hc).
  apply Qle_shift_div_l.
  - change 0%Q with (inject_Z 0). now rewrite <- Zlt_Qlt.
  - rewrite Qmult_1_l, <- Zle_Qle. exact HT.
Qed.

Lemma floor_times_one (x : Z) : Qfloor (inject_Z x * 1) = x.
Proof. rewrite (Qfloor_comp _ _ (Qmult_1_r _)). apply Qfloor_Z. Qed.

Lemma fracOf_times_one (x : Z) : (fracOf (inject_Z x * 1) == 0)%Q.
Proof. unfold fracOf. rewrite floor_times_one. ring. Qed.

(** The stable sort leaves a list alone when all its keys are equal. *)
Lemma sort_equal_keys {E} (l : list (E * Q)) :
  Forall (fun e => (snd e == 0)%Q) l ->
  sort (fun a b : E * Q => (snd b - snd a)%Q) l = l.
Proof.
  induction 1 as [| e l He Hl IH]; [reflexivity |].
  cbn [sort]. rewrite IH.
  destruct Hl as [| e' l' He' _]; [reflexivity |].
  cbn [insertSorted].
  assert (Hle : Qle_bool (snd e' - snd e) 0 = true).
  { apply Qle_bool_iff. rewrite He, He'. discriminate. }
  now rewrite Hle.
Qed.

Lemma elem_of_firstn_seq (k n i : nat) :
  i ∈ firstn k (seq 0 n) <-> (i < k /\ i < n)%nat.
Proof.
  change (firstn k (seq 0 n)) with (take k (seq 0 n)).
  rewrite take_seq, list_elem_of_In, in_seq. lia.
Qed.

Section Wide.
Variables (cols : list Col) (T : Z).
Hypothesis Hne : cols <> [].
Hypothesis Hpos : Forall (fun c => 0 < w c) cols.
Hypothesis HT : sumCols cols <= T.

Let k := Z.to_nat (T - sumCols cols).
Let widths' := fold_left bump (firstn k (seq 0 (length cols))) (List.map w cols).

Lemma wide_unfold :
  buildScaledColumns cols T =
    imap (fun i c => mkScaledCol c (inject_Z (w c) * 1) (default 0 (widths' !! i))) cols.
Proof.
  pose proof (sumCols_positive cols Hne Hpos) as HB.
  unfold buildScaledColumns. rewrite (scale_one _ _ HB HT).
  rewrite List.map_map. cbn [snd].
  rewrite (List.map_ext _ w) by (intros c; apply floor_times_one).
  rewrite fold_left_fst.
  rewrite sort_equal_keys.
  2:{ apply List.Forall_forall. intros e He. apply list_elem_of_In in He.
      apply elem_of_lookup_imap in He. destruct He as (i & c & -> & Hc).
      rewrite list_lookup_fmap in Hc. destruct (cols !! i); [| discriminate].
      injection Hc as <-. cbn [snd]. apply fracOf_times_one. }
  change (fold_left Z.add (List.map w cols) 0) with (sumZ (List.map w cols)).
  rewrite <- sumCols_map. fold k.
  rewrite <- firstn_map.
  rewrite (imap_fst_seq0 (fun c : Col * Q => fracOf (snd c))), length_map.
  fold widths'. rewrite imap_fmap. reflexivity.
Qed.

Lemma wide_widths'_lookup (i : nat) (c : Col) :
  cols !! i = Some c ->
  widths' !! i = Some (if (i <? k)%nat then w c + 1 else w c).
Proof.
  intros Hc. unfold widths'.
  rewrite (bumps_lookup _ _ i (w c)).
  - f_equal. pose proof (lookup_lt_Some _ _ _ Hc) as Hlt.
    destruct (Nat.ltb_spec i k) as [Hik | Hik].
    + rewrite bool_decide_eq_true_2; [reflexivity |].
      apply elem_of_firstn_seq. lia.
    + rewrite bool_decide_eq_false_2; [reflexivity |].
      intros Hin. apply elem_of_firstn_seq in Hin. lia.
  - pose proof (NoDup_seq 0 (length cols)) as Hnd.
    rewrite <- (firstn_skipn k (seq 0 (length cols))) in Hnd.
    apply NoDup_app in Hnd. exact (proj1 Hnd).
  - now rewrite list_lookup_fmap, Hc.
Qed.

Lemma wide_widths'_sum :
  sumZ widths' = sumCols cols + Z.min (T - sumCols cols) (Z.of_nat (length cols)).
Proof.
  unfold widths'. rewrite bumps_sum.
  - rewrite <- sumCols_map. change (@take) with (@firstn).
    rewrite length_firstn, length_seq. unfold k. lia.
  - apply List.Forall_forall. intros i Hi. apply list_elem_of_In in Hi.
    apply elem_of_firstn_seq in Hi. rewrite length_map. lia.
Qed.

End Wide.

(** X3.  When the table is at least as wide as the columns together,
    [buildScaledColumns] keeps every base width and adds one pixel to the
    first (tableW - sum) columns, at most one pixel per column: the widths
    then sum to the table width only if it exceeds the sum by no more than
    the number of columns. *)
Theorem scaled_columns_in_a_wider_table (cols : list Col) (tableW : Z) :
  cols <> [] ->
  Forall (fun c => 0 < w c) cols ->
  sumCols cols <= tableW ->
  let out := buildScaledColumns cols tableW in
  let extra := Z.min (tableW - sumCols cols) (Z.of_nat (length cols)) in
  length out = length cols /\
  (forall i c, cols !! i = Some c ->
     exists sc, out !! i = Some sc /\ scol sc = c /\
       sw sc = if Z.of_nat i <? extra then w c + 1 else w c) /\
  fold_left Z.add (List.map sw out) 0 = sumCols cols + extra /\
  (fold_left Z.add (List.map sw out) 0 = tableW <->
     tableW - sumCols cols <= Z.of_nat (length cols)).
Proof.
  intros Hne Hpos HT out extra.
  assert (Hlook : forall i c, cols !! i = Some c ->
            out !! i = Some (mkScaledCol c (inject_Z (w c) * 1)
                               (if Z.of_nat i <? extra then w c + 1 else w c))).
  { intros i c Hc. subst out. rewrite (wide_unfold cols tableW Hne Hpos HT).
    rewrite list_lookup_imap, Hc. cbn.
    rewrite (wide_widths'_lookup cols tableW i c Hc).
    do 2 f_equal. unfold default. cbn [from_option id].
    pose proof (lookup_lt_Some _ _ _ Hc) as Hlt. subst extra.
    destruct (Nat.ltb_spec i (Z.to_nat (tableW - sumCols cols)));
      destruct (Z.ltb_spec (Z.of_nat i)
                  (Z.min (tableW - sumCols cols) (Z.of_nat (length cols))));
      try reflexivity; lia. }
  assert (Hlen : length out = length cols).
  { subst out. rewrite (wide_unfold cols tableW Hne Hpos HT). apply length_imap. }
  assert (Hsum : fold_left Z.add (List.map sw out) 0 = sumCols cols + extra).
  { change (sumZ (List.map sw out) = sumCols cols + extra).
    subst extra. rewrite <- (wide_widths'_sum cols tableW HT). f_equal.
    apply list_eq. intros i. rewrite list_lookup_fmap.
    destruct (cols !! i) as [c |] eqn:Hc.
    - rewrite (Hlook i c Hc), (wide_widths'_lookup cols tableW i c Hc).
      cbn [fmap option_fmap option_map sw]. f_equal.
      pose proof (lookup_lt_Some _ _ _ Hc) as Hlt.
      destruct (Nat.ltb_spec i (Z.to_nat (tableW - sumCols cols)));
        destruct (Z.ltb_spec (Z.of_nat i)
                    (Z.min (tableW - sumCols cols) (Z.of_nat (length cols))));
        try reflexivity; lia.
    - apply lookup_ge_None_1 in Hc.
      rewrite (lookup_ge_None_2 out) by lia. cbn. symmetry.
      apply lookup_ge_None_2. rewrite bumps_length, length_map. lia. }
  split; [exact Hlen |]. split; [| split; [exact Hsum |]].
  - intros i c Hc. eexists. split; [apply (Hlook i c Hc) |]. now split.
  - rewrite Hsum. subst extra. lia.
Qed.

(** The single-panel series render gives [drawPanel] a panel 856 wide, so a
    table 820 wide, for columns that sum to 626. *)
Lemma scaled_columns_wide_witness :
  fold_left Z.add (List.map sw (buildScaledColumns (columnsFor false false false) 820)) 0 =
    sumCols (columnsFor false false false) +
    Z.min (820 - sumCols (columnsFor false false false))
          (Z.of_nat (length (columnsFor false false false))).
Proof.
  apply (scaled_columns_in_a_wider_table (columnsFor false false false) 820).
  - discriminate.
  - repeat (constructor; [reflexivity |]). constructor.
  - vm_compute. discriminate.
Defined.

End ScalingWideSpec.

(** ** render.js: colours *)

Module ColourSpec.
Import Render DrawPanel.

Lemma hexValue_range (c : N) (v : Z) : hexValue c = Some v -> 0 <= v <= 15.
Proof.
  unfold hexValue, isDigit.
  destruct ((48 <=? c) && (c <=? 57))%N eqn:H1.
  { intros [= <-]. apply andb_true_iff in H1. rewrite !N.leb_le in H1. lia. }
  destruct ((97 <=? c) && (c <=? 102))%N eqn:H2.
  { intros [= <-]. apply andb_true_iff in H2. rewrite !N.leb_le in H2. lia. }
  destruct ((65 <=? c) && (c <=? 70))%N eqn:H3; [| discriminate].
  intros [= <-]. apply andb_true_iff in H3. rewrite !N.leb_le in H3. lia.
Qed.

Lemma hexValue_not_space (c : N) (v : Z) : hexValue c = Some v -> isWhiteSpace c = false.
Proof.
  unfold hexValue, isDigit, isWhiteSpace. intros H.
  repeat match type of H with
         | context [if ?b then _ else _] => destruct b eqn:?
         end; try discriminate;
  repeat match goal with
         | H : (_ && _)%bool = true |- _ => apply andb_true_iff in H; destruct H
         | H : (_ <=? _)%N = true |- _ => apply N.leb_le in H
         end;
  repeat (apply orb_false_iff; split);
  try (apply andb_false_iff);
  try (apply N.eqb_neq; lia).
  all: try (left; apply N.leb_gt; lia).
  all: try (right; apply N.leb_gt; lia).
Qed.

Lemma hexValue_char (c : N) (v : Z) :
  hexValue c = Some v ->
  (c =? 35)%N = false /\ (c =? 45)%N = false /\ (c =? 43)%N = false /\
  (c =? 120)%N = false /\ (c =? 88)%N = false /\ isHexDigit c = true.
Proof.
  intros H. unfold isHexDigit. rewrite H.
  unfold hexValue, isDigit in H.
  repeat match type of H with
         | context [if ?b then _ else _] => destruct b eqn:?
         end; try discriminate;
  repeat match goal with
         | H : (_ && _)%bool = true |- _ => apply andb_true_iff in H; destruct H
         | H : (_ <=? _)%N = true |- _ => apply N.leb_le in H
         end;
  repeat split; apply N.eqb_neq; lia.
Qed.

Lemma land_255 (x : Z) : Z.land x 255 = x mod 256.
Proof. change 255 with (Z.ones 8). now rewrite Z.land_ones by lia. Qed.

Section SixDigits.
Variables c1 c2 c3 c4 c5 c6 : N.
Variables v1 v2 v3 v4 v5 v6 : Z.
Hypothesis H1 : hexValue c1 = Some v1.
Hypothesis H2 : hexValue c2 = Some v2.
Hypothesis H3 : hexValue c3 = Some v3.
Hypothesis H4 : hexValue c4 = Some v4.
Hypothesis H5 : hexValue c5 = Some v5.
Hypothesis H6 : hexValue c6 = Some v6.

Let h := [c1; c2; c3; c4; c5; c6].

Lemma six_trim : trim h = h.
Proof.
  unfold trim, trimEnd, trimStart, dropWhile, h. cbn.
  rewrite (hexValue_not_space _ _ H1). cbn.
  rewrite (hexValue_not_space _ _ H6). reflexivity.
Qed.

Lemma six_parse :
  parseInt16 h = Some (1048576 * v1 + 65536 * v2 + 4096 * v3 + 256 * v4 + 16 * v5 + v6).
Proof.
  destruct (hexValue_char _ _ H1) as (_ & Hm & Hp & _ & _ & Hd1).
  destruct (hexValue_char _ _ H2) as (_ & _ & _ & Hx & HX & Hd2).
  destruct (hexValue_char _ _ H3) as (_ & _ & _ & _ & _ & Hd3).
  destruct (hexValue_char _ _ H4) as (_ & _ & _ & _ & _ & Hd4).
  destruct (hexValue_char _ _ H5) as (_ & _ & _ & _ & _ & Hd5).
  destruct (hexValue_char _ _ H6) as (_ & _ & _ & _ & _ & Hd6).
  unfold parseInt16, trimStart, dropWhile, h. cbn [span].
  rewrite (hexValue_not_space _ _ H1). cbn [snd].
  rewrite Hm, Hp, Hx, HX, andb_false_r.
  cbn [span]. rewrite Hd1, Hd2, Hd3, Hd4, Hd5, Hd6. cbn [fst isEmpty].
  unfold hexDigitsValue. cbn [fold_left]. rewrite H1, H2, H3, H4, H5, H6.
  unfold default. cbn [from_option id]. f_equal. lia.
Qed.

Lemma six_rgb :
  hexToRgb h = Some (mkRgb (16 * v1 + v2) (16 * v3 + v4) (16 * v5 + v6)) /\
  hexToRgb (35%N :: h) = Some (mkRgb (16 * v1 + v2) (16 * v3 + v4) (16 * v5 + v6)).
Proof.
  pose proof (hexValue_range _ _ H1). pose proof (hexValue_range _ _ H2).
  pose proof (hexValue_range _ _ H3). pose proof (hexValue_range _ _ H4).
  pose proof (hexValue_range _ _ H5). pose proof (hexValue_range _ _ H6).
  assert (Hno : removeFirst 35%N h = h).
  { unfold h. cbn [removeFirst].
    now rewrite (proj1 (hexValue_char _ _ H1)), (proj1 (hexValue_char _ _ H2)),
                (proj1 (hexValue_char _ _ H3)), (proj1 (hexValue_char _ _ H4)),
                (proj1 (hexValue_char _ _ H5)), (proj1 (hexValue_char _ _ H6)). }
  assert (Hgo : forall s, removeFirst 35%N s = h ->
            hexToRgb s = Some (mkRgb (16 * v1 + v2) (16 * v3 + v4) (16 * v5 + v6))).
  { intros s Hs. unfold hexToRgb. rewrite Hs, six_trim.
    change (length h =? 6)%nat with true. cbn [negb].
    rewrite six_parse. unfold default. cbn [from_option id].
    rewrite !land_255, !Z.shiftr_div_pow2 by lia.
    change (2 ^ 16) with 65536. change (2 ^ 8) with 256.
    f_equal. f_equal; Z.div_mod_to_equations; lia. }
  split; apply Hgo; [exact Hno | reflexivity].
Qed.

End SixDigits.

(** X4.  [hexToRgb] gives null exactly when, with the first "#" removed and the
    ends trimmed, the string is not six characters long; each component of
    a result is between 0 and 255; and six hexadecimal digits, with or
    without "#" in front, give the three bytes they spell. *)
Theorem hexToRgb_reads_six_digits :
  (forall hex, hexToRgb hex = None <-> length (trim (removeFirst 35%N hex)) <> 6%nat) /\
  (forall hex c, hexToRgb hex = Some c ->
     0 <= red c <= 255 /\ 0 <= green c <= 255 /\ 0 <= blue c <= 255) /\
  (forall c1 c2 c3 c4 c5 c6 v1 v2 v3 v4 v5 v6,
     hexValue c1 = Some v1 -> hexValue c2 = Some v2 -> hexValue c3 = Some v3 ->
     hexValue c4 = Some v4 -> hexValue c5 = Some v5 -> hexValue c6 = Some v6 ->
     let rgb := mkRgb (16 * v1 + v2) (16 * v3 + v4) (16 * v5 + v6) in
     hexToRgb [c1; c2; c3; c4; c5; c6] = Some rgb /\
     hexToRgb (35%N :: [c1; c2; c3; c4; c5; c6]) = Some rgb /\
     0 <= 16 * v1 + v2 <= 255 /\ 0 <= 16 * v3 + v4 <= 255 /\ 0 <= 16 * v5 + v6 <= 255).
Proof.
  split; [| split].
  - intros hex. unfold hexToRgb.
    destruct (Nat.eqb_spec (length (trim (removeFirst 35%N hex))) 6) as [He | Hne];
      cbn [negb]; split; intros H; try discriminate; try reflexivity; congruence.
  - intros hex c. unfold hexToRgb.
    destruct (negb _); [discriminate |]. intros [= <-]. cbn [red green blue].
    rewrite !land_255.
    repeat split; Z.div_mod_to_equations; lia.
  - intros c1 c2 c3 c4 c5 c6 v1 v2 v3 v4 v5 v6 H1 H2 H3 H4 H5 H6 rgb.
    pose proof (hexValue_range _ _ H1). pose proof (hexValue_range _ _ H2).
    pose proof (hexValue_range _ _ H3). pose proof (hexValue_range _ _ H4).
    pose proof (hexValue_range _ _ H5). pose proof (hexValue_range _ _ H6).
    destruct (six_rgb c1 c2 c3 c4 c5 c6 v1 v2 v3 v4 v5 v6 H1 H2 H3 H4 H5 H6) as [Ha Hb].
    repeat split; try assumption; lia.
Qed.

(** The tint of the Split Yellow panel. *)
Lemma hexToRgb_witness :
  hexToRgb (lit "#f6c343") = Some (mkRgb 246 195 67).
Proof.
  apply (proj2 (proj2 hexToRgb_reads_six_digits)
           102%N 54%N 99%N 51%N 52%N 51%N 15 6 12 3 4 3); reflexivity.
Defined.

End ColourSpec.

(** ** Normalised text *)

Module TextSpec.
Import Render Standings DrawPanel IndexScrape.

(** Every white-space character is a U+0020 followed by a character that
    is not white space. *)
Fixpoint singleSpaced (s : jsstring) : bool :=
  match s with
  | [] => true
  | c :: s' =>
      (if isWhiteSpace c
       then (c =? 32)%N && match s' with d :: _ => negb (isWhiteSpace d) | [] => false end
       else true) && singleSpaced s'
  end.

(** No white space at either end, single spaces inside. *)
Definition isNormalized (s : jsstring) : bool :=
  match s with c :: _ => negb (isWhiteSpace c) | [] => true end && singleSpaced s.

(** As [singleSpaced], but a space may end the string. *)
Fixpoint looseSpaced (s : jsstring) : bool :=
  match s with
  | [] => true
  | c :: s' =>
      (if isWhiteSpace c
       then (c =? 32)%N && match s' with d :: _ => negb (isWhiteSpace d) | [] => true end
       else true) && looseSpaced s'
  end.

Lemma span_rest (f : N -> bool) (s a b : jsstring) :
  span f s = (a, b) ->
  s = a ++ b /\ Forall (fun c => f c = true) a /\
  match b with c :: _ => f c = false | [] => True end.
Proof.
  revert a b. induction s as [| c s IH]; intros a b; cbn.
  - intros [= <- <-]. repeat split. constructor.
  - destruct (f c) eqn:Hc.
    + destruct (span f s) as [a' b'] eqn:Hs. intros [= <- <-].
      destruct (IH a' b' eq_refl) as (-> & Ha & Hb).
      repeat split; [now constructor | exact Hb].
    + intros [= <- <-]. repeat split; [constructor | exact Hc].
Qed.

Lemma trimStart_split (s : jsstring) :
  exists ws, s = ws ++ trimStart s /\ Forall (fun c => isWhiteSpace c = true) ws /\
             match trimStart s with c :: _ => isWhiteSpace c = false | [] => True end.
Proof.
  unfold trimStart, dropWhile.
  destruct (span isWhiteSpace s) as [a b] eqn:Hs.
  destruct (span_rest _ _ _ _ Hs) as (-> & Ha & Hb). now exists a.
Qed.

Lemma trimEnd_split (s : jsstring) :
  exists ws, s = trimEnd s ++ ws /\ Forall (fun c => isWhiteSpace c = true) ws /\
             (trimEnd s = [] \/ exists p d, trimEnd s = p ++ [d] /\ isWhiteSpace d = false).
Proof.
  unfold trimEnd, dropWhile.
  destruct (span isWhiteSpace (rev s)) as [a b] eqn:Hs.
  destruct (span_rest _ _ _ _ Hs) as (Hrev & Ha & Hb). cbn [snd].
  exists (rev a). split; [| split].
  - rewrite <- rev_app_distr, <- Hrev. symmetry. apply rev_involutive.
  - apply List.Forall_forall. intros c Hc. apply in_rev in Hc.
    now apply (proj1 (List.Forall_forall _ _) Ha).
  - destruct b as [| c b]; [now left |]. right. exists (rev b), c. now split.
Qed.

Lemma trimEnd_keeps (p : jsstring) (d : N) :
  isWhiteSpace d = false -> trimEnd (p ++ [d]) = p ++ [d].
Proof.
  intros Hd. unfold trimEnd, dropWhile. rewrite rev_unit. cbn [span]. rewrite Hd.
  cbn [snd rev]. now rewrite rev_involutive.
Qed.

Lemma collapseSpaces_head (d : N) (s : jsstring) :
  isWhiteSpace d = false -> collapseSpaces (d :: s) = d :: collapseSpaces s.
Proof. intros Hd. cbn. now rewrite Hd. Qed.

Lemma collapseSpaces_loose (s : jsstring) : looseSpaced (collapseSpaces s) = true.
Proof.
  induction s as [| c s IH]; [reflexivity |].
  cbn [collapseSpaces]. destruct (isWhiteSpace c) eqn:Hc.
  - destruct s as [| d s]; [reflexivity |].
    destruct (isWhiteSpace d) eqn:Hd; [exact IH |].
    rewrite (collapseSpaces_head d s Hd) in *.
    cbn [looseSpaced] in *. change (isWhiteSpace 32) with true. cbn [N.eqb Pos.eqb andb].
    rewrite Hd in *. exact IH.
  - cbn [looseSpaced]. now rewrite Hc, IH.
Qed.

Lemma looseSpaced_suffix (a b : jsstring) : looseSpaced (a ++ b) = true -> looseSpaced b = true.
Proof.
  induction a as [| c a IH]; [trivial |].
  cbn [app looseSpaced]. intros H. apply andb_true_iff in H. now apply IH.
Qed.

Lemma looseSpaced_prefix (p q : jsstring) :
  looseSpaced (p ++ q) = true ->
  (p = [] \/ exists p' d, p = p' ++ [d] /\ isWhiteSpace d = false) ->
  singleSpaced p = true.
Proof.
  induction p as [| c p IH]; [reflexivity |].
  cbn [app looseSpaced singleSpaced]. intros H Hlast.
  apply andb_true_iff in H. destruct H as [Hc Hrest].
  destruct Hlast as [| (p' & d & Hp & Hd)]; [discriminate |].
  destruct p as [| e p].
  - destruct p' as [| x p']; [| destruct p'; discriminate].
    injection Hp as ->. now rewrite Hd.
  - rewrite IH.
    + rewrite andb_true_r. exact Hc.
    + exact Hrest.
    + right. destruct p' as [| x p']; [discriminate |].
      injection Hp as -> Hp. now exists p', d.
Qed.

Lemma normalize_normalized (s : jsstring) : isNormalized (normalize s) = true.
Proof.
  unfold normalize, trim.
  pose proof (collapseSpaces_loose s) as Hl.
  destruct (trimStart_split (collapseSpaces s)) as (ws & Hs & _ & Hhead).
  rewrite Hs in Hl. apply looseSpaced_suffix in Hl.
  destruct (trimEnd_split (trimStart (collapseSpaces s))) as (ws' & He & _ & Hlast).
  rewrite He in Hl, Hhead.
  unfold isNormalized. rewrite (looseSpaced_prefix _ _ Hl Hlast), andb_true_r.
  destruct (trimEnd (trimStart (collapseSpaces s))) as [| c t]; [reflexivity |].
  cbn in Hhead. now rewrite Hhead.
Qed.

Lemma singleSpaced_collapse (s : jsstring) : singleSpaced s = true -> collapseSpaces s = s.
Proof.
  induction s as [| c s IH]; [reflexivity |].
  cbn [singleSpaced collapseSpaces]. intros H. apply andb_true_iff in H.
  destruct H as [Hc Hs]. rewrite (IH Hs).
  destruct (isWhiteSpace c); [| reflexivity].
  apply andb_true_iff in Hc. destruct Hc as [Hc Hd]. apply N.eqb_eq in Hc. subst c.
  destruct s as [| d s]; [discriminate |].
  apply negb_true_iff in Hd. now rewrite Hd.
Qed.

Lemma singleSpaced_last (s : jsstring) :
  singleSpaced s = true ->
  s = [] \/ exists p d, s = p ++ [d] /\ isWhiteSpace d = false.
Proof.
  induction s as [| c s IH]; [now left |].
  cbn [singleSpaced]. intros H. apply andb_true_iff in H. destruct H as [Hc Hs].
  right. destruct (IH Hs) as [-> | (p & d & -> & Hd)].
  - exists [], c. split; [reflexivity |].
    destruct (isWhiteSpace c); [| reflexivity].
    now rewrite andb_false_r in Hc.
  - now exists (c :: p), d.
Qed.

Lemma normalized_fixed (s : jsstring) : isNormalized s = true -> normalize s = s.
Proof.
  unfold isNormalized, normalize, trim. intros H.
  apply andb_true_iff in H. destruct H as [Hhead Hs].
  rewrite (singleSpaced_collapse s Hs).
  assert (Hstart : trimStart s = s).
  { destruct s as [| c s]; [reflexivity |].
    apply negb_true_iff in Hhead. unfold trimStart, dropWhile. cbn. now rewrite Hhead. }
  rewrite Hstart.
  destruct (singleSpaced_last s Hs) as [-> | (p & d & -> & Hd)]; [reflexivity |].
  now apply trimEnd_keeps.
Qed.

Lemma looseSpaced_no_nbsp (t : jsstring) :
  looseSpaced t = true ->
  List.map (fun c => if (c =? 160)%N then 32%N else c) t = t.
Proof.
  induction t as [| c t IH]; [reflexivity |].
  cbn [looseSpaced List.map]. intros H. apply andb_true_iff in H. destruct H as [Hc Ht].
  rewrite (IH Ht). f_equal.
  destruct (N.eqb_spec c 160) as [-> | Hne]; [| reflexivity].
  change (isWhiteSpace 160) with true in Hc. discriminate.
Qed.

Lemma cleanText_normalize (s : jsstring) : cleanText s = normalize s.
Proof.
  unfold cleanText, normalize. now rewrite (looseSpaced_no_nbsp _ (collapseSpaces_loose s)).
Qed.

(** Text keeps only what [f] accepts when [f] rejects white space. *)
Section FilterThrough.
Variable f : N -> bool.
Hypothesis f_not_space : forall c, isWhiteSpace c = true -> f c = false.

Lemma filter_spaces (ws : jsstring) :
  Forall (fun c => isWhiteSpace c = true) ws -> List.filter f ws = [].
Proof.
  induction 1 as [| c ws Hc _ IH]; [reflexivity |].
  cbn. now rewrite (f_not_space c Hc).
Qed.

Lemma filter_collapseSpaces (s : jsstring) :
  List.filter f (collapseSpaces s) = List.filter f s.
Proof.
  induction s as [| c s IH]; [reflexivity |].
  cbn [collapseSpaces]. destruct (isWhiteSpace c) eqn:Hc.
  - cbn [List.filter]. rewrite (f_not_space c Hc).
    destruct s as [| d s]; [cbn; now rewrite (f_not_space 32%N eq_refl) |].
    destruct (isWhiteSpace d); [exact IH |].
    cbn [List.filter]. rewrite (f_not_space 32%N eq_refl). exact IH.
  - cbn [List.filter]. now rewrite IH.
Qed.

Lemma filter_trim (s : jsstring) : List.filter f (trim s) = List.filter f s.
Proof.
  unfold trim.
  destruct (trimStart_split s) as (ws & Hs & Hws & _).
  destruct (trimEnd_split (trimStart s)) as (ws' & He & Hws' & _).
  rewrite Hs at 2. rewrite He at 2.
  rewrite !List.filter_app, (filter_spaces ws Hws), (filter_spaces ws' Hws').
  now rewrite app_nil_r.
Qed.

Lemma filter_normalize (s : jsstring) : List.filter f (normalize s) = List.filter f s.
Proof. unfold normalize. now rewrite filter_trim, filter_collapseSpaces. Qed.

End FilterThrough.

Lemma space_not_digit (c : N) : isWhiteSpace c = true -> isDigit c = false.
Proof.
  intros Hw. destruct (isDigit c) eqn:Hd; [| reflexivity].
  unfold isDigit in Hd. apply andb_true_iff in Hd. rewrite !N.leb_le in Hd.
  unfold isWhiteSpace in Hw.
  repeat (apply orb_true_iff in Hw; destruct Hw as [Hw | Hw]);
    try (apply andb_true_iff in Hw; rewrite !N.leb_le in Hw);
    try apply N.eqb_eq in Hw; lia.
Qed.

Lemma filter_idempotent (f : N -> bool) (s : jsstring) :
  List.filter f (List.filter f s) = List.filter f s.
Proof.
  induction s as [| c s IH]; [reflexivity |].
  cbn. destruct (f c) eqn:Hc; [| exact IH]. cbn. now rewrite Hc, IH.
Qed.

(** X5.  The text normalisers of the three files ([normalize], [normalizeText]
    and [cleanText]) are one function: its result has no white space at
    either end and single U+0020 spaces inside, a string of that form is
    left as it is, and so normalising twice changes nothing. *)
Theorem normalize_is_idempotent :
  (forall s, isNormalized (normalize s) = true) /\
  (forall s, isNormalized s = true -> normalize s = s) /\
  (forall s, normalize (normalize s) = normalize s) /\
  (forall s, normalizeText s = normalize s /\ cleanText s = normalize s).
Proof.
  split; [exact normalize_normalized |].
  split; [exact normalized_fixed |].
  split; [intros s; apply normalized_fixed, normalize_normalized |].
  intros s. split; [reflexivity | apply cleanText_normalize].
Qed.

Lemma normalize_witness : normalize (lit "A. Driver") = lit "A. Driver".
Proof.
  apply (proj1 (proj2 normalize_is_idempotent)). reflexivity.
Defined.

(** X6.  [normalizeCarNoKey] is the digits of the string when it has any, so
    "#27", "27" and " 2 7 " have one key; without a digit it is the
    normalised text; applying it twice changes nothing. *)
Theorem car_number_key_is_the_digits :
  (forall s, List.filter isDigit s <> [] -> normalizeCarNoKey s = List.filter isDigit s) /\
  (forall s, List.filter isDigit s = [] -> normalizeCarNoKey s = normalize s) /\
  (forall s s', List.filter isDigit s = List.filter isDigit s' ->
                List.filter isDigit s <> [] ->
                normalizeCarNoKey s = normalizeCarNoKey s') /\
  (forall s, normalizeCarNoKey (normalizeCarNoKey s) = normalizeCarNoKey s).
Proof.
  assert (Hdig : forall s, List.filter isDigit s <> [] ->
                           normalizeCarNoKey s = List.filter isDigit s).
  { intros s Hne. unfold normalizeCarNoKey.
    rewrite (filter_normalize isDigit space_not_digit).
    now destruct (List.filter isDigit s). }
  assert (Hnone : forall s, List.filter isDigit s = [] -> normalizeCarNoKey s = normalize s).
  { intros s He. unfold normalizeCarNoKey.
    now rewrite (filter_normalize isDigit space_not_digit), He. }
  split; [exact Hdig |]. split; [exact Hnone |]. split.
  - intros s s' He Hne. rewrite (Hdig s Hne), Hdig; [exact He | now rewrite <- He].
  - intros s. destruct (List.filter isDigit s) as [| d ds] eqn:Hf.
    + rewrite (Hnone s Hf). rewrite Hnone.
      * apply normalized_fixed, normalize_normalized.
      * now rewrite (filter_normalize isDigit space_not_digit).
    + assert (Hne : List.filter isDigit s <> []) by (rewrite Hf; discriminate).
      rewrite (Hdig s Hne). rewrite Hdig; rewrite filter_idempotent; [reflexivity | exact Hne].
Qed.

Lemma car_number_key_witness :
  normalizeCarNoKey (lit "#27") = normalizeCarNoKey (lit " 2 7 ").
Proof.
  apply (proj1 (proj2 (proj2 car_number_key_is_the_digits))).
  - reflexivity.
  - discriminate.
Defined.

End TextSpec.

(** ** index.js: penalties *)

Module PenaltySpec.
Import Render Index Standings DrawPanel IndexScrape.

(** The fields the scraper filled are the same in both rows. *)
Definition sameScrapedFields (r r' : Row) : Prop :=
  pos r' = pos r /\ driver r' = driver r /\ rating r' = rating r /\
  carNo r' = carNo r /\ className r' = className r /\ carImg r' = carImg r /\
  carMakeKey r' = carMakeKey r /\ countryImg r' = countryImg r /\
  racePts r' = racePts r /\ qualiPts r' = qualiPts r /\ flPts r' = flPts r /\
  total r' = total r /\ nett r' = nett r /\ diff r' = diff r.

(** What a row carries once the record [rec] was attached to it. *)
Definition carries (r' : Row) (rec : PenaltyRec) : Prop :=
  penPoints r' = orText (recPenPoints rec) (lit "0") /\
  qualiBan r' = recQualiBan rec /\ banServed r' = recBanServed rec.

Section Attach.
Variable toLowerCaseFull : jsstring -> jsstring.
Variable penaltyTab : option PenaltyTab.

Lemma orText_nonempty (a : jsstring) : orText a (lit "0") <> [].
Proof. unfold orText. destruct a; discriminate. Qed.

Lemma attachPenalty_fields (r : Row) :
  let r' := attachPenalty toLowerCaseFull penaltyTab r in
  sameScrapedFields r r' /\
  penPoints r' <> [] /\
  qbActive r' =
    negb (isEmpty (normalize (qualiBan r'))) && isEmpty (normalize (banServed r')).
Proof.
  cbn. repeat split. apply orText_nonempty.
Qed.

Lemma attachPenalty_found (r : Row) (rec : PenaltyRec) :
  findPenalty toLowerCaseFull penaltyTab r = Some rec ->
  carries (attachPenalty toLowerCaseFull penaltyTab r) rec.
Proof.
  intros H. unfold carries, attachPenalty. cbn [penPoints qualiBan banServed].
  now rewrite H.
Qed.

Lemma attachPenalty_default (r : Row) :
  findPenalty toLowerCaseFull penaltyTab r = None ->
  let r' := attachPenalty toLowerCaseFull penaltyTab r in
  penPoints r' = lit "0" /\ qualiBan r' = [] /\ banServed r' = [] /\ qbActive r' = false.
Proof.
  intros H. unfold attachPenalty. cbn [penPoints qualiBan banServed qbActive].
  now rewrite H.
Qed.

End Attach.

(** X7.  [attachPenaltiesToSprintRows] returns as many rows as it got, each with
    its scraped fields as they were, a penalty total that is never empty,
    and [qbActive] set exactly when a qualifying ban is noted and not
    served.  The penalties are those of the sheet record with the row's car
    number key, whatever the name; failing that, of the record with its
    name key; failing both, the total is "0" and no ban is noted. *)
Theorem penalties_attached_by_car_number_then_name
    (toLowerCaseFull : jsstring -> jsstring)
    (penaltyTab : option PenaltyTab) (rows : list Row) :
  let out := attachPenaltiesToSprintRows toLowerCaseFull rows penaltyTab in
  length out = length rows /\
  forall i r, rows !! i = Some r ->
    exists r', out !! i = Some r' /\
      sameScrapedFields r r' /\
      penPoints r' <> [] /\
      qbActive r' =
        negb (isEmpty (normalize (qualiBan r'))) && isEmpty (normalize (banServed r')) /\
      (forall t rec, penaltyTab = Some t ->
         normalizeCarNoKey (carNo r) <> [] ->
         byCarNo t !! normalizeCarNoKey (carNo r) = Some rec ->
         carries r' rec) /\
      (forall t rec, penaltyTab = Some t ->
         (normalizeCarNoKey (carNo r) = [] \/
          byCarNo t !! normalizeCarNoKey (carNo r) = None) ->
         normalizeNameKey toLowerCaseFull (driver r) <> [] ->
         byName t !! normalizeNameKey toLowerCaseFull (driver r) = Some rec ->
         carries r' rec) /\
      (findPenalty toLowerCaseFull penaltyTab r = None ->
         penPoints r' = lit "0" /\ qualiBan r' = [] /\ banServed r' = [] /\
         qbActive r' = false).
Proof.
  intros out. split; [apply length_map |].
  intros i r Hr. exists (attachPenalty toLowerCaseFull penaltyTab r).
  split; [subst out; unfold attachPenaltiesToSprintRows; now rewrite list_lookup_fmap, Hr |].
  destruct (attachPenalty_fields toLowerCaseFull penaltyTab r) as (Hsame & Hpen & Hqb).
  split; [exact Hsame |]. split; [exact Hpen |]. split; [exact Hqb |].
  split; [| split].
  - intros t rec -> Hkey Hrec. apply attachPenalty_found.
    unfold findPenalty. destruct (normalizeCarNoKey (carNo r)); [congruence |].
    cbn [isEmpty]. now rewrite Hrec.
  - intros t rec -> Hcar Hkey Hrec. apply attachPenalty_found.
    unfold findPenalty.
    assert (Hnone : (if isEmpty (normalizeCarNoKey (carNo r)) then None
                     else byCarNo t !! normalizeCarNoKey (carNo r)) = None).
    { destruct Hcar as [-> | ->]; [reflexivity |].
      now destruct (isEmpty (normalizeCarNoKey (carNo r))). }
    rewrite Hnone.
    destruct (normalizeNameKey toLowerCaseFull (driver r)); [congruence |].
    cbn [isEmpty]. exact Hrec.
  - apply attachPenalty_default.
Qed.

(** A sheet with one record, for car 27, and a standings row of that car
    under another name. *)
Definition sampleSheet : PenaltyTab :=
  mkPenaltyTab {[ lit "27" := mkPenaltyRec (lit "3") (lit "Round 4") [] ]} ∅.

Definition sampleSprintRow : Row :=
  mkRow (lit "1") (lit "A. Driver") [] (lit "#27") (lit "Pro") (lit "car.png") [] []
        (lit "25") (lit "3") (lit "1") (lit "29") (lit "29") (lit "0") [] [] [] false.

Lemma penalties_attached_witness :
  carries (attachPenalty toLowerCase (Some sampleSheet) sampleSprintRow)
          (mkPenaltyRec (lit "3") (lit "Round 4") []).
Proof.
  destruct (proj2 (penalties_attached_by_car_number_then_name
                     toLowerCase (Some sampleSheet) [sampleSprintRow])
              0%nat sampleSprintRow eq_refl)
    as (r' & Hr' & _ & _ & _ & Hcar & _).
  injection Hr' as <-.
  apply (Hcar sampleSheet); [reflexivity | discriminate | reflexivity].
Defined.

(** *** The indexes built from the sheet *)

Section Sheet.
Variable toLowerCaseFull : jsstring -> jsstring.
Variables idxTotal idxQualiBan idxBanServed : Z.

(** The record made of a row of the sheet. *)
Definition recordOf (r : list jsstring) : PenaltyRec :=
  mkPenaltyRec (orText (normalize (cellV r idxTotal)) (lit "0"))
               (normalize (cellV r idxQualiBan))
               (normalize (cellV r idxBanServed)).

Definition hasCarKey (k : jsstring) (r : list jsstring) : bool :=
  strEq (normalizeCarNoKey (cellV r 0)) k.

Definition hasNameKey (k : jsstring) (r : list jsstring) : bool :=
  negb (isEmpty (normalize (cellV r 1))) &&
  strEq (normalizeNameKey toLowerCaseFull (normalize (cellV r 1))) k.

Let step := sheetStep toLowerCaseFull idxTotal idxQualiBan idxBanServed.

Lemma sheet_fold (rows : list (list jsstring)) :
  let tab := fold_left step rows (mkPenaltyTab ∅ ∅) in
  (forall k, k <> [] ->
     byCarNo tab !! k = recordOf <$> last (List.filter (hasCarKey k) rows)) /\
  (forall k,
     byName tab !! k = recordOf <$> last (List.filter (hasNameKey k) rows)) /\
  byCarNo tab !! [] = None.
Proof.
  induction rows as [| r rows IH] using rev_ind; [now repeat split |].
  cbn zeta in *. rewrite fold_left_app. cbn [fold_left].
  destruct IH as (IHc & IHn & IHe).
  set (tab := fold_left step rows (mkPenaltyTab ∅ ∅)) in *.
  split; [| split]; unfold step, sheetStep.
  - intros k Hk. rewrite List.filter_app. cbn [List.filter]. unfold hasCarKey at 2, strEq.
    destruct (decide (normalizeCarNoKey (cellV r 0) = k)) as [He | Hne].
    + rewrite (bool_decide_eq_true_2 _ He), last_snoc. cbn [fmap option_fmap option_map].
      destruct (normalizeCarNoKey (cellV r 0)) as [| c key] eqn:Hkey; [congruence |].
      cbn [isEmpty andb byCarNo]. rewrite <- He. apply lookup_insert_eq.
    + rewrite (bool_decide_eq_false_2 _ Hne), app_nil_r.
      destruct (isEmpty (normalizeCarNoKey (cellV r 0)) && isEmpty (normalize (cellV r 1)));
        [now apply IHc |].
      cbn [byCarNo]. destruct (isEmpty (normalizeCarNoKey (cellV r 0))); [now apply IHc |].
      rewrite lookup_insert_ne by exact Hne. now apply IHc.
  - intros k. rewrite List.filter_app. cbn [List.filter]. unfold hasNameKey at 2, strEq.
    destruct (normalize (cellV r 1)) as [| c name] eqn:Hname.
    + cbn [isEmpty negb andb]. rewrite app_nil_r, andb_true_r.
      destruct (isEmpty (normalizeCarNoKey (cellV r 0))); [apply IHn |].
      cbn [byName]. apply IHn.
    + cbn [isEmpty negb andb]. rewrite andb_false_r. cbn [byName].
      destruct (decide (normalizeNameKey toLowerCaseFull (c :: name) = k)) as [He | Hne].
      * rewrite (bool_decide_eq_true_2 _ He), last_snoc. cbn [fmap option_fmap option_map].
        rewrite <- He. apply lookup_insert_eq.
      * rewrite (bool_decide_eq_false_2 _ Hne), app_nil_r.
        rewrite lookup_insert_ne by exact Hne. apply IHn.
  - destruct (isEmpty (normalizeCarNoKey (cellV r 0)) && isEmpty (normalize (cellV r 1)));
      [exact IHe |].
    cbn [byCarNo].
    destruct (normalizeCarNoKey (cellV r 0)) as [| c key]; [exact IHe |].
    cbn [isEmpty]. now rewrite lookup_insert_ne.
Qed.

End Sheet.

(** X8.  [fetchPenaltyTab] fails when the sheet has no "Total", "Qualifying Ban"
    or "Ban Served" column.  Otherwise the record found under a car number
    key is made of the last row of the sheet with that key, and likewise
    for a name key; so a standings row whose car number has the digits of a
    sheet row gets the penalties of the last such sheet row. *)
Theorem penalty_sheet_last_row_wins
    (toLowerCaseFull : jsstring -> jsstring)
    (labels : list jsstring) (rows : list (list jsstring)) :
  let colLabels := List.map normalize labels in
  let idxTotal := labelIndex colLabels "total" in
  let idxQualiBan := labelIndex colLabels "qualifying ban" in
  let idxBanServed := labelIndex colLabels "ban served" in
  let rec := recordOf idxTotal idxQualiBan idxBanServed in
  (idxTotal < 0 -> penaltyTabOf toLowerCaseFull labels rows = inl ErrMissingTotal) /\
  (0 <= idxTotal -> idxQualiBan < 0 ->
     penaltyTabOf toLowerCaseFull labels rows = inl ErrMissingQualifyingBan) /\
  (0 <= idxTotal -> 0 <= idxQualiBan -> idxBanServed < 0 ->
     penaltyTabOf toLowerCaseFull labels rows = inl ErrMissingBanServed) /\
  (forall tab, penaltyTabOf toLowerCaseFull labels rows = inr tab ->
     (0 <= idxTotal /\ 0 <= idxQualiBan /\ 0 <= idxBanServed) /\
     (forall k, k <> [] ->
        byCarNo tab !! k = rec <$> last (List.filter (hasCarKey k) rows)) /\
     byCarNo tab !! [] = None /\
     (forall k,
        byName tab !! k = rec <$> last (List.filter (hasNameKey toLowerCaseFull k) rows)) /\
     (forall (r : Row) (x : list jsstring),
        normalizeCarNoKey (carNo r) <> [] ->
        last (List.filter (hasCarKey (normalizeCarNoKey (carNo r))) rows) = Some x ->
        carries (attachPenalty toLowerCaseFull (Some tab) r) (rec x))).
Proof.
  intros colLabels idxTotal idxQualiBan idxBanServed rec.
  unfold penaltyTabOf. fold colLabels. fold idxTotal. fold idxQualiBan. fold idxBanServed.
  destruct (Z.ltb_spec idxTotal 0) as [Ht | Ht].
  { repeat split; try reflexivity; try lia; discriminate. }
  destruct (Z.ltb_spec idxQualiBan 0) as [Hq | Hq].
  { repeat split; try reflexivity; try lia; discriminate. }
  destruct (Z.ltb_spec idxBanServed 0) as [Hb | Hb].
  { repeat split; try reflexivity; try lia; discriminate. }
  split; [lia |]. split; [lia |]. split; [lia |].
  intros tab [= <-].
  destruct (sheet_fold toLowerCaseFull idxTotal idxQualiBan idxBanServed rows)
    as (Hc & Hn & He).
  split; [repeat split; assumption |].
  split; [exact Hc |]. split; [exact He |]. split; [exact Hn |].
  intros r x Hkey Hlast. apply attachPenalty_found.
  unfold findPenalty.
  destruct (normalizeCarNoKey (carNo r)) as [| c key] eqn:Hk; [congruence |].
  cbn [isEmpty]. rewrite Hc by discriminate. now rewrite Hlast.
Qed.

Definition sheetLabels : list jsstring :=
  [lit "Car#"; lit "Name"; lit " Total"; lit "Qualifying  Ban"; lit "Ban Served"].

Definition sheetRows : list (list jsstring) :=
  [ [lit "27"; lit "Ann"; lit "3"; lit "Round 4"; []];
    [lit "31"; lit "Bob"; lit "1"; []; []];
    [lit "#27"; lit "Ann B"; lit "5"; []; []] ].

Lemma penalty_sheet_witness :
  exists tab,
    penaltyTabOf toLowerCase sheetLabels sheetRows = inr tab /\
    carries (attachPenalty toLowerCase (Some tab) sampleSprintRow)
            (mkPenaltyRec (lit "5") [] []).
Proof.
  destruct (penaltyTabOf toLowerCase sheetLabels sheetRows) as [e | tab] eqn:Htab;
    [vm_compute in Htab; discriminate |].
  exists tab. split; [reflexivity |].
  destruct (proj2 (proj2 (proj2 (penalty_sheet_last_row_wins toLowerCase sheetLabels sheetRows)))
              tab Htab) as (_ & _ & _ & _ & Hrow).
  apply (Hrow sampleSprintRow [lit "#27"; lit "Ann B"; lit "5"; []; []]).
  - discriminate.
  - reflexivity.
Defined.


(** X9.  For a row that went through [attachPenaltiesToSprintRows], the test
    of [drawPanel] for a red row is the row's [qbActive] flag (in a sprint
    panel), and the suffix drawn after the name follows the same flag: none
    when the penalty total is not positive, " (<total> - QB)" when the flag
    is set, " (<total>)" otherwise. *)
Theorem penalty_suffix_follows_the_flag
    (fractionToString : Q -> jsstring) (toLowerCaseFull : jsstring -> jsstring)
    (penaltyTab : option PenaltyTab) (r : Row) (sprintSplit : bool) :
  let r' := attachPenalty toLowerCaseFull penaltyTab r in
  let pen := toNumber (penPoints r') in
  let shown := String_of_number fractionToString pen in
  let suffix := buildPenaltySuffixFromRow fractionToString r' in
  rowQbActive sprintSplit r' = sprintSplit && qbActive r' /\
  ((pen <= 0)%Q -> suffix = []) /\
  ((0 < pen)%Q -> qbActive r' = true -> suffix = lit " (" ++ shown ++ lit " - QB)") /\
  ((0 < pen)%Q -> qbActive r' = false -> suffix = lit " (" ++ shown ++ lit ")").
Proof.
  intros r' pen shown suffix.
  assert (Hflag : qbActive r' =
            negb (isEmpty (normalizeText (qualiBan r'))) &&
            isEmpty (normalizeText (banServed r'))) by reflexivity.
  split; [| split; [| split]].
  - unfold rowQbActive. rewrite <- Hflag. now rewrite orb_diag.
  - intros Hle. subst suffix. unfold buildPenaltySuffixFromRow. fold pen.
    apply Qle_bool_iff in Hle. now rewrite Hle.
  - intros Hlt Hqb. subst suffix. unfold buildPenaltySuffixFromRow. fold pen.
    assert (Hn : Qle_bool pen 0 = false).
    { destruct (Qle_bool pen 0) eqn:Hb; [| reflexivity].
      apply Qle_bool_iff in Hb. exfalso. apply (Qlt_not_le _ _ Hlt Hb). }
    rewrite Hn. cbn [negb]. rewrite <- Hflag, Hqb. reflexivity.
  - intros Hlt Hqb. subst suffix. unfold buildPenaltySuffixFromRow. fold pen.
    assert (Hn : Qle_bool pen 0 = false).
    { destruct (Qle_bool pen 0) eqn:Hb; [| reflexivity].
      apply Qle_bool_iff in Hb. exfalso. apply (Qlt_not_le _ _ Hlt Hb). }
    rewrite Hn. cbn [negb]. rewrite <- Hflag, Hqb. reflexivity.
Qed.

Lemma penalty_suffix_witness :
  buildPenaltySuffixFromRow (fun _ => [])
    (attachPenalty toLowerCase (Some sampleSheet) sampleSprintRow) = lit " (3 - QB)".
Proof.
  apply (proj1 (proj2 (proj2 (penalty_suffix_follows_the_flag
                                (fun _ => []) toLowerCase (Some sampleSheet)
                                sampleSprintRow true)))).
  - reflexivity.
  - reflexivity.
Defined.

End PenaltySpec.

(** ** index.js: the response of the penalty sheet *)

Module GvizSpec.
Import IndexScrape.

Lemma startsWith_length (s p : jsstring) :
  startsWith s p = true -> (length p <= length s)%nat.
Proof.
  revert s. induction p as [| c p IH]; intros [| d s]; cbn; try lia; try discriminate.
  intros H. apply andb_true_iff in H. destruct H as [_ H]. apply IH in H. lia.
Qed.

Lemma startsWith_nil (s : jsstring) : startsWith s [] = true.
Proof. now destruct s. Qed.

Lemma startsWith_app (p rest : jsstring) : startsWith (p ++ rest) p = true.
Proof. induction p as [| c p IH]; [now destruct rest | cbn; now rewrite N.eqb_refl]. Qed.

(** A match that fits in the front part of a string is a match of that
    part. *)
Lemma startsWith_front (u v m : jsstring) :
  (length m <= length u)%nat -> startsWith (u ++ v) m = startsWith u m.
Proof.
  revert u. induction m as [| c m IH]; intros [| d u] Hlen; cbn in *;
    try lia; try reflexivity.
  - now destruct v.
  - rewrite IH by lia. reflexivity.
Qed.

Lemma includes_false_skipn (x m : jsstring) (j : nat) :
  includes x m = false -> startsWith (skipn j x) m = false.
Proof.
  revert j. induction x as [| c x IH]; intros j H.
  - rewrite skipn_nil. cbn in H. now apply orb_false_iff in H.
  - cbn [includes] in H. apply orb_false_iff in H. destruct H as [H0 Hx].
    destruct j as [| j]; [exact H0 | cbn [skipn]; now apply IH].
Qed.

Lemma indexOfAt_eq (s needle : jsstring) (i : nat) :
  indexOfAt s needle i =
    if startsWith s needle then Z.of_nat i
    else match s with
         | [] => -1
         | _ :: s' => indexOfAt s' needle (S i)
         end.
Proof. now destruct s. Qed.

Section FirstOccurrence.
Variables (m : jsstring) (lastChar : N) (front : jsstring).
Hypothesis m_split : m = front ++ [lastChar].

(** The needle first starts where the prefix ends, when it does not occur
    in the prefix followed by all but the last character of the needle. *)
Lemma indexOfAt_first (pre rest : jsstring) (i : nat) :
  includes (pre ++ front) m = false ->
  indexOfAt (pre ++ m ++ rest) m i = Z.of_nat (i + length pre).
Proof.
  revert i. induction pre as [| c pre IH]; intros i H.
  - cbn [app length]. rewrite indexOfAt_eq, startsWith_app. f_equal. lia.
  - cbn [app]. rewrite indexOfAt_eq.
    assert (H0 : startsWith (c :: pre ++ m ++ rest) m = false).
    { rewrite m_split at 1. rewrite <- app_assoc.
      change (c :: pre ++ front ++ [lastChar] ++ rest)
        with ((c :: pre) ++ front ++ [lastChar] ++ rest).
      rewrite (app_assoc (c :: pre) front).
      rewrite startsWith_front.
      - apply (includes_false_skipn _ _ 0%nat H).
      - rewrite m_split, !length_app. cbn. lia. }
    rewrite H0. rewrite IH.
    + f_equal. cbn [length]. lia.
    + cbn [app includes] in H. now apply orb_false_iff in H.
Qed.

End FirstOccurrence.

Lemma indexOfAt_none (s m : jsstring) (i : nat) :
  includes s m = false -> indexOfAt s m i = -1.
Proof.
  revert i. induction s as [| c s IH]; intros i H; cbn [includes] in H;
    apply orb_false_iff in H; destruct H as [H0 Hs]; rewrite indexOfAt_eq, H0;
    [reflexivity | now apply IH].
Qed.

Lemma indexOfAt_char (c : N) (a rest : jsstring) (i : nat) :
  Forall (fun d => d <> c) a ->
  indexOfAt (a ++ c :: rest) [c] i = Z.of_nat (i + length a).
Proof.
  intros Ha. revert i. induction Ha as [| d a Hd _ IH]; intros i.
  - cbn [app indexOfAt startsWith]. rewrite N.eqb_refl, startsWith_nil. cbn. f_equal. lia.
  - cbn [app indexOfAt startsWith].
    assert (H : (c =? d)%N = false) by (apply N.eqb_neq; congruence).
    rewrite H. cbn [andb]. rewrite IH. f_equal. cbn. lia.
Qed.

Lemma lastIndexOfAt_none (c : N) (s : jsstring) (i : nat) :
  Forall (fun d => d <> c) s -> lastIndexOfAt c s i = -1.
Proof.
  intros Hs. revert i. induction Hs as [| d s Hd _ IH]; intros i; [reflexivity |].
  cbn [lastIndexOfAt]. rewrite IH. cbn.
  assert (H : (d =? c)%N = false) by (now apply N.eqb_neq). now rewrite H.
Qed.

Lemma lastIndexOfAt_last (c : N) (a post : jsstring) (i : nat) :
  Forall (fun d => d <> c) post ->
  lastIndexOfAt c (a ++ c :: post) i = Z.of_nat (i + length a).
Proof.
  intros Hp. revert i. induction a as [| d a IH]; intros i.
  - cbn [app lastIndexOfAt]. rewrite (lastIndexOfAt_none c post _ Hp). cbn.
    rewrite N.eqb_refl. f_equal. cbn. lia.
  - cbn [app lastIndexOfAt]. rewrite IH.
    assert (H : (0 <=? Z.of_nat (S i + length a)) = true) by (apply Z.leb_le; lia).
    rewrite H. f_equal. cbn. lia.
Qed.

Lemma marker_has_no_brace : Forall (fun c => c <> 123%N) GVIZ_MARKER.
Proof. apply List.Forall_forall. intros c Hc. cbn in Hc. intuition (subst; discriminate). Qed.

(** X10.  [parseGvizJson] fails when the text does not hold the marker.  When
    the marker first occurs after [pre], no "{" stands between it and the
    payload and no "}" after the payload, what goes to [JSON.parse] is the
    payload from its "{" to its "}". *)
Theorem gviz_payload_is_what_is_parsed
    (Json : Type) (JSON_parse : jsstring -> option Json) :
  (forall text, includes text GVIZ_MARKER = false ->
     parseGvizJson Json JSON_parse text = inl ErrGvizMarker) /\
  (forall pre mid body post,
     includes (pre ++ removelast GVIZ_MARKER) GVIZ_MARKER = false ->
     Forall (fun c => c <> 123%N) mid ->
     Forall (fun c => c <> 125%N) post ->
     parseGvizJson Json JSON_parse
       (pre ++ GVIZ_MARKER ++ mid ++ [123%N] ++ body ++ [125%N] ++ post) =
       match JSON_parse ([123%N] ++ body ++ [125%N]) with
       | Some v => inr v
       | None => inl ErrGvizSyntax
       end).
Proof.
  split.
  - intros text H. unfold parseGvizJson, indexOf. rewrite skipn_O.
    now rewrite (indexOfAt_none _ _ _ H).
  - intros pre mid body post Hpre Hmid Hpost.
    set (payload := [123%N] ++ body ++ [125%N]).
    set (text := pre ++ GVIZ_MARKER ++ mid ++ [123%N] ++ body ++ [125%N] ++ post).
    assert (Hstart : indexOf text GVIZ_MARKER 0 = Z.of_nat (length pre)).
    { unfold indexOf, text. rewrite skipn_O. cbn [Nat.min].
      rewrite (indexOfAt_first GVIZ_MARKER 40%N (removelast GVIZ_MARKER) eq_refl _ _ _ Hpre).
      reflexivity. }
    assert (HjsonStart : indexOf text [123%N] (length pre) =
                         Z.of_nat (length pre + length (GVIZ_MARKER ++ mid))).
    { unfold indexOf, text.
      rewrite skipn_app, skipn_all, Nat.sub_diag. cbn [app skipn].
      rewrite (app_assoc GVIZ_MARKER mid).
      change ((GVIZ_MARKER ++ mid) ++ [123%N] ++ body ++ [125%N] ++ post)
        with ((GVIZ_MARKER ++ mid) ++ 123%N :: body ++ [125%N] ++ post).
      rewrite skipn_O, indexOfAt_char.
      - f_equal. rewrite !length_app. cbn [length]. lia.
      - apply Forall_app. split; [exact marker_has_no_brace | exact Hmid]. }
    assert (HjsonEnd : lastIndexOf text 125%N =
                       Z.of_nat (length pre + length (GVIZ_MARKER ++ mid) + 1 + length body)).
    { unfold lastIndexOf, text.
      replace (pre ++ GVIZ_MARKER ++ mid ++ [123%N] ++ body ++ [125%N] ++ post)
        with ((pre ++ (GVIZ_MARKER ++ mid) ++ [123%N] ++ body) ++ 125%N :: post)
        by (rewrite <- !app_assoc; reflexivity).
      rewrite (lastIndexOfAt_last _ _ _ _ Hpost). f_equal.
      rewrite !length_app. cbn [length]. lia. }
    unfold parseGvizJson. fold text. rewrite Hstart.
    assert (H0 : (Z.of_nat (length pre) <? 0) = false) by (apply Z.ltb_ge; lia).
    rewrite H0, Nat2Z.id, HjsonStart, HjsonEnd.
    set (k := (length pre + length (GVIZ_MARKER ++ mid))%nat).
    assert (H1 : (Z.of_nat k <? 0) = false) by (apply Z.ltb_ge; lia).
    assert (H2 : (Z.of_nat (k + 1 + length body) <? 0) = false) by (apply Z.ltb_ge; lia).
    assert (H3 : (Z.of_nat (k + 1 + length body) <=? Z.of_nat k) = false)
      by (apply Z.leb_gt; lia).
    rewrite H1, H2, H3. cbn [orb].
    assert (Hslice : slice text (Z.of_nat k) (Z.of_nat (k + 1 + length body) + 1) = payload).
    { rewrite slice_nonneg by lia. rewrite Nat2Z.id.
      replace (Z.to_nat (Z.of_nat (k + 1 + length body) + 1 - Z.of_nat k))
        with (length payload)
        by (unfold payload; rewrite !length_app; cbn [length]; lia).
      unfold text.
      replace (pre ++ GVIZ_MARKER ++ mid ++ [123%N] ++ body ++ [125%N] ++ post)
        with ((pre ++ GVIZ_MARKER ++ mid) ++ payload ++ post)
        by (unfold payload; rewrite <- !app_assoc; reflexivity).
      rewrite skipn_app.
      replace k with (length (pre ++ GVIZ_MARKER ++ mid))
        by (unfold k; rewrite !length_app; lia).
      rewrite skipn_all, Nat.sub_diag, skipn_O. cbn [app].
      rewrite firstn_app, firstn_all, Nat.sub_diag. cbn [firstn]. apply app_nil_r. }
    now rewrite Hslice.
Qed.

Definition sampleResponse : jsstring :=
  lit "/*O_o*/" ++ [10%N] ++ GVIZ_MARKER ++ lit "{" ++ lit "table" ++ lit "}" ++ lit ");".

Lemma gviz_payload_witness :
  parseGvizJson jsstring (fun s => Some s) sampleResponse = inr (lit "{table}").
Proof.
  apply (proj2 (gviz_payload_is_what_is_parsed jsstring (fun s => Some s))
           (lit "/*O_o*/" ++ [10%N]) [] (lit "table") (lit ");")).
  - vm_compute. reflexivity.
  - constructor.
  - repeat (constructor; [discriminate |]). constructor.
Defined.

End GvizSpec.

(* ===================================================================== *)
(** * The two panes and their messages *)
(* ===================================================================== *)

Module PanesSpec.
Import Render Index MainPane.

Lemma editText_lookup_ne (ch : Channel) (id id' : jsstring) (c : jsstring) (k : Components) :
  id <> id' -> editText ch id c k !! id' = ch !! id'.
Proof.
  intros Hne. unfold editText. destruct (ch !! id); [| reflexivity].
  now rewrite lookup_insert_ne.
Qed.

Lemma editText_lookup (ch : Channel) (id : jsstring) (c : jsstring) (k : Components) (m : Message) :
  ch !! id = Some m -> editText ch id c k !! id = Some (mkMessage c (files m) k).
Proof.
  intros Hm. unfold editText. rewrite Hm. apply lookup_insert_eq.
Qed.

Lemma editWithFiles_lookup_ne (ch : Channel) (id id' : jsstring) (c : jsstring)
    (f : list (jsstring * Canvas)) (k : Components) :
  id <> id' -> editWithFiles ch id c f k !! id' = ch !! id'.
Proof.
  intros Hne. unfold editWithFiles. destruct (ch !! id); [| reflexivity].
  now rewrite lookup_insert_ne.
Qed.

Lemma editWithFiles_lookup (ch : Channel) (id : jsstring) (c : jsstring)
    (f : list (jsstring * Canvas)) (k : Components) (m : Message) :
  ch !! id = Some m -> editWithFiles ch id c f k !! id = Some (mkMessage c f k).
Proof.
  intros Hm. unfold editWithFiles. rewrite Hm. apply lookup_insert_eq.
Qed.

Lemma truthy_orElse (o : option jsstring) :
  truthy o = true -> o = Some (orElse o []) /\ orElse o [] <> [].
Proof.
  destruct o as [[| c s] |]; try discriminate. intros _. now split.
Qed.

Lemma bool_decide_is_Some {A} (o : option A) :
  bool_decide (is_Some o) = true -> exists x, o = Some x.
Proof. intros H. apply bool_decide_eq_true in H. destruct H as [x Hx]. eauto. Qed.

Lemma bool_decide_is_None {A} (o : option A) :
  bool_decide (is_Some o) = false -> o = None.
Proof.
  intros H. apply bool_decide_eq_false in H. destruct o; [| reflexivity].
  exfalso. apply H. eauto.
Qed.

(** A pane tracks the message [id]: the id is stored, and it is not the
    empty string (which JavaScript takes for no id). *)
Definition tracks (o : option jsstring) (id : jsstring) : Prop :=
  o = Some id /\ id <> [].

Lemma truthy_tracks (o : option jsstring) :
  truthy o = true -> tracks o (orElse o []).
Proof. apply truthy_orElse. Qed.

Lemma tracks_truthy (o : option jsstring) (id : jsstring) :
  tracks o id -> truthy o = true /\ orElse o [] = id.
Proof.
  intros [-> Hne]. destruct id; [now contradiction Hne |]. now split.
Qed.

Lemma tracked_ne (o : option jsstring) (id : jsstring) :
  truthy o = true -> ~ tracks o id -> orElse o [] <> id.
Proof.
  intros Ht Hne Heq. apply truthy_tracks in Ht. apply Hne. now rewrite <- Heq.
Qed.

Lemma editText_keeps (ch : Channel) (id id' : jsstring) (c : jsstring) (k : Components) :
  is_Some (ch !! id') -> is_Some (editText ch id c k !! id').
Proof.
  intros Hs. unfold editText. destruct (ch !! id) eqn:E; [| exact Hs].
  destruct (decide (id = id')) as [-> | Hne].
  - rewrite lookup_insert_eq. eauto.
  - now rewrite lookup_insert_ne.
Qed.

Lemma editWithFiles_keeps (ch : Channel) (id id' : jsstring) (c : jsstring)
    (f : list (jsstring * Canvas)) (k : Components) :
  is_Some (ch !! id') -> is_Some (editWithFiles ch id c f k !! id').
Proof.
  intros Hs. unfold editWithFiles. destruct (ch !! id) eqn:E; [| exact Hs].
  destruct (decide (id = id')) as [-> | Hne].
  - rewrite lookup_insert_eq. eauto.
  - now rewrite lookup_insert_ne.
Qed.

Lemma insert_keeps (ch : Channel) (id id' : jsstring) (m : Message) :
  is_Some (ch !! id') -> is_Some (<[id := m]> ch !! id').
Proof.
  intros Hs. destruct (decide (id = id')) as [-> | Hne].
  - rewrite lookup_insert_eq. eauto.
  - now rewrite lookup_insert_ne.
Qed.

Definition isMainRender (e : MainEvent) : bool :=
  match e with MvRender _ => true | _ => false end.


Section Panes.
Variable sha1 : jsstring -> jsstring.
Variable stringifyMain : Panel -> Panel -> Panel -> jsstring.
Variable stringifySimgrid : list Row -> list Row -> jsstring.

(** The image of the SimGrid pane for the rows [h] and [l]. *)
Definition simgridImage (h l : list Row) : Canvas :=
  renderDoubleStandingsPng
    (Some (simgridPanel (lit "Hypercar") h (lit "#ff3b3b") None))
    (Some (simgridPanel (lit "LMGT3") l (lit "#34c759") None)).

(** The message a pane tracks, when it is still in the channel, carries the
    image of data whose digest is the stored hash. *)
Definition simgridShows (cfg : Config) (ch : Channel) : Prop :=
  forall id m, tracks (simgridMessageId cfg) id -> ch !! id = Some m ->
    exists h l, simgridLastHash cfg = Some (sha1 (stringifySimgrid h l)) /\
                files m = [(lit "simgrid.png", simgridImage h l)].

Definition mainShows (cfg : Config) (ch : Channel) : Prop :=
  forall id m, tracks (messageId cfg) id -> ch !! id = Some m ->
    exists c y r, lastHash cfg = Some (sha1 (stringifyMain c y r)) /\
                  files m = [(lit "standings.png", renderTripleStandingsPng c y r)].

(** The two panes do not track one and the same message. *)
Definition panesApart (cfg : Config) : Prop :=
  forall id, tracks (messageId cfg) id -> ~ tracks (simgridMessageId cfg) id.

(** An id that is not empty and that neither pane tracks. *)
Definition untracked (cfg : Config) (id : jsstring) : Prop :=
  id <> [] /\ messageId cfg <> Some id /\ simgridMessageId cfg <> Some id.

Definition sameMainFields (c c' : Config) : Prop :=
  messageId c' = messageId c /\ lastHash c' = lastHash c /\
  lastUpdated c' = lastUpdated c /\ lastChecked c' = lastChecked c /\
  simgridHypercarUrl c' = simgridHypercarUrl c /\
  simgridLmgt3Url c' = simgridLmgt3Url c.

Ltac simgrid_paths :=
  unfold checkAndPostSimgrid;
  repeat match goal with
  | |- context [if ?b then _ else _] =>
      let E := fresh "E" in destruct b eqn:E
  | |- context [match ?o with Some _ => _ | None => _ end] =>
      let E := fresh "E" in destruct o eqn:E
  end.

Ltac tracked_from_path :=
  repeat match goal with
  | H : _ && _ = true |- _ => apply andb_prop in H; destruct H as [? H]
  end.

Lemma simgrid_frame
    (cfg : Config) (ch : Channel) (old : option (Panel * Panel)) (force : bool)
    (now : Z) (hs ls : option (list Row)) (sentId : jsstring) :
  let o := checkAndPostSimgrid sha1 stringifySimgrid cfg ch old force now hs ls sentId in
  sameMainFields cfg (sgConfig o) /\
  (forall id, ~ tracks (simgridMessageId cfg) id -> id <> sentId ->
     sgChannel o !! id = ch !! id) /\
  (forall id, is_Some (ch !! id) -> is_Some (sgChannel o !! id)) /\
  (forall id, tracks (simgridMessageId (sgConfig o)) id ->
     tracks (simgridMessageId cfg) id \/ id = sentId) /\
  (sgError o <> None ->
     sgConfig o = cfg /\ sgChannel o = ch /\ sgLatest o = old /\ sgEvents o = []).
Proof.
  cbv zeta. unfold sameMainFields.
  simgrid_paths; cbn [sgConfig sgChannel sgError sgLatest sgEvents
    withSimgrid messageId lastHash lastUpdated lastChecked simgridHypercarUrl
    simgridLmgt3Url simgridMessageId].
  all: (split; [repeat split |]).
  all: (split; [| split; [| split]]).
  all: try (intros id Hid Hne; reflexivity).
  all: try (intros id Hid; exact Hid).
  all: try (intros id Hid; left; exact Hid).
  all: try (intros id [Hid _]; right; congruence).
  all: try (intros _; repeat split; reflexivity).
  all: try (intros H; now contradiction H).
  all: try (intros id Hid; first [ now apply editText_keeps
                                 | now apply editWithFiles_keeps
                                 | now apply insert_keeps ]).
  all: intros id Hid Hne.
  all: try (rewrite lookup_insert_ne by congruence; reflexivity).
  all: (first [ apply editText_lookup_ne | apply editWithFiles_lookup_ne ]);
       apply tracked_ne; [| exact Hid];
       match goal with
       | H : _ && bool_decide (is_Some _) = true |- _ =>
           apply andb_prop in H; destruct H as [H _]
       end.
  all: tracked_from_path; assumption.
Qed.

(** X11. The SimGrid check never touches the main pane: the fields of
    the configuration of the main pane and the two URLs stay, every
    message other than the one the SimGrid pane tracks and the one it
    sends stays, no message is deleted, the message tracked afterwards is
    the one tracked before or the one sent, and a check that fails (a
    scrape that throws, a driver name that looks like a URL) leaves
    configuration, channel and cache as they were. *)
Theorem simgrid_check_leaves_the_rest_alone
    (cfg : Config) (ch : Channel) (old : option (Panel * Panel)) (force : bool)
    (now : Z) (hs ls : option (list Row)) (sentId : jsstring) :
  let o := checkAndPostSimgrid sha1 stringifySimgrid cfg ch old force now hs ls sentId in
  sameMainFields cfg (sgConfig o) /\
  (forall id, ~ tracks (simgridMessageId cfg) id -> id <> sentId ->
     sgChannel o !! id = ch !! id) /\
  (forall id, is_Some (ch !! id) -> is_Some (sgChannel o !! id)) /\
  (forall id, tracks (simgridMessageId (sgConfig o)) id ->
     tracks (simgridMessageId cfg) id \/ id = sentId) /\
  (sgError o <> None ->
     sgConfig o = cfg /\ sgChannel o = ch /\ sgLatest o = old /\ sgEvents o = []).
Proof. apply simgrid_frame. Qed.


Lemma simgrid_shows_kept
    (cfg : Config) (ch : Channel) (old : option (Panel * Panel)) (force : bool)
    (now : Z) (hs ls : option (list Row)) (sentId : jsstring) :
  simgridShows cfg ch ->
  let o := checkAndPostSimgrid sha1 stringifySimgrid cfg ch old force now hs ls sentId in
  simgridShows (sgConfig o) (sgChannel o) /\
  (forall h l,
     TrackerSpec.simgridConfigured cfg -> hs = Some h -> ls = Some l ->
     sgError o = None ->
     exists id m h' l',
       simgridMessageId (sgConfig o) = Some id /\
       sgChannel o !! id = Some m /\
       simgridLastHash (sgConfig o) = Some (sha1 (stringifySimgrid h l)) /\
       sha1 (stringifySimgrid h' l') = sha1 (stringifySimgrid h l) /\
       files m = [(lit "simgrid.png", simgridImage h' l')]).
Proof.
  intros Hinv. cbv zeta. unfold checkAndPostSimgrid.
  destruct (isEmpty (trim (orElse (simgridHypercarUrl cfg) [])) ||
            isEmpty (trim (orElse (simgridLmgt3Url cfg) []))) eqn:Eurl.
  { cbn. split; [exact Hinv |]. intros h l [H1 H2] _ _ _.
    rewrite H1, H2 in Eurl. discriminate. }
  destruct hs as [hyper |]; [| cbn; split; [exact Hinv | intros; discriminate]].
  destruct ls as [lmgt3 |]; [| cbn; split; [exact Hinv | intros; discriminate]].
  destruct (existsb looksLikeUrl hyper || existsb looksLikeUrl lmgt3) eqn:Ebad;
    [cbn; split; [exact Hinv | intros; discriminate] |].
  set (d := sha1 (stringifySimgrid hyper lmgt3)).
  destruct (truthy (simgridLastHash cfg) && bool_decide (simgridLastHash cfg = Some d))
    eqn:Eun.
  - (* unchanged *)
    apply andb_prop in Eun. destruct Eun as [_ Eh]. apply bool_decide_eq_true in Eh.
    destruct (truthy (simgridMessageId cfg) &&
              bool_decide (is_Some (ch !! orElse (simgridMessageId cfg) []))) eqn:Etr.
    + apply andb_prop in Etr. destruct Etr as [Ht Hs].
      rewrite Ht, Hs. apply truthy_tracks in Ht. destruct Ht as [Hid Hne].
      apply bool_decide_is_Some in Hs. destruct Hs as [m0 Hm0].
      destruct (Hinv _ _ (conj Hid Hne) Hm0) as (h' & l' & Hh' & Hf').
      assert (Hd' : sha1 (stringifySimgrid h' l') = d) by congruence.
      destruct force; cbn [negb orb andb sgConfig sgChannel sgError withSimgrid
                           simgridMessageId simgridLastHash].
      * split.
        -- intros id m [Hi _] Hm. rewrite Hid in Hi. injection Hi as <-.
           rewrite (editWithFiles_lookup _ _ _ _ _ _ Hm0) in Hm. injection Hm as <-.
           exists hyper, lmgt3. split; reflexivity.
        -- intros h l _ Hh Hl _. injection Hh as <-. injection Hl as <-.
           eexists (orElse (simgridMessageId cfg) []), _, hyper, lmgt3.
           split; [exact Hid |]. split; [exact (editWithFiles_lookup _ _ _ _ _ _ Hm0) |].
           repeat split.
      * split.
        -- intros id m [Hi _] Hm. rewrite Hid in Hi. injection Hi as <-.
           rewrite (editText_lookup _ _ _ _ _ Hm0) in Hm. injection Hm as <-.
           exists h', l'. split; [exact Hh' | exact Hf'].
        -- intros h l _ Hh Hl _. injection Hh as <-. injection Hl as <-.
           eexists (orElse (simgridMessageId cfg) []), _, h', l'.
           split; [exact Hid |]. split; [exact (editText_lookup _ _ _ _ _ Hm0) |].
           split; [exact Eh |]. split; [exact Hd' | exact Hf'].
    + assert (Hpath : forall b : bool, b && true && truthy (simgridMessageId cfg) &&
                bool_decide (is_Some (ch !! orElse (simgridMessageId cfg) [])) = false).
      { intros b. rewrite <- andb_assoc, Etr. now rewrite andb_false_r. }
      rewrite Hpath.
      cbn [sgConfig sgChannel sgError withSimgrid simgridMessageId simgridLastHash].
      split.
      * intros id m [Hi _] Hm. injection Hi as <-. rewrite lookup_insert_eq in Hm.
        injection Hm as <-. exists hyper, lmgt3. split; reflexivity.
      * intros h l _ Hh Hl _. injection Hh as <-. injection Hl as <-.
        eexists sentId, _, hyper, lmgt3. split; [reflexivity |].
        split; [apply lookup_insert_eq |]. repeat split.
  - (* changed *)
    rewrite andb_false_r. cbn [andb].
    destruct (truthy (simgridMessageId cfg) &&
              bool_decide (is_Some (ch !! orElse (simgridMessageId cfg) []))) eqn:Etr;
      cbn [sgConfig sgChannel sgError withSimgrid simgridMessageId simgridLastHash].
    + apply andb_prop in Etr. destruct Etr as [Ht Hs].
      apply truthy_tracks in Ht. destruct Ht as [Hid Hne].
      apply bool_decide_is_Some in Hs. destruct Hs as [m0 Hm0].
      split.
      * intros id m [Hi _] Hm. rewrite Hid in Hi. injection Hi as <-.
        rewrite (editWithFiles_lookup _ _ _ _ _ _ Hm0) in Hm. injection Hm as <-.
        exists hyper, lmgt3. split; reflexivity.
      * intros h l _ Hh Hl _. injection Hh as <-. injection Hl as <-.
        eexists (orElse (simgridMessageId cfg) []), _, hyper, lmgt3.
        split; [exact Hid |]. split; [exact (editWithFiles_lookup _ _ _ _ _ _ Hm0) |].
        repeat split.
    + split.
      * intros id m [Hi _] Hm. injection Hi as <-. rewrite lookup_insert_eq in Hm.
        injection Hm as <-. exists hyper, lmgt3. split; reflexivity.
      * intros h l _ Hh Hl _. injection Hh as <-. injection Hl as <-.
        eexists sentId, _, hyper, lmgt3. split; [reflexivity |].
        split; [apply lookup_insert_eq |]. repeat split.
Qed.

(** X12. The message the SimGrid pane tracks carries the image of the
    rows whose digest is stored: this is kept by every check, and after a
    check that went through (URLs configured, both scrapes valid) the
    tracked message exists, the stored hash is the digest of the rows just
    scraped and the image is the render of rows with that digest. *)
Theorem simgrid_message_shows_the_hashed_rows
    (cfg : Config) (ch : Channel) (old : option (Panel * Panel)) (force : bool)
    (now : Z) (hs ls : option (list Row)) (sentId : jsstring) :
  simgridShows cfg ch ->
  let o := checkAndPostSimgrid sha1 stringifySimgrid cfg ch old force now hs ls sentId in
  simgridShows (sgConfig o) (sgChannel o) /\
  (forall h l,
     TrackerSpec.simgridConfigured cfg -> hs = Some h -> ls = Some l ->
     sgError o = None ->
     exists id m h' l',
       simgridMessageId (sgConfig o) = Some id /\
       sgChannel o !! id = Some m /\
       simgridLastHash (sgConfig o) = Some (sha1 (stringifySimgrid h l)) /\
       sha1 (stringifySimgrid h' l') = sha1 (stringifySimgrid h l) /\
       files m = [(lit "simgrid.png", simgridImage h' l')]).
Proof. apply simgrid_shows_kept. Qed.


(** What both panes keep from one check to the next. *)
Definition panesInv (cfg : Config) (ch : Channel) : Prop :=
  mainShows cfg ch /\ simgridShows cfg ch /\ panesApart cfg.

Lemma thenSimgrid_facts (cfg1 : Config) (ch1 : Channel)
    (latest : option (Panel * Panel * Panel)) (evs : list MainEvent)
    (oldSimgrid : option (Panel * Panel)) (now2 : Z) (hs ls : option (list Row))
    (sentId2 : jsstring) :
  let o := fst (thenSimgrid sha1 stringifySimgrid cfg1 ch1 latest evs oldSimgrid
                  now2 hs ls sentId2) in
  sameMainFields cfg1 (moConfig o) /\
  (forall id, ~ tracks (simgridMessageId cfg1) id -> id <> sentId2 ->
     moChannel o !! id = ch1 !! id) /\
  (forall id, is_Some (ch1 !! id) -> is_Some (moChannel o !! id)) /\
  (forall id, tracks (simgridMessageId (moConfig o)) id ->
     tracks (simgridMessageId cfg1) id \/ id = sentId2) /\
  (simgridShows cfg1 ch1 -> simgridShows (moConfig o) (moChannel o)) /\
  moLatest o = latest /\
  existsb isMainRender (moEvents o) = existsb isMainRender evs.
Proof.
  cbv zeta. unfold thenSimgrid. cbn [fst moConfig moChannel moLatest moEvents].
  pose proof (simgrid_frame cfg1 ch1 oldSimgrid false now2 hs ls sentId2)
    as (H1 & H2 & H3 & H4 & _).
  repeat split; try apply H1; try assumption.
  - intros Hs. exact (proj1 (simgrid_shows_kept cfg1 ch1 oldSimgrid false now2 hs ls
                               sentId2 Hs)).
  - rewrite existsb_app. cbn. now rewrite orb_false_r.
Qed.

Lemma thenSimgrid_inv (cfg1 : Config) (ch1 : Channel)
    (latest : option (Panel * Panel * Panel)) (evs : list MainEvent)
    (oldSimgrid : option (Panel * Panel)) (now2 : Z) (hs ls : option (list Row))
    (sentId2 : jsstring) :
  panesInv cfg1 ch1 -> messageId cfg1 <> Some sentId2 ->
  let o := fst (thenSimgrid sha1 stringifySimgrid cfg1 ch1 latest evs oldSimgrid
                  now2 hs ls sentId2) in
  panesInv (moConfig o) (moChannel o) /\
  (forall id, tracks (messageId cfg1) id -> moChannel o !! id = ch1 !! id).
Proof.
  intros (Hm & Hs & Ha) Hne. cbv zeta.
  pose proof (thenSimgrid_facts cfg1 ch1 latest evs oldSimgrid now2 hs ls sentId2)
    as (Hf & Hfr & _ & Htr & Hsk & _). cbv zeta in *.
  destruct Hf as (Hf1 & Hf2 & _).
  assert (Hsame : forall id, tracks (messageId cfg1) id ->
            moChannel (fst (thenSimgrid sha1 stringifySimgrid cfg1 ch1 latest evs
                              oldSimgrid now2 hs ls sentId2)) !! id = ch1 !! id).
  { intros id Hid. apply Hfr; [now apply Ha |].
    intros ->. apply Hne. exact (proj1 Hid). }
  split; [| exact Hsame]. split; [| split].
  - intros id m Hid Hl. rewrite Hf1 in Hid. rewrite (Hsame _ Hid) in Hl.
    rewrite Hf2. exact (Hm _ _ Hid Hl).
  - now apply Hsk.
  - intros id Hid Hsg. rewrite Hf1 in Hid. destruct (Htr _ Hsg) as [Hold | ->].
    + exact (Ha _ Hid Hold).
    + apply Hne. exact (proj1 Hid).
Qed.

(** The state of the main pane before the SimGrid check on the path that
    posts a new message. *)
Lemma repost_inv (cfg : Config) (ch : Channel) (sentId : jsstring) (sent : Message)
    (d u k : jsstring) (deletes : bool) (c y r : Panel) :
  panesInv cfg ch -> untracked cfg sentId ->
  d = sha1 (stringifyMain c y r) ->
  files sent = [(lit "standings.png", renderTripleStandingsPng c y r)] ->
  (deletes = true -> tracks (messageId cfg) (orElse (messageId cfg) [])) ->
  let ch1 := <[sentId := sent]> ch in
  let ch2 := if deletes then delete (orElse (messageId cfg) []) ch1 else ch1 in
  panesInv (withMain cfg (Some sentId) (Some d) (Some u) (Some k)) ch2 /\
  ch2 !! sentId = Some sent.
Proof.
  intros (Hm & Hs & Ha) (Hne & Hnm & Hns) Hd Hf Hdel. cbv zeta.
  assert (Hnew : (if deletes then delete (orElse (messageId cfg) []) (<[sentId := sent]> ch)
                  else <[sentId := sent]> ch) !! sentId = Some sent).
  { destruct deletes.
    - rewrite lookup_delete_ne.
      + apply lookup_insert_eq.
      + intros Heq. apply Hnm. rewrite <- Heq. exact (proj1 (Hdel eq_refl)).
    - apply lookup_insert_eq. }
  split; [| exact Hnew]. split; [| split].
  - intros id m [Hid _] Hl. cbn in Hid. injection Hid as <-.
    rewrite Hnew in Hl. injection Hl as <-.
    exists c, y, r. cbn. split; [now rewrite Hd | exact Hf].
  - intros id m Hid Hl. cbn [withMain simgridMessageId simgridLastHash] in *.
    apply (Hs id m Hid).
    assert (Hid' : id <> sentId) by (intros ->; apply Hns; exact (proj1 Hid)).
    destruct deletes.
    + rewrite lookup_delete_ne in Hl.
      * now rewrite lookup_insert_ne in Hl by congruence.
      * intros Heq. apply (Ha _ (Hdel eq_refl)). now rewrite Heq.
    + now rewrite lookup_insert_ne in Hl by congruence.
  - intros id [Hid _] Hsg. cbn in Hid, Hsg. injection Hid as <-.
    apply Hns. exact (proj1 Hsg).
Qed.

Lemma textOnly_inv (cfg : Config) (ch : Channel) (text k : jsstring) (m : Message) :
  panesInv cfg ch -> tracks (messageId cfg) (orElse (messageId cfg) []) ->
  ch !! orElse (messageId cfg) [] = Some m ->
  panesInv (withMain cfg (messageId cfg) (lastHash cfg) (lastUpdated cfg) (Some k))
           (editText ch (orElse (messageId cfg) []) text MainActionRows).
Proof.
  intros (Hm & Hs & Ha) Hid Hl. split; [| split].
  - intros id m' Hid' Hl'. cbn [withMain messageId lastHash] in *.
    assert (id = orElse (messageId cfg) []) as ->.
    { destruct Hid as [H1 _], Hid' as [H2 _]. congruence. }
    rewrite (editText_lookup _ _ _ _ _ Hl) in Hl'. injection Hl' as <-.
    cbn [files]. exact (Hm _ _ Hid Hl).
  - intros id m' Hid' Hl'. cbn [withMain simgridMessageId simgridLastHash] in *.
    rewrite editText_lookup_ne in Hl'.
    + exact (Hs _ _ Hid' Hl').
    + intros Heq. apply (Ha _ Hid). now rewrite Heq.
  - exact Ha.
Qed.

(** X13. One check of [checkAndPost] keeps what the two panes show: the
    message a pane tracks, while it exists, carries the image of data whose
    digest is the stored hash, and the panes track different messages.
    After a check whose scrape went through, the message of the main pane
    exists, the stored hash is the digest of the standings just scraped and
    the image is the render of standings with that digest. *)
Theorem pane_messages_show_the_hashed_data
    (cfg : Config) (ch : Channel) (latest : option (Panel * Panel * Panel))
    (oldSimgrid : option (Panel * Panel)) (now : Z)
    (scrape : option (Panel * Panel * Panel)) (sentId : jsstring)
    (now2 : Z) (hs ls : option (list Row)) (sentId2 : jsstring) :
  panesInv cfg ch -> untracked cfg sentId -> untracked cfg sentId2 ->
  sentId <> sentId2 ->
  let o := fst (checkAndPost sha1 stringifyMain stringifySimgrid cfg ch latest oldSimgrid
                  now scrape sentId now2 hs ls sentId2) in
  panesInv (moConfig o) (moChannel o) /\
  (forall c y r, scrape = Some (c, y, r) ->
     exists id m c' y' r',
       tracks (messageId (moConfig o)) id /\
       moChannel o !! id = Some m /\
       lastHash (moConfig o) = Some (sha1 (stringifyMain c y r)) /\
       sha1 (stringifyMain c' y' r') = sha1 (stringifyMain c y r) /\
       files m = [(lit "standings.png", renderTripleStandingsPng c' y' r')]).
Proof.
  intros Hinv Hu1 Hu2 Hids. cbv zeta. unfold checkAndPost.
  destruct scrape as [[[c y] r] |].
  2:{ cbn [fst moConfig moChannel]. split; [| intros; discriminate].
      destruct Hinv as (Hm & Hs & Ha). split; [| split].
      - intros id m Hid Hl. exact (Hm id m Hid Hl).
      - intros id m Hid Hl. exact (Hs id m Hid Hl).
      - exact Ha. }
  set (d := sha1 (stringifyMain c y r)).
  set (ts := discordTimestamp now).
  destruct (truthy (lastHash cfg) && bool_decide (lastHash cfg = Some d) &&
            truthy (messageId cfg) &&
            bool_decide (is_Some (ch !! orElse (messageId cfg) []))) eqn:Epath.
  - (* text only *)
    apply andb_prop in Epath. destruct Epath as [Epath Hex].
    apply andb_prop in Epath. destruct Epath as [Eun Htr].
    apply andb_prop in Eun. destruct Eun as [_ Eh]. apply bool_decide_eq_true in Eh.
    apply truthy_tracks in Htr. apply bool_decide_is_Some in Hex. destruct Hex as [m Hl].
    pose proof (textOnly_inv cfg ch
                  (mainContent (orElse (lastUpdated cfg) ts) ts) ts m Hinv Htr Hl) as Hinv1.
    match goal with
    | |- context [fst (thenSimgrid _ _ ?c1 ?h1 ?la ?ev ?os ?n ?a ?b ?s)] =>
        pose proof (thenSimgrid_inv c1 h1 la ev os n a b s Hinv1) as Hthen;
        pose proof (thenSimgrid_facts c1 h1 la ev os n a b s) as Hfacts
    end.
    cbv zeta in Hthen, Hfacts.
    destruct Hthen as [Hinv2 Hsame].
    { cbn [withMain messageId]. exact (proj1 (proj2 Hu2)). }
    destruct Hfacts as ((Hf1 & Hf2 & _) & _).
    cbn [withMain messageId lastHash] in Hf1, Hf2, Hsame.
    split; [exact Hinv2 |].
    intros c0 y0 r0 Hsc. injection Hsc as <- <- <-.
    destruct Hinv as (Hm & _ & _).
    destruct (Hm _ _ Htr Hl) as (c' & y' & r' & Hh' & Hf').
    eexists (orElse (messageId cfg) []), _, c', y', r'.
    split; [rewrite Hf1; exact Htr |].
    split; [rewrite (Hsame _ Htr); exact (editText_lookup _ _ _ _ _ Hl) |].
    split; [rewrite Hf2; exact Eh |].
    split; [fold d; congruence | exact Hf'].
  - (* a new message *)
    set (un := truthy (lastHash cfg) && bool_decide (lastHash cfg = Some d)) in *.
    set (u := if un then orElse (lastUpdated cfg) ts else ts).
    set (sent := mkMessage (mainContent u ts)
                   [(lit "standings.png", renderTripleStandingsPng c y r)] MainActionRows).
    set (deletes := negb un && negb (isEmpty (orElse (messageId cfg) [])) &&
                    bool_decide (is_Some (<[sentId := sent]> ch !! orElse (messageId cfg) []))).
    assert (Hdel : deletes = true -> tracks (messageId cfg) (orElse (messageId cfg) [])).
    { unfold deletes. intros H. apply andb_prop in H. destruct H as [H _].
      apply andb_prop in H. destruct H as [_ H]. apply truthy_tracks.
      destruct (messageId cfg) as [[| a s] |]; cbn in *; congruence. }
    pose proof (repost_inv cfg ch sentId sent d u ts deletes c y r Hinv Hu1 eq_refl
                  eq_refl Hdel) as [Hinv1 Hnew].
    cbv zeta in Hinv1, Hnew.
    match goal with
    | |- context [fst (thenSimgrid _ _ ?c1 ?h1 ?la ?ev ?os ?n ?a ?b ?s)] =>
        pose proof (thenSimgrid_inv c1 h1 la ev os n a b s Hinv1) as Hthen;
        pose proof (thenSimgrid_facts c1 h1 la ev os n a b s) as Hfacts
    end.
    cbv zeta in Hthen, Hfacts.
    destruct Hthen as [Hinv2 Hsame].
    { cbn [withMain messageId]. congruence. }
    destruct Hfacts as ((Hf1 & Hf2 & _) & _).
    cbn [withMain messageId lastHash] in Hf1, Hf2, Hsame.
    split; [exact Hinv2 |].
    intros c0 y0 r0 Hsc. injection Hsc as <- <- <-.
    assert (Htr : tracks (Some sentId) sentId) by (split; [reflexivity | exact (proj1 Hu1)]).
    eexists sentId, _, c, y, r.
    split; [rewrite Hf1; exact Htr |].
    split; [rewrite (Hsame _ Htr); exact Hnew |].
    split; [rewrite Hf2; reflexivity |].
    split; reflexivity.
Qed.


Lemma tracked_Some (o : option jsstring) (ch : Channel) (m : Message) :
  TrackerSpec.tracked o ch = Some m ->
  tracks o (orElse o []) /\ ch !! orElse o [] = Some m.
Proof.
  unfold TrackerSpec.tracked. destruct (truthy o) eqn:Ht; [| discriminate].
  intros Hl. split; [now apply truthy_tracks | exact Hl].
Qed.

Lemma tracked_path (o : option jsstring) (ch : Channel) :
  truthy o && bool_decide (is_Some (ch !! orElse o [])) = false <->
  TrackerSpec.tracked o ch = None.
Proof.
  unfold TrackerSpec.tracked. destruct (truthy o); cbn [andb].
  - split.
    + apply bool_decide_is_None.
    + intros ->. apply bool_decide_eq_false. intros [x Hx]. discriminate.
  - split; reflexivity.
Qed.

(** X14. What one check of [checkAndPost] does to the main pane.  A
    scrape that throws leaves the channel, the stored hash and the cache
    as they were, records the time of the check, and the SimGrid check
    is not run.  After a scrape that went through, the image is rendered
    exactly when the digest differs from the stored hash or the tracked
    message is missing.  With the same digest and the message present its
    text alone is edited, the attachment stays and no message goes.  With
    a different digest a new message is sent and tracked, and the message
    tracked before is no longer in the channel.  With the same digest and
    the message missing a new message is sent that keeps the stored "Last
    updated", and no message goes. *)
Theorem main_pane_reposts_on_change
    (cfg : Config) (ch : Channel) (latest : option (Panel * Panel * Panel))
    (oldSimgrid : option (Panel * Panel)) (now : Z)
    (scrape : option (Panel * Panel * Panel)) (sentId : jsstring)
    (now2 : Z) (hs ls : option (list Row)) (sentId2 : jsstring) :
  (forall s, length (sha1 s) = 40%nat) ->
  panesApart cfg -> untracked cfg sentId -> untracked cfg sentId2 ->
  sentId <> sentId2 ->
  let p := checkAndPost sha1 stringifyMain stringifySimgrid cfg ch latest oldSimgrid
             now scrape sentId now2 hs ls sentId2 in
  let o := fst p in
  let ts := discordTimestamp now in
  (scrape = None ->
     o = mkMainOutcome
           (withMain cfg (messageId cfg) (lastHash cfg) (lastUpdated cfg) (Some ts))
           ch latest [MvSaveConfig] /\
     snd p = oldSimgrid) /\
  (forall c y r, scrape = Some (c, y, r) ->
     let d := sha1 (stringifyMain c y r) in
     let image := [(lit "standings.png", renderTripleStandingsPng c y r)] in
     let id := orElse (messageId cfg) [] in
     (moLatest o = Some (c, y, r) /\
      lastChecked (moConfig o) = Some ts /\
      lastHash (moConfig o) = Some d) /\
     (existsb isMainRender (moEvents o) = true <->
        lastHash cfg <> Some d \/ TrackerSpec.tracked (messageId cfg) ch = None) /\
     (forall m,
        lastHash cfg = Some d -> TrackerSpec.tracked (messageId cfg) ch = Some m ->
        messageId (moConfig o) = messageId cfg /\
        lastUpdated (moConfig o) = lastUpdated cfg /\
        moChannel o !! id =
          Some (mkMessage (mainContent (orElse (lastUpdated cfg) ts) ts) (files m)
                          MainActionRows) /\
        (forall id', is_Some (ch !! id') -> is_Some (moChannel o !! id'))) /\
     (lastHash cfg <> Some d ->
        messageId (moConfig o) = Some sentId /\
        lastUpdated (moConfig o) = Some ts /\
        moChannel o !! sentId = Some (mkMessage (mainContent ts ts) image MainActionRows) /\
        (forall old, tracks (messageId cfg) old -> moChannel o !! old = None)) /\
     (lastHash cfg = Some d -> TrackerSpec.tracked (messageId cfg) ch = None ->
        messageId (moConfig o) = Some sentId /\
        lastUpdated (moConfig o) = Some (orElse (lastUpdated cfg) ts) /\
        moChannel o !! sentId =
          Some (mkMessage (mainContent (orElse (lastUpdated cfg) ts) ts) image
                          MainActionRows) /\
        (forall id', is_Some (ch !! id') -> is_Some (moChannel o !! id')))).
Proof.
  intros Hsha Ha (Hne1 & Hnm1 & Hns1) (Hne2 & Hnm2 & Hns2) Hids. cbv zeta.
  unfold checkAndPost. split.
  { intros ->. split; reflexivity. }
  intros c y r ->.
  set (d := sha1 (stringifyMain c y r)).
  set (ts := discordTimestamp now).
  pose proof (TrackerSpec.unchanged_iff (lastHash cfg) d (Hsha _)) as Hun.
  pose proof (TrackerSpec.unchanged_false (lastHash cfg) d (Hsha _)) as Hch.
  pose proof (tracked_path (messageId cfg) ch) as Hmiss.
  assert (Hnos : ~ tracks (simgridMessageId cfg) sentId)
    by (intros [H _]; now apply Hns1).
  destruct (truthy (lastHash cfg) && bool_decide (lastHash cfg = Some d)) eqn:Eun.
  - (* same digest *)
    assert (Eh : lastHash cfg = Some d) by now apply Hun.
    cbn [andb negb].
    destruct (truthy (messageId cfg) &&
              bool_decide (is_Some (ch !! orElse (messageId cfg) []))) eqn:Etr.
    + (* message present: the text only *)
      match goal with
      | |- context [fst (thenSimgrid _ _ ?c1 ?h1 ?la ?ev ?os ?n ?a ?b ?s)] =>
          pose proof (thenSimgrid_facts c1 h1 la ev os n a b s)
            as ((Hf1 & Hf2 & Hf3 & Hf4 & _) & Hfr & Hkeep & _ & _ & Hlat & Hev)
      end.
      cbv zeta in *.
      cbn [withMain messageId lastHash lastUpdated lastChecked simgridMessageId] in *.
      apply andb_prop in Etr. destruct Etr as [Ht Hex].
      apply truthy_tracks in Ht. apply bool_decide_is_Some in Hex. destruct Hex as [m0 Hl].
      assert (Htk : TrackerSpec.tracked (messageId cfg) ch = Some m0).
      { unfold TrackerSpec.tracked. destruct (tracks_truthy _ _ Ht) as [-> _]. exact Hl. }
      split; [repeat split; congruence |]. split; [| split; [| split]].
      * rewrite Hev. cbn. split; [discriminate |].
        intros [H | H]; [now contradiction H | congruence].
      * intros m _ Hm. assert (m = m0) as -> by congruence.
        split; [exact Hf1 |]. split; [exact Hf3 |]. split.
        -- rewrite Hfr.
           ++ exact (editText_lookup _ _ _ _ _ Hl).
           ++ now apply Ha.
           ++ intros Heq. apply Hnm2. rewrite <- Heq. exact (proj1 Ht).
        -- intros id' Hs. apply Hkeep. now apply editText_keeps.
      * intros H. now contradiction H.
      * intros _ H. congruence.
    + (* message missing: posted again *)
      assert (Htk : TrackerSpec.tracked (messageId cfg) ch = None) by now apply Hmiss.
      match goal with
      | |- context [fst (thenSimgrid _ _ ?c1 ?h1 ?la ?ev ?os ?n ?a ?b ?s)] =>
          pose proof (thenSimgrid_facts c1 h1 la ev os n a b s)
            as ((Hf1 & Hf2 & Hf3 & Hf4 & _) & Hfr & Hkeep & _ & _ & Hlat & Hev)
      end.
      cbv zeta in *.
      cbn [withMain messageId lastHash lastUpdated lastChecked simgridMessageId] in *.
      split; [repeat split; congruence |]. split; [| split; [| split]].
      * rewrite Hev. cbn. split; [| reflexivity]. intros _. now right.
      * intros m _ Hm. congruence.
      * intros H. now contradiction H.
      * intros _ _. split; [exact Hf1 |]. split; [exact Hf3 |]. split.
        -- rewrite Hfr by (assumption || congruence). apply lookup_insert_eq.
        -- intros id' Hs. apply Hkeep. now apply insert_keeps.
  - (* another digest *)
    assert (Eh : lastHash cfg <> Some d) by now apply Hch.
    cbn [andb negb].
    match goal with
    | |- context [fst (thenSimgrid _ _ ?c1 ?h1 ?la ?ev ?os ?n ?a ?b ?s)] =>
        pose proof (thenSimgrid_facts c1 h1 la ev os n a b s)
          as ((Hf1 & Hf2 & Hf3 & Hf4 & _) & Hfr & Hkeep & _ & _ & Hlat & Hev)
    end.
    cbv zeta in *.
    cbn [withMain messageId lastHash lastUpdated lastChecked simgridMessageId] in *.
    split; [repeat split; congruence |]. split; [| split; [| split]].
    + rewrite Hev. cbn. split; [| reflexivity]. intros _. now left.
    + intros m H _. now contradiction Eh.
    + intros _. split; [exact Hf1 |]. split; [exact Hf3 |]. split.
      * rewrite Hfr by (assumption || congruence).
        match goal with
        | |- (if ?b then _ else _) !! _ = _ => destruct b eqn:Edel
        end.
        -- rewrite lookup_delete_ne; [apply lookup_insert_eq |].
           apply andb_prop in Edel. destruct Edel as [Hnon _].
           intros Heq. apply Hnm1. rewrite <- Heq.
           destruct (messageId cfg) as [[| a s] |]; cbn in *; congruence.
        -- apply lookup_insert_eq.
      * intros old Hold. destruct (tracks_truthy _ _ Hold) as [_ Hor].
        rewrite Hfr.
        -- rewrite Hor.
           match goal with
           | |- (if ?b then _ else _) !! _ = _ => destruct b eqn:Edel
           end.
           ++ apply lookup_delete_eq.
           ++ destruct Hold as [Hid Hnon]. destruct old as [| a s]; [now contradiction Hnon |].
              cbn [isEmpty negb andb] in Edel. now apply bool_decide_is_None in Edel.
        -- now apply Ha.
        -- intros Heq. apply Hnm2. rewrite <- Heq. exact (proj1 Hold).
    + intros H. now contradiction Eh.
Qed.


(** X15. [renderAndPostToMainMessage], the main pane of /refresh, always
    renders and edits the tracked message in place: when that message
    exists it stays the tracked one and gets the new text and image, and
    the channel has the same messages as before; only when it is missing
    is a new message sent.  "Last updated" keeps the stored value exactly
    when the digest is the stored hash.  No other message changes. *)
Theorem refresh_edits_the_message_in_place
    (cfg : Config) (ch : Channel) (c y r : Panel) (stamp : jsstring) (now : Z)
    (sentId : jsstring) :
  let o := renderAndPostToMainMessage sha1 stringifyMain cfg ch c y r stamp now sentId in
  let d := sha1 (stringifyMain c y r) in
  let u := if bool_decide (lastHash cfg = Some d) then orElse (lastUpdated cfg) stamp
           else discordTimestamp now in
  let new := mkMessage (mainContent u stamp)
               [(lit "standings.png", renderTripleStandingsPng c y r)] MainActionRows in
  (lastHash (moConfig o) = Some d /\ lastUpdated (moConfig o) = Some u /\
   lastChecked (moConfig o) = Some stamp /\ moLatest o = Some (c, y, r) /\
   existsb isMainRender (moEvents o) = true) /\
  (forall m, TrackerSpec.tracked (messageId cfg) ch = Some m ->
     messageId (moConfig o) = messageId cfg /\
     moChannel o = <[orElse (messageId cfg) [] := new]> ch /\
     (forall id, is_Some (moChannel o !! id) <-> is_Some (ch !! id))) /\
  (TrackerSpec.tracked (messageId cfg) ch = None ->
     messageId (moConfig o) = Some sentId /\
     moChannel o = <[sentId := new]> ch) /\
  (exists id, messageId (moConfig o) = Some id /\ moChannel o !! id = Some new /\
     forall id', id' <> id -> moChannel o !! id' = ch !! id').
Proof.
  cbv zeta. unfold renderAndPostToMainMessage, upsertMessage.
  assert (Hnon : negb (isEmpty (orElse (messageId cfg) [])) = truthy (messageId cfg)).
  { now destruct (messageId cfg) as [[| a s] |]. }
  rewrite Hnon.
  destruct (truthy (messageId cfg) &&
            bool_decide (is_Some (ch !! orElse (messageId cfg) []))) eqn:Etr;
    cbn [moConfig moChannel moLatest moEvents withMain messageId lastHash lastUpdated
         lastChecked existsb isMainRender orb].
  - apply andb_prop in Etr. destruct Etr as [Ht Hex].
    pose proof (truthy_tracks _ Ht) as [Hid _].
    apply bool_decide_is_Some in Hex. destruct Hex as [m0 Hl].
    split; [repeat split |]. split; [| split].
    + intros m _. split; [now rewrite <- Hid |]. split; [reflexivity |].
      intros id. destruct (decide (orElse (messageId cfg) [] = id)) as [<- | Hne].
      * rewrite lookup_insert_eq, Hl. split; eauto.
      * now rewrite lookup_insert_ne.
    + intros Hnone. unfold TrackerSpec.tracked in Hnone. rewrite Ht in Hnone. congruence.
    + exists (orElse (messageId cfg) []). split; [reflexivity |].
      split; [apply lookup_insert_eq |].
      intros id' Hne. now rewrite lookup_insert_ne by congruence.
  - split; [repeat split |]. split; [| split].
    + intros m Hm. apply (proj1 (tracked_path _ _)) in Etr. congruence.
    + intros _. split; reflexivity.
    + exists sentId. split; [reflexivity |]. split; [apply lookup_insert_eq |].
      intros id' Hne. now rewrite lookup_insert_ne by congruence.
Qed.


End Panes.

Definition panelsText (c y r : Panel) : jsstring := title c ++ title y ++ title r.

Definition emptyPanel (t : string) : Panel := mkPanel (lit t) [] (Some []) None None.

Lemma firstRun_inv :
  panesInv TrackerSpec.paddedDigest panelsText TrackerSpec.rowsText
           TrackerSpec.firstRunConfig ∅.
Proof.
  split; [| split].
  - intros id m [H _]. discriminate.
  - intros id m [H _]. discriminate.
  - intros id [H _]. discriminate.
Qed.

Lemma firstRun_untracked (id : string) :
  lit id <> [] -> untracked TrackerSpec.firstRunConfig (lit id).
Proof. intros H. split; [exact H |]. split; discriminate. Qed.

Lemma simgrid_message_witness :
  exists id m,
    simgridMessageId
      (sgConfig (checkAndPostSimgrid TrackerSpec.paddedDigest TrackerSpec.rowsText
                   TrackerSpec.firstRunConfig ∅ None false 1700000000000
                   (Some []) (Some []) (lit "1001"))) = Some id /\
    sgChannel (checkAndPostSimgrid TrackerSpec.paddedDigest TrackerSpec.rowsText
                 TrackerSpec.firstRunConfig ∅ None false 1700000000000
                 (Some []) (Some []) (lit "1001")) !! id = Some m.
Proof.
  destruct (simgrid_message_shows_the_hashed_rows TrackerSpec.paddedDigest
              TrackerSpec.rowsText TrackerSpec.firstRunConfig ∅ None false
              1700000000000 (Some []) (Some []) (lit "1001")) as [_ H].
  - intros id m [Hid _]. discriminate.
  - destruct (H [] []) as (id & m & _ & _ & Hid & Hm & _); try reflexivity.
    + split; reflexivity.
    + exists id, m. split; assumption.
Defined.

Lemma pane_messages_witness :
  panesInv TrackerSpec.paddedDigest panelsText TrackerSpec.rowsText
    (moConfig (fst (checkAndPost TrackerSpec.paddedDigest panelsText TrackerSpec.rowsText
                      TrackerSpec.firstRunConfig ∅ None None 1700000000000
                      (Some (emptyPanel "Club 50", emptyPanel "Yellow", emptyPanel "Red"))
                      (lit "2001") 1700000001000 (Some []) (Some []) (lit "2002"))))
    (moChannel (fst (checkAndPost TrackerSpec.paddedDigest panelsText TrackerSpec.rowsText
                      TrackerSpec.firstRunConfig ∅ None None 1700000000000
                      (Some (emptyPanel "Club 50", emptyPanel "Yellow", emptyPanel "Red"))
                      (lit "2001") 1700000001000 (Some []) (Some []) (lit "2002")))).
Proof.
  apply (pane_messages_show_the_hashed_data TrackerSpec.paddedDigest panelsText
           TrackerSpec.rowsText TrackerSpec.firstRunConfig ∅ None None 1700000000000
           (Some (emptyPanel "Club 50", emptyPanel "Yellow", emptyPanel "Red"))
           (lit "2001") 1700000001000 (Some []) (Some []) (lit "2002")).
  - exact firstRun_inv.
  - apply firstRun_untracked. discriminate.
  - apply firstRun_untracked. discriminate.
  - discriminate.
Defined.

Lemma main_pane_witness :
  messageId
    (moConfig (fst (checkAndPost TrackerSpec.paddedDigest panelsText TrackerSpec.rowsText
                      TrackerSpec.firstRunConfig ∅ None None 1700000000000
                      (Some (emptyPanel "Club 50", emptyPanel "Yellow", emptyPanel "Red"))
                      (lit "2001") 1700000001000 (Some []) (Some []) (lit "2002"))))
  = Some (lit "2001").
Proof.
  destruct (main_pane_reposts_on_change TrackerSpec.paddedDigest panelsText
              TrackerSpec.rowsText TrackerSpec.firstRunConfig ∅ None None 1700000000000
              (Some (emptyPanel "Club 50", emptyPanel "Yellow", emptyPanel "Red"))
              (lit "2001") 1700000001000 (Some []) (Some []) (lit "2002")) as [_ H].
  - exact TrackerSpec.paddedDigest_length.
  - intros id [Hid _]. discriminate.
  - apply firstRun_untracked. discriminate.
  - apply firstRun_untracked. discriminate.
  - discriminate.
  - destruct (H _ _ _ eq_refl) as (_ & _ & _ & Hchanged & _).
    apply Hchanged. discriminate.
Defined.

End PanesSpec.

(** ** index.js: a button pressed before the caches are filled *)

Module ButtonsSpec.
Import Render Index.

Section Buttons.
Variable fractionToString : Q -> jsstring.

(** The reply of the outer [catch] of the handler to "No cached standings
    yet". *)
Definition noCacheReply (i : Interaction) : list BotEvent :=
  (if deferred i then [] else [EvDeferReply]) ++
  [EvEditReply (ReplyFailed ErrNoCachedStandings); EvAutoDeleteReply 10000].

(** The events of a series-only render of [q] posted as [name]. *)
Definition seriesPosted (i : Interaction) (name : string) (q : Panel) : list BotEvent :=
  let png := renderSeriesOnlyPng (Some q) (mkSeriesOpts (Some (30 # 1))) in
  (if deferred i then [] else [EvDeferReply]) ++
  [ EvRendered png; EvChannelSend (lit name) png; EvDeletePostedAfter (5 * 60 * 1000);
    EvEditReply ReplyPostedSeries; EvAutoDeleteReply 10000 ].

(** The panel [{ ...null, tint, mode: "default" }]: no title, no rows. *)
Definition bareTint (t : string) : Panel :=
  mkPanel [] [] None (Some (lit t)) (Some (lit "default")).

(** X16. A button pressed in a text channel, let through by the cooldown,
    while the cache it reads is still empty.  The class buttons and the
    two SimGrid series buttons answer "No cached standings yet" and render
    and post nothing.  The series buttons of Club 50, Yellow and Red do not
    fail: they post the render of a panel that has only the tint.  In every
    case the caches stay, and the press is recorded: the same user gets
    the wait message for this button during the next five minutes, also
    after a press that failed. *)
Theorem press_before_the_first_scrape (now : Z) (st : BotState) (i : Interaction) :
  channelIsText i = true ->
  fst (getButtonCooldownSeconds now (userId i) (customId i) (buttonCooldowns st)) = 0 ->
  let st' := fst (onButton fractionToString now st i) in
  let evs := snd (onButton fractionToString now st i) in
  (customId i = lit "oor_class_yellow" -> latestYellow st = None -> evs = noCacheReply i) /\
  (customId i = lit "oor_class_red" -> latestRed st = None -> evs = noCacheReply i) /\
  (customId i = lit "oor_series_hypercar" -> latestHyper st = None ->
     evs = noCacheReply i) /\
  (customId i = lit "oor_series_lmgt3" -> latestLmgt3 st = None -> evs = noCacheReply i) /\
  (customId i = lit "oor_series_club50" -> latestClub50 st = None ->
     evs = seriesPosted i "club50-only.png" (bareTint "#2b6cff")) /\
  (customId i = lit "oor_series_yellow" -> latestYellow st = None ->
     evs = seriesPosted i "yellow-only.png" (bareTint "#f6c343")) /\
  (customId i = lit "oor_series_red" -> latestRed st = None ->
     evs = seriesPosted i "red-only.png" (bareTint "#ff3b3b")) /\
  existsb isRenderEvent (noCacheReply i) = false /\
  (latestClub50 st' = latestClub50 st /\ latestYellow st' = latestYellow st /\
   latestRed st' = latestRed st /\ latestHyper st' = latestHyper st /\
   latestLmgt3 st' = latestLmgt3 st) /\
  buttonCooldowns st' = <[cooldownKey (userId i) (customId i) := now]> (buttonCooldowns st) /\
  (forall now', now <= now' < now + BUTTON_COOLDOWN_MS ->
     0 < fst (getButtonCooldownSeconds now' (userId i) (customId i) (buttonCooldowns st'))).
Proof.
  intros Htext Hwait. cbv zeta. unfold onButton.
  destruct (IndexSpec.cooldown_answers now (userId i) (customId i) (buttonCooldowns st))
    as [Hc | (wait & Hpos & Hc)]; rewrite Hc in *; cbn [fst snd] in *; [| lia].
  change (0 <? 0) with false. cbv iota.
  set (cds := <[cooldownKey (userId i) (customId i) := now]> (buttonCooldowns st)).
  repeat match goal with |- _ /\ _ => split end.
  1-7: intros Hid Hnone;
       unfold dispatchButton, handleClassButton, handleSeriesButton;
       rewrite Hid, Htext; cbn [negb withCooldowns latestClub50 latestYellow latestRed
                                latestHyper latestLmgt3];
       rewrite Hnone; vm_compute strEq; reflexivity.
  - unfold noCacheReply. now destruct (deferred i).
  - now destruct (dispatchButton _ _ _).
  - now destruct (dispatchButton _ _ _).
  - now destruct (dispatchButton _ _ _).
  - now destruct (dispatchButton _ _ _).
  - now destruct (dispatchButton _ _ _).
  - now destruct (dispatchButton _ _ _).
  - intros now' Hnow'.
    assert (Hst : buttonCooldowns
                    (fst (match dispatchButton fractionToString (withCooldowns st cds) i with
                          | inr evs => (withCooldowns st cds,
                                        (if deferred i then [] else [EvDeferReply]) ++ evs)
                          | inl e => (withCooldowns st cds,
                                      (if deferred i then [] else [EvDeferReply]) ++
                                      [EvEditReply (ReplyFailed e); EvAutoDeleteReply 10000])
                          end)) = cds)
      by now destruct (dispatchButton _ _ _).
    rewrite Hst. unfold getButtonCooldownSeconds, cds. rewrite lookup_insert_eq.
    cbn [default from_option id].
    destruct (Z.ltb_spec (now' - now) BUTTON_COOLDOWN_MS) as [H | H]; [| lia].
    cbn [fst]. apply IndexSpec.ceilDiv_pos; lia.
Qed.

End Buttons.

Definition firstBoot : BotState := mkBotState ∅ None None None None None.

Definition pressOf (button : string) : Interaction :=
  mkInteraction (lit "1234") (lit button) true false.

Lemma press_before_the_first_scrape_witness :
  snd (onButton (fun _ => []) 1700000000000 firstBoot (pressOf "oor_series_club50")) =
    seriesPosted (pressOf "oor_series_club50") "club50-only.png" (bareTint "#2b6cff").
Proof.
  apply (press_before_the_first_scrape (fun _ => []) 1700000000000 firstBoot
           (pressOf "oor_series_club50")); reflexivity.
Defined.

End ButtonsSpec.

(** ** standings.js: the retries of [fetchHtml] *)

Module SimgridFetchSpec.
Import SimgridFetch.

(** The events of a failed attempt and of the one that succeeds. *)
Definition failedAttempt (timeoutMs : Z) (i : nat) : list HtmlEvent :=
  [HvSetTimeout i timeoutMs; HvFetch i; HvSleep (250 * (Z.of_nat i + 1)); HvClearTimeout i].

Definition goodAttempt (timeoutMs : Z) (i : nat) : list HtmlEvent :=
  [HvSetTimeout i timeoutMs; HvFetch i; HvClearTimeout i].

Definition sleepOf (e : HtmlEvent) : Z :=
  match e with HvSleep ms => ms | _ => 0 end.

Definition sleepTotal (evs : list HtmlEvent) : Z :=
  fold_right (fun e acc => sleepOf e + acc) 0 evs.

Definition timersSet (evs : list HtmlEvent) : list nat :=
  flat_map (fun e => match e with HvSetTimeout i _ => [i] | _ => [] end) evs.

Definition timersCleared (evs : list HtmlEvent) : list nat :=
  flat_map (fun e => match e with HvClearTimeout i => [i] | _ => [] end) evs.

Definition fails (net : nat -> HtmlAttempt) (j : nat) : Prop :=
  exists e, htmlAttempt (net j) = inl e.

Lemma sleepTotal_app (a b : list HtmlEvent) :
  sleepTotal (a ++ b) = sleepTotal a + sleepTotal b.
Proof. induction a as [| e a IH]; cbn; [reflexivity |]. unfold sleepTotal in *. lia. Qed.

Lemma sleepTotal_failed (timeoutMs : Z) (i k : nat) :
  sleepTotal (flat_map (failedAttempt timeoutMs) (seq i k)) =
  125 * Z.of_nat k * (2 * Z.of_nat i + Z.of_nat k + 1).
Proof.
  revert i. induction k as [| k IH]; intros i; [cbn; lia |].
  cbn [seq flat_map]. rewrite sleepTotal_app, IH. cbn. lia.
Qed.

Lemma loop_success (net : nat -> HtmlAttempt) (timeoutMs : Z) (text : jsstring) :
  forall (k remaining i : nat) (lastErr : option HtmlError),
    (k < remaining)%nat ->
    (forall j, (j < k)%nat -> fails net (i + j)) ->
    htmlAttempt (net (i + k)%nat) = inr text ->
    fetchHtmlLoop net timeoutMs remaining i lastErr =
      (inr text, flat_map (failedAttempt timeoutMs) (seq i k) ++ goodAttempt timeoutMs (i + k)).
Proof.
  induction k as [| k IH]; intros remaining i lastErr Hk Hfail Hok.
  - destruct remaining as [| r]; [lia |]. cbn [fetchHtmlLoop].
    rewrite Nat.add_0_r in Hok. rewrite Hok, Nat.add_0_r. reflexivity.
  - destruct remaining as [| r]; [lia |]. cbn [fetchHtmlLoop].
    destruct (Hfail 0%nat ltac:(lia)) as [e He]. rewrite Nat.add_0_r in He. rewrite He.
    rewrite (IH r (S i) (Some e) ltac:(lia)).
    + cbn [seq flat_map]. rewrite <- app_assoc.
      replace (S i + k)%nat with (i + S k)%nat by lia. reflexivity.
    + intros j Hj. replace (S i + j)%nat with (i + S j)%nat by lia. apply Hfail. lia.
    + replace (S i + k)%nat with (i + S k)%nat by lia. exact Hok.
Qed.

Lemma loop_failure (net : nat -> HtmlAttempt) (timeoutMs : Z) :
  forall (remaining i : nat) (lastErr : option HtmlError),
    (forall j, (j < remaining)%nat -> fails net (i + j)) ->
    fetchHtmlLoop net timeoutMs remaining i lastErr =
      (inl (match remaining with
            | O => match lastErr with Some e => e | None => ErrFetchHtmlFailed end
            | S r => match htmlAttempt (net (i + r)%nat) with
                     | inl e => e
                     | inr _ => ErrFetchHtmlFailed
                     end
            end),
       flat_map (failedAttempt timeoutMs) (seq i remaining)).
Proof.
  induction remaining as [| r IH]; intros i lastErr Hfail; [reflexivity |].
  cbn [fetchHtmlLoop].
  destruct (Hfail 0%nat ltac:(lia)) as [e He]. rewrite Nat.add_0_r in He. rewrite He.
  rewrite (IH (S i) (Some e)).
  - cbn [seq flat_map]. f_equal. f_equal.
    destruct r as [| r'].
    + now rewrite Nat.add_0_r, He.
    + now replace (S i + r')%nat with (i + S r')%nat by lia.
  - intros j Hj. replace (S i + j)%nat with (i + S j)%nat by lia. apply Hfail. lia.
Qed.

Lemma loop_timers (net : nat -> HtmlAttempt) (timeoutMs : Z) :
  forall (remaining i : nat) (lastErr : option HtmlError),
    timersCleared (snd (fetchHtmlLoop net timeoutMs remaining i lastErr)) =
    timersSet (snd (fetchHtmlLoop net timeoutMs remaining i lastErr)).
Proof.
  induction remaining as [| r IH]; intros i lastErr; [reflexivity |].
  cbn [fetchHtmlLoop]. destruct (htmlAttempt (net i)) as [e | text]; [| reflexivity].
  specialize (IH (S i) (Some e)).
  destruct (fetchHtmlLoop net timeoutMs r (S i) (Some e)) as [res evs].
  cbn [snd] in *. unfold timersCleared, timersSet in *. cbn. now rewrite IH.
Qed.

(** X17. [fetchHtml] of standings.js, with the network as an oracle.
    With no attempt allowed it throws "fetchHtml failed" at once.  The
    text of the first response that is ok is returned, after one fetch per
    attempt and a back-off of 250 (j + 1) ms after each failed attempt j.
    When every attempt fails the error thrown is that of the last attempt,
    and the back-off is slept after the last attempt too: 250, 500 and 750
    ms for the default three attempts.  Every abort timer that is set is
    cleared. *)
Theorem simgrid_fetch_retries_with_backoff
    (net : nat -> HtmlAttempt) (attempts : nat) (timeoutMs : Z) :
  let r := fst (fetchHtml net attempts timeoutMs) in
  let evs := snd (fetchHtml net attempts timeoutMs) in
  (attempts = 0%nat -> r = inl ErrFetchHtmlFailed /\ evs = []) /\
  (forall k text,
     (k < attempts)%nat ->
     (forall j, (j < k)%nat -> fails net j) ->
     htmlAttempt (net k) = inr text ->
     r = inr text /\
     evs = flat_map (failedAttempt timeoutMs) (seq 0 k) ++ goodAttempt timeoutMs k /\
     sleepTotal evs = 125 * Z.of_nat k * (Z.of_nat k + 1)) /\
  (forall n e,
     attempts = S n ->
     (forall j, (j < attempts)%nat -> fails net j) ->
     htmlAttempt (net n) = inl e ->
     r = inl e /\
     evs = flat_map (failedAttempt timeoutMs) (seq 0 attempts) /\
     sleepTotal evs = 125 * Z.of_nat attempts * (Z.of_nat attempts + 1)) /\
  timersCleared evs = timersSet evs.
Proof.
  cbv zeta. unfold fetchHtml. split; [| split; [| split]].
  - intros ->. split; reflexivity.
  - intros k text Hk Hfail Hok.
    rewrite (loop_success net timeoutMs text k attempts 0 None Hk Hfail Hok).
    cbn [fst snd Nat.add]. split; [reflexivity |]. split; [reflexivity |].
    rewrite sleepTotal_app, sleepTotal_failed. cbn. lia.
  - intros n e -> Hfail He.
    rewrite (loop_failure net timeoutMs (S n) 0 None Hfail).
    cbn [fst snd Nat.add]. rewrite He. split; [reflexivity |]. split; [reflexivity |].
    rewrite sleepTotal_failed. lia.
  - apply loop_timers.
Qed.

End SimgridFetchSpec.

(** ** standings.js: the columns and the rows of the DevExpress table *)

Module StandingsRowsSpec.
Import Render Standings IndexScrape TextSpec.

Lemma findIndexFrom_spec (f : jsstring -> bool) (l : list jsstring) :
  forall i, 0 <= i ->
  (findIndexFrom f l i = -1 /\ List.Forall (fun x => f x = false) l) \/
  (i <= findIndexFrom f l i < i + Z.of_nat (length l) /\
   exists x, nth_error l (Z.to_nat (findIndexFrom f l i - i)) = Some x /\ f x = true /\
             List.Forall (fun y => f y = false)
                         (firstn (Z.to_nat (findIndexFrom f l i - i)) l)).
Proof.
  induction l as [| x l IH]; intros i Hi.
  - left. split; [reflexivity | constructor].
  - cbn [findIndexFrom]. destruct (f x) eqn:Hx.
    + right. split; [cbn [length]; lia |]. rewrite Z.sub_diag. exists x.
      repeat split; [assumption | constructor].
    + destruct (IH (i + 1) ltac:(lia)) as [[Hr Hall] | (Hr & y & Hy & Hfy & Hall)].
      * left. split; [exact Hr | now constructor].
      * right. split; [cbn [length]; lia |].
        replace (Z.to_nat (findIndexFrom f l (i + 1) - i))
          with (S (Z.to_nat (findIndexFrom f l (i + 1) - (i + 1)))) by lia.
        exists y. cbn [nth_error firstn]. repeat split; [assumption | assumption |].
        now constructor.
Qed.

Lemma findIndex_spec (f : jsstring -> bool) (l : list jsstring) :
  (findIndex f l = -1 /\ List.Forall (fun x => f x = false) l) \/
  (0 <= findIndex f l < Z.of_nat (length l) /\
   exists x, nth_error l (Z.to_nat (findIndex f l)) = Some x /\ f x = true /\
             List.Forall (fun y => f y = false) (firstn (Z.to_nat (findIndex f l)) l)).
Proof.
  unfold findIndex. destruct (findIndexFrom_spec f l 0 ltac:(lia)) as [H | H].
  - now left.
  - right. now rewrite Z.sub_0_r, Z.add_0_l in H.
Qed.

Lemma alignHeadersToData_length (headers : list jsstring) (n : nat) :
  length (alignHeadersToData headers n) = n.
Proof.
  unfold alignHeadersToData. rewrite length_app, length_firstn, repeat_length. lia.
Qed.

Lemma slice_drop_last_length {A} (l : list A) :
  length (slice l 0 (-1)) = (length l - 1)%nat.
Proof.
  unfold slice. cbn [Z.ltb Z.compare]. rewrite Z.min_l by lia.
  rewrite length_firstn, length_skipn. lia.
Qed.

Lemma trimTrailingUtilityColumn_length (headers : list jsstring) (tds : list Td) :
  length (fst (trimTrailingUtilityColumn headers tds)) =
    (if snd (trimTrailingUtilityColumn headers tds) then length headers - 1
     else length headers)%nat /\
  (snd (trimTrailingUtilityColumn headers tds) = true -> headers <> []).
Proof.
  unfold trimTrailingUtilityColumn. destruct (last headers) as [lastHeader |] eqn:Hl.
  - assert (Hne : headers <> []) by (intros ->; discriminate).
    destruct (negb (isEmpty (trim lastHeader))); [now split |].
    match goal with |- context [if ?b then _ else _] => destruct b end.
    + cbn [fst snd]. split; [apply slice_drop_last_length | intros _; exact Hne].
    + now split.
  - now split.
Qed.

(** The eleven indexes of a column map. *)
Definition indexesOf (cm : ColMap) : list Z :=
  [cPos cm; cDriver cm; cCarNo cm; cClassName cm; cCarImg cm; cRacePts cm;
   cQualiPts cm; cFlPts cm; cTotal cm; cNett cm; cDiff cm].

Lemma mapColumnIndexes_range (headers : list jsstring) :
  List.Forall (fun idx => -1 <= idx < Z.of_nat (length headers))
              (indexesOf (mapColumnIndexes headers)).
Proof.
  unfold indexesOf, mapColumnIndexes. cbn [cPos cDriver cCarNo cClassName cCarImg cRacePts
    cQualiPts cFlPts cTotal cNett cDiff].
  repeat apply List.Forall_cons; try apply List.Forall_nil.
  all: match goal with
       | |- context [findIndex ?f ?l] =>
           destruct (findIndex_spec f l) as [[-> _] | [H _]];
           rewrite ?length_map in *; lia
       end.
Qed.

(** The cells of a data row that [parseRows] indexes. *)
Definition keptCells (trimLast : bool) (tds0 : list Td) : list Td :=
  if trimLast && negb (match tds0 with [] => true | _ => false end)
  then slice tds0 0 (-1) else tds0.

(** X18. The header row is brought to the number of cells of the first
    data row, and a trailing utility column is dropped from both.  So the
    headers and the cells of the first data row that are indexed are equally
    many, every index of the column map is -1 or the index of a cell that
    exists in the first data row, and the driver column is the first header
    whose normalised text contains "driver". *)
Theorem mapped_columns_exist_in_the_first_row
    (headers0 : list jsstring) (firstTds : list Td) :
  let n := length firstTds in
  let trimmed := trimTrailingUtilityColumn (alignHeadersToData headers0 n) firstTds in
  let headers := fst trimmed in
  let tds := keptCells (snd trimmed) firstTds in
  let cm := mapColumnIndexes headers in
  length (alignHeadersToData headers0 n) = n /\
  length headers = length tds /\
  List.Forall (fun idx => idx = -1 \/ exists td, getCell tds idx = Some td) (indexesOf cm) /\
  (0 <= cDriver cm ->
     exists h, nth_error headers (Z.to_nat (cDriver cm)) = Some h /\
               includes (norm h) (lit "driver") = true /\
               List.Forall (fun h' => includes (norm h') (lit "driver") = false)
                           (firstn (Z.to_nat (cDriver cm)) headers)).
Proof.
  cbv zeta.
  set (n := length firstTds).
  set (aligned := alignHeadersToData headers0 n).
  pose proof (alignHeadersToData_length headers0 n) as Hal. fold aligned in Hal.
  destruct (trimTrailingUtilityColumn_length aligned firstTds) as [Hlen Hne].
  assert (Hsame : length (fst (trimTrailingUtilityColumn aligned firstTds)) =
                  length (keptCells (snd (trimTrailingUtilityColumn aligned firstTds)) firstTds)).
  { rewrite Hlen. unfold keptCells.
    destruct (snd (trimTrailingUtilityColumn aligned firstTds)) eqn:Hs.
    - specialize (Hne eq_refl). destruct firstTds as [| td tds].
      + exfalso. apply Hne. apply length_zero_iff_nil. now rewrite Hal.
      + cbn [andb negb]. rewrite slice_drop_last_length. now rewrite Hal.
    - cbn [andb]. exact Hal. }
  split; [exact Hal |]. split; [exact Hsame |]. split.
  - pose proof (mapColumnIndexes_range (fst (trimTrailingUtilityColumn aligned firstTds)))
      as Hr.
    eapply List.Forall_impl; [| exact Hr]. cbn beta. intros idx Hidx.
    destruct (Z.eq_dec idx (-1)) as [-> | Hn]; [now left |]. right.
    unfold getCell. rewrite (proj2 (Z.leb_le 0 idx)) by lia.
    destruct (nth_error _ (Z.to_nat idx)) as [td |] eqn:Hnth; [eauto |].
    apply nth_error_None in Hnth. rewrite <- Hsame in Hnth. lia.
  - intros Hd. unfold mapColumnIndexes in *. cbn [cDriver] in *.
    match type of Hd with
    | context [findIndex ?f ?l] =>
        destruct (findIndex_spec f l) as [[Hm _] | (_ & x & Hx & Hfx & Hall)]
    end; [lia |].
    rewrite nth_error_map in Hx.
    destruct (nth_error _ _) as [h |] eqn:Hh; [| discriminate].
    injection Hx as <-. exists h. split; [reflexivity |]. split.
    + apply orb_true_iff in Hfx. destruct Hfx as [Heq | Hinc]; [| exact Hinc].
      apply bool_decide_eq_true in Heq. rewrite Heq. reflexivity.
    + rewrite firstn_map in Hall. apply List.Forall_map in Hall.
      eapply List.Forall_impl; [| exact Hall]. cbn beta. intros h' Hh'.
      now apply orb_false_iff in Hh'.
Qed.

(** *** The text of a cell *)

Lemma collapseSpaces_two (c d : N) (s : jsstring) :
  collapseSpaces (c :: d :: s) =
    if isWhiteSpace c
    then if isWhiteSpace d then collapseSpaces (d :: s) else 32%N :: collapseSpaces (d :: s)
    else c :: collapseSpaces (d :: s).
Proof. reflexivity. Qed.

Lemma collapseSpaces_space_head (c : N) (s : jsstring) :
  isWhiteSpace c = true -> exists rest, collapseSpaces (c :: s) = 32%N :: rest.
Proof.
  revert c. induction s as [| d s IH]; intros c Hc.
  - cbn. rewrite Hc. eauto.
  - rewrite collapseSpaces_two, Hc. destruct (isWhiteSpace d) eqn:Hd.
    + exact (IH d Hd).
    + eauto.
Qed.

Definition spaceFree (w : jsstring) : Prop :=
  List.Forall (fun c => isWhiteSpace c = false) w.

Lemma startsWith_collapseSpaces (w s : jsstring) :
  spaceFree w -> startsWith (collapseSpaces s) w = true -> startsWith s w = true.
Proof.
  intros Hw. revert s. induction Hw as [| c w Hc Hw IH]; intros s H.
  - now destruct s.
  - destruct s as [| d s]; [discriminate |].
    destruct (isWhiteSpace d) eqn:Hd.
    + destruct (collapseSpaces_space_head d s Hd) as [rest Hrest]. rewrite Hrest in H.
      cbn in H. apply andb_prop in H. destruct H as [H _]. apply N.eqb_eq in H. subst c.
      discriminate.
    + rewrite (collapseSpaces_head d s Hd) in H. cbn in H |- *.
      apply andb_prop in H. destruct H as [H1 H2]. rewrite H1. cbn. now apply IH.
Qed.

Lemma includes_collapseSpaces (w s : jsstring) :
  spaceFree w -> w <> [] -> includes (collapseSpaces s) w = true -> includes s w = true.
Proof.
  intros Hw Hne. induction s as [| d s IH]; [now intros H |].
  intros H. destruct (isWhiteSpace d) eqn:Hd.
  - assert (Hno : forall rest, startsWith (32%N :: rest) w = false).
    { intros rest. destruct Hw as [| c w Hc Hw]; [now contradiction Hne |].
      cbn. destruct (N.eqb_spec c 32) as [-> | _]; [discriminate | reflexivity]. }
    cbn [includes]. apply orb_true_iff. right.
    destruct s as [| e s].
    + change (collapseSpaces [d]) with (if isWhiteSpace d then [32%N] else [d]) in H.
      rewrite Hd in H. cbn [includes] in H. rewrite Hno in H. cbn [orb] in H.
      rewrite orb_false_r in H. destruct w; [now contradiction Hne | discriminate].
    + rewrite collapseSpaces_two, Hd in H. destruct (isWhiteSpace e) eqn:He.
      * now apply IH.
      * cbn [includes] in H. rewrite Hno in H. cbn [orb] in H. now apply IH.
  - rewrite (collapseSpaces_head d s Hd) in H. cbn [includes] in H |- *.
    apply orb_true_iff in H. apply orb_true_iff. destruct H as [H | H].
    + left. apply startsWith_collapseSpaces; [exact Hw |].
      now rewrite (collapseSpaces_head d s Hd).
    + right. now apply IH.
Qed.

Lemma startsWith_extend (x b w : jsstring) :
  startsWith x w = true -> startsWith (x ++ b) w = true.
Proof.
  revert x. induction w as [| c w IH]; intros x H; [now destruct (x ++ b) |].
  destruct x as [| d x]; [discriminate |]. cbn in *.
  apply andb_prop in H. destruct H as [H1 H2]. rewrite H1. cbn. now apply IH.
Qed.

Lemma includes_extend (a x b w : jsstring) :
  includes x w = true -> includes (a ++ x ++ b) w = true.
Proof.
  intros H. induction a as [| c a IH].
  - cbn [app]. induction x as [| d x IHx].
    + cbn in H. rewrite orb_false_r in H. destruct w; [now destruct b | discriminate].
    + cbn [includes app] in *. apply orb_true_iff in H. apply orb_true_iff.
      destruct H as [H | H].
      * left. exact (startsWith_extend (d :: x) b w H).
      * right. now apply IHx.
  - cbn [app includes]. apply orb_true_iff. now right.
Qed.

Lemma includes_trim (u w : jsstring) : includes (trim u) w = true -> includes u w = true.
Proof.
  intros H. destruct (trimStart_split u) as (ws1 & Hu & _).
  destruct (trimEnd_split (trimStart u)) as (ws2 & Hs & _).
  rewrite Hu, Hs. now apply includes_extend.
Qed.

Lemma includes_normalize (w s : jsstring) :
  spaceFree w -> w <> [] -> includes (normalize s) w = true -> includes s w = true.
Proof.
  intros Hw Hne H. apply includes_collapseSpaces; [assumption | assumption |].
  now apply includes_trim.
Qed.

Definition JUNK : jsstring := lit "ASPx.AddDisabledItems".

Lemma JUNK_spaceFree : spaceFree JUNK.
Proof. unfold spaceFree. repeat apply List.Forall_cons; try apply List.Forall_nil; reflexivity. Qed.

(** A clean text: no white space at the ends, single spaces inside, and
    nothing of the DevExpress script. *)
Definition cleanCell (s : jsstring) : Prop :=
  isNormalized s = true /\ includes s JUNK = false /\ startsWith s (lit "<!--") = false.

Lemma startsWith_normalize_trim (s w : jsstring) :
  spaceFree w ->
  startsWith (normalize (trim s)) w = true -> startsWith (trim s) w = true.
Proof.
  intros Hw H. apply startsWith_collapseSpaces; [exact Hw |].
  unfold normalize in H. unfold trim at 1 in H.
  destruct (trimStart_split (collapseSpaces (trim s))) as (ws & Hc & Hall & _).
  destruct (trimEnd_split (trimStart (collapseSpaces (trim s)))) as (ws2 & Hs & _).
  assert (Hws : ws = []).
  { destruct ws as [| c ws]; [reflexivity |]. exfalso.
    apply List.Forall_cons_iff in Hall. destruct Hall as [Hcw _].
    destruct (trimStart_split s) as (a & _ & _ & Hhead).
    destruct (trimEnd_split (trimStart s)) as (b & Hts & _ & Hlast).
    fold (trim s) in Hts, Hlast.
    destruct (trim s) as [| d t] eqn:Ht; [discriminate |].
    assert (Hd : isWhiteSpace d = false).
    { destruct (trimStart s) as [| d' t']; [now destruct b |].
      cbn in Hts. injection Hts as -> _. exact Hhead. }
    rewrite (collapseSpaces_head d t Hd) in Hc. cbn in Hc. injection Hc as -> _.
    congruence. }
  subst ws. cbn [app] in Hc. rewrite Hc, Hs. now apply startsWith_extend.
Qed.

Lemma cleanWeirdDevExpressText_clean (txt : jsstring) : cleanCell (cleanWeirdDevExpressText txt).
Proof.
  unfold cleanWeirdDevExpressText, cleanCell.
  destruct (isEmpty (trim txt)); [now repeat split |].
  destruct (startsWith (trim txt) (lit "<!--")) eqn:Hc; [now repeat split |].
  destruct (includes (trim txt) (lit "ASPx.AddDisabledItems")) eqn:Hj; [now repeat split |].
  cbn [orb]. fold (normalize (trim txt)). split; [apply normalize_normalized |]. split.
  - destruct (includes (normalize (trim txt)) JUNK) eqn:H; [| reflexivity].
    apply includes_normalize in H; [| exact JUNK_spaceFree | discriminate].
    unfold JUNK in H. congruence.
  - destruct (startsWith (normalize (trim txt)) (lit "<!--")) eqn:H; [| reflexivity].
    apply startsWith_normalize_trim in H; [congruence |].
    unfold spaceFree. repeat apply List.Forall_cons; try apply List.Forall_nil; reflexivity.
Qed.

Lemma cellText_clean (cell : option Td) : cleanCell (cellText cell).
Proof.
  destruct cell as [td |]; [| now repeat split]. unfold cellText.
  destruct (negb (isEmpty (trim (tdAnchor td)))); apply cleanWeirdDevExpressText_clean.
Qed.

(** The text fields of a row that [parseRows] fills. *)
Definition textFields (r : Row) : list jsstring :=
  [pos r; driver r; carNo r; className r; racePts r; qualiPts r; flPts r;
   total r; nett r; diff r].

(** X19. The rows [fetchStandingsGeneric] returns.  They are at most as
    many as the data rows of the table it picked; each has a driver or a
    position; each of its texts has no white space at the ends and single
    spaces inside, does not hold the DevExpress script
    "ASPx.AddDisabledItems" and does not start with "<!--"; and the fields
    of SimGrid and of the penalty sheet are empty. *)
Theorem standings_rows_are_clean (response : option Document) (rs : list Row) :
  fetchStandingsGeneric response = inr rs ->
  (exists doc t, response = Some doc /\ pickBestDxGridTable doc = Some t /\
                 (length rs <= length (dataRows t))%nat) /\
  List.Forall
    (fun r =>
       (driver r <> [] \/ pos r <> []) /\
       List.Forall cleanCell (textFields r) /\
       rating r = [] /\ carMakeKey r = [] /\ countryImg r = [] /\
       penPoints r = [] /\ qualiBan r = [] /\ banServed r = [] /\ qbActive r = false)
    rs.
Proof.
  unfold fetchStandingsGeneric. destruct response as [doc |]; [| discriminate].
  destruct (pickBestDxGridTable doc) as [t |] eqn:Hpick; [| discriminate].
  destruct (findHeaderRow t) as [hr |]; [| discriminate].
  destruct (trimTrailingUtilityColumn _ _) as [headers trimLast].
  destruct (cDriver (mapColumnIndexes headers) <? 0); [discriminate |].
  intros [= <-]. split.
  - exists doc, t. split; [reflexivity |]. split; [exact Hpick |].
    unfold parseRows. induction (dataRows t) as [| tr trs IH]; [cbn; lia |].
    cbn [flat_map length]. rewrite length_app.
    match goal with |- context [if ?b then _ else _] => destruct b end; cbn [length]; lia.
  - apply List.Forall_forall. intros r Hin. unfold parseRows in Hin.
    apply in_flat_map in Hin. destruct Hin as (tr & _ & Hr).
    match type of Hr with
    | In _ (if ?b then _ else _) => destruct b eqn:Hb
    end; [destruct Hr |].
    destruct Hr as [<- | []]. cbn [driver pos rating carMakeKey countryImg penPoints qualiBan
                                   banServed qbActive textFields carNo className racePts
                                   qualiPts flPts total nett diff] in *.
    split.
    + apply andb_false_iff in Hb. destruct Hb as [Hb | Hb]; [left | right];
        intros Heq; rewrite Heq in Hb; discriminate.
    + split; [| now repeat split].
      repeat apply List.Forall_cons; try apply List.Forall_nil; apply cellText_clean.
Qed.

Lemma standings_rows_witness :
  exists rs, fetchStandingsGeneric (Some [StandingsSpec.sampleTable]) = inr rs /\
             List.Forall (fun r => List.Forall cleanCell (textFields r)) rs.
Proof.
  destruct (fetchStandingsGeneric (Some [StandingsSpec.sampleTable])) as [e | rs] eqn:E;
    [vm_compute in E; discriminate |].
  exists rs. split; [reflexivity |].
  destruct (standings_rows_are_clean _ rs E) as [_ H].
  eapply List.Forall_impl; [| exact H]. cbn beta. intros r Hr. apply Hr.
Defined.

End StandingsRowsSpec.

(** ** index.js: the panels of the three OOR standings *)

Module OorScrapeSpec.
Import Render Index IndexScrape OorScrape.

(** *** The season in the title *)

(** [p] certainly does not match at the head of [s], whatever follows
    [s]. *)
Fixpoint mismatches (s p : jsstring) : bool :=
  match p, s with
  | c :: p', d :: s' => if isAsciiCI c d then mismatches s' p' else true
  | _, _ => false
  end.

Lemma mismatches_startsWithCI (s p x : jsstring) :
  mismatches s p = true -> startsWithCI (s ++ x) p = false.
Proof.
  revert s. induction p as [| c p IH]; intros [| d s] H; try discriminate.
  cbn in *. destruct (isAsciiCI c d); [now apply IH | reflexivity].
Qed.

(** [pat] starts nowhere in [p], whatever follows [p]. *)
Fixpoint freeOf (pat p : jsstring) : bool :=
  match p with
  | [] => true
  | c :: p' => mismatches p pat && freeOf pat p'
  end.

Lemma digits_freeOf (c : N) (pat ds : jsstring) :
  (65 <= c <= 90)%N -> forallb isDigit ds = true -> freeOf (c :: pat) ds = true.
Proof.
  intros Hc. induction ds as [| d ds IH]; [reflexivity |].
  cbn [forallb freeOf]. intros H. apply andb_prop in H. destruct H as [Hd Hds].
  rewrite (IH Hds), andb_true_r.
  apply SimgridSpec.digit_range in Hd.
  cbn [mismatches]. unfold isAsciiCI, lowerChar.
  destruct ((65 <=? c) && (c <=? 90))%N eqn:Ec;
    destruct ((65 <=? d) && (d <=? 90))%N eqn:Ed.
  - apply andb_prop in Ed. destruct Ed as [Ed _]. apply N.leb_le in Ed. lia.
  - destruct (N.eqb_spec (c + 32) d) as [Heq | _]; [lia | reflexivity].
  - apply andb_prop in Ed. destruct Ed as [Ed _]. apply N.leb_le in Ed. lia.
  - apply andb_false_iff in Ec. destruct Ec as [Ec | Ec]; apply N.leb_gt in Ec; lia.
Qed.

Lemma seasonMatch_eq (s : jsstring) :
  seasonMatch s =
    match (if startsWithCI s (lit "Season") then
             let '(ws, r1) := span isWhiteSpace (skipn 6 s) in
             let '(ds, _) := span isDigit r1 in
             if isEmpty ws || isEmpty ds then None else Some ds
           else None) with
    | Some ds => Some ds
    | None => match s with
              | [] => None
              | _ :: s' => seasonMatch s'
              end
    end.
Proof. destruct s; reflexivity. Qed.

Lemma seasonMatch_skip (p x : jsstring) :
  freeOf (lit "Season") p = true -> seasonMatch (p ++ x) = seasonMatch x.
Proof.
  induction p as [| c p IH]; [reflexivity |].
  cbn [freeOf]. intros H. apply andb_prop in H. destruct H as [Hm Hp].
  rewrite seasonMatch_eq, (mismatches_startsWithCI _ _ x Hm). cbn [app]. now apply IH.
Qed.

Definition startsWithDigit (s : jsstring) : bool :=
  match s with c :: _ => isDigit c | [] => false end.

Lemma season_found (ds rest : jsstring) :
  ds <> [] -> forallb isDigit ds = true -> startsWithDigit rest = false ->
  seasonMatch (lit "Season " ++ ds ++ rest) = Some ds.
Proof.
  intros Hne Hds Hrest. rewrite seasonMatch_eq.
  change (startsWithCI (lit "Season " ++ ds ++ rest) (lit "Season")) with true. cbv iota.
  change (skipn 6 (lit "Season " ++ ds ++ rest)) with ([32%N] ++ ds ++ rest).
  rewrite (SimgridSpec.span_app isWhiteSpace [32%N] (ds ++ rest) eq_refl).
  - rewrite (SimgridSpec.span_app isDigit ds rest Hds).
    + now destruct ds.
    + destruct rest as [| c rest]; [exact I | exact Hrest].
  - destruct ds as [| d ds]; [now contradiction Hne |]. cbn [app].
    cbn [forallb] in Hds. apply andb_prop in Hds. destruct Hds as [Hd _].
    now apply SimgridSpec.digit_not_space.
Qed.

Lemma title_season_found (label ds tail : jsstring) (n : nat) :
  freeOf (lit "Season") (label ++ DASH) = true ->
  ds <> [] -> forallb isDigit ds = true -> startsWithDigit tail = false ->
  seasonMatch (standingsTitle label (ds ++ tail) n) = Some ds.
Proof.
  intros Hfree Hne Hds Htail. unfold standingsTitle.
  rewrite (app_assoc label DASH), seasonMatch_skip by exact Hfree.
  rewrite <- (app_assoc ds tail). apply season_found; [assumption | assumption |].
  destruct tail as [| c tail]; [reflexivity | exact Htail].
Qed.

Lemma title_season_unknown (label : jsstring) (n : nat) :
  freeOf (lit "Season") (label ++ DASH) = true ->
  seasonMatch (standingsTitle label (lit "??") n) = None.
Proof.
  intros Hfree. unfold standingsTitle.
  rewrite (app_assoc label DASH), seasonMatch_skip by exact Hfree.
  rewrite seasonMatch_eq.
  change (lit "Season " ++ lit "??" ++ lit " (" ++ String_of_Z (Z.of_nat n) ++ lit " drivers)")
    with (lit "Season ?? (" ++ String_of_Z (Z.of_nat n) ++ lit " drivers)").
  change (startsWithCI (lit "Season ?? (" ++ String_of_Z (Z.of_nat n) ++ lit " drivers)")
            (lit "Season")) with true. cbv iota.
  change (skipn 6 (lit "Season ?? (" ++ String_of_Z (Z.of_nat n) ++ lit " drivers)"))
    with (lit " ?? (" ++ String_of_Z (Z.of_nat n) ++ lit " drivers)").
  change (span isWhiteSpace (lit " ?? (" ++ String_of_Z (Z.of_nat n) ++ lit " drivers)"))
    with ([32%N], lit "?? (" ++ String_of_Z (Z.of_nat n) ++ lit " drivers)").
  change (span isDigit (lit "?? (" ++ String_of_Z (Z.of_nat n) ++ lit " drivers)"))
    with (@nil N, lit "?? (" ++ String_of_Z (Z.of_nat n) ++ lit " drivers)").
  cbn [isEmpty orb].
  change (lit "Season ?? (" ++ String_of_Z (Z.of_nat n) ++ lit " drivers)")
    with (83%N :: lit "eason ?? (" ++ String_of_Z (Z.of_nat n) ++ lit " drivers)").
  cbv iota.
  rewrite (seasonMatch_skip (lit "eason ?? (")) by reflexivity.
  rewrite seasonMatch_skip
    by (apply (digits_freeOf 83 (lit "eason")); [lia | apply String_of_Z_decimal; lia]).
  reflexivity.
Qed.

Lemma labels_freeOf_season (label : jsstring) :
  In label [CLUB50_LABEL; YELLOW_LABEL; RED_LABEL] -> freeOf (lit "Season") (label ++ DASH) = true.
Proof. intros [<- | [<- | [<- | []]]]; reflexivity. Qed.

(** *** What a scrape that went through returns *)

(** The number of rows whose field [f] is not blank, as
    [validateRowsOrThrow] counts them. *)
Definition countFilled (f : Row -> jsstring) (rs : list Row) : nat :=
  length (List.filter (fun r => negb (isEmpty (f r)) && negb (isEmpty (trim (f r)))) rs).

Definition scrapedTexts (r : Row) : list jsstring :=
  [pos r; driver r; carNo r; className r; racePts r; qualiPts r; flPts r;
   total r; nett r; diff r].

Lemma getBestTextFromCell_normalized (td : option Cell) :
  TextSpec.isNormalized (getBestTextFromCell td) = true.
Proof.
  destruct td as [td |]; [| reflexivity]. unfold getBestTextFromCell.
  repeat match goal with
         | |- context [if ?b then _ else _] => destruct b
         end; try apply TextSpec.normalize_normalized; reflexivity.
Qed.

Section Scraped.
Variable toLowerCaseFull : jsstring -> jsstring.
Variable fractionToString : Q -> jsstring.

Lemma parseDataRow_texts (i1 i2 i3 i4 i5 i6 i7 i8 i9 i10 i11 i12 : Z) (tds : list Cell) :
  List.Forall
    (fun r => List.Forall (fun s => TextSpec.isNormalized s = true) (scrapedTexts r) /\
              penPoints r = [] /\ qualiBan r = [] /\ banServed r = [] /\ qbActive r = false)
    (parseDataRow i1 i2 i3 i4 i5 i6 i7 i8 i9 i10 i11 i12 tds).
Proof.
  unfold parseDataRow. destruct tds as [| td tds]; [constructor |].
  apply List.Forall_cons; [| constructor]. split; [| now repeat split].
  unfold scrapedTexts. cbn [pos driver carNo className racePts qualiPts flPts total nett diff].
  repeat apply List.Forall_cons; try apply List.Forall_nil.
  all: repeat match goal with
              | |- context [if ?b then _ else _] => destruct b
              | |- context [match ?o with Some _ => _ | None => _ end] => destruct o
              end;
       first [ apply TextSpec.normalize_normalized
             | apply getBestTextFromCell_normalized
             | reflexivity ].
Qed.

Lemma parseDataRow_length (i1 i2 i3 i4 i5 i6 i7 i8 i9 i10 i11 i12 : Z) (tds : list Cell) :
  (length (parseDataRow i1 i2 i3 i4 i5 i6 i7 i8 i9 i10 i11 i12 tds) <= 1)%nat.
Proof. unfold parseDataRow. destruct tds; cbn; lia. Qed.

Lemma attach_countFilled (f : Row -> jsstring) (t : option PenaltyTab) (rs : list Row) :
  (forall r, f (attachPenalty toLowerCaseFull t r) = f r) ->
  countFilled f (attachPenaltiesToSprintRows toLowerCaseFull rs t) = countFilled f rs.
Proof.
  intros Hf. unfold countFilled, attachPenaltiesToSprintRows.
  induction rs as [| r rs IH]; [reflexivity |].
  cbn [List.map List.filter]. rewrite Hf.
  destruct (negb (isEmpty (f r)) && negb (isEmpty (trim (f r)))); cbn [length]; now rewrite IH.
Qed.

(** X20. A panel that [fetchClub50], [fetchSprintYellow] or
    [fetchSprintRed] returns went through [validateRowsOrThrow]: at least
    three of its rows have a driver and at least three a car image.  Its
    rows are at most as many as the data rows of the table, its title
    carries their number and the season of the URL ("??" without one),
    every scraped text has no white space at the ends and single spaces
    inside, and the rows carry penalty fields exactly when a penalty tab
    was given. *)
Theorem scraped_panel_passed_validation
    (load : jsstring -> option MainTable) (label : jsstring)
    (fetched : FetchError + jsstring) (seasonParam : option jsstring)
    (penaltyTab : option PenaltyTab) (p : Panel) :
  fetchStandings toLowerCaseFull load label fetched seasonParam penaltyTab = inr p ->
  exists html table rs,
    fetched = inr html /\ load html = Some table /\ rows p = Some rs /\
    (length rs <= length (dataRowCells table))%nat /\
    title p = standingsTitle label (orElse (Some (orElse seasonParam [])) (lit "??"))
                             (length rs) /\
    subtitle p = OOR_SUBTITLE /\ tint p = None /\ mode p = None /\
    (3 <= countFilled driver rs)%nat /\ (3 <= countFilled carImg rs)%nat /\
    List.Forall (fun r => List.Forall (fun s => TextSpec.isNormalized s = true)
                                      (scrapedTexts r)) rs /\
    (penaltyTab = None ->
       List.Forall (fun r => penPoints r = [] /\ qualiBan r = [] /\ banServed r = [] /\
                             qbActive r = false) rs) /\
    (penaltyTab <> None -> List.Forall (fun r => penPoints r <> []) rs).
Proof.
  unfold fetchStandings. destruct fetched as [e | html]; [discriminate |].
  destruct (load html) as [table |] eqn:Hload; [| discriminate].
  cbn [parseStandingsTable]. destruct (headerCells table) as [cells |]; [| discriminate].
  match goal with
  | |- context [flat_map ?f (dataRowCells table)] => set (parse := f)
  end.
  set (rs0 := flat_map parse (dataRowCells table)).
  assert (Hlen : (length rs0 <= length (dataRowCells table))%nat).
  { assert (Hgen : forall l, (length (flat_map parse l) <= length l)%nat).
    { induction l as [| tds l IH]; [cbn; lia |].
      cbn [flat_map length]. rewrite length_app.
      pose proof (parseDataRow_length _ _ _ _ _ _ _ _ _ _ _ _ tds
                  : (length (parse tds) <= 1)%nat).
      lia. }
    apply Hgen. }
  assert (Htexts : List.Forall
            (fun r => List.Forall (fun s => TextSpec.isNormalized s = true) (scrapedTexts r) /\
                      penPoints r = [] /\ qualiBan r = [] /\ banServed r = [] /\
                      qbActive r = false) rs0).
  { apply List.Forall_forall. intros r Hin. unfold rs0 in Hin.
    apply in_flat_map in Hin. destruct Hin as (tds & _ & Hr).
    pose proof (parseDataRow_texts _ _ _ _ _ _ _ _ _ _ _ _ tds
                : List.Forall _ (parse tds)) as Hall.
    rewrite List.Forall_forall in Hall. exact (Hall r Hr). }
  destruct (validateRowsOrThrow rs0) as [e |] eqn:Hval; [discriminate |].
  assert (Hcounts : (3 <= countFilled driver rs0)%nat /\ (3 <= countFilled carImg rs0)%nat).
  { unfold validateRowsOrThrow in Hval. fold (countFilled driver rs0) in Hval.
    fold (countFilled carImg rs0) in Hval.
    destruct (length rs0 =? 0)%nat; [discriminate |].
    destruct (Nat.ltb_spec (countFilled driver rs0) 3); [discriminate |].
    destruct (Nat.ltb_spec (countFilled carImg rs0) 3); [discriminate |]. now split. }
  intros [= <-]. exists html, table.
  destruct penaltyTab as [t |].
  - exists (attachPenaltiesToSprintRows toLowerCaseFull rs0 (Some t)).
    cbn [rows title subtitle tint mode].
    assert (Hl : length (attachPenaltiesToSprintRows toLowerCaseFull rs0 (Some t)) = length rs0)
      by apply length_map.
    rewrite Hl, !attach_countFilled by reflexivity.
    repeat split; try reflexivity; try tauto.
    + unfold attachPenaltiesToSprintRows. apply List.Forall_map.
      eapply List.Forall_impl; [| exact Htexts]. cbn beta. intros r [Hr _]. exact Hr.
    + intros H. discriminate.
    + intros _. unfold attachPenaltiesToSprintRows. apply List.Forall_map.
      apply List.Forall_forall. intros r _. cbn [attachPenalty penPoints].
      apply PenaltySpec.orText_nonempty.
  - exists rs0. cbn [rows title subtitle tint mode].
    repeat split; try reflexivity; try tauto.
    + eapply List.Forall_impl; [| exact Htexts]. cbn beta. intros r [Hr _]. exact Hr.
    + intros _. eapply List.Forall_impl; [| exact Htexts]. cbn beta. intros r [_ Hr]. exact Hr.
Qed.

(** X21. The class panels show the season of the URL.  For a panel that
    one of the three scrapers returned, [buildClassPanels] reads back from
    its title the leading digits of the [s] parameter of the URL, and "??"
    when the URL has no such parameter: its four panels are the class
    panels of the rows for that season text. *)
Theorem class_panels_show_the_scraped_season
    (load : jsstring -> option MainTable) (label : jsstring)
    (fetched : FetchError + jsstring) (seasonParam : option jsstring)
    (penaltyTab : option PenaltyTab) (p : Panel) (splitLabel : jsstring) :
  In label [CLUB50_LABEL; YELLOW_LABEL; RED_LABEL] ->
  fetchStandings toLowerCaseFull load label fetched seasonParam penaltyTab = inr p ->
  let rs := rowsOrEmpty (rows p) in
  (forall ds tail,
     seasonParam = Some (ds ++ tail) -> ds <> [] -> forallb isDigit ds = true ->
     startsWithDigit tail = false ->
     buildClassPanels fractionToString p splitLabel =
       List.map (buildClassPanel fractionToString rs splitLabel ds) classOrder) /\
  (seasonParam = None \/ seasonParam = Some [] ->
     buildClassPanels fractionToString p splitLabel =
       List.map (buildClassPanel fractionToString rs splitLabel (lit "??")) classOrder).
Proof.
  intros Hlabel Hp.
  destruct (scraped_panel_passed_validation load label fetched seasonParam penaltyTab p Hp)
    as (html & table & rs & _ & _ & Hrows & _ & Htitle & _).
  pose proof (labels_freeOf_season label Hlabel) as Hfree.
  cbv zeta. unfold buildClassPanels. rewrite Htitle. split.
  - intros ds tail -> Hne Hds Htail.
    assert (Hs : orElse (Some (orElse (Some (ds ++ tail)) [])) (lit "??") = ds ++ tail).
    { destruct ds as [| d ds]; [now contradiction Hne | reflexivity]. }
    rewrite Hs, (title_season_found label ds tail (length rs) Hfree Hne Hds Htail).
    reflexivity.
  - intros Hnone.
    assert (Hs : orElse (Some (orElse seasonParam [])) (lit "??") = lit "??")
      by (destruct Hnone as [-> | ->]; reflexivity).
    rewrite Hs, (title_season_unknown label (length rs) Hfree). reflexivity.
Qed.

End Scraped.

Definition textCell (t : string) : Cell := mkCell (lit t) [] [] None None None.
Definition imageCell (src : string) : Cell := mkCell [] [] [] None None (Some (lit src)).

Definition sampleMainTable : MainTable :=
  mkMainTable
    (Some [textCell "#"; textCell "Driver"; textCell "Car#"; textCell "Class";
           textCell "Car"; textCell "Nett Points"])
    [ [textCell "1"; textCell " A.  Driver "; textCell "27"; textCell "Pro";
       imageCell "/img/a.png"; textCell "50"];
      [textCell "2"; textCell "B. Driver"; textCell "3"; textCell "Am";
       imageCell "/img/b.png"; textCell "41"];
      [textCell "3"; textCell "C. Driver"; textCell "8"; textCell "Pro";
       imageCell "/img/c.png"; textCell "30"] ].

Definition sampleScrape : ScrapeError + Panel :=
  fetchStandings toLowerCase (fun _ => Some sampleMainTable) YELLOW_LABEL
                 (inr (lit "<html>")) (Some (lit "12")) None.

Lemma scraped_panel_witness :
  exists p, sampleScrape = inr p /\ (3 <= countFilled driver (rowsOrEmpty (rows p)))%nat.
Proof.
  destruct sampleScrape as [e | p] eqn:E; [vm_compute in E; discriminate |].
  exists p. split; [reflexivity |].
  destruct (scraped_panel_passed_validation toLowerCase _ _ _ _ _ p E)
    as (html & table & rs & _ & _ & Hrows & _ & _ & _ & _ & _ & Hcount & _).
  rewrite Hrows. exact Hcount.
Defined.

Lemma class_panels_season_witness :
  exists p, sampleScrape = inr p /\
    buildClassPanels (fun _ => []) p YELLOW_LABEL =
      List.map (buildClassPanel (fun _ => []) (rowsOrEmpty (rows p)) YELLOW_LABEL (lit "12"))
               classOrder.
Proof.
  destruct sampleScrape as [e | p] eqn:E; [vm_compute in E; discriminate |].
  exists p. split; [reflexivity |].
  apply (proj1 (class_panels_show_the_scraped_season toLowerCase (fun _ => []) _ _ _ _ _ p
                  YELLOW_LABEL ltac:(right; left; reflexivity) E) (lit "12") []);
    reflexivity || discriminate.
Defined.

End OorScrapeSpec.

(** ** render.js: which panels show penalty points *)

Module TitlesSpec.
Import Render Index DrawPanel OorScrape OorScrapeSpec.

Lemma isSprintSplitTitle_eq (s : jsstring) :
  isSprintSplitTitle s =
    sprintSplitHere s || match s with [] => false | _ :: s' => isSprintSplitTitle s' end.
Proof. destruct s; reflexivity. Qed.

Lemma isSprintSplitTitle_later (a s : jsstring) :
  isSprintSplitTitle s = true -> isSprintSplitTitle (a ++ s) = true.
Proof.
  intros H. induction a as [| c a IH]; [exact H |].
  cbn [app]. rewrite isSprintSplitTitle_eq, IH. apply orb_true_r.
Qed.

Lemma sprint_label_found (label x : jsstring) :
  In label [YELLOW_LABEL; RED_LABEL] -> isSprintSplitTitle (label ++ x) = true.
Proof.
  intros [<- | [<- | []]]; rewrite isSprintSplitTitle_eq; reflexivity.
Qed.

Lemma sprintSplitHere_mismatch (s x : jsstring) :
  mismatches s (lit "Split") = true -> sprintSplitHere (s ++ x) = false.
Proof.
  intros H. unfold sprintSplitHere. now rewrite (mismatches_startsWithCI _ _ x H).
Qed.

Lemma isSprintSplitTitle_skip (p x : jsstring) :
  freeOf (lit "Split") p = true -> isSprintSplitTitle (p ++ x) = isSprintSplitTitle x.
Proof.
  induction p as [| c p IH]; [reflexivity |].
  cbn [freeOf]. intros H. apply andb_prop in H. destruct H as [Hm Hp].
  rewrite isSprintSplitTitle_eq, (sprintSplitHere_mismatch _ x Hm). cbn [app orb].
  now apply IH.
Qed.

Lemma club50_title_plain (season : jsstring) (n : nat) :
  forallb isDigit season = true \/ season = lit "??" ->
  isSprintSplitTitle (standingsTitle CLUB50_LABEL season n) = false.
Proof.
  intros Hs. unfold standingsTitle.
  rewrite (app_assoc CLUB50_LABEL DASH), (app_assoc (CLUB50_LABEL ++ DASH)).
  rewrite isSprintSplitTitle_skip by reflexivity.
  assert (Hfree : freeOf (lit "Split") season = true).
  { destruct Hs as [Hd | ->]; [| reflexivity].
    now apply (digits_freeOf 83 (lit "plit")); [lia |]. }
  rewrite isSprintSplitTitle_skip by exact Hfree.
  rewrite (app_assoc (lit " (")).
  rewrite (isSprintSplitTitle_skip (lit " (" ++ String_of_Z (Z.of_nat n))).
  - reflexivity.
  - change (freeOf (lit "Split") (lit " (" ++ String_of_Z (Z.of_nat n)))
      with (freeOf (lit "Split") (String_of_Z (Z.of_nat n))).
    apply (digits_freeOf 83 (lit "plit")); [lia | apply String_of_Z_decimal; lia].
Qed.

(** X22. Which panels [drawPanel] treats as sprint panels, so that a
    penalty suffix can follow a driver's name.  A panel whose title was
    built by [fetchSprintYellow] or [fetchSprintRed], or by
    [buildClassPanels] for one of the two sprint labels, is one unless its
    mode is "simgrid"; the Club 50 panel (season in digits, or "??") is
    none, and a panel in mode "simgrid" is none whatever its title. *)
Theorem sprint_titles_switch_the_penalty_display (c : PanelCall) :
  let notSimgrid := negb (strEq (modeOrDefault (pmode c)) (lit "simgrid")) in
  (forall label season n,
     In label [YELLOW_LABEL; RED_LABEL] ->
     ptitle c = standingsTitle label season n -> sprintSplit c = notSimgrid) /\
  (forall cls label season n,
     In label [YELLOW_LABEL; RED_LABEL] ->
     ptitle c = classTitle cls label season n -> sprintSplit c = notSimgrid) /\
  (forall season n,
     forallb isDigit season = true \/ season = lit "??" ->
     ptitle c = standingsTitle CLUB50_LABEL season n -> sprintSplit c = false) /\
  (pmode c = Some (lit "simgrid") -> sprintSplit c = false).
Proof.
  cbv zeta. unfold sprintSplit. repeat split.
  - intros label season n Hl ->. unfold standingsTitle.
    now rewrite (sprint_label_found label _ Hl), andb_true_r.
  - intros cls label season n Hl ->. unfold classTitle.
    rewrite (app_assoc cls DASH), isSprintSplitTitle_later, andb_true_r; [reflexivity |].
    now apply sprint_label_found.
  - intros season n Hs ->. rewrite (club50_title_plain season n Hs). apply andb_false_r.
  - intros ->. reflexivity.
Qed.

(** *** The class badge *)

Definition noLineBreak (s : jsstring) : bool :=
  forallb (fun c => negb (isLineTerminator c)) s.

Lemma restOfTitle_text (c : N) (r : jsstring) :
  isWhiteSpace c = false -> noLineBreak (c :: r) = true ->
  restOfTitle (32%N :: c :: r) = Some (c :: r).
Proof.
  intros Hc Hr. unfold restOfTitle.
  change (span isWhiteSpace (32%N :: c :: r))
    with (let '(a, b) := span isWhiteSpace (c :: r) in (32%N :: a, b)).
  cbn [span]. rewrite Hc. unfold noLineBreak in Hr. now rewrite Hr.
Qed.

Lemma digits_noLineBreak (ds : jsstring) : forallb isDigit ds = true -> noLineBreak ds = true.
Proof.
  induction ds as [| d ds IH]; [reflexivity |].
  cbn [forallb noLineBreak]. intros H. apply andb_prop in H. destruct H as [Hd Hds].
  unfold noLineBreak in IH. rewrite (IH Hds), andb_true_r.
  apply SimgridSpec.digit_range in Hd. unfold isLineTerminator.
  repeat match goal with
         | |- context [(d =? ?k)%N] => destruct (N.eqb_spec d k); [lia |]
         end.
  reflexivity.
Qed.

Lemma tail_noLineBreak (label season : jsstring) (n : nat) :
  In label [YELLOW_LABEL; RED_LABEL] ->
  forallb isDigit season = true \/ season = lit "??" ->
  noLineBreak (label ++ DASH ++ lit "Season " ++ season ++
               lit " (" ++ String_of_Z (Z.of_nat n) ++ lit " drivers)") = true.
Proof.
  intros Hl Hs. unfold noLineBreak.
  rewrite !forallb_app.
  assert (Hseason : noLineBreak season = true)
    by (destruct Hs as [Hd | ->]; [now apply digits_noLineBreak | reflexivity]).
  assert (Hn : noLineBreak (String_of_Z (Z.of_nat n)) = true)
    by (apply digits_noLineBreak, String_of_Z_decimal; lia).
  unfold noLineBreak in Hseason, Hn. rewrite Hseason, Hn.
  destruct Hl as [<- | [<- | []]]; reflexivity.
Qed.

Lemma class_title_split (cls label x : jsstring) :
  In cls classOrder -> In label [YELLOW_LABEL; RED_LABEL] ->
  noLineBreak (label ++ x) = true ->
  splitTitleLeadingClass (cls ++ DASH ++ label ++ x) = Some (cls, label ++ x).
Proof.
  intros Hc Hl Hx.
  assert (Hrest : restOfTitle (32%N :: label ++ x) = Some (label ++ x)).
  { destruct Hl as [<- | [<- | []]];
      (apply restOfTitle_text; [reflexivity | exact Hx]). }
  destruct Hl as [<- | [<- | []]];
    destruct Hc as [<- | [<- | [<- | [<- | []]]]];
    cbv -[restOfTitle] in Hrest |- *; now rewrite Hrest.
Qed.

Lemma seasonMatch_digits (s ds : jsstring) :
  seasonMatch s = Some ds -> forallb isDigit ds = true.
Proof.
  induction s as [| c s IH]; rewrite seasonMatch_eq.
  - destruct (startsWithCI [] (lit "Season")); [| discriminate].
    cbn. discriminate.
  - destruct (startsWithCI (c :: s) (lit "Season")); [| exact IH].
    destruct (span isWhiteSpace (skipn 6 (c :: s))) as [ws r1].
    destruct (span isDigit r1) as [ds' r2] eqn:Hspan.
    destruct (isEmpty ws || isEmpty ds'); [exact IH |].
    intros [= <-]. now destruct (SimgridSpec.span_spec _ _ _ _ Hspan).
Qed.

(** The colours of the four badges. *)
Definition badgeOf (cls : jsstring) : option (jsstring * jsstring) :=
  if strEq cls (lit "Pro") then Some (lit "#ffffff", lit "#000000")
  else if strEq cls (lit "Silver") then Some (lit "#c0c0c0", lit "#000000")
  else if strEq cls (lit "Pro-Am") then Some (lit "#000000", lit "#ffffff")
  else if strEq cls (lit "Am") then Some (lit "#ff0000", lit "#ffffff")
  else None.

(** X25. The panels of a class grid get their badge.  For each of the
    four panels [buildClassPanels] builds for a sprint label,
    [splitTitleLeadingClass] splits the title into the class (Pro, Silver,
    Pro-Am, Am, in this order) and the rest, which starts with the sprint
    label, and [classBadgeStyle] has a style for that class: white, silver,
    black and red.  The titles of the three main panels have no leading
    class, so they are drawn without a badge. *)
Theorem class_panel_titles_get_their_badge
    (fractionToString : Q -> jsstring) (standings : Panel) (label : jsstring) :
  In label [YELLOW_LABEL; RED_LABEL] ->
  List.Forall2
    (fun cls q =>
       exists season k,
         title q = classTitle cls label season k /\
         splitTitleLeadingClass (title q) =
           Some (cls, label ++ DASH ++ lit "Season " ++ season ++
                      lit " (" ++ String_of_Z (Z.of_nat k) ++ lit " drivers)") /\
         classBadgeStyle cls = badgeOf cls /\ badgeOf cls <> None)
    classOrder (buildClassPanels fractionToString standings label) /\
  (forall main season n,
     In main [CLUB50_LABEL; YELLOW_LABEL; RED_LABEL] ->
     splitTitleLeadingClass (standingsTitle main season n) = None).
Proof.
  intros Hl. split.
  - unfold buildClassPanels.
    set (season := match seasonMatch (title standings) with
                   | Some ds => ds
                   | None => lit "??"
                   end).
    assert (Hseason : forallb isDigit season = true \/ season = lit "??").
    { unfold season. destruct (seasonMatch (title standings)) as [ds |] eqn:Hm;
        [left; exact (seasonMatch_digits _ _ Hm) | now right]. }
    assert (Hone : forall cls, In cls classOrder ->
              exists season' k,
                title (buildClassPanel fractionToString (rowsOrEmpty (rows standings))
                                       label season cls) =
                  classTitle cls label season' k /\
                splitTitleLeadingClass
                  (title (buildClassPanel fractionToString (rowsOrEmpty (rows standings))
                                          label season cls)) =
                  Some (cls, label ++ DASH ++ lit "Season " ++ season' ++
                             lit " (" ++ String_of_Z (Z.of_nat k) ++ lit " drivers)") /\
                classBadgeStyle cls = badgeOf cls /\ badgeOf cls <> None).
    { intros cls Hc. exists season.
      assert (Htitle : exists k,
                title (buildClassPanel fractionToString (rowsOrEmpty (rows standings))
                                       label season cls) = classTitle cls label season k).
      { unfold buildClassPanel.
        destruct (sort _ _) as [| leader rest]; cbn [title]; eauto. }
      destruct Htitle as [k Hk]. exists k. rewrite Hk.
      split; [reflexivity |]. split.
      - unfold classTitle. apply class_title_split; [exact Hc | exact Hl |].
        now apply tail_noLineBreak.
      - destruct Hc as [<- | [<- | [<- | [<- | []]]]]; split; (reflexivity || discriminate). }
    unfold classOrder in *.
    repeat (apply List.Forall2_cons; [apply Hone; cbn [In]; tauto |]).
    apply List.Forall2_nil.
  - intros main season n [<- | [<- | [<- | []]]]; reflexivity.
Qed.

Lemma class_badge_witness :
  splitTitleLeadingClass (standingsTitle CLUB50_LABEL (lit "12") 3) = None.
Proof.
  apply (proj2 (class_panel_titles_get_their_badge
                  (fun _ => []) (mkPanel [] [] None None None) YELLOW_LABEL
                  ltac:(left; reflexivity))).
  left. reflexivity.
Defined.

End TitlesSpec.

(** ** render.js: images are fetched once *)

Module ImageLoaderSpec.
Import ImageLoader.

Section Loader.
Variable Image : Type.
Variable secondsToMs : jsstring -> Z.

Definition isFetch (e : ImgEvent) : bool :=
  match e with IvFetch _ => true | IvSleep _ => false end.

Definition fetchCount (evs : list ImgEvent) : nat := length (List.filter isFetch evs).

(** A sleep lasts at least half a second. *)
Definition longEnough (e : ImgEvent) : Prop :=
  match e with IvSleep ms => 500 <= ms | IvFetch _ => True end.

Lemma backoff_ge (i : nat) : 500 <= Z.min 4000 (500 * 2 ^ Z.of_nat i).
Proof.
  pose proof (Z.pow_pos_nonneg 2 (Z.of_nat i) ltac:(lia) ltac:(lia)).
  lia.
Qed.

Lemma rateLimit_ge (ra : option jsstring) (i : nat) :
  500 <= Z.max (retryAfterMs secondsToMs ra) (Z.min 8000 (800 * 2 ^ Z.of_nat i)).
Proof.
  pose proof (Z.pow_pos_nonneg 2 (Z.of_nat i) ltac:(lia) ltac:(lia)).
  lia.
Qed.

(** What the loop gives from iteration [i] on, when [remaining] more
    attempts lead to the last one, [attempts - 1]. *)
Lemma loadLoop_spec (net : nat -> ImgAttempt Image) (attempts : nat) :
  forall remaining i, (i + remaining = attempts)%nat ->
    let r := fst (loadLoop Image secondsToMs net attempts remaining i) in
    let evs := snd (loadLoop Image secondsToMs net attempts remaining i) in
    (fetchCount evs <= remaining)%nat /\
    List.Forall longEnough evs /\
    (evs = [] \/ exists pre j, evs = pre ++ [IvFetch j]) /\
    (forall img, r = Some img ->
       exists j status ra, (i <= j < attempts)%nat /\
         net j = ImgResponse status ra (Some img) /\ isOk status = true) /\
    (r = None -> fetchCount evs = remaining).
Proof.
  induction remaining as [| remaining IH]; intros i Hi.
  - cbn. split; [lia |]. split; [apply List.Forall_nil |]. split; [now left |].
    split; [intros img H; discriminate | reflexivity].
  - cbv zeta. cbn [loadLoop].
    specialize (IH (S i) ltac:(lia)). cbv zeta in IH.
    destruct (loadLoop Image secondsToMs net attempts remaining (S i)) as [r evs] eqn:Hloop.
    cbn [fst snd] in IH. destruct IH as (Hcount & Hlong & Hend & Himg & Hnone).
    assert (Hmore : (Z.of_nat i <? Z.of_nat attempts - 1) = true -> remaining <> 0%nat)
      by (intros H; apply Z.ltb_lt in H; lia).
    assert (Hlast : (Z.of_nat i <? Z.of_nat attempts - 1) = false -> remaining = 0%nat)
      by (intros H; apply Z.ltb_ge in H; lia).
    assert (Hagain : forall ms, 500 <= ms ->
      let evs' := IvFetch i :: (if Z.of_nat i <? Z.of_nat attempts - 1
                               then [IvSleep ms] else []) ++ evs in
      (fetchCount evs' <= S remaining)%nat /\
      List.Forall longEnough evs' /\
      (evs' = [] \/ exists pre j, evs' = pre ++ [IvFetch j]) /\
      (forall img, r = Some img ->
         exists j status ra, (i <= j < attempts)%nat /\
           net j = ImgResponse status ra (Some img) /\ isOk status = true) /\
      (r = None -> fetchCount evs' = S remaining)).
    { intros ms Hms. cbv zeta.
      assert (Hc : fetchCount (IvFetch i :: (if Z.of_nat i <? Z.of_nat attempts - 1
                                            then [IvSleep ms] else []) ++ evs) =
                   S (fetchCount evs)).
      { unfold fetchCount. destruct (Z.of_nat i <? Z.of_nat attempts - 1); reflexivity. }
      rewrite Hc. split; [lia |]. split; [| split; [| split]].
      - apply List.Forall_cons; [exact I |].
        destruct (Z.of_nat i <? Z.of_nat attempts - 1); cbn [app];
          [apply List.Forall_cons; [exact Hms | exact Hlong] | exact Hlong].
      - right. destruct Hend as [-> | (pre & j & ->)].
        + destruct (Z.of_nat i <? Z.of_nat attempts - 1) eqn:Hm.
          * exfalso. apply (Hmore eq_refl).
            destruct remaining as [| k]; [reflexivity |].
            cbn [loadLoop] in Hloop.
            destruct (net (S i)) as [| st ra dec];
              repeat match type of Hloop with
                     | context [let '(_, _) := ?x in _] => destruct x
                     | context [if ?b then _ else _] => destruct b
                     | context [match ?o with Some _ => _ | None => _ end] => destruct o
                     end; discriminate.
          * exists [], i. reflexivity.
        + exists (IvFetch i :: (if Z.of_nat i <? Z.of_nat attempts - 1
                                then [IvSleep ms] else []) ++ pre), j.
          cbn [app]. now rewrite <- app_assoc.
      - intros img Hr. destruct (Himg img Hr) as (j & st & ra & Hj & Hn & Hok).
        exists j, st, ra. split; [lia | now split].
      - intros Hr. now rewrite (Hnone Hr). }
    destruct (net i) as [| status ra decoded] eqn:Hnet.
    + apply Hagain, backoff_ge.
    + destruct (((status =? 429) || (status =? 503)) &&
                (Z.of_nat i <? Z.of_nat attempts - 1)).
      * apply Hagain, rateLimit_ge.
      * destruct (isOk status) eqn:Hok; cbn [negb].
        -- destruct decoded as [img |].
           ++ cbn [fst snd]. unfold fetchCount. cbn.
              split; [lia |]. split; [apply List.Forall_cons; [exact I | apply List.Forall_nil] |].
              split; [right; exists [], i; reflexivity |].
              split; [| discriminate].
              intros img' [= <-]. exists i, status, ra. split; [lia | now split].
           ++ apply Hagain, backoff_ge.
        -- apply Hagain, backoff_ge.
Qed.

(** X23. [loadImageFromUrl] never throws and fetches a URL at most once
    for the life of the cache.  For the empty URL it returns [null] and
    touches nothing.  Otherwise it ends with the URL in the cache, bound to
    what it returns, and a later call returns the same without a fetch,
    also after a failure: an image that could not be loaded is not tried
    again.  A call makes at most [attempts] fetches, exactly [attempts]
    when it fails, sleeps at least half a second between two fetches and
    never after the last; an image returned is the decoded body of a
    response that was ok. *)
Theorem image_is_fetched_once_per_url
    (imgCache : gmap jsstring (option Image)) (url : jsstring)
    (net : nat -> ImgAttempt Image) (attempts : nat) :
  let out := loadImageFromUrl Image secondsToMs imgCache url net attempts in
  let r := fst (fst out) in
  let cache' := snd (fst out) in
  let evs := snd out in
  (url = [] -> r = None /\ cache' = imgCache /\ evs = []) /\
  (url <> [] ->
     cache' !! url = Some r /\
     (forall u, u <> url -> cache' !! u = imgCache !! u) /\
     (forall net' attempts',
        loadImageFromUrl Image secondsToMs cache' url net' attempts' = (r, cache', []))) /\
  (forall cached, url <> [] -> imgCache !! url = Some cached -> r = cached /\ evs = []) /\
  (fetchCount evs <= attempts)%nat /\
  List.Forall longEnough evs /\
  (evs = [] \/ exists pre j, evs = pre ++ [IvFetch j]) /\
  (url <> [] -> imgCache !! url = None ->
     (r = None -> fetchCount evs = attempts) /\
     (forall img, r = Some img ->
        exists j status ra, (j < attempts)%nat /\
          net j = ImgResponse status ra (Some img) /\ isOk status = true)).
Proof.
  cbv zeta. unfold loadImageFromUrl.
  destruct url as [| c url]; cbn [isEmpty].
  { unfold fetchCount. cbn.
    split; [now intros _ |]. split; [intros H; now contradiction H |].
    split; [intros cached H; now contradiction H |]. split; [lia |].
    split; [apply List.Forall_nil |]. split; [now left |].
    intros H; now contradiction H. }
  pose proof (loadLoop_spec net attempts attempts 0 eq_refl) as Hspec. cbv zeta in Hspec.
  destruct (imgCache !! (c :: url)) as [cached |] eqn:Hc.
  - cbn [fst snd]. unfold fetchCount. cbn [List.filter length].
    split; [intros; discriminate |]. split.
    { intros _. split; [exact Hc |]. split; [reflexivity |].
      intros net' attempts'. cbn [isEmpty]. now rewrite Hc. }
    split; [intros cached' _ [= <-]; now split |].
    split; [lia |]. split; [apply List.Forall_nil |]. split; [now left |].
    intros _ H. discriminate.
  - destruct (loadLoop Image secondsToMs net attempts attempts 0) as [r evs].
    cbn [fst snd] in *. destruct Hspec as (Hcount & Hlong & Hend & Himg & Hnone).
    split; [intros; discriminate |]. split.
    { intros _. split; [apply lookup_insert_eq |]. split.
      - intros u Hu. now rewrite lookup_insert_ne by congruence.
      - intros net' attempts'. cbn [isEmpty]. now rewrite lookup_insert_eq. }
    split; [intros cached _ H; discriminate |].
    split; [exact Hcount |]. split; [exact Hlong |]. split; [exact Hend |].
    intros _ _. split; [exact Hnone |].
    intros img Hr. destruct (Himg img Hr) as (j & st & ra & Hj & Hn & Hok).
    exists j, st, ra. split; [lia | now split].
Qed.

End Loader.
End ImageLoaderSpec.

(** ** standings.js: the rows of a SimGrid table *)

Module SimgridRowsSpec.
Import Render Standings IndexScrape TextSpec.

Lemma singleSpaced_loose (s : jsstring) : singleSpaced s = true -> looseSpaced s = true.
Proof.
  induction s as [| c s IH]; [reflexivity |].
  cbn [singleSpaced looseSpaced]. intros H. apply andb_prop in H. destruct H as [Hc Hs].
  rewrite (IH Hs), andb_true_r.
  destruct (isWhiteSpace c); [| reflexivity].
  apply andb_prop in Hc. destruct Hc as [Hc Hd]. rewrite Hc. now destruct s.
Qed.

Lemma looseSpaced_firstn (k : nat) (s : jsstring) :
  looseSpaced s = true -> looseSpaced (firstn k s) = true.
Proof.
  revert s. induction k as [| k IH]; intros s H; [reflexivity |].
  destruct s as [| c s]; [reflexivity |].
  cbn [firstn]. cbn [looseSpaced] in H |- *.
  apply andb_prop in H. destruct H as [Hc Hs]. rewrite (IH s Hs), andb_true_r.
  destruct (isWhiteSpace c); [| reflexivity].
  apply andb_prop in Hc. destruct Hc as [Hc Hd]. rewrite Hc.
  destruct k as [| k]; [reflexivity |]. destruct s as [| d s]; [reflexivity | exact Hd].
Qed.

Lemma looseSpaced_skipn (k : nat) (s : jsstring) :
  looseSpaced s = true -> looseSpaced (skipn k s) = true.
Proof.
  intros H. rewrite <- (firstn_skipn k s) in H. exact (looseSpaced_suffix _ _ H).
Qed.

Lemma looseSpaced_slice (s : jsstring) (a b : Z) :
  looseSpaced s = true -> looseSpaced (slice s a b) = true.
Proof. intros H. unfold slice. now apply looseSpaced_firstn, looseSpaced_skipn. Qed.

Lemma trim_loose_normalized (u : jsstring) :
  looseSpaced u = true -> isNormalized (trim u) = true.
Proof.
  intros Hl. unfold trim.
  destruct (trimStart_split u) as (ws & Hs & _ & Hhead).
  rewrite Hs in Hl. apply looseSpaced_suffix in Hl.
  destruct (trimEnd_split (trimStart u)) as (ws' & He & _ & Hlast).
  rewrite He in Hl, Hhead.
  unfold isNormalized. rewrite (looseSpaced_prefix _ _ Hl Hlast), andb_true_r.
  destruct (trimEnd (trimStart u)) as [| c t]; [reflexivity |].
  cbn in Hhead. now rewrite Hhead.
Qed.

Lemma normalized_loose (s : jsstring) : isNormalized s = true -> looseSpaced s = true.
Proof.
  unfold isNormalized. intros H. apply andb_prop in H. now apply singleSpaced_loose.
Qed.

Lemma cleanText_normalized (s : jsstring) : isNormalized (cleanText s) = true.
Proof. rewrite cleanText_normalize. apply normalize_normalized. Qed.

Lemma orText_normalized (a b : jsstring) :
  isNormalized a = true -> isNormalized b = true -> isNormalized (orText a b) = true.
Proof. intros Ha Hb. unfold orText. now destruct (isEmpty a). Qed.

Lemma matchRatingFrom_digits (s : jsstring) :
  forall i k cap, matchRatingFrom s i = Some (k, cap) ->
                  forallb SimgridSpec.digitOrComma cap = true.
Proof.
  induction s as [| c s IH]; intros i k cap H.
  - cbn in H. discriminate.
  - rewrite SimgridSpec.matchRatingFrom_eq in H.
    destruct (matchRatingHere (c :: s)) as [r |] eqn:Hh.
    + injection H as _ <-.
      destruct (SimgridSpec.matchRatingHere_sound _ _ Hh) as (_ & _ & _ & _ & _ & Hd).
      exact Hd.
    + exact (IH _ _ _ H).
Qed.

(** The keys [simgridMakeKeyFromText] and [simgridMakeKeyFromSrc] can
    return. *)
Definition makeKeys : list jsstring :=
  [ []; lit "mclaren"; lit "toyota_gazoo"; lit "ferrari"; lit "porsche"; lit "bmw";
    lit "mercedes"; lit "cadillac"; lit "peugeot"; lit "alpine"; lit "lamborghini";
    lit "astonmartin"; lit "lexus"; lit "honda"; lit "corvette" ].

Lemma makeKeyOf_known (s : jsstring) : In (makeKeyOf s) makeKeys.
Proof.
  unfold makeKeyOf.
  repeat match goal with
         | |- context [if ?b then _ else _] => destruct b
         end; unfold makeKeys; cbn [In]; tauto.
Qed.

Lemma orText_in (a b : jsstring) (l : list jsstring) :
  In a l -> In b l -> In (orText a b) l.
Proof. intros Ha Hb. unfold orText. now destruct (isEmpty a). Qed.

(** X24. Every row [fetchSimgridStandings] pushes is well formed: driver,
    position, car number and points have no white space at the ends and
    single spaces inside, the driver is not empty, [total] and [nett] are
    one non-empty text ("0" when the cell is empty), the rating holds
    digits and commas only, the car image is never a site-relative path,
    the country image is empty or a Twemoji URL, the make key is empty or
    one of fourteen keys, and the class, the race, qualifying and fastest
    lap points, the diff and the penalty fields are empty. *)
Theorem simgrid_rows_are_well_formed (tr : SimgridTr) (r : Row) :
  parseSimgridRow tr = Some r ->
  (driver r <> [] /\ isNormalized (driver r) = true /\ isNormalized (pos r) = true /\
   isNormalized (carNo r) = true /\ isNormalized (total r) = true) /\
  (total r = nett r /\ total r <> []) /\
  forallb SimgridSpec.digitOrComma (rating r) = true /\
  startsWith (carImg r) (lit "/") = false /\
  (countryImg r = [] \/ startsWith (countryImg r) SimgridSpec.TWEMOJI = true) /\
  In (carMakeKey r) makeKeys /\
  (className r = [] /\ racePts r = [] /\ qualiPts r = [] /\ flPts r = [] /\ diff r = [] /\
   penPoints r = [] /\ qualiBan r = [] /\ banServed r = [] /\ qbActive r = false).
Proof.
  unfold parseSimgridRow. cbv zeta.
  set (raw := cleanText (sgEntrantName tr)).
  assert (Hraw : looseSpaced raw = true) by apply normalized_loose, cleanText_normalized.
  set (d0 := match matchFlag raw with
             | Some (_, len) => trim (sliceFrom raw (Z.of_nat len))
             | None => raw
             end).
  assert (Hd0 : isNormalized d0 = true).
  { unfold d0. destruct (matchFlag raw) as [[f len] |]; [| apply cleanText_normalized].
    apply trim_loose_normalized. unfold sliceFrom. now apply looseSpaced_slice. }
  set (d := match matchRating d0 with
            | Some (index, _) => trim (slice d0 0 (Z.of_nat index))
            | None => d0
            end).
  assert (Hd : isNormalized d = true).
  { unfold d. destruct (matchRating d0) as [[index cap] |]; [| exact Hd0].
    apply trim_loose_normalized, looseSpaced_slice, normalized_loose, Hd0. }
  destruct (isEmpty d) eqn:Hne; [discriminate |]. intros [= <-].
  cbn [driver pos carNo total nett rating carImg countryImg carMakeKey className racePts
       qualiPts flPts diff penPoints qualiBan banServed qbActive].
  split; [| split; [| split; [| split; [| split; [| split]]]]].
  - split; [intros H; rewrite H in Hne; discriminate |]. split; [exact Hd |].
    split; [apply orText_normalized; apply cleanText_normalized |].
    split; [apply cleanText_normalized |].
    apply orText_normalized; [apply cleanText_normalized | reflexivity].
  - split; [reflexivity |]. unfold orText.
    destruct (cleanText (sgLastBold tr)); cbn [isEmpty]; discriminate.
  - destruct (matchRating d0) as [[index cap] |] eqn:Hm; [| reflexivity].
    exact (matchRatingFrom_digits _ _ _ _ Hm).
  - destruct (optText (sgCarImgSrc tr)) as [| c src]; [reflexivity |].
    destruct (startsWith (c :: src) (lit "/")) eqn:Hs; [reflexivity | exact Hs].
  - destruct (matchFlag raw) as [[f len] |]; [| now left].
    destruct (isEmpty f) eqn:Hf; [now left |]. right.
    unfold flagEmojiToTwemojiPng. rewrite Hf. apply GvizSpec.startsWith_app.
  - apply orText_in; apply makeKeyOf_known.
  - now repeat split.
Qed.

Definition sampleSimgridTr : SimgridTr :=
  mkSimgridTr (lit "1") (lit "1") (lit "A.  Driver 2,202") (lit "27")
              (Some (lit "/img/porsche.png")) None None None None [] (lit "50").

Lemma simgrid_rows_witness :
  exists r, parseSimgridRow sampleSimgridTr = Some r /\
            isNormalized (driver r) = true /\ startsWith (carImg r) (lit "/") = false.
Proof.
  destruct (parseSimgridRow sampleSimgridTr) as [r |] eqn:E; [| vm_compute in E; discriminate].
  exists r. split; [reflexivity |].
  destruct (simgrid_rows_are_well_formed sampleSimgridTr r E)
    as ((_ & Hd & _) & _ & _ & Himg & _).
  now split.
Defined.

End SimgridRowsSpec.


(** ** The header of a panel: title and number of drivers *)

Module HeaderSpec.
Import Render Index DrawPanel OorScrape OorScrapeSpec TitlesSpec.

(** *** The number of drivers in the header *)

(** The characters that can follow the "(" of a drivers suffix. *)
Definition suffixChar (c : N) : bool :=
  isDigit c || isWhiteSpace c || existsb (fun p => isAsciiCI p c) (lit "drivers)").

Lemma forallb_weaken {A} (f g : A -> bool) (l : list A) :
  (forall x, f x = true -> g x = true) -> forallb f l = true -> forallb g l = true.
Proof.
  intros Hfg. induction l as [| x l IH]; [reflexivity |].
  cbn. intros H. apply andb_prop in H. destruct H as [Hx Hl].
  now rewrite (Hfg x Hx), (IH Hl).
Qed.

Lemma startsWithCI_chars (pat s : jsstring) :
  startsWithCI s pat = true ->
  forallb (fun c => existsb (fun p => isAsciiCI p c) pat) (firstn (length pat) s) = true.
Proof.
  revert s. induction pat as [| p pat IH]; intros s H; [reflexivity |].
  destruct s as [| c s]; [discriminate |].
  cbn [startsWithCI] in H. apply andb_prop in H. destruct H as [Hc Hs].
  cbn [length firstn forallb existsb]. rewrite Hc. cbn [orb andb].
  apply (forallb_weaken (fun c => existsb (fun p => isAsciiCI p c) pat)); [| now apply IH].
  intros x Hx. rewrite Hx. apply orb_true_r.
Qed.

Lemma driversSuffixHere_shape (s g : jsstring) :
  driversSuffixHere s = Some g ->
  exists ws r1, s = ws ++ 40%N :: r1 /\ forallb isWhiteSpace ws = true /\
                forallb suffixChar r1 = true.
Proof.
  unfold driversSuffixHere.
  destruct (span isWhiteSpace s) as [ws r] eqn:Hws.
  destruct (SimgridSpec.span_spec _ _ _ _ Hws) as [-> Hall].
  destruct r as [| c r1]; [discriminate |].
  destruct (N.eqb_spec c 40) as [-> | _]; [| discriminate].
  destruct (span isDigit r1) as [ds r2] eqn:Hds.
  destruct (SimgridSpec.span_spec _ _ _ _ Hds) as [-> Hdigits].
  destruct (isEmpty ds); [discriminate |].
  destruct (span isWhiteSpace r2) as [ws2 r3] eqn:Hws2.
  destruct (SimgridSpec.span_spec _ _ _ _ Hws2) as [-> Hall2].
  destruct (isEmpty ws2); [discriminate |].
  destruct (startsWithCI r3 (lit "drivers)")) eqn:Hword; [| discriminate].
  destruct (forallb isWhiteSpace (skipn 8 r3)) eqn:Hrest; [| discriminate].
  intros _. exists ws, (ds ++ ws2 ++ r3). split; [reflexivity |]. split; [exact Hall |].
  rewrite !forallb_app.
  rewrite (forallb_weaken isDigit suffixChar ds)
    by (exact Hdigits || (intros x Hx; unfold suffixChar; now rewrite Hx)).
  rewrite (forallb_weaken isWhiteSpace suffixChar ws2)
    by (exact Hall2 || (intros x Hx; unfold suffixChar; rewrite Hx, ?orb_true_r; reflexivity)).
  cbn [andb]. rewrite <- (firstn_skipn 8 r3), forallb_app.
  apply andb_true_intro. split.
  - apply (forallb_weaken (fun c => existsb (fun p => isAsciiCI p c) (lit "drivers)"))).
    + intros x Hx. unfold suffixChar. rewrite Hx. apply orb_true_r.
    + exact (startsWithCI_chars (lit "drivers)") r3 Hword).
  - apply (forallb_weaken isWhiteSpace); [| exact Hrest].
    intros x Hx. unfold suffixChar. rewrite Hx, ?orb_true_r. reflexivity.
Qed.

Lemma driversSuffixHere_none (B T : jsstring) :
  existsb (fun c => negb (isWhiteSpace c)) B = true -> In 40%N T ->
  driversSuffixHere (B ++ T) = None.
Proof.
  intros HB HT. destruct (driversSuffixHere (B ++ T)) as [g |] eqn:Hg; [| reflexivity].
  exfalso. destruct (driversSuffixHere_shape _ _ Hg) as (ws & r1 & Heq & Hws & Hr1).
  assert (Hbad : forallb suffixChar T = true -> False).
  { intros Hall. rewrite forallb_forall in Hall. specialize (Hall _ HT). discriminate. }
  symmetry in Heq. apply app_eq_app in Heq. destruct Heq as [l [[-> Hl] | [-> Hl]]].
  - (* the white space reaches into T: B is white space only *)
    rewrite forallb_app in Hws. apply andb_prop in Hws. destruct Hws as [HwB _].
    apply existsb_exists in HB. destruct HB as (c & Hin & Hc).
    rewrite forallb_forall in HwB. rewrite (HwB c Hin) in Hc. discriminate.
  - destruct l as [| x l].
    + cbn [app] in Hl. rewrite <- Hl in HT. destruct HT as [_ | HT].
      * rewrite app_nil_r in HB. apply existsb_exists in HB. destruct HB as (c & Hin & Hc).
        rewrite forallb_forall in Hws. rewrite (Hws c Hin) in Hc. discriminate.
      * rewrite forallb_forall in Hr1. specialize (Hr1 _ HT). discriminate.
    + cbn [app] in Hl. injection Hl as _ ->. rewrite forallb_app in Hr1.
      apply andb_prop in Hr1. now apply Hbad.
Qed.

Lemma splitAtDrivers_eq (pre s : jsstring) :
  splitAtDrivers pre s =
    match driversSuffixHere s with
    | Some g => Some (pre, g)
    | None =>
        match s with
        | c :: s' => if isLineTerminator c then None else splitAtDrivers (pre ++ [c]) s'
        | [] => None
        end
    end.
Proof. destruct s; reflexivity. Qed.

(** The count as it stands in a title. *)
Definition driversWords : list jsstring := [lit "drivers)"; lit "Drivers)"].

Lemma driversSuffixHere_count (ds word : jsstring) :
  ds <> [] -> forallb isDigit ds = true -> In word driversWords ->
  driversSuffixHere (lit " (" ++ ds ++ [32%N] ++ word) =
    Some (lit " (" ++ ds ++ [32%N] ++ word).
Proof.
  intros Hne Hds Hw. unfold driversSuffixHere.
  change (span isWhiteSpace (lit " (" ++ ds ++ [32%N] ++ word))
    with ([32%N], 40%N :: ds ++ [32%N] ++ word).
  cbv iota. change (40 =? 40)%N with true. cbv iota.
  rewrite (SimgridSpec.span_app isDigit ds ([32%N] ++ word) Hds) by reflexivity.
  destruct ds as [| d ds]; [now contradiction Hne |]. cbn [isEmpty].
  destruct Hw as [<- | [<- | []]]; reflexivity.
Qed.

Lemma splitAtDrivers_scan (T : jsstring) :
  In 40%N T -> driversSuffixHere T = Some T ->
  forall B pre,
    (B = [] \/ exists B' d, B = B' ++ [d] /\ isWhiteSpace d = false) ->
    noLineBreak B = true ->
    splitAtDrivers pre (B ++ T) = Some (pre ++ B, T).
Proof.
  intros HT Hhere. induction B as [| c B IH]; intros pre Hlast Hline.
  - cbn [app]. rewrite splitAtDrivers_eq, Hhere. now rewrite app_nil_r.
  - destruct Hlast as [| (B' & d & HB & Hd)]; [discriminate |].
    rewrite splitAtDrivers_eq, driversSuffixHere_none; [| | exact HT].
    + cbn [app]. cbn [noLineBreak forallb] in Hline. apply andb_prop in Hline.
      destruct Hline as [Hc HlB]. apply negb_true_iff in Hc. rewrite Hc.
      rewrite IH; [now rewrite <- app_assoc | | exact HlB].
      destruct B' as [| x B']; [left | right].
      * cbn in HB. now injection HB as _ ->.
      * cbn in HB. injection HB as _ ->. now exists B', d.
    + rewrite HB, existsb_app. cbn. rewrite Hd. apply orb_true_r.
Qed.

Lemma splitAtDrivers_no_paren (s : jsstring) :
  ~ In 40%N s -> forall pre, splitAtDrivers pre s = None.
Proof.
  induction s as [| c s IH]; intros Hno pre; rewrite splitAtDrivers_eq.
  - reflexivity.
  - destruct (driversSuffixHere (c :: s)) as [g |] eqn:Hg.
    + exfalso. destruct (driversSuffixHere_shape _ _ Hg) as (ws & r1 & Heq & _).
      apply Hno. rewrite Heq. apply in_or_app. right. now left.
    + destruct (isLineTerminator c); [reflexivity |].
      apply IH. intros Hin. apply Hno. now right.
Qed.

(** X26. The header of a panel shows the title and the count apart.  For
    a title made of a text without white space at its ends and without a
    line break, a space and "(<digits> drivers)" or "(<digits> Drivers)",
    [splitDriversSuffix] gives the text as [base] and the parenthesis as
    [drivers].  So it does for the titles of the three main panels (season
    in digits, or "??"), which are also what is left of a class panel's
    title after its class, and of the two SimGrid panels.  A title without
    a "(" is the [base] as it stands, not trimmed, and [drivers] is empty. *)
Theorem header_shows_title_and_count_apart :
  (forall c B d ds word,
     isWhiteSpace c = false -> isWhiteSpace d = false ->
     noLineBreak (c :: B ++ [d]) = true ->
     ds <> [] -> forallb isDigit ds = true -> In word driversWords ->
     splitDriversSuffix ((c :: B ++ [d]) ++ lit " (" ++ ds ++ [32%N] ++ word) =
       (c :: B ++ [d], lit "(" ++ ds ++ [32%N] ++ word)) /\
  (forall label season n,
     In label [CLUB50_LABEL; YELLOW_LABEL; RED_LABEL] ->
     (season <> [] /\ forallb isDigit season = true) \/ season = lit "??" ->
     splitDriversSuffix (standingsTitle label season n) =
       (label ++ DASH ++ lit "Season " ++ season,
        lit "(" ++ String_of_Z (Z.of_nat n) ++ lit " drivers)")) /\
  (forall name rs t m,
     In name [lit "Hypercar"; lit "LMGT3"] ->
     splitDriversSuffix (title (simgridPanel name rs t m)) =
       (lit "OOR WEC SERIES 6 " ++ [8212%N] ++ lit " " ++ name,
        lit "(" ++ String_of_Z (Z.of_nat (length rs)) ++ lit " Drivers)")) /\
  (forall t, ~ In 40%N t -> splitDriversSuffix t = (t, [])).
Proof.
  assert (Hgen : forall c B d ds word,
     isWhiteSpace c = false -> isWhiteSpace d = false ->
     noLineBreak (c :: B ++ [d]) = true ->
     ds <> [] -> forallb isDigit ds = true -> In word driversWords ->
     splitDriversSuffix ((c :: B ++ [d]) ++ lit " (" ++ ds ++ [32%N] ++ word) =
       (c :: B ++ [d], lit "(" ++ ds ++ [32%N] ++ word)).
  { intros c B d ds word Hc Hd Hline Hne Hds Hw. unfold splitDriversSuffix.
    rewrite (splitAtDrivers_scan (lit " (" ++ ds ++ [32%N] ++ word)).
    - cbn [app]. f_equal.
      + unfold trim. rewrite (SimgridSpec.trimStart_head c _ Hc).
        change (c :: B ++ [d]) with ((c :: B) ++ [d]).
        now apply SimgridSpec.trimEnd_last.
      + assert (Hw' : exists w, word = w ++ [41%N])
          by (destruct Hw as [<- | [<- | []]]; [now exists (lit "drivers") | now exists (lit "Drivers")]).
        destruct Hw' as [w ->]. unfold trim.
        change (trimEnd (40%N :: ds ++ 32%N :: w ++ [41%N]) = 40%N :: ds ++ 32%N :: w ++ [41%N]).
        replace (40%N :: ds ++ 32%N :: w ++ [41%N]) with ((40%N :: ds ++ 32%N :: w) ++ [41%N])
          by (cbn [app]; now rewrite <- app_assoc).
        now apply SimgridSpec.trimEnd_last.
    - right. left. reflexivity.
    - now apply driversSuffixHere_count.
    - right. exists (c :: B), d. now split.
    - exact Hline. }
  split; [exact Hgen |]. split; [| split].
  - intros label season n Hl Hs.
    assert (Hn : forallb isDigit (String_of_Z (Z.of_nat n)) = true)
      by (apply String_of_Z_decimal; lia).
    assert (Hnn : String_of_Z (Z.of_nat n) <> []).
    { destruct (String_of_Z_decimal (Z.of_nat n) ltac:(lia)) as [Hv _].
      intros Hnil. rewrite Hnil in Hv. cbn in Hv.
      destruct (String_of_Z (Z.of_nat n)) eqn:E; [| discriminate].
      unfold String_of_Z in E. destruct (Z.of_nat n <? 0); [discriminate |].
      destruct (Z.to_nat (Z.log2 (Z.of_nat n)) + 1)%nat eqn:Ef; [lia |].
      cbn [digitsOf] in E. destruct (Z.of_nat n <? 10); [discriminate |].
      rewrite digitsOf_app in E. now destruct (digitsOf _ _ []). }
    assert (Hseason : noLineBreak season = true /\
                      exists s' d, season = s' ++ [d] /\ isWhiteSpace d = false).
    { destruct Hs as [[Hne Hd] | ->].
      - split; [now apply digits_noLineBreak |].
        destruct (exists_last Hne) as (s' & d & ->). exists s', d. split; [reflexivity |].
        rewrite forallb_app in Hd. apply andb_prop in Hd. destruct Hd as [_ Hd].
        cbn in Hd. rewrite andb_true_r in Hd. now apply SimgridSpec.digit_not_space.
      - split; [reflexivity |]. exists [63%N], 63%N. now split. }
    destruct Hseason as (Hline & s' & d & -> & Hd).
    unfold standingsTitle.
    destruct Hl as [<- | [<- | [<- | []]]];
    (match goal with
         | |- splitDriversSuffix (?label ++ DASH ++ lit "Season " ++ (s' ++ [d]) ++ ?tail) = _ =>
             let c := eval vm_compute in (hd 0%N label) in
             let rest := eval vm_compute in (tl (label ++ DASH ++ lit "Season ")) in
             change (label ++ DASH ++ lit "Season " ++ (s' ++ [d]) ++ tail)
               with ((c :: (rest ++ s') ++ [d]) ++
                     lit " (" ++ String_of_Z (Z.of_nat n) ++ [32%N] ++ lit "drivers)");
             change (label ++ DASH ++ lit "Season " ++ s' ++ [d])
               with (c :: (rest ++ s') ++ [d])
         end).
    all: apply Hgen; try reflexivity; try assumption; try (left; reflexivity).
    all: unfold noLineBreak in *; cbn [forallb]; rewrite !forallb_app;
         rewrite forallb_app in Hline; apply andb_prop in Hline; destruct Hline as [H1 H2];
         rewrite H1, H2; reflexivity.
  - intros name rs t m Hname. unfold simgridPanel. cbn [title].
    assert (Hn : forallb isDigit (String_of_Z (Z.of_nat (length rs))) = true)
      by (apply String_of_Z_decimal; lia).
    assert (Hnn : String_of_Z (Z.of_nat (length rs)) <> []).
    { intros Hnil. unfold String_of_Z in Hnil.
      destruct (Z.of_nat (length rs) <? 0); [discriminate |].
      destruct (Z.to_nat (Z.log2 (Z.of_nat (length rs))) + 1)%nat eqn:Ef; [lia |].
      cbn [digitsOf] in Hnil. destruct (Z.of_nat (length rs) <? 10); [discriminate |].
      rewrite digitsOf_app in Hnil. now destruct (digitsOf _ _ []). }
    destruct Hname as [<- | [<- | []]].
    + change (lit "OOR WEC SERIES 6 " ++ [8212%N] ++ lit " " ++ lit "Hypercar" ++ lit " (" ++
              String_of_Z (Z.of_nat (length rs)) ++ lit " Drivers)")
        with ((79%N :: tl (lit "OOR WEC SERIES 6 " ++ [8212%N] ++ lit " Hyperca") ++ [114%N]) ++
              lit " (" ++ String_of_Z (Z.of_nat (length rs)) ++ [32%N] ++ lit "Drivers)").
      rewrite Hgen; try reflexivity; try assumption. right. left. reflexivity.
    + change (lit "OOR WEC SERIES 6 " ++ [8212%N] ++ lit " " ++ lit "LMGT3" ++ lit " (" ++
              String_of_Z (Z.of_nat (length rs)) ++ lit " Drivers)")
        with ((79%N :: tl (lit "OOR WEC SERIES 6 " ++ [8212%N] ++ lit " LMGT") ++ [51%N]) ++
              lit " (" ++ String_of_Z (Z.of_nat (length rs)) ++ [32%N] ++ lit "Drivers)").
      rewrite Hgen; try reflexivity; try assumption. right. left. reflexivity.
  - intros t Hno. unfold splitDriversSuffix. now rewrite splitAtDrivers_no_paren.
Qed.

Lemma header_witness :
  splitDriversSuffix (standingsTitle CLUB50_LABEL (lit "24") 42%nat) =
    (CLUB50_LABEL ++ DASH ++ lit "Season 24", lit "(42 drivers)").
Proof.
  apply (proj1 (proj2 header_shows_title_and_count_apart) CLUB50_LABEL (lit "24") 42%nat).
  - left. reflexivity.
  - left. split; [discriminate | reflexivity].
Defined.

End HeaderSpec.
